(** * MicroReactor: a shallow embedding of the reactive kernel

    The development follows the C sources of [components/micro_reactor]:
    - [ur_types.h], [ur_config.h]      : signals, entities, tunables
    - [ur_core.c]                     : emit, dispatch, state transitions,
                                        cascading rule lookup, middleware
    - [extensions/ur_power.c]         : vote-based power locks
    - [extensions/ur_acl.c]           : source/signal access control
    - [extensions/ur_bus.c]           : publish/subscribe fan-out
    - [extensions/ur_codec.c]         : framed binary codec with CRC-16
    - [extensions/ur_param.c]         : typed parameter store

    Conventions.  Fixed-width C integers are [Z] with the wrap-around or
    masking written where the source performs it.  An array together with
    its element count is a [list].  Process-wide singletons ([g_power],
    [g_acl], [g_bus], [g_codec], [g_param], the entity registry) are explicit
    values threaded through the operations.  Function pointers are Rocq
    functions over the state they may touch; a NULL function pointer is
    [None].  Pointer arguments are taken to be non-NULL unless the model
    makes them an [option]; every NULL guard of the source returns before
    any effect. *)

From Stdlib Require Import ZArith List Bool Lia.
From stdpp Require Import base list sorting.
Import ListNotations.

Local Open Scope Z_scope.

(* ====================================================================== *)
(** * Configuration and basic types ([ur_config.h], [ur_types.h])         *)
(* ====================================================================== *)

Module Cfg.
Definition UR_CFG_MAX_ENTITIES : Z := 16.
Definition UR_CFG_INBOX_SIZE : Z := 8.
Definition UR_CFG_SIGNAL_PAYLOAD_SIZE : Z := 4.
Definition UR_CFG_POWER_MAX_MODES : Z := 4.
Definition UR_CFG_ACL_MAX_RULES : Z := 32.
Definition UR_CFG_BUS_MAX_TOPICS : Z := 64.
Definition UR_CFG_BUS_MAX_SUBSCRIBERS : Z := 8.
Definition UR_CFG_PARAM_MAX_STRING_LEN : Z := 64.
Definition UR_CFG_MAX_MIXINS_PER_ENTITY : Z := 4.
Definition UR_CFG_MAX_MIDDLEWARE : Z := 8.
Definition UR_CFG_PARAM_MAX_COUNT : Z := 32.
Definition UR_CFG_CODEC_MAX_SCHEMAS : Z := 32.
Definition UR_CFG_CODEC_BUFFER_SIZE : Z := 256.
End Cfg.
Export Cfg.

(** [ur_err_t] *)
Inductive ur_err_t : Set :=
| UR_OK
| UR_ERR_INVALID_ARG
| UR_ERR_NO_MEMORY
| UR_ERR_QUEUE_FULL
| UR_ERR_NOT_FOUND
| UR_ERR_INVALID_STATE
| UR_ERR_TIMEOUT
| UR_ERR_ALREADY_EXISTS
| UR_ERR_DISABLED.

Definition ur_err_eqb (a b : ur_err_t) : bool :=
  match a, b with
  | UR_OK, UR_OK | UR_ERR_INVALID_ARG, UR_ERR_INVALID_ARG
  | UR_ERR_NO_MEMORY, UR_ERR_NO_MEMORY | UR_ERR_QUEUE_FULL, UR_ERR_QUEUE_FULL
  | UR_ERR_NOT_FOUND, UR_ERR_NOT_FOUND
  | UR_ERR_INVALID_STATE, UR_ERR_INVALID_STATE
  | UR_ERR_TIMEOUT, UR_ERR_TIMEOUT
  | UR_ERR_ALREADY_EXISTS, UR_ERR_ALREADY_EXISTS
  | UR_ERR_DISABLED, UR_ERR_DISABLED => true
  | _, _ => false
  end.

(** [ur_sys_signal_t] *)
Definition SIG_NONE : Z := 0x0000.
Definition SIG_SYS_INIT : Z := 0x0001.
Definition SIG_SYS_ENTRY : Z := 0x0002.
Definition SIG_SYS_EXIT : Z := 0x0003.
Definition SIG_USER_BASE : Z := 0x0100.

(** [ur_entity_flags_t] *)
Definition UR_FLAG_NONE : Z := 0x00.
Definition UR_FLAG_ACTIVE : Z := 0x01.
Definition UR_FLAG_SUSPENDED : Z := 0x02.
Definition UR_FLAG_FLOW_RUNNING : Z := 0x04.

(** Wrap-around of unsigned counters. *)
Definition u8 (x : Z) : Z := x mod 2 ^ 8.
Definition u16 (x : Z) : Z := x mod 2 ^ 16.
Definition u32 (x : Z) : Z := x mod 2 ^ 32.

(** [struct ur_signal_s].  The payload union is its byte view
    [payload.u8[UR_CFG_SIGNAL_PAYLOAD_SIZE]]; [ptr] is an opaque address. *)
Record ur_signal_t : Type := mk_signal {
  sig_id : Z;
  sig_src_id : Z;
  sig_payload : list Z;
  sig_ptr : Z;
  sig_timestamp : Z
}.

Definition set_sig_id (s : ur_signal_t) (v : Z) : ur_signal_t :=
  mk_signal v (sig_src_id s) (sig_payload s) (sig_ptr s) (sig_timestamp s).

Definition set_sig_timestamp (s : ur_signal_t) (v : Z) : ur_signal_t :=
  mk_signal (sig_id s) (sig_src_id s) (sig_payload s) (sig_ptr s) v.

(** [ur_signal_create] (utility section of [ur_panic.c]): a zeroed signal
    with id, source and the current time.  [now] is the value read from the
    millisecond clock. *)
Definition ur_signal_create (now : Z) (id src_id : Z) : ur_signal_t :=
  mk_signal id src_id
            (repeat 0 (Z.to_nat UR_CFG_SIGNAL_PAYLOAD_SIZE)) 0 now.

(* ====================================================================== *)
(** * Power manager ([extensions/ur_power.c])                             *)
(* ====================================================================== *)

Module Power.

(** [ur_power_mode_t] *)
Definition UR_POWER_ACTIVE : Z := 0.
Definition UR_POWER_IDLE : Z := 1.
Definition UR_POWER_LIGHT_SLEEP : Z := 2.
Definition UR_POWER_DEEP_SLEEP : Z := 3.
Definition UR_POWER_MODE_COUNT : Z := 4.

Definition MAX_LOCKS : Z := UR_CFG_MAX_ENTITIES * UR_CFG_POWER_MAX_MODES.

(** [lock_entry_t] *)
Record lock_entry_t : Type := mk_lock {
  lock_entity_id : Z;
  lock_mode : Z;
  lock_count : Z
}.

(** The lock part of [g_power]: [locks[0 .. lock_count-1]] and the
    [initialized] flag. *)
Record g_power_t : Type := mk_power {
  locks : list lock_entry_t;
  initialized : bool
}.

(** The zero-initialised static. *)
Definition g_power_zero : g_power_t := mk_power [] false.

(** [ur_power_init]: [memset] then [initialized = true]. *)
Definition ur_power_init (g : g_power_t) : g_power_t := mk_power [] true.

Definition lock_matches (entity_id mode : Z) (l : lock_entry_t) : bool :=
  (lock_entity_id l =? entity_id) && (lock_mode l =? mode).

(** [find_lock]: index of the first entry for (entity, mode). *)
Fixpoint find_lock (ls : list lock_entry_t) (entity_id mode : Z)
  : option nat :=
  match ls with
  | [] => None
  | l :: ls' =>
      if lock_matches entity_id mode l then Some O
      else option_map S (find_lock ls' entity_id mode)
  end.

(** [ur_power_lock (ent, mode)]; [ent_id] is [ent->id]. *)
Definition ur_power_lock (g : g_power_t) (ent_id mode : Z)
  : ur_err_t * g_power_t :=
  if UR_POWER_MODE_COUNT <=? mode then (UR_ERR_INVALID_ARG, g)
  else
    let g := if initialized g then g else ur_power_init g in
    match find_lock (locks g) ent_id mode with
    | Some i =>
        (UR_OK,
         mk_power
           (alter (fun l => mk_lock (lock_entity_id l) (lock_mode l)
                                    (u8 (lock_count l + 1))) i (locks g))
           (initialized g))
    | None =>
        if MAX_LOCKS <=? Z.of_nat (length (locks g))
        then (UR_ERR_NO_MEMORY, g)
        else (UR_OK,
              mk_power (locks g ++ [mk_lock ent_id mode 1])
                       (initialized g))
    end.

(** [ur_power_unlock (ent, mode)]: decrement, and remove the entry by
    shifting when the count reaches zero. *)
Definition ur_power_unlock (g : g_power_t) (ent_id mode : Z)
  : ur_err_t * g_power_t :=
  if UR_POWER_MODE_COUNT <=? mode then (UR_ERR_INVALID_ARG, g)
  else
    match find_lock (locks g) ent_id mode with
    | None => (UR_ERR_NOT_FOUND, g)
    | Some i =>
        match locks g !! i with
        | None => (UR_ERR_NOT_FOUND, g)
        | Some l =>
            let c := u8 (lock_count l - 1) in
            if c =? 0
            then (UR_OK, mk_power (delete i (locks g)) (initialized g))
            else (UR_OK,
                  mk_power
                    (<[i := mk_lock (lock_entity_id l) (lock_mode l) c]>
                       (locks g))
                    (initialized g))
        end
    end.

(** [ur_power_is_locked]: some entry names exactly this mode. *)
Definition ur_power_is_locked (g : g_power_t) (mode : Z) : bool :=
  existsb (fun l => lock_mode l =? mode) (locks g).

(** The loop of [ur_power_get_allowed_mode]:
    [for (mode = DEEP_SLEEP; mode >= IDLE; mode--)], with [n] the number
    of iterations left. *)
Fixpoint allowed_mode_scan (g : g_power_t) (mode : Z) (n : nat) : Z :=
  match n with
  | O => UR_POWER_ACTIVE
  | S n' =>
      if UR_POWER_IDLE <=? mode then
        if negb (ur_power_is_locked g mode) then mode
        else allowed_mode_scan g (mode - 1) n'
      else UR_POWER_ACTIVE
  end.

Definition ur_power_get_allowed_mode (g : g_power_t) : Z :=
  allowed_mode_scan g UR_POWER_DEEP_SLEEP
                    (Z.to_nat (UR_POWER_DEEP_SLEEP - UR_POWER_IDLE + 1)).

(** What the documentation of [ur_power_lock] promises ("Prevents the
    system from entering the specified mode or deeper"): a mode is denied
    when some lock names it or a shallower mode.  Written from the
    documentation, for comparison with the code. *)
Definition mode_denied_by_doc (g : g_power_t) (mode : Z) : bool :=
  existsb (fun l => lock_mode l <=? mode) (locks g).

Definition allowed_mode_by_doc (g : g_power_t) : Z :=
  if negb (mode_denied_by_doc g UR_POWER_DEEP_SLEEP)
  then UR_POWER_DEEP_SLEEP
  else if negb (mode_denied_by_doc g UR_POWER_LIGHT_SLEEP)
  then UR_POWER_LIGHT_SLEEP
  else if negb (mode_denied_by_doc g UR_POWER_IDLE)
  then UR_POWER_IDLE
  else UR_POWER_ACTIVE.

(** [ur_power_unlock_all (ent)]: the scan [for (i = 0; i < lock_count; )]
    that removes [locks[i]] by shifting when it belongs to the entity and
    moves on otherwise.  [kept] is [locks[0..i-1]], [rest] is [locks[i..]],
    [count] the number removed so far. *)
Fixpoint unlock_all_scan (kept rest : list lock_entry_t) (ent_id count : Z)
  : Z * list lock_entry_t :=
  match rest with
  | [] => (count, kept)
  | l :: rest' =>
      if lock_entity_id l =? ent_id
      then unlock_all_scan kept rest' ent_id (count + 1)
      else unlock_all_scan (kept ++ [l]) rest' ent_id count
  end.

Definition ur_power_unlock_all (g : g_power_t) (ent_id : Z)
  : Z * g_power_t :=
  let '(count, ls) := unlock_all_scan [] (locks g) ent_id 0 in
  (count, mk_power ls (initialized g)).

(** The entity holds a lock on the mode: [find_lock] finds an entry. *)
Definition holds_lock (g : g_power_t) (ent_id mode : Z) : bool :=
  match find_lock (locks g) ent_id mode with
  | Some _ => true
  | None => false
  end.

(** [g_power.next_events]: one wake-up time per entity slot;
    [UINT32_MAX] is "no pending event". *)
Definition UINT32_MAX : Z := 0xFFFFFFFF.

Definition next_events_init : list Z :=
  repeat UINT32_MAX (Z.to_nat UR_CFG_MAX_ENTITIES).

(** [ur_power_set_next_event (ent, time_ms)] *)
Definition ur_power_set_next_event (events : list Z) (ent_id time_ms : Z)
  : list Z :=
  if (ent_id =? 0) || (UR_CFG_MAX_ENTITIES <? ent_id) then events
  else <[Z.to_nat (ent_id - 1) := time_ms]> events.

(** The loop of [ur_power_get_next_event_ms]; [now] is what [get_time ()]
    returned. *)
Fixpoint next_event_scan (now : Z) (events : list Z) (min_delta : Z) : Z :=
  match events with
  | [] => min_delta
  | event_time :: rest =>
      if negb (event_time =? UINT32_MAX) && (now <? event_time)
      then
        let delta := u32 (event_time - now) in
        next_event_scan now rest
                        (if delta <? min_delta then delta else min_delta)
      else next_event_scan now rest min_delta
  end.

Definition ur_power_get_next_event_ms (now : Z) (events : list Z) : Z :=
  next_event_scan now events UINT32_MAX.

End Power.

(* ====================================================================== *)
(** * Core engine ([ur_core.c])                                           *)
(* ====================================================================== *)

Module Core.

(** The scalar part of [struct ur_entity_s] together with the inbox queue.
    The state, mixin and middleware arrays of the control block hold
    function pointers that take the entity itself; they are kept in
    [ur_entity_tables] below, which the operations receive next to the
    entity.  Actions and middleware therefore act on these fields only and
    do not re-enter the kernel. *)
Record ur_entity_t : Type := mk_entity {
  ent_id : Z;
  ent_current_state : Z;
  ent_flags : Z;
  ent_initial_state : Z;
  ent_flow_line : Z;
  ent_flow_wait_sig : Z;
  ent_flow_wait_until : Z;
  ent_scratch : list Z;
  ent_user_data : Z;
  ent_inbox : list ur_signal_t
}.

Definition set_current_state (e : ur_entity_t) (v : Z) : ur_entity_t :=
  mk_entity (ent_id e) v (ent_flags e) (ent_initial_state e)
            (ent_flow_line e) (ent_flow_wait_sig e) (ent_flow_wait_until e)
            (ent_scratch e) (ent_user_data e) (ent_inbox e).

Definition set_flags (e : ur_entity_t) (v : Z) : ur_entity_t :=
  mk_entity (ent_id e) (ent_current_state e) v (ent_initial_state e)
            (ent_flow_line e) (ent_flow_wait_sig e) (ent_flow_wait_until e)
            (ent_scratch e) (ent_user_data e) (ent_inbox e).

Definition set_inbox (e : ur_entity_t) (q : list ur_signal_t) : ur_entity_t :=
  mk_entity (ent_id e) (ent_current_state e) (ent_flags e)
            (ent_initial_state e)
            (ent_flow_line e) (ent_flow_wait_sig e) (ent_flow_wait_until e)
            (ent_scratch e) (ent_user_data e) q.

(** The four assignments that reset the flow coroutine:
    [flow_line = 0; flow_wait_sig = SIG_NONE; flow_wait_until = 0;
     flags &= ~UR_FLAG_FLOW_RUNNING]. *)
Definition reset_flow (e : ur_entity_t) : ur_entity_t :=
  mk_entity (ent_id e) (ent_current_state e)
            (Z.ldiff (ent_flags e) UR_FLAG_FLOW_RUNNING)
            (ent_initial_state e)
            0 SIG_NONE 0
            (ent_scratch e) (ent_user_data e) (ent_inbox e).

(** [flags & FLAG] as a C truth value. *)
Definition flag_set (e : ur_entity_t) (flag : Z) : bool :=
  negb (Z.land (ent_flags e) flag =? 0).

(** [ur_action_fn_t]: the updated entity and the returned next state. *)
Definition ur_action_fn_t : Type :=
  ur_entity_t -> ur_signal_t -> ur_entity_t * Z.

(** [struct ur_rule_s] *)
Record ur_rule_t : Type := mk_rule {
  rule_signal_id : Z;
  rule_next_state : Z;
  rule_action : option ur_action_fn_t
}.

(** [struct ur_state_def_s]; [rules] with [rule_count] is a list. *)
Record ur_state_def_t : Type := mk_state {
  st_id : Z;
  st_parent_id : Z;
  st_on_entry : option ur_action_fn_t;
  st_on_exit : option ur_action_fn_t;
  st_rules : list ur_rule_t
}.

(** [struct ur_mixin_s] *)
Record ur_mixin_t : Type := mk_mixin {
  mixin_rules : list ur_rule_t;
  mixin_priority : Z
}.

(** [ur_mw_result_t] *)
Definition UR_MW_CONTINUE : Z := 0.
Definition UR_MW_HANDLED : Z := 1.
Definition UR_MW_FILTERED : Z := 2.
Definition UR_MW_TRANSFORM : Z := 3.

(** [ur_middleware_fn_t]: entity and signal are passed by pointer and may
    both be changed; the third component is the [ur_mw_result_t]. *)
Definition ur_middleware_fn_t : Type :=
  ur_entity_t -> ur_signal_t -> Z -> ur_entity_t * ur_signal_t * Z.

(** [ur_middleware_t] *)
Record ur_middleware_t : Type := mk_middleware {
  mw_fn : option ur_middleware_fn_t;
  mw_ctx : Z;
  mw_priority : Z;
  mw_enabled : Z
}.

(** [states[0..state_count-1]], [mixins[0..mixin_count-1]] (a slot may hold
    NULL) and [middleware[0..middleware_count-1]] of the control block. *)
Record ur_entity_tables : Type := mk_tables {
  tab_states : list ur_state_def_t;
  tab_mixins : list (option ur_mixin_t);
  tab_middleware : list ur_middleware_t
}.

(** The calls into application code, in the order they are made. *)
Inductive ur_call : Type :=
| CallMiddleware (index : nat) (sig : ur_signal_t)
| CallAction (rule_sig : Z) (sig : ur_signal_t)
| CallOnExit (state_id : Z) (sig : ur_signal_t)
| CallOnEntry (state_id : Z) (sig : ur_signal_t).

(** [find_state] *)
Fixpoint find_state (states : list ur_state_def_t) (state_id : Z)
  : option ur_state_def_t :=
  match states with
  | [] => None
  | s :: rest => if st_id s =? state_id then Some s
                 else find_state rest state_id
  end.

(** The loop of [find_rule_in_state] and of the inner loop of
    [find_rule_in_mixins]. *)
Fixpoint find_rule (rules : list ur_rule_t) (signal_id : Z)
  : option ur_rule_t :=
  match rules with
  | [] => None
  | r :: rest => if rule_signal_id r =? signal_id then Some r
                 else find_rule rest signal_id
  end.

Definition find_rule_in_state (state : ur_state_def_t) (signal_id : Z)
  : option ur_rule_t :=
  find_rule (st_rules state) signal_id.

Fixpoint find_rule_in_mixins (mixins : list (option ur_mixin_t))
         (signal_id : Z) : option ur_rule_t :=
  match mixins with
  | [] => None
  | None :: rest => find_rule_in_mixins rest signal_id
  | Some m :: rest =>
      match find_rule (mixin_rules m) signal_id with
      | Some r => Some r
      | None => find_rule_in_mixins rest signal_id
      end
  end.

(** Step 3 of [cascading_lookup]:
    [while (state != NULL && state->parent_id != 0) { ... }].
    [fuel] bounds the number of iterations; [None] is fuel exhausted (a
    parent cycle makes the C loop spin), [Some None] is "no rule". *)
Fixpoint bubble_up (fuel : nat) (states : list ur_state_def_t)
         (state : option ur_state_def_t) (signal_id : Z)
  : option (option ur_rule_t) :=
  match state with
  | None => Some None
  | Some st =>
      if st_parent_id st =? 0 then Some None
      else
        match fuel with
        | O => None
        | S fuel' =>
            match find_state states (st_parent_id st) with
            | Some p =>
                match find_rule_in_state p signal_id with
                | Some r => Some (Some r)
                | None => bubble_up fuel' states (Some p) signal_id
                end
            | None => bubble_up fuel' states None signal_id
            end
        end
  end.

(** [cascading_lookup] with [UR_CFG_ENABLE_HSM] and mixins enabled. *)
Definition cascading_lookup (fuel : nat) (t : ur_entity_tables)
           (ent : ur_entity_t) (signal_id : Z)
  : option (option ur_rule_t) :=
  let state := find_state (tab_states t) (ent_current_state ent) in
  match match state with
        | Some st => find_rule_in_state st signal_id
        | None => None
        end with
  | Some r => Some (Some r)
  | None =>
      match find_rule_in_mixins (tab_mixins t) signal_id with
      | Some r => Some (Some r)
      | None => bubble_up fuel (tab_states t) state signal_id
      end
  end.

(** A hook call [if (h != NULL) h(ent, &sig)]; the returned value of an
    entry or exit action is discarded by the caller. *)
Definition run_hook (h : option ur_action_fn_t) (ent : ur_entity_t)
           (sig : ur_signal_t) : ur_entity_t :=
  match h with
  | Some f => fst (f ent sig)
  | None => ent
  end.

Definition hook_call (h : option ur_action_fn_t) (c : ur_call)
  : list ur_call :=
  match h with
  | Some _ => [c]
  | None => []
  end.

(** [old_state = find_state (ent, id)] followed by
    [old_state != NULL && old_state->on_exit != NULL]: the exit action that
    [ur_set_state] will call for state [id], if any. *)
Definition state_on_exit (t : ur_entity_tables) (id : Z)
  : option ur_action_fn_t :=
  match find_state (tab_states t) id with
  | Some old_state => st_on_exit old_state
  | None => None
  end.

(** The signals synthesized by [ur_set_state]: [ur_signal_create (SIG_NONE,
    ent->id)] with the id then set to EXIT, respectively ENTRY. *)
Definition exit_signal (now : Z) (ent : ur_entity_t) : ur_signal_t :=
  set_sig_id (ur_signal_create now SIG_NONE (ent_id ent)) SIG_SYS_EXIT.

Definition entry_signal (now : Z) (ent : ur_entity_t) : ur_signal_t :=
  set_sig_id (ur_signal_create now SIG_NONE (ent_id ent)) SIG_SYS_ENTRY.

(** [ur_set_state].  [now] is the clock value read by [ur_signal_create]. *)
Definition ur_set_state (t : ur_entity_tables) (now : Z)
           (ent : ur_entity_t) (state_id : Z)
  : ur_err_t * ur_entity_t * list ur_call :=
  match find_state (tab_states t) state_id with
  | None => (UR_ERR_NOT_FOUND, ent, [])
  | Some new_state =>
      let exit_sig := exit_signal now ent in
      let entry_sig := entry_signal now ent in
      let '(ent1, log1) :=
        if ent_current_state ent =? 0 then (ent, [])
        else
          let on_exit := state_on_exit t (ent_current_state ent) in
          (reset_flow (run_hook on_exit ent exit_sig),
           hook_call on_exit (CallOnExit (ent_current_state ent) exit_sig))
      in
      let ent2 := set_current_state ent1 state_id in
      (UR_OK,
       run_hook (st_on_entry new_state) ent2 entry_sig,
       log1 ++ hook_call (st_on_entry new_state)
                         (CallOnEntry state_id entry_sig))
  end.

(** [execute_transition] *)
Definition execute_transition (t : ur_entity_tables) (now : Z)
           (ent : ur_entity_t) (next_state : Z) (sig : ur_signal_t)
  : ur_err_t * ur_entity_t * list ur_call :=
  ur_set_state t now ent next_state.

(** [run_middleware_chain]; [i] is the loop index. *)
Fixpoint run_middleware_chain_from (i : nat) (mws : list ur_middleware_t)
         (ent : ur_entity_t) (sig : ur_signal_t)
  : ur_entity_t * ur_signal_t * Z * list ur_call :=
  match mws with
  | [] => (ent, sig, UR_MW_CONTINUE, [])
  | mw :: rest =>
      match (if mw_enabled mw =? 0 then None else mw_fn mw) with
      | Some fn =>
          let '(ent', sig', result) := fn ent sig (mw_ctx mw) in
          if (result =? UR_MW_FILTERED) || (result =? UR_MW_HANDLED)
          then (ent', sig', result, [CallMiddleware i sig])
          else
            let '(ent'', sig'', r, log) :=
              run_middleware_chain_from (S i) rest ent' sig' in
            (ent'', sig'', r, CallMiddleware i sig :: log)
      | None => run_middleware_chain_from (S i) rest ent sig
      end
  end.

Definition run_middleware_chain (t : ur_entity_tables)
           (ent : ur_entity_t) (sig : ur_signal_t)
  : ur_entity_t * ur_signal_t * Z * list ur_call :=
  run_middleware_chain_from 0 (tab_middleware t) ent sig.

(** The part of [ur_dispatch] after the middleware chain: cascading
    lookup, rule action, transition. *)
Definition dispatch_rule (fuel : nat) (t : ur_entity_tables) (now : Z)
           (ent : ur_entity_t) (sig : ur_signal_t)
  : option (ur_err_t * ur_entity_t * list ur_call) :=
  match cascading_lookup fuel t ent (sig_id sig) with
  | None => None
  | Some None => Some (UR_OK, ent, [])
  | Some (Some rule) =>
      let '(ent1, next_state, log_a) :=
        match rule_action rule with
        | Some action =>
            let '(ent1, action_result) := action ent sig in
            (ent1,
             if action_result =? 0 then rule_next_state rule
             else action_result,
             [CallAction (rule_signal_id rule) sig])
        | None => (ent, rule_next_state rule, [])
        end in
      if negb (next_state =? 0)
         && negb (next_state =? ent_current_state ent1)
      then
        let '(_, ent2, log_t) :=
          execute_transition t now ent1 next_state sig in
        Some (UR_OK, ent2, log_a ++ log_t)
      else Some (UR_OK, ent1, log_a)
  end.

(** [ur_dispatch].  The inbox is the entity's queue; with no producer
    running, waiting on an empty queue ends in [UR_ERR_TIMEOUT] whatever
    [timeout_ms] is, so the timeout is not a parameter. *)
Definition ur_dispatch (fuel : nat) (t : ur_entity_tables) (now : Z)
           (ent : ur_entity_t)
  : option (ur_err_t * ur_entity_t * list ur_call) :=
  if negb (flag_set ent UR_FLAG_ACTIVE) || flag_set ent UR_FLAG_SUSPENDED
  then Some (UR_ERR_INVALID_STATE, ent, [])
  else
    match ent_inbox ent with
    | [] => Some (UR_ERR_TIMEOUT, ent, [])
    | sig :: rest =>
        let '(ent1, sig1, mw_result, log_mw) :=
          run_middleware_chain t (set_inbox ent rest) sig in
        if mw_result =? UR_MW_FILTERED then Some (UR_OK, ent1, log_mw)
        else if mw_result =? UR_MW_HANDLED then Some (UR_OK, ent1, log_mw)
        else
          match dispatch_rule fuel t now ent1 sig1 with
          | Some (err, ent2, log) => Some (err, ent2, log_mw ++ log)
          | None => None
          end
    end.

(** ** Emission and the entity registry *)

(** [ur_emit_from_isr]: stamp a zero timestamp, then [xQueueSendFromISR]
    (fails exactly when the queue holds [UR_CFG_INBOX_SIZE] signals). *)
Definition ur_emit_from_isr (now : Z) (target : ur_entity_t)
           (sig : ur_signal_t) : ur_err_t * ur_entity_t :=
  let sig := if sig_timestamp sig =? 0 then set_sig_timestamp sig now
             else sig in
  if UR_CFG_INBOX_SIZE <=? Z.of_nat (length (ent_inbox target))
  then (UR_ERR_QUEUE_FULL, target)
  else (UR_OK, set_inbox target (ent_inbox target ++ [sig])).

(** [ur_emit] with [UR_CFG_ENABLE_TIMESTAMPS] and [UR_CFG_USE_FREERTOS];
    [in_isr] is the answer of [ur_in_isr ()]. *)
Definition ur_emit (in_isr : bool) (now : Z) (target : ur_entity_t)
           (sig : ur_signal_t) : ur_err_t * ur_entity_t :=
  let sig := if sig_timestamp sig =? 0 then set_sig_timestamp sig now
             else sig in
  if in_isr then ur_emit_from_isr now target sig
  else
    if UR_CFG_INBOX_SIZE <=? Z.of_nat (length (ent_inbox target))
    then (UR_ERR_QUEUE_FULL, target)
    else (UR_OK, set_inbox target (ent_inbox target ++ [sig])).

(** [g_entity_registry]: slot [id - 1] holds the entity registered under
    [id], which is where the entity itself lives in this model. *)
Abbreviation registry_t := (list (option ur_entity_t)).

Definition registry_empty : registry_t :=
  repeat None (Z.to_nat UR_CFG_MAX_ENTITIES).

(** [ur_get_entity] *)
Definition ur_get_entity (reg : registry_t) (id : Z) : option ur_entity_t :=
  if (id =? 0) || (UR_CFG_MAX_ENTITIES <? id) then None
  else
    match reg !! Z.to_nat (id - 1) with
    | Some slot => slot
    | None => None
    end.

(** [ur_register_entity] *)
Definition ur_register_entity (reg : registry_t) (ent : ur_entity_t)
  : ur_err_t * registry_t :=
  if (ent_id ent =? 0) || (UR_CFG_MAX_ENTITIES <? ent_id ent)
  then (UR_ERR_INVALID_ARG, reg)
  else
    match reg !! Z.to_nat (ent_id ent - 1) with
    | Some (Some _) => (UR_ERR_ALREADY_EXISTS, reg)
    | _ => (UR_OK, <[Z.to_nat (ent_id ent - 1) := Some ent]> reg)
    end.

(** Classification of the recorded calls. *)
Definition is_middleware_call (c : ur_call) : bool :=
  match c with CallMiddleware _ _ => true | _ => false end.

Definition is_action_call (c : ur_call) : bool :=
  match c with CallAction _ _ => true | _ => false end.

(** The FSM part of an entity: current state and flow coroutine state
    (line, awaited signal, wake time, flow-running flag). *)
Definition fsm_view (e : ur_entity_t) : Z * Z * Z * Z * bool :=
  (ent_current_state e, ent_flow_line e, ent_flow_wait_sig e,
   ent_flow_wait_until e, flag_set e UR_FLAG_FLOW_RUNNING).

(** A middleware function that leaves the FSM part of the entity alone. *)
Definition mw_keeps_fsm (fn : ur_middleware_fn_t) : Prop :=
  forall e s c, fsm_view (fst (fst (fn e s c))) = fsm_view e.

(** ** A concrete controller used in the examples below

    Modelled on the controller of [examples/example_multi_entity]: STANDBY
    is the parent of NORMAL.  Every callback appends its mark to the
    scratchpad, so the scratchpad records the order of the calls. *)

Definition STATE_STANDBY : Z := 1.
Definition STATE_NORMAL : Z := 2.
Definition SIG_POWER_OFF : Z := 0x0101.
Definition SIG_GOTO_MISSING : Z := 0x0102.

Definition mark (m : Z) (e : ur_entity_t) : ur_entity_t :=
  mk_entity (ent_id e) (ent_current_state e) (ent_flags e)
            (ent_initial_state e)
            (ent_flow_line e) (ent_flow_wait_sig e) (ent_flow_wait_until e)
            (ent_scratch e ++ [m]) (ent_user_data e) (ent_inbox e).

Definition act_power_off : ur_action_fn_t := fun e _ => (mark 1 e, 0).
Definition act_on_exit : ur_action_fn_t := fun e _ => (mark 2 e, 0).
Definition act_on_entry : ur_action_fn_t := fun e _ => (mark 3 e, 0).

Definition standby_rules : list ur_rule_t :=
  [mk_rule SIG_POWER_OFF STATE_STANDBY (Some act_power_off)].

Definition normal_rules : list ur_rule_t :=
  [mk_rule SIG_GOTO_MISSING 7 (Some act_power_off)].

Definition controller_tables : ur_entity_tables :=
  mk_tables
    [mk_state STATE_STANDBY 0 (Some act_on_entry) (Some act_on_exit)
              standby_rules;
     mk_state STATE_NORMAL STATE_STANDBY (Some act_on_entry)
              (Some act_on_exit) normal_rules]
    [] [].

Definition sample_signal (id : Z) : ur_signal_t :=
  mk_signal id 0 [0; 0; 0; 0] 0 1234.

(** An active controller in NORMAL, mid-flow (line 5, awaiting signal 9),
    with the given inbox. *)
Definition controller (inbox : list ur_signal_t) : ur_entity_t :=
  mk_entity 1 STATE_NORMAL (Z.lor UR_FLAG_ACTIVE UR_FLAG_FLOW_RUNNING)
            STATE_STANDBY 5 9 77 [] 0 inbox.

(** The same controller with a rule that has no action: NORMAL answers
    POWER_OFF with [{SIG_POWER_OFF, STATE_STANDBY, NULL}]. *)
Definition silent_rules : list ur_rule_t :=
  [mk_rule SIG_POWER_OFF STATE_STANDBY None].

Definition silent_tables : ur_entity_tables :=
  mk_tables
    [mk_state STATE_STANDBY 0 (Some act_on_entry) (Some act_on_exit) [];
     mk_state STATE_NORMAL STATE_STANDBY (Some act_on_entry)
              (Some act_on_exit) silent_rules]
    [] [].

(** A middleware that drops every signal, and one that lets it through. *)
Definition mw_drop : ur_middleware_fn_t := fun e s _ => (e, s, UR_MW_FILTERED).
Definition mw_pass : ur_middleware_fn_t := fun e s _ => (e, s, UR_MW_CONTINUE).

Definition filtered_tables : ur_entity_tables :=
  mk_tables (tab_states controller_tables) []
            [mk_middleware (Some mw_pass) 0 0 1;
             mk_middleware (Some mw_drop) 0 1 1].

(** ** Entity lifecycle *)

(** [ur_suspend] and [ur_resume]; both return [UR_OK]. *)
Definition ur_suspend (ent : ur_entity_t) : ur_entity_t :=
  set_flags ent (Z.lor (ent_flags ent) UR_FLAG_SUSPENDED).

Definition ur_resume (ent : ur_entity_t) : ur_entity_t :=
  set_flags ent (Z.ldiff (ent_flags ent) UR_FLAG_SUSPENDED).

(** [ur_inbox_count] and [ur_inbox_clear] ([xQueueReset]). *)
Definition ur_inbox_count (ent : ur_entity_t) : Z :=
  Z.of_nat (length (ent_inbox ent)).

Definition ur_inbox_clear (ent : ur_entity_t) : ur_entity_t :=
  set_inbox ent [].

(** [ur_start].  The clock is read three times: by [ur_set_state]
    ([now_state]), by [ur_signal_create] for the INIT signal ([now_sig]) and
    by [ur_emit] when that timestamp is zero ([now_emit]).  The result of
    [ur_emit] is discarded. *)
Definition ur_start (t : ur_entity_tables) (in_isr : bool)
           (now_state now_sig now_emit : Z) (ent : ur_entity_t)
  : ur_err_t * ur_entity_t * list ur_call :=
  if flag_set ent UR_FLAG_ACTIVE then (UR_ERR_INVALID_STATE, ent, [])
  else
    let ent := set_flags ent (Z.lor (ent_flags ent) UR_FLAG_ACTIVE) in
    let '(err, ent, log) :=
      ur_set_state t now_state ent (ent_initial_state ent) in
    if negb (ur_err_eqb err UR_OK)
    then (err, set_flags ent (Z.ldiff (ent_flags ent) UR_FLAG_ACTIVE), log)
    else
      let init_sig := ur_signal_create now_sig SIG_SYS_INIT (ent_id ent) in
      (UR_OK, snd (ur_emit in_isr now_emit ent init_sig), log).

(** [ur_stop] *)
Definition ur_stop (t : ur_entity_tables) (now : Z) (ent : ur_entity_t)
  : ur_err_t * ur_entity_t * list ur_call :=
  if negb (flag_set ent UR_FLAG_ACTIVE) then (UR_ERR_INVALID_STATE, ent, [])
  else
    let on_exit := state_on_exit t (ent_current_state ent) in
    let exit_sig := ur_signal_create now SIG_SYS_EXIT (ent_id ent) in
    let log := hook_call on_exit (CallOnExit (ent_current_state ent)
                                             exit_sig) in
    let ent := run_hook on_exit ent exit_sig in
    let ent := set_current_state ent 0 in
    let ent := set_flags ent (Z.ldiff (ent_flags ent) UR_FLAG_ACTIVE) in
    let ent := ur_inbox_clear ent in
    (UR_OK, reset_flow ent, log).

(** The loop of [ur_in_state]:
    [while (state != NULL && state->parent_id != 0)].  [fuel] bounds the
    iterations; [None] is fuel exhausted. *)
Fixpoint in_state_loop (fuel : nat) (states : list ur_state_def_t)
         (state : option ur_state_def_t) (state_id : Z) : option bool :=
  match state with
  | None => Some false
  | Some st =>
      if st_parent_id st =? 0 then Some false
      else
        match fuel with
        | O => None
        | S fuel' =>
            if st_parent_id st =? state_id then Some true
            else in_state_loop fuel' states
                               (find_state states (st_parent_id st))
                               state_id
        end
  end.

(** [ur_in_state] with [UR_CFG_ENABLE_HSM]. *)
Definition ur_in_state (fuel : nat) (t : ur_entity_tables)
           (ent : ur_entity_t) (state_id : Z) : option bool :=
  if ent_current_state ent =? state_id then Some true
  else in_state_loop fuel (tab_states t)
                     (find_state (tab_states t) (ent_current_state ent))
                     state_id.

(** [state_id] is reached from [st] by following [parent_id] links through
    states of the table. *)
Inductive on_parent_chain (states : list ur_state_def_t)
  : ur_state_def_t -> Z -> Prop :=
| chain_parent st :
    st_parent_id st <> 0 -> on_parent_chain states st (st_parent_id st)
| chain_up st p state_id :
    st_parent_id st <> 0 ->
    find_state states (st_parent_id st) = Some p ->
    on_parent_chain states p state_id ->
    on_parent_chain states st state_id.

(** ** Emission by id and broadcast *)

(** [ur_emit_to_id]; the target lives in its registry slot. *)
Definition ur_emit_to_id (in_isr : bool) (now : Z) (reg : registry_t)
           (target_id : Z) (sig : ur_signal_t) : ur_err_t * registry_t :=
  match ur_get_entity reg target_id with
  | None => (UR_ERR_NOT_FOUND, reg)
  | Some target =>
      let '(err, target') := ur_emit in_isr now target sig in
      (err, <[Z.to_nat (target_id - 1) := Some target']> reg)
  end.

(** The loop of [ur_broadcast] over the slots of [g_entity_registry]. *)
Fixpoint broadcast_loop (in_isr : bool) (now : Z) (sig : ur_signal_t)
         (slots : registry_t) (count : Z) : Z * registry_t :=
  match slots with
  | [] => (count, [])
  | None :: rest =>
      let '(c, r) := broadcast_loop in_isr now sig rest count in
      (c, None :: r)
  | Some ent :: rest =>
      let '(err, ent') := ur_emit in_isr now ent sig in
      let '(c, r) :=
        broadcast_loop in_isr now sig rest
                       (if ur_err_eqb err UR_OK then count + 1 else count) in
      (c, Some ent' :: r)
  end.

Definition ur_broadcast (in_isr : bool) (now : Z) (reg : registry_t)
           (sig : ur_signal_t) : Z * registry_t :=
  broadcast_loop in_isr now sig reg 0.

(** ** Middleware and mixin registration *)

(** The inner loop of [sort_middleware]:
    [while (j > 0 && middleware[j-1].priority > temp.priority)].
    [prefix_rev] is [middleware[0..j-1]] read from [j-1] down, [shifted] the
    elements already moved one slot to the right. *)
Fixpoint mw_insert_from_right (prefix_rev : list ur_middleware_t)
         (temp : ur_middleware_t) (shifted : list ur_middleware_t)
  : list ur_middleware_t :=
  match prefix_rev with
  | [] => temp :: shifted
  | x :: rest =>
      if mw_priority temp <? mw_priority x
      then mw_insert_from_right rest temp (x :: shifted)
      else reverse (x :: rest) ++ temp :: shifted
  end.

(** The outer loop [for (i = 1; i < middleware_count; i++)]. *)
Fixpoint mw_sort_loop (prefix rest : list ur_middleware_t)
  : list ur_middleware_t :=
  match rest with
  | [] => prefix
  | temp :: rest' =>
      mw_sort_loop (mw_insert_from_right (reverse prefix) temp []) rest'
  end.

(** [sort_middleware] *)
Definition sort_middleware (mws : list ur_middleware_t)
  : list ur_middleware_t :=
  match mws with
  | [] => []
  | m0 :: rest => mw_sort_loop [m0] rest
  end.

(** [ur_register_middleware (ent, fn, ctx, priority)]; [priority] is a
    [uint8_t]. *)
Definition ur_register_middleware (t : ur_entity_tables)
           (fn : option ur_middleware_fn_t) (ctx priority : Z)
  : ur_err_t * ur_entity_tables :=
  match fn with
  | None => (UR_ERR_INVALID_ARG, t)
  | Some _ =>
      if UR_CFG_MAX_MIDDLEWARE <=? Z.of_nat (length (tab_middleware t))
      then (UR_ERR_NO_MEMORY, t)
      else
        (UR_OK,
         mk_tables (tab_states t) (tab_mixins t)
                   (sort_middleware
                      (tab_middleware t
                       ++ [mk_middleware fn ctx priority 1])))
  end.

(** The insertion of [ur_bind_mixin]: before the first bound mixin of
    strictly larger priority, at the end when there is none.  The loop
    reads [mixins[i]->priority]; [None] is the result when it meets a NULL
    slot. *)
Fixpoint mixin_insert (mixin : ur_mixin_t)
         (mixins : list (option ur_mixin_t))
  : option (list (option ur_mixin_t)) :=
  match mixins with
  | [] => Some [Some mixin]
  | None :: _ => None
  | Some x :: rest =>
      if mixin_priority mixin <? mixin_priority x
      then Some (Some mixin :: Some x :: rest)
      else option_map (cons (Some x)) (mixin_insert mixin rest)
  end.

(** [ur_bind_mixin] for a non-NULL mixin. *)
Definition ur_bind_mixin (t : ur_entity_tables) (mixin : ur_mixin_t)
  : option (ur_err_t * ur_entity_tables) :=
  if UR_CFG_MAX_MIXINS_PER_ENTITY <=? Z.of_nat (length (tab_mixins t))
  then Some (UR_ERR_NO_MEMORY, t)
  else
    match mixin_insert mixin (tab_mixins t) with
    | Some ms =>
        Some (UR_OK, mk_tables (tab_states t) ms (tab_middleware t))
    | None => None
    end.

(** Order of the middleware chain and of the mixin table. *)
Definition mw_prio_le (a b : ur_middleware_t) : Prop :=
  mw_priority a <= mw_priority b.

Definition mixin_prio_le (a b : option ur_mixin_t) : Prop :=
  match a, b with
  | Some x, Some y => mixin_priority x <= mixin_priority y
  | _, _ => False
  end.

End Core.

(* ====================================================================== *)
(** * Access control ([extensions/ur_acl.c], [ur_acl.h])                  *)
(* ====================================================================== *)

Module Acl.
Import Core.

(** [ur_acl_action_t] *)
Definition UR_ACL_DENY : Z := 0.
Definition UR_ACL_ALLOW : Z := 1.
Definition UR_ACL_LOG : Z := 2.
Definition UR_ACL_TRANSFORM : Z := 3.

(** Special source and signal ids. *)
Definition UR_ACL_SRC_ANY : Z := 0x0000.
Definition UR_ACL_SRC_LOCAL : Z := 0xFFFE.
Definition UR_ACL_SRC_EXTERNAL : Z := 0xFFFF.
Definition UR_ACL_SIG_ANY : Z := 0x0000.
Definition UR_ACL_SIG_SYSTEM : Z := 0x00FF.
Definition UR_ACL_SIG_USER : Z := 0xFFFF.

(** [ur_acl_default_t] *)
Definition UR_ACL_DEFAULT_ALLOW : Z := 0.
Definition UR_ACL_DEFAULT_DENY : Z := 1.

(** [ur_acl_rule_t] *)
Record ur_acl_rule_t : Type := mk_acl_rule {
  acl_src_id : Z;
  acl_signal_id : Z;
  acl_action : Z;
  acl_priority : Z;
  acl_flags : Z
}.

(** [ur_acl_transform_fn_t]: the signal is passed by pointer and may be
    changed; the boolean is the allow/deny answer. *)
Definition ur_acl_transform_fn_t : Type :=
  ur_signal_t -> Z -> ur_signal_t * bool.

(** [acl_entry_t]; [rules[0..rule_count-1]] is a list. *)
Record acl_entry_t : Type := mk_acl_entry {
  entry_entity_id : Z;
  entry_rules : list ur_acl_rule_t;
  entry_default_policy : Z;
  entry_transform_fn : option ur_acl_transform_fn_t;
  entry_transform_ctx : Z
}.

(** [ur_acl_stats_t] *)
Record ur_acl_stats_t : Type := mk_acl_stats {
  checked_count : Z;
  allowed_count : Z;
  denied_count : Z;
  logged_count : Z;
  transformed_count : Z;
  default_count : Z
}.

Definition stats_zero : ur_acl_stats_t := mk_acl_stats 0 0 0 0 0 0.

Definition incr_checked (s : ur_acl_stats_t) : ur_acl_stats_t :=
  mk_acl_stats (u32 (checked_count s + 1)) (allowed_count s)
               (denied_count s) (logged_count s) (transformed_count s)
               (default_count s).
Definition incr_allowed (s : ur_acl_stats_t) : ur_acl_stats_t :=
  mk_acl_stats (checked_count s) (u32 (allowed_count s + 1))
               (denied_count s) (logged_count s) (transformed_count s)
               (default_count s).
Definition incr_denied (s : ur_acl_stats_t) : ur_acl_stats_t :=
  mk_acl_stats (checked_count s) (allowed_count s)
               (u32 (denied_count s + 1)) (logged_count s)
               (transformed_count s) (default_count s).
Definition incr_logged (s : ur_acl_stats_t) : ur_acl_stats_t :=
  mk_acl_stats (checked_count s) (allowed_count s) (denied_count s)
               (u32 (logged_count s + 1)) (transformed_count s)
               (default_count s).
Definition incr_transformed (s : ur_acl_stats_t) : ur_acl_stats_t :=
  mk_acl_stats (checked_count s) (allowed_count s) (denied_count s)
               (logged_count s) (u32 (transformed_count s + 1))
               (default_count s).
Definition incr_default (s : ur_acl_stats_t) : ur_acl_stats_t :=
  mk_acl_stats (checked_count s) (allowed_count s) (denied_count s)
               (logged_count s) (transformed_count s)
               (u32 (default_count s + 1)).

(** [g_acl]; [entries[0..entry_count-1]] is a list. *)
Record g_acl_t : Type := mk_acl {
  acl_entries : list acl_entry_t;
  acl_stats : ur_acl_stats_t;
  acl_initialized : bool
}.

Definition with_stats (g : g_acl_t) (s : ur_acl_stats_t) : g_acl_t :=
  mk_acl (acl_entries g) s (acl_initialized g).

Definition with_entries (g : g_acl_t) (es : list acl_entry_t) : g_acl_t :=
  mk_acl es (acl_stats g) (acl_initialized g).

(** The zero-initialised static. *)
Definition g_acl_zero : g_acl_t := mk_acl [] stats_zero false.

(** [find_acl_entry]: position of the first entry of the entity. *)
Fixpoint find_acl_entry_index (es : list acl_entry_t) (entity_id : Z)
  : option nat :=
  match es with
  | [] => None
  | e :: es' =>
      if entry_entity_id e =? entity_id then Some O
      else option_map S (find_acl_entry_index es' entity_id)
  end.

Definition find_acl_entry (g : g_acl_t) (entity_id : Z)
  : option acl_entry_t :=
  match find_acl_entry_index (acl_entries g) entity_id with
  | Some i => acl_entries g !! i
  | None => None
  end.

(** [find_or_create_acl_entry]: the position of the entry and the table,
    extended by a zeroed entry with default policy ALLOW when the entity
    had none; [None] when the table is full. *)
Definition find_or_create_acl_entry (g : g_acl_t) (entity_id : Z)
  : option (nat * g_acl_t) :=
  match find_acl_entry_index (acl_entries g) entity_id with
  | Some i => Some (i, g)
  | None =>
      if UR_CFG_MAX_ENTITIES <=? Z.of_nat (length (acl_entries g))
      then None
      else Some (length (acl_entries g),
                 with_entries g
                   (acl_entries g
                    ++ [mk_acl_entry entity_id [] UR_ACL_DEFAULT_ALLOW
                                     None 0]))
  end.

(** [match_source] *)
Definition match_source (rule_src actual_src : Z) : bool :=
  if rule_src =? UR_ACL_SRC_ANY then true
  else if rule_src =? UR_ACL_SRC_LOCAL
  then (1 <=? actual_src) && (actual_src <=? UR_CFG_MAX_ENTITIES)
  else if rule_src =? UR_ACL_SRC_EXTERNAL
  then (actual_src =? 0) || (UR_CFG_MAX_ENTITIES <? actual_src)
  else rule_src =? actual_src.

(** [match_signal] *)
Definition match_signal (rule_sig actual_sig : Z) : bool :=
  if rule_sig =? UR_ACL_SIG_ANY then true
  else if rule_sig =? UR_ACL_SIG_SYSTEM
  then (0x0001 <=? actual_sig) && (actual_sig <=? 0x00FF)
  else if rule_sig =? UR_ACL_SIG_USER
  then 0x0100 <=? actual_sig
  else rule_sig =? actual_sig.

(** The test of the loop of [find_matching_rule]. *)
Definition rule_matches (sig : ur_signal_t) (rule : ur_acl_rule_t) : bool :=
  match_source (acl_src_id rule) (sig_src_id sig)
  && match_signal (acl_signal_id rule) (sig_id sig).

(** [find_matching_rule] *)
Fixpoint find_matching_rule (rules : list ur_acl_rule_t) (sig : ur_signal_t)
  : option ur_acl_rule_t :=
  match rules with
  | [] => None
  | rule :: rest =>
      if rule_matches sig rule then Some rule
      else find_matching_rule rest sig
  end.

(** [ur_acl_init]: [memset] then [initialized = true]. *)
Definition ur_acl_init (g : g_acl_t) : g_acl_t := mk_acl [] stats_zero true.

(** [ur_acl_reset] *)
Definition ur_acl_reset (g : g_acl_t) : g_acl_t :=
  mk_acl [] stats_zero (acl_initialized g).

Definition init_if_needed (g : g_acl_t) : g_acl_t :=
  if acl_initialized g then g else ur_acl_init g.

(** The inner loop of the insertion sort of [ur_acl_register]:
    [while (j > 0 && rules[j-1].priority > temp.priority)] shifts one slot
    to the right.  [prefix_rev] is [rules[0..j-1]] read from [j-1] down,
    [shifted] the elements already moved. *)
Fixpoint insert_from_right (prefix_rev : list ur_acl_rule_t)
         (temp : ur_acl_rule_t) (shifted : list ur_acl_rule_t)
  : list ur_acl_rule_t :=
  match prefix_rev with
  | [] => temp :: shifted
  | x :: rest =>
      if acl_priority temp <? acl_priority x
      then insert_from_right rest temp (x :: shifted)
      else reverse (x :: rest) ++ temp :: shifted
  end.

(** The outer loop [for (i = 1; i < rule_count; i++)]: [prefix] is
    [rules[0..i-1]], [rest] is [rules[i..]]. *)
Fixpoint sort_loop (prefix rest : list ur_acl_rule_t)
  : list ur_acl_rule_t :=
  match rest with
  | [] => prefix
  | temp :: rest' =>
      sort_loop (insert_from_right (reverse prefix) temp []) rest'
  end.

Definition sort_by_priority (rules : list ur_acl_rule_t)
  : list ur_acl_rule_t :=
  match rules with
  | [] => []
  | r0 :: rest => sort_loop [r0] rest
  end.

Definition set_entry_rules (e : acl_entry_t) (rs : list ur_acl_rule_t)
  : acl_entry_t :=
  mk_acl_entry (entry_entity_id e) rs (entry_default_policy e)
               (entry_transform_fn e) (entry_transform_ctx e).

(** [ur_acl_register (ent, rules, count)]; [rules] has [count] elements. *)
Definition ur_acl_register (g : g_acl_t) (ent : ur_entity_t)
           (rules : list ur_acl_rule_t) : ur_err_t * g_acl_t :=
  let g := init_if_needed g in
  if UR_CFG_ACL_MAX_RULES <? Z.of_nat (length rules)
  then (UR_ERR_NO_MEMORY, g)
  else
    match find_or_create_acl_entry g (ent_id ent) with
    | None => (UR_ERR_NO_MEMORY, g)
    | Some (i, g) =>
        (UR_OK,
         with_entries g
           (alter (fun e => set_entry_rules e (sort_by_priority rules))
                  i (acl_entries g)))
    end.

(** The insertion of [ur_acl_add_rule]: before the first rule of strictly
    larger priority, at the end when there is none. *)
Fixpoint insert_by_priority (rule : ur_acl_rule_t)
         (rules : list ur_acl_rule_t) : list ur_acl_rule_t :=
  match rules with
  | [] => [rule]
  | x :: rest =>
      if acl_priority rule <? acl_priority x then rule :: x :: rest
      else x :: insert_by_priority rule rest
  end.

(** [ur_acl_add_rule] *)
Definition ur_acl_add_rule (g : g_acl_t) (ent : ur_entity_t)
           (rule : ur_acl_rule_t) : ur_err_t * g_acl_t :=
  let g := init_if_needed g in
  match find_or_create_acl_entry g (ent_id ent) with
  | None => (UR_ERR_NO_MEMORY, g)
  | Some (i, g) =>
      match acl_entries g !! i with
      | None => (UR_ERR_NO_MEMORY, g)
      | Some e =>
          if UR_CFG_ACL_MAX_RULES <=? Z.of_nat (length (entry_rules e))
          then (UR_ERR_NO_MEMORY, g)
          else
            (UR_OK,
             with_entries g
               (<[i := set_entry_rules
                         e (insert_by_priority rule (entry_rules e))]>
                  (acl_entries g)))
      end
  end.

(** The removal test of [ur_acl_remove_rules]. *)
Definition removal_match (src_id signal_id : Z) (rule : ur_acl_rule_t)
  : bool :=
  (if negb (src_id =? UR_ACL_SRC_ANY) && negb (acl_src_id rule =? src_id)
   then false else true)
  && (if negb (signal_id =? UR_ACL_SIG_ANY)
         && negb (acl_signal_id rule =? signal_id)
      then false else true).

(** [ur_acl_remove_rules]: the number removed and the new table. *)
Definition ur_acl_remove_rules (g : g_acl_t) (ent : ur_entity_t)
           (src_id signal_id : Z) : Z * g_acl_t :=
  match find_acl_entry_index (acl_entries g) (ent_id ent) with
  | None => (0, g)
  | Some i =>
      match acl_entries g !! i with
      | None => (0, g)
      | Some e =>
          let kept :=
            List.filter (fun r => negb (removal_match src_id signal_id r))
                        (entry_rules e) in
          (Z.of_nat (length (entry_rules e)) - Z.of_nat (length kept),
           with_entries g (<[i := set_entry_rules e kept]> (acl_entries g)))
      end
  end.

(** [ur_acl_set_default] *)
Definition ur_acl_set_default (g : g_acl_t) (ent : ur_entity_t)
           (policy : Z) : g_acl_t :=
  let g := init_if_needed g in
  match find_or_create_acl_entry g (ent_id ent) with
  | None => g
  | Some (i, g) =>
      with_entries g
        (alter (fun e => mk_acl_entry (entry_entity_id e) (entry_rules e)
                                      policy (entry_transform_fn e)
                                      (entry_transform_ctx e))
               i (acl_entries g))
  end.

(** [ur_acl_set_transform]; it does not initialise the table. *)
Definition ur_acl_set_transform (g : g_acl_t) (ent : ur_entity_t)
           (fn : option ur_acl_transform_fn_t) (ctx : Z) : g_acl_t :=
  match find_or_create_acl_entry g (ent_id ent) with
  | None => g
  | Some (i, g) =>
      with_entries g
        (alter (fun e => mk_acl_entry (entry_entity_id e) (entry_rules e)
                                      (entry_default_policy e) fn ctx)
               i (acl_entries g))
  end.

(** The action a default policy stands for. *)
Definition policy_action (policy : Z) : Z :=
  if policy =? UR_ACL_DEFAULT_ALLOW then UR_ACL_ALLOW else UR_ACL_DENY.

(** [ur_acl_check] *)
Definition ur_acl_check (g : g_acl_t) (ent : ur_entity_t)
           (sig : ur_signal_t) : Z * g_acl_t :=
  if negb (acl_initialized g) then (UR_ACL_ALLOW, g)
  else
    let g := with_stats g (incr_checked (acl_stats g)) in
    match find_acl_entry g (ent_id ent) with
    | None => (UR_ACL_ALLOW, with_stats g (incr_default (acl_stats g)))
    | Some entry =>
        match find_matching_rule (entry_rules entry) sig with
        | Some rule => (acl_action rule, g)
        | None =>
            (policy_action (entry_default_policy entry),
             with_stats g (incr_default (acl_stats g)))
        end
    end.

(** [ur_acl_filter]: the answer, the signal as left behind, the table. *)
Definition ur_acl_filter (g : g_acl_t) (ent : ur_entity_t)
           (sig : ur_signal_t) : bool * ur_signal_t * g_acl_t :=
  let '(action, g) := ur_acl_check g ent sig in
  if action =? UR_ACL_ALLOW
  then (true, sig, with_stats g (incr_allowed (acl_stats g)))
  else if action =? UR_ACL_DENY
  then (false, sig, with_stats g (incr_denied (acl_stats g)))
  else if action =? UR_ACL_LOG
  then (true, sig,
        with_stats g (incr_allowed (incr_logged (acl_stats g))))
  else if action =? UR_ACL_TRANSFORM
  then
    match match find_acl_entry g (ent_id ent) with
          | Some entry =>
              match entry_transform_fn entry with
              | Some fn => Some (fn sig (entry_transform_ctx entry))
              | None => None
              end
          | None => None
          end with
    | Some (sig', allow) =>
        if allow
        then (true, sig',
              with_stats g (incr_allowed (incr_transformed (acl_stats g))))
        else (false, sig', with_stats g (incr_denied (acl_stats g)))
    | None => (true, sig, with_stats g (incr_allowed (acl_stats g)))
    end
  else (true, sig, with_stats g (incr_allowed (acl_stats g))).

(** [ur_acl_middleware] as a middleware function over a given table; the
    statistics it updates stay outside the entity. *)
Definition ur_acl_middleware (g : g_acl_t) : ur_middleware_fn_t :=
  fun ent sig _ =>
    let '(pass, sig', _) := ur_acl_filter g ent sig in
    (ent, sig', if pass then UR_MW_CONTINUE else UR_MW_FILTERED).

(** The tables the API can produce from the zero-initialised static. *)
Inductive acl_reachable : g_acl_t -> Prop :=
| reach_zero : acl_reachable g_acl_zero
| reach_init g : acl_reachable g -> acl_reachable (ur_acl_init g)
| reach_reset g : acl_reachable g -> acl_reachable (ur_acl_reset g)
| reach_register g ent rules :
    acl_reachable g -> acl_reachable (snd (ur_acl_register g ent rules))
| reach_add_rule g ent rule :
    acl_reachable g -> acl_reachable (snd (ur_acl_add_rule g ent rule))
| reach_remove_rules g ent src sig :
    acl_reachable g ->
    acl_reachable (snd (ur_acl_remove_rules g ent src sig))
| reach_set_default g ent policy :
    acl_reachable g -> acl_reachable (ur_acl_set_default g ent policy)
| reach_set_transform g ent fn ctx :
    acl_reachable g -> acl_reachable (ur_acl_set_transform g ent fn ctx)
| reach_check g ent sig :
    acl_reachable g -> acl_reachable (snd (ur_acl_check g ent sig))
| reach_filter g ent sig :
    acl_reachable g -> acl_reachable (snd (ur_acl_filter g ent sig)).

(** Priority order on rules (lower value is evaluated first). *)
Definition prio_le (a b : ur_acl_rule_t) : Prop :=
  acl_priority a <= acl_priority b.

Definition rules_sorted (rs : list ur_acl_rule_t) : Prop :=
  StronglySorted prio_le rs.

(** Invariant of the table: every entry keeps its rules in priority order,
    and while the table is not initialised an entry can only have been
    created by [ur_acl_set_transform], with no rules and policy ALLOW. *)
Definition acl_inv (g : g_acl_t) : Prop :=
  Forall (fun e => rules_sorted (entry_rules e)) (acl_entries g)
  /\ (acl_initialized g = false ->
      Forall (fun e => entry_rules e = []
                       /\ entry_default_policy e = UR_ACL_DEFAULT_ALLOW)
             (acl_entries g)).

(** ** Example: the AUDIO entity of the factory-reset scenario *)

Definition SIG_FACTORY_RESET : Z := 0x0130.
Definition SIG_CMD_PLAY : Z := 0x0131.

Definition audio : ur_entity_t :=
  mk_entity 3 1 UR_FLAG_ACTIVE 1 0 0 0 [] 0 [].

Definition audio_rules : list ur_acl_rule_t :=
  [mk_acl_rule UR_ACL_SRC_EXTERNAL SIG_CMD_PLAY UR_ACL_TRANSFORM 5 0;
   mk_acl_rule UR_ACL_SRC_LOCAL UR_ACL_SIG_ANY UR_ACL_ALLOW 1 0;
   mk_acl_rule UR_ACL_SRC_EXTERNAL SIG_FACTORY_RESET UR_ACL_DENY 0 0].

Definition audio_acl : g_acl_t :=
  snd (ur_acl_register g_acl_zero audio audio_rules).

Definition external_signal (id : Z) : ur_signal_t :=
  mk_signal id 0 [0; 0; 0; 0] 0 1.

(** [ur_acl_rule_count] *)
Definition ur_acl_rule_count (g : g_acl_t) (ent : ur_entity_t) : Z :=
  match find_acl_entry g (ent_id ent) with
  | Some entry => Z.of_nat (length (entry_rules entry))
  | None => 0
  end.

(** [ur_acl_enable_middleware]: the ACL filter registered at priority 0
    with a NULL context. *)
Definition ur_acl_enable_middleware (g : g_acl_t) (t : ur_entity_tables)
  : ur_err_t * ur_entity_tables :=
  ur_register_middleware t (Some (ur_acl_middleware g)) 0 0.

(** The rules of one priority, in table order. *)
Definition rules_of_priority (p : Z) (rules : list ur_acl_rule_t)
  : list ur_acl_rule_t :=
  List.filter (fun r => acl_priority r =? p) rules.

End Acl.

(* ====================================================================== *)
(** * Publish/subscribe bus ([extensions/ur_bus.c], [ur_bus.h])           *)
(* ====================================================================== *)

Module Bus.
Import Core.

(** [ur_bus_topic_t]; [subscribers[0..subscriber_count-1]] is a list. *)
Record ur_bus_topic_t : Type := mk_topic {
  topic_id : Z;
  subscribers : list Z
}.

(** [ur_bus_stats_t] *)
Record ur_bus_stats_t : Type := mk_bus_stats {
  publish_count : Z;
  delivery_count : Z;
  drop_count : Z;
  no_subscriber_count : Z
}.

Definition bus_stats_zero : ur_bus_stats_t := mk_bus_stats 0 0 0 0.

Definition incr_publish (s : ur_bus_stats_t) : ur_bus_stats_t :=
  mk_bus_stats (u32 (publish_count s + 1)) (delivery_count s)
               (drop_count s) (no_subscriber_count s).
Definition incr_delivery (s : ur_bus_stats_t) : ur_bus_stats_t :=
  mk_bus_stats (publish_count s) (u32 (delivery_count s + 1))
               (drop_count s) (no_subscriber_count s).
Definition incr_drop (s : ur_bus_stats_t) : ur_bus_stats_t :=
  mk_bus_stats (publish_count s) (delivery_count s)
               (u32 (drop_count s + 1)) (no_subscriber_count s).
Definition incr_no_subscriber (s : ur_bus_stats_t) : ur_bus_stats_t :=
  mk_bus_stats (publish_count s) (delivery_count s)
               (drop_count s) (u32 (no_subscriber_count s + 1)).

(** [g_bus]; [topics[0..topic_count-1]] is a list. *)
Record g_bus_t : Type := mk_bus {
  bus_topics : list ur_bus_topic_t;
  bus_stats : ur_bus_stats_t;
  bus_initialized : bool
}.

Definition g_bus_zero : g_bus_t := mk_bus [] bus_stats_zero false.

(** [ur_bus_init] *)
Definition ur_bus_init (g : g_bus_t) : g_bus_t := mk_bus [] bus_stats_zero true.

(** [find_topic]: position of the first record of the topic. *)
Fixpoint find_topic_index (ts : list ur_bus_topic_t) (id : Z) : option nat :=
  match ts with
  | [] => None
  | x :: rest =>
      if topic_id x =? id then Some O
      else option_map S (find_topic_index rest id)
  end.

Definition find_topic (g : g_bus_t) (id : Z) : option ur_bus_topic_t :=
  match find_topic_index (bus_topics g) id with
  | Some i => bus_topics g !! i
  | None => None
  end.

(** [is_subscribed_to_topic] *)
Definition is_subscribed_to_topic (topic : ur_bus_topic_t) (entity_id : Z)
  : bool :=
  existsb (fun s => s =? entity_id) (subscribers topic).

(** [ur_subscribe], with [find_or_create_topic] inlined. *)
Definition ur_subscribe (g : g_bus_t) (ent : ur_entity_t) (id : Z)
  : ur_err_t * g_bus_t :=
  let g := if bus_initialized g then g else ur_bus_init g in
  let found :=
    match find_topic_index (bus_topics g) id with
    | Some i => Some (i, g)
    | None =>
        if UR_CFG_BUS_MAX_TOPICS <=? Z.of_nat (length (bus_topics g))
        then None
        else Some (length (bus_topics g),
                   mk_bus (bus_topics g ++ [mk_topic id []])
                          (bus_stats g) (bus_initialized g))
    end in
  match found with
  | None => (UR_ERR_NO_MEMORY, g)
  | Some (i, g) =>
      match bus_topics g !! i with
      | None => (UR_ERR_NO_MEMORY, g)
      | Some topic =>
          if is_subscribed_to_topic topic (ent_id ent) then (UR_OK, g)
          else if UR_CFG_BUS_MAX_SUBSCRIBERS
                  <=? Z.of_nat (length (subscribers topic))
          then (UR_ERR_NO_MEMORY, g)
          else (UR_OK,
                mk_bus (<[i := mk_topic (topic_id topic)
                                        (subscribers topic ++ [ent_id ent])]>
                          (bus_topics g))
                       (bus_stats g) (bus_initialized g))
      end
  end.

(** The fan-out loop of [ur_publish].  Besides the delivered count, the
    statistics and the registry (whose entities own the inboxes) it returns
    the [ur_emit] calls made, in order, with their results. *)
Fixpoint publish_loop (in_isr : bool) (now : Z) (sig : ur_signal_t)
         (subs : list Z) (reg : registry_t) (stats : ur_bus_stats_t)
         (delivered : Z)
  : Z * ur_bus_stats_t * registry_t * list (Z * ur_err_t) :=
  match subs with
  | [] => (delivered, stats, reg, [])
  | s :: rest =>
      match ur_get_entity reg s with
      | Some ent =>
          let '(err, ent') := ur_emit in_isr now ent sig in
          let reg' := <[Z.to_nat (s - 1) := Some ent']> reg in
          let '(d, st, r, log) :=
            if ur_err_eqb err UR_OK
            then publish_loop in_isr now sig rest reg'
                              (incr_delivery stats) (delivered + 1)
            else publish_loop in_isr now sig rest reg'
                              (incr_drop stats) delivered in
          (d, st, r, (s, err) :: log)
      | None => publish_loop in_isr now sig rest reg stats delivered
      end
  end.

(** [ur_publish] *)
Definition ur_publish (in_isr : bool) (now : Z) (g : g_bus_t)
           (reg : registry_t) (sig : ur_signal_t)
  : Z * g_bus_t * registry_t * list (Z * ur_err_t) :=
  let g := if bus_initialized g then g else ur_bus_init g in
  let g := mk_bus (bus_topics g) (incr_publish (bus_stats g))
                  (bus_initialized g) in
  match find_topic g (sig_id sig) with
  | Some (mk_topic _ (s :: rest)) =>
      let '(delivered, stats, reg', log) :=
        publish_loop in_isr now sig (s :: rest) reg (bus_stats g) 0 in
      (delivered, mk_bus (bus_topics g) stats (bus_initialized g), reg', log)
  | _ =>
      (0,
       mk_bus (bus_topics g) (incr_no_subscriber (bus_stats g))
              (bus_initialized g),
       reg, [])
  end.

(** The copy [ur_emit] enqueues: the caller's signal, with a zero
    timestamp replaced by the clock value. *)
Definition stamped (now : Z) (sig : ur_signal_t) : ur_signal_t :=
  if sig_timestamp sig =? 0 then set_sig_timestamp sig now else sig.

(** The inbox of the entity registered under [id] has a free slot. *)
Definition has_free_slot (reg : registry_t) (id : Z) : bool :=
  match ur_get_entity reg id with
  | Some e => negb (UR_CFG_INBOX_SIZE <=? Z.of_nat (length (ent_inbox e)))
  | None => false
  end.

Definition inbox_count (reg : registry_t) (id : Z) : Z :=
  match ur_get_entity reg id with
  | Some e => Z.of_nat (length (ent_inbox e))
  | None => 0
  end.

Definition bus_stats_wf (s : ur_bus_stats_t) : Prop :=
  0 <= delivery_count s < 2 ^ 32 /\ 0 <= drop_count s < 2 ^ 32.

(** ** Example: the battery topic with subscribers A (id 1) and B (id 2);
    B's inbox is full in [battery_registry_full]. *)

Definition SIG_BATTERY_LEVEL : Z := 0x0110.

Definition subscriber (id : Z) (inbox : list ur_signal_t) : ur_entity_t :=
  mk_entity id 1 UR_FLAG_ACTIVE 1 0 0 0 [] 0 inbox.

Definition battery_signal (ts : Z) : ur_signal_t :=
  mk_signal SIG_BATTERY_LEVEL 9 [42; 0; 0; 0] 0 ts.

Definition battery_bus : g_bus_t :=
  snd (ur_subscribe (snd (ur_subscribe g_bus_zero (subscriber 1 [])
                                       SIG_BATTERY_LEVEL))
                    (subscriber 2 []) SIG_BATTERY_LEVEL).

Definition battery_registry : registry_t :=
  snd (ur_register_entity
         (snd (ur_register_entity registry_empty (subscriber 1 [])))
         (subscriber 2 [])).

Definition battery_registry_full : registry_t :=
  snd (ur_register_entity
         (snd (ur_register_entity registry_empty (subscriber 1 [])))
         (subscriber 2 (repeat (battery_signal 5) 8))).

(** The removal loop shared by [ur_unsubscribe] and
    [ur_unsubscribe_all]: the first occurrence of the id is removed by
    shifting the later subscribers down; [None] when the id is not
    there. *)
Fixpoint remove_first (entity_id : Z) (subs : list Z) : option (list Z) :=
  match subs with
  | [] => None
  | s :: rest =>
      if s =? entity_id then Some rest
      else option_map (cons s) (remove_first entity_id rest)
  end.

(** [ur_unsubscribe]; it does not initialise the bus. *)
Definition ur_unsubscribe (g : g_bus_t) (ent : ur_entity_t) (id : Z)
  : ur_err_t * g_bus_t :=
  match find_topic_index (bus_topics g) id with
  | None => (UR_ERR_NOT_FOUND, g)
  | Some i =>
      match bus_topics g !! i with
      | None => (UR_ERR_NOT_FOUND, g)
      | Some topic =>
          match remove_first (ent_id ent) (subscribers topic) with
          | None => (UR_ERR_NOT_FOUND, g)
          | Some subs =>
              (UR_OK,
               mk_bus (<[i := mk_topic (topic_id topic) subs]> (bus_topics g))
                      (bus_stats g) (bus_initialized g))
          end
      end
  end.

(** The loop of [ur_unsubscribe_all] over the topics. *)
Fixpoint unsubscribe_all_loop (entity_id : Z) (topics : list ur_bus_topic_t)
         (count : Z) : Z * list ur_bus_topic_t :=
  match topics with
  | [] => (count, [])
  | topic :: rest =>
      match remove_first entity_id (subscribers topic) with
      | Some subs =>
          let '(c, r) := unsubscribe_all_loop entity_id rest (count + 1) in
          (c, mk_topic (topic_id topic) subs :: r)
      | None =>
          let '(c, r) := unsubscribe_all_loop entity_id rest count in
          (c, topic :: r)
      end
  end.

Definition ur_unsubscribe_all (g : g_bus_t) (ent : ur_entity_t)
  : Z * g_bus_t :=
  let '(count, topics) :=
    unsubscribe_all_loop (ent_id ent) (bus_topics g) 0 in
  (count, mk_bus topics (bus_stats g) (bus_initialized g)).

(** [ur_is_subscribed] and [ur_bus_subscriber_count] *)
Definition ur_is_subscribed (g : g_bus_t) (ent : ur_entity_t) (id : Z)
  : bool :=
  match find_topic g id with
  | Some topic => is_subscribed_to_topic topic (ent_id ent)
  | None => false
  end.

Definition ur_bus_subscriber_count (g : g_bus_t) (id : Z) : Z :=
  match find_topic g id with
  | Some topic => Z.of_nat (length (subscribers topic))
  | None => 0
  end.

(** The fan-out loop of [ur_publish_from_isr]: [ur_emit_from_isr] for each
    registered subscriber, with no statistics. *)
Fixpoint publish_isr_loop (now : Z) (sig : ur_signal_t) (subs : list Z)
         (reg : registry_t) (delivered : Z) : Z * registry_t :=
  match subs with
  | [] => (delivered, reg)
  | s :: rest =>
      match ur_get_entity reg s with
      | Some ent =>
          let '(err, ent') := ur_emit_from_isr now ent sig in
          publish_isr_loop now sig rest
                           (<[Z.to_nat (s - 1) := Some ent']> reg)
                           (if ur_err_eqb err UR_OK then delivered + 1
                            else delivered)
      | None => publish_isr_loop now sig rest reg delivered
      end
  end.

(** [ur_publish_from_isr]; it neither initialises the bus nor counts. *)
Definition ur_publish_from_isr (now : Z) (g : g_bus_t) (reg : registry_t)
           (sig : ur_signal_t) : Z * registry_t :=
  match find_topic g (sig_id sig) with
  | Some (mk_topic _ (s :: rest)) =>
      publish_isr_loop now sig (s :: rest) reg 0
  | _ => (0, reg)
  end.

(** The test "a subscriber other than [id]". *)
Definition other_than (id : Z) (s : Z) : bool := negb (s =? id).

(** Every topic lists an entity at most once. *)
Definition bus_inv (g : g_bus_t) : Prop :=
  Forall (fun topic => NoDup (subscribers topic)) (bus_topics g).

End Bus.

(* ====================================================================== *)
(** * Binary codec ([extensions/ur_codec.c], [ur_codec.h])                *)
(* ====================================================================== *)

Module Codec.

Definition UR_CODEC_SYNC_BYTE : Z := 0x55.
Definition UR_CODEC_HEADER_SIZE : nat := 7.
Definition UR_CODEC_CRC_SIZE : nat := 2.

(** [crc16_table] *)
Definition crc16_table : list Z :=
[
  0x0000; 0x1021; 0x2042; 0x3063; 0x4084; 0x50A5; 0x60C6; 0x70E7;
  0x8108; 0x9129; 0xA14A; 0xB16B; 0xC18C; 0xD1AD; 0xE1CE; 0xF1EF;
  0x1231; 0x0210; 0x3273; 0x2252; 0x52B5; 0x4294; 0x72F7; 0x62D6;
  0x9339; 0x8318; 0xB37B; 0xA35A; 0xD3BD; 0xC39C; 0xF3FF; 0xE3DE;
  0x2462; 0x3443; 0x0420; 0x1401; 0x64E6; 0x74C7; 0x44A4; 0x5485;
  0xA56A; 0xB54B; 0x8528; 0x9509; 0xE5EE; 0xF5CF; 0xC5AC; 0xD58D;
  0x3653; 0x2672; 0x1611; 0x0630; 0x76D7; 0x66F6; 0x5695; 0x46B4;
  0xB75B; 0xA77A; 0x9719; 0x8738; 0xF7DF; 0xE7FE; 0xD79D; 0xC7BC;
  0x48C4; 0x58E5; 0x6886; 0x78A7; 0x0840; 0x1861; 0x2802; 0x3823;
  0xC9CC; 0xD9ED; 0xE98E; 0xF9AF; 0x8948; 0x9969; 0xA90A; 0xB92B;
  0x5AF5; 0x4AD4; 0x7AB7; 0x6A96; 0x1A71; 0x0A50; 0x3A33; 0x2A12;
  0xDBFD; 0xCBDC; 0xFBBF; 0xEB9E; 0x9B79; 0x8B58; 0xBB3B; 0xAB1A;
  0x6CA6; 0x7C87; 0x4CE4; 0x5CC5; 0x2C22; 0x3C03; 0x0C60; 0x1C41;
  0xEDAE; 0xFD8F; 0xCDEC; 0xDDCD; 0xAD2A; 0xBD0B; 0x8D68; 0x9D49;
  0x7E97; 0x6EB6; 0x5ED5; 0x4EF4; 0x3E13; 0x2E32; 0x1E51; 0x0E70;
  0xFF9F; 0xEFBE; 0xDFDD; 0xCFFC; 0xBF1B; 0xAF3A; 0x9F59; 0x8F78;
  0x9188; 0x81A9; 0xB1CA; 0xA1EB; 0xD10C; 0xC12D; 0xF14E; 0xE16F;
  0x1080; 0x00A1; 0x30C2; 0x20E3; 0x5004; 0x4025; 0x7046; 0x6067;
  0x83B9; 0x9398; 0xA3FB; 0xB3DA; 0xC33D; 0xD31C; 0xE37F; 0xF35E;
  0x02B1; 0x1290; 0x22F3; 0x32D2; 0x4235; 0x5214; 0x6277; 0x7256;
  0xB5EA; 0xA5CB; 0x95A8; 0x8589; 0xF56E; 0xE54F; 0xD52C; 0xC50D;
  0x34E2; 0x24C3; 0x14A0; 0x0481; 0x7466; 0x6447; 0x5424; 0x4405;
  0xA7DB; 0xB7FA; 0x8799; 0x97B8; 0xE75F; 0xF77E; 0xC71D; 0xD73C;
  0x26D3; 0x36F2; 0x0691; 0x16B0; 0x6657; 0x7676; 0x4615; 0x5634;
  0xD94C; 0xC96D; 0xF90E; 0xE92F; 0x99C8; 0x89E9; 0xB98A; 0xA9AB;
  0x5844; 0x4865; 0x7806; 0x6827; 0x18C0; 0x08E1; 0x3882; 0x28A3;
  0xCB7D; 0xDB5C; 0xEB3F; 0xFB1E; 0x8BF9; 0x9BD8; 0xABBB; 0xBB9A;
  0x4A75; 0x5A54; 0x6A37; 0x7A16; 0x0AF1; 0x1AD0; 0x2AB3; 0x3A92;
  0xFD2E; 0xED0F; 0xDD6C; 0xCD4D; 0xBDAA; 0xAD8B; 0x9DE8; 0x8DC9;
  0x7C26; 0x6C07; 0x5C64; 0x4C45; 0x3CA2; 0x2C83; 0x1CE0; 0x0CC1;
  0xEF1F; 0xFF3E; 0xCF5D; 0xDF7C; 0xAF9B; 0xBFBA; 0x8FD9; 0x9FF8;
  0x6E17; 0x7E36; 0x4E55; 0x5E74; 0x2E93; 0x3EB2; 0x0ED1; 0x1EF0].

(** One iteration of the loop of [ur_crc16]:
    [crc = (crc << 8) ^ crc16_table[((crc >> 8) ^ data[i]) & 0xFF]],
    truncated to 16 bits by the assignment to a [uint16_t]. *)
Definition crc16_update (crc byte : Z) : Z :=
  Z.land
    (Z.lxor (Z.shiftl crc 8)
            (nth (Z.to_nat (Z.land (Z.lxor (Z.shiftr crc 8) byte) 0xFF))
                 crc16_table 0))
    0xFFFF.

(** [ur_crc16 (data, len)] over the [len] bytes of [data]. *)
Definition ur_crc16 (data : list Z) : Z :=
  fold_left crc16_update data 0xFFFF.

(** CRC-16/CCITT as the specification names it: polynomial 0x1021,
    initial value 0xFFFF, no final XOR, most significant bit first.
    Written from the specification, for comparison with [ur_crc16]. *)
Definition ccitt_shift (crc : Z) : Z :=
  if Z.testbit crc 15
  then Z.land (Z.lxor (Z.shiftl crc 1) 0x1021) 0xFFFF
  else Z.land (Z.shiftl crc 1) 0xFFFF.

Definition ccitt_byte (crc byte : Z) : Z :=
  Nat.iter 8 ccitt_shift (Z.lxor crc (Z.shiftl byte 8)).

Definition crc16_ccitt_spec (data : list Z) : Z :=
  fold_left ccitt_byte data 0xFFFF.

(** The part of [ur_codec_schema_t] the binary codec reads. *)
Record ur_codec_schema_t : Type := mk_schema {
  schema_signal_id : Z;
  schema_payload_size : Z
}.

(** [ur_codec_get_schema] over [g_codec.schemas[0..schema_count-1]]. *)
Fixpoint ur_codec_get_schema (schemas : list ur_codec_schema_t)
         (signal_id : Z) : option ur_codec_schema_t :=
  match schemas with
  | [] => None
  | s :: rest =>
      if schema_signal_id s =? signal_id then Some s
      else ur_codec_get_schema rest signal_id
  end.

(** [memcpy (&dst[pos], src, n)] *)
Fixpoint memcpy (dst : list Z) (pos : nat) (src : list Z) (n : nat)
         {struct n} : list Z :=
  match n, src with
  | S n', b :: src' => memcpy (<[pos := b]> dst) (S pos) src' n'
  | _, _ => dst
  end.

(** The payload size [ur_codec_encode_binary] uses: the schema's, or the
    signal payload width when no schema is registered for the id. *)
Definition payload_size_of (schemas : list ur_codec_schema_t)
           (sig : ur_signal_t) : Z :=
  match ur_codec_get_schema schemas (sig_id sig) with
  | Some schema => schema_payload_size schema
  | None => UR_CFG_SIGNAL_PAYLOAD_SIZE
  end.

(** [ur_codec_encode_binary].  [buffer] is the caller's buffer with
    [buf_size = length buffer]; the result is the error code, the buffer
    after the call and [*out_len] when it was written. *)
Definition ur_codec_encode_binary (schemas : list ur_codec_schema_t)
           (sig : ur_signal_t) (buffer : list Z)
  : ur_err_t * list Z * option nat :=
  let payload_size := Z.to_nat (payload_size_of schemas sig) in
  let total_size :=
    (UR_CODEC_HEADER_SIZE + payload_size + UR_CODEC_CRC_SIZE)%nat in
  if (length buffer <? total_size)%nat
  then (UR_ERR_NO_MEMORY, buffer, None)
  else
    let buffer := <[0%nat := UR_CODEC_SYNC_BYTE]> buffer in
    let buffer := <[1%nat := Z.land (Z.of_nat payload_size) 0xFF]> buffer in
    let buffer :=
      <[2%nat := Z.land (Z.shiftr (Z.of_nat payload_size) 8) 0xFF]> buffer in
    let buffer := <[3%nat := Z.land (sig_id sig) 0xFF]> buffer in
    let buffer :=
      <[4%nat := Z.land (Z.shiftr (sig_id sig) 8) 0xFF]> buffer in
    let buffer := <[5%nat := Z.land (sig_src_id sig) 0xFF]> buffer in
    let buffer :=
      <[6%nat := Z.land (Z.shiftr (sig_src_id sig) 8) 0xFF]> buffer in
    let pos := 7%nat in
    let buffer :=
      memcpy buffer pos (sig_payload sig)
             (Nat.min payload_size (Z.to_nat UR_CFG_SIGNAL_PAYLOAD_SIZE)) in
    let pos := (pos + payload_size)%nat in
    let crc := ur_crc16 (take (pos - 1) (drop 1 buffer)) in
    let buffer := <[pos := Z.land crc 0xFF]> buffer in
    let buffer := <[S pos := Z.land (Z.shiftr crc 8) 0xFF]> buffer in
    (UR_OK, buffer, Some (S (S pos))).

(** [ur_codec_decode_result_t] *)
Record ur_codec_decode_result_t : Type := mk_result {
  res_signal : ur_signal_t;
  res_consumed : nat;
  res_complete : bool
}.

(** A signal after [memset (.., 0, ..)]. *)
Definition zero_signal : ur_signal_t :=
  mk_signal 0 0 (repeat 0 (Z.to_nat UR_CFG_SIGNAL_PAYLOAD_SIZE)) 0 0.

Definition zero_result (consumed : nat) : ur_codec_decode_result_t :=
  mk_result zero_signal consumed false.

(** [while (start < len && data[start] != SYNC) start++], from 0. *)
Fixpoint find_sync (data : list Z) : nat :=
  match data with
  | [] => O
  | b :: rest => if b =? UR_CODEC_SYNC_BYTE then O else S (find_sync rest)
  end.

(** [ur_codec_decode_binary (data, len, &result)] with [len = length
    data]. *)
Definition ur_codec_decode_binary (data : list Z)
  : ur_err_t * ur_codec_decode_result_t :=
  let len := length data in
  if (len <? UR_CODEC_HEADER_SIZE)%nat then (UR_ERR_TIMEOUT, zero_result 0)
  else
    let start := find_sync data in
    if (len <=? start)%nat then (UR_ERR_TIMEOUT, zero_result len)
    else if (len - start <? UR_CODEC_HEADER_SIZE)%nat
    then (UR_ERR_TIMEOUT, zero_result start)
    else
      let frame := fun i : nat => nth (start + i) data 0 in
      let payload_len :=
        Z.to_nat (u16 (Z.lor (frame 1%nat) (Z.shiftl (frame 2%nat) 8))) in
      let total_len :=
        (UR_CODEC_HEADER_SIZE + payload_len + UR_CODEC_CRC_SIZE)%nat in
      if (len - start <? total_len)%nat
      then (UR_ERR_TIMEOUT, zero_result start)
      else
        let expected_crc :=
          u16 (Z.lor (frame (total_len - 2)%nat)
                     (Z.shiftl (frame (total_len - 1)%nat) 8)) in
        let actual_crc :=
          ur_crc16 (take (total_len - 3) (drop (start + 1) data)) in
        if negb (expected_crc =? actual_crc)
        then (UR_ERR_INVALID_ARG, zero_result (S start))
        else
          let copy_len :=
            Nat.min payload_len (Z.to_nat UR_CFG_SIGNAL_PAYLOAD_SIZE) in
          (UR_OK,
           mk_result
             (mk_signal
                (u16 (Z.lor (frame 3%nat) (Z.shiftl (frame 4%nat) 8)))
                (u16 (Z.lor (frame 5%nat) (Z.shiftl (frame 6%nat) 8)))
                (memcpy (sig_payload zero_signal) 0
                        (drop (start + UR_CODEC_HEADER_SIZE) data) copy_len)
                0 0)
             (start + total_len) true).

(** Exhaustive check of a boolean property on [start .. start+n-1]. *)
Fixpoint all_from (P : Z -> bool) (start : Z) (n : nat) : bool :=
  match n with
  | O => true
  | S n' => P start && all_from P (start + 1) n'
  end.

(** Well-formed inputs: 16-bit ids, a payload of the configured width made
    of bytes, and 8-bit schema payload sizes. *)
Definition is_byte (b : Z) : Prop := 0 <= b < 256.

Definition signal_wf (sig : ur_signal_t) : Prop :=
  0 <= sig_id sig < 65536
  /\ 0 <= sig_src_id sig < 65536
  /\ length (sig_payload sig) = Z.to_nat UR_CFG_SIGNAL_PAYLOAD_SIZE
  /\ Forall is_byte (sig_payload sig).

Definition schemas_wf (schemas : list ur_codec_schema_t) : Prop :=
  Forall (fun s => 0 <= schema_payload_size s < 256) schemas.

(** ** Example: the DEADBEEF signal of the round-trip scenario *)

Definition deadbeef_signal : ur_signal_t :=
  mk_signal 0x0120 7 [0xEF; 0xBE; 0xAD; 0xDE] 0 1234.

Definition scratch_buffer : list Z := repeat 0xAA 16.

(** ** Schema table *)

(** [g_codec]: [schemas[0..schema_count-1]] and the [initialized] flag. *)
Record g_codec_t : Type := mk_codec {
  codec_schemas : list ur_codec_schema_t;
  codec_initialized : bool
}.

Definition g_codec_zero : g_codec_t := mk_codec [] false.

(** [ur_codec_init] *)
Definition ur_codec_init (g : g_codec_t) : g_codec_t := mk_codec [] true.

(** [ur_codec_register_schema] for a non-NULL schema. *)
Definition ur_codec_register_schema (g : g_codec_t)
           (schema : ur_codec_schema_t) : ur_err_t * g_codec_t :=
  let g := if codec_initialized g then g else ur_codec_init g in
  if UR_CFG_CODEC_MAX_SCHEMAS <=? Z.of_nat (length (codec_schemas g))
  then (UR_ERR_NO_MEMORY, g)
  else if existsb (fun s => schema_signal_id s =? schema_signal_id schema)
                  (codec_schemas g)
  then (UR_ERR_ALREADY_EXISTS, g)
  else (UR_OK,
        mk_codec (codec_schemas g ++ [schema]) (codec_initialized g)).

(** ** Streaming decoder *)

(** [ur_codec_decoder_t] *)
Record ur_codec_decoder_t : Type := mk_decoder {
  dec_buffer : list Z;
  dec_pos : nat;
  dec_expected_len : nat;
  dec_in_frame : bool
}.

(** [ur_codec_decoder_init]: [memset (decoder, 0, ...)]. *)
Definition ur_codec_decoder_init : ur_codec_decoder_t :=
  mk_decoder (repeat 0 (Z.to_nat UR_CFG_CODEC_BUFFER_SIZE)) 0 0 false.

(** [ur_codec_decoder_reset]: the buffer keeps its bytes. *)
Definition ur_codec_decoder_reset (d : ur_codec_decoder_t)
  : ur_codec_decoder_t :=
  mk_decoder (dec_buffer d) 0 0 false.

(** One iteration of the loop of [ur_codec_decoder_feed] for [byte]: the
    decoder after it, and the signal when the iteration ends in
    [return UR_OK]. *)
Definition decoder_step (d : ur_codec_decoder_t) (byte : Z)
  : ur_codec_decoder_t * option ur_signal_t :=
  if negb (dec_in_frame d)
  then
    if byte =? UR_CODEC_SYNC_BYTE
    then (mk_decoder (<[0%nat := byte]> (dec_buffer d)) 1
                     (dec_expected_len d) true, None)
    else (d, None)
  else if (Z.to_nat UR_CFG_CODEC_BUFFER_SIZE <=? dec_pos d)%nat
  then (ur_codec_decoder_reset d, None)
  else
    let buffer := <[dec_pos d := byte]> (dec_buffer d) in
    let pos := S (dec_pos d) in
    let expected_len :=
      if (pos =? 3)%nat
      then Nat.add
             (Nat.add
                (Z.to_nat (Z.lor (nth 1 buffer 0)
                                 (Z.shiftl (nth 2 buffer 0) 8)))
                UR_CODEC_HEADER_SIZE)
             UR_CODEC_CRC_SIZE
      else dec_expected_len d in
    let d := mk_decoder buffer pos expected_len true in
    if (pos =? 3)%nat
       && (Z.to_nat UR_CFG_CODEC_BUFFER_SIZE <? expected_len)%nat
    then (ur_codec_decoder_reset d, None)
    else if (UR_CODEC_HEADER_SIZE <=? pos)%nat && (expected_len <=? pos)%nat
    then
      let '(err, result) := ur_codec_decode_binary (take pos buffer) in
      if ur_err_eqb err UR_OK && res_complete result
      then (ur_codec_decoder_reset d, Some (res_signal result))
      else (ur_codec_decoder_reset d, None)
    else (d, None).

(** [ur_codec_decoder_feed (decoder, data, len, sig)]: the error code, the
    decoder afterwards and [*sig] when it was written.  The bytes of the
    chunk behind a completed frame are not looked at. *)
Fixpoint ur_codec_decoder_feed (d : ur_codec_decoder_t) (data : list Z)
  : ur_err_t * ur_codec_decoder_t * option ur_signal_t :=
  match data with
  | [] => (UR_ERR_TIMEOUT, d, None)
  | byte :: rest =>
      match decoder_step d byte with
      | (d', Some sig) => (UR_OK, d', Some sig)
      | (d', None) => ur_codec_decoder_feed d' rest
      end
  end.

(** A frame as [ur_codec_decode_binary] accepts it: sync byte, six header
    bytes whose first two give the length of the body, the body, and the
    two bytes of the CRC of header and body. *)
Definition frame_of (header body : list Z) : list Z :=
  UR_CODEC_SYNC_BYTE :: header ++ body
    ++ [Z.land (ur_crc16 (header ++ body)) 0xFF;
        Z.land (Z.shiftr (ur_crc16 (header ++ body)) 8) 0xFF].

Definition frame_wf (header body : list Z) : Prop :=
  length header = 6%nat
  /\ Forall is_byte header /\ Forall is_byte body
  /\ u16 (Z.lor (nth 0 header 0) (Z.shiftl (nth 1 header 0) 8))
     = Z.of_nat (length body).

(** The signal carried by a frame. *)
Definition frame_signal (header body : list Z) : ur_signal_t :=
  mk_signal
    (u16 (Z.lor (nth 2 header 0) (Z.shiftl (nth 3 header 0) 8)))
    (u16 (Z.lor (nth 4 header 0) (Z.shiftl (nth 5 header 0) 8)))
    (memcpy (sig_payload zero_signal) 0 body
            (Nat.min (length body) (Z.to_nat UR_CFG_SIGNAL_PAYLOAD_SIZE)))
    0 0.

(** The decoder while it collects a frame of [n] bytes in all: the first
    [k] bytes of [frame] are in the buffer, and [expected_len] is known
    from the third byte on ([e0] is what the field held before). *)
Definition decoder_within (frame buffer : list Z) (e0 n k : nat)
  : ur_codec_decoder_t :=
  mk_decoder (take k frame ++ drop k buffer) k
             (if (k <? 3)%nat then e0 else n) true.

(** No byte of [noise] is the sync byte. *)
Definition no_sync (noise : list Z) : Prop :=
  Forall (fun b => b <> UR_CODEC_SYNC_BYTE) noise.

(** The inverse of [crc16_update] at byte 0: the table index is recovered
    from the low byte of the result, which is the low byte of one table
    entry only. *)
Definition crc16_low_index (low : Z) : Z :=
  let fix go (i : Z) (entries : list Z) : Z :=
    match entries with
    | [] => 0
    | e :: rest => if Z.land e 0xFF =? low then i else go (i + 1) rest
    end in
  go 0 crc16_table.

Definition crc16_low_index_table : list Z :=
  Eval vm_compute in map crc16_low_index (map Z.of_nat (seq 0 256)).

Definition crc16_unstep (r : Z) : Z :=
  let j := nth (Z.to_nat (Z.land r 0xFF)) crc16_low_index_table 0 in
  Z.lor (Z.shiftl j 8)
        (Z.shiftr (Z.lxor r (nth (Z.to_nat j) crc16_table 0)) 8).

End Codec.

(* ====================================================================== *)
(** * Parameter store ([extensions/ur_param.c], [ur_param.h])             *)
(* ====================================================================== *)

Module Param.
Import Core Bus.

Definition SIG_PARAM_CHANGED : Z := 0x0020.

(** [ur_param_type_t] *)
Definition UR_PARAM_TYPE_U8 : Z := 0.
Definition UR_PARAM_TYPE_U16 : Z := 1.
Definition UR_PARAM_TYPE_U32 : Z := 2.
Definition UR_PARAM_TYPE_I8 : Z := 3.
Definition UR_PARAM_TYPE_I16 : Z := 4.
Definition UR_PARAM_TYPE_I32 : Z := 5.
Definition UR_PARAM_TYPE_F32 : Z := 6.
Definition UR_PARAM_TYPE_BOOL : Z := 7.
Definition UR_PARAM_TYPE_STR : Z := 8.
Definition UR_PARAM_TYPE_BLOB : Z := 9.

(** [ur_param_flags_t] *)
Definition UR_PARAM_FLAG_PERSIST : Z := 0x01.
Definition UR_PARAM_FLAG_READONLY : Z := 0x02.
Definition UR_PARAM_FLAG_NOTIFY : Z := 0x04.
Definition UR_PARAM_FLAG_DIRTY : Z := 0x80.

(** [ur_param_value_t] is a union over [UR_CFG_PARAM_MAX_STRING_LEN]
    bytes; it is modelled by those bytes, and each member by its
    little-endian view of the leading bytes. *)
Definition ur_param_value_t : Type := list Z.

(** [ur_param_def_t]; [def_name] stands for the address of the name
    string, which is only used as the storage key. *)
Record ur_param_def_t : Type := mk_def {
  def_id : Z;
  def_type : Z;
  def_flags : Z;
  def_name : Z;
  def_size : Z;
  def_default_val : ur_param_value_t
}.

(** [ur_param_entry_t]; [entry_def = None] is a NULL [def]. *)
Record ur_param_entry_t : Type := mk_entry {
  entry_def : option ur_param_def_t;
  entry_value : ur_param_value_t;
  entry_flags : Z
}.

(** The [save] callback of [ur_param_storage_t]: key, type, value, size.
    What it does to the medium is outside the model; the calls are
    recorded in [w_saved] below. *)
Record ur_param_storage_t : Type := mk_storage {
  sto_save : option (Z -> Z -> ur_param_value_t -> Z -> ur_err_t)
}.

(** [g_param] *)
Record g_param_t : Type := mk_param {
  param_entries : list ur_param_entry_t;
  param_storage : option ur_param_storage_t;
  param_batch_mode : bool
}.

(** Everything a setter can touch: the store, the bus and the registry
    reached through [ur_publish], and two records kept for the proofs: the
    [save] calls made and the signals handed to [ur_publish]. *)
Record world : Type := mk_world {
  w_param : g_param_t;
  w_bus : g_bus_t;
  w_registry : list (option ur_entity_t);
  w_saved : list (Z * ur_param_value_t);
  w_notified : list ur_signal_t
}.

(** Little-endian views of the leading bytes. *)
Fixpoint load_le (k : nat) (bytes : list Z) : Z :=
  match k, bytes with
  | S k', b :: rest => b + 256 * load_le k' rest
  | _, _ => 0
  end.

Fixpoint store_le (k : nat) (v : Z) (bytes : list Z) : list Z :=
  match k, bytes with
  | S k', _ :: rest => (v mod 256) :: store_le k' (v / 256) rest
  | _, _ => bytes
  end.

(** [memcpy (dst, src, length src)]: overwrite the leading bytes. *)
Fixpoint memcpy_bytes (dst src : list Z) : list Z :=
  match src, dst with
  | b :: src', _ :: dst' => b :: memcpy_bytes dst' src'
  | _, _ => dst
  end.

(** The signed reading of a [k]-byte member. *)
Definition load_signed (k : nat) (bytes : list Z) : Z :=
  let u := load_le k bytes in
  if u <? 2 ^ (8 * Z.of_nat k - 1) then u else u - 2 ^ (8 * Z.of_nat k).

(** [==] on two [float] values given by their IEEE-754 binary32 bit
    patterns: a NaN equals nothing, the two zeros are equal, any other
    value equals only its own pattern. *)
Definition f32_is_nan (bits : Z) : bool :=
  (Z.land (Z.shiftr bits 23) 0xFF =? 0xFF)
  && negb (Z.land bits 0x7FFFFF =? 0).

Definition f32_eqb (a b : Z) : bool :=
  if f32_is_nan a || f32_is_nan b then false
  else if (Z.land a 0x7FFFFFFF =? 0) && (Z.land b 0x7FFFFFFF =? 0)
  then true
  else a =? b.

(** [find_entry]: position of the first entry with a non-NULL definition
    of the given id. *)
Fixpoint find_entry (es : list ur_param_entry_t) (id : Z) : option nat :=
  match es with
  | [] => None
  | e :: rest =>
      match entry_def e with
      | Some d => if def_id d =? id then Some O
                  else option_map S (find_entry rest id)
      | None => option_map S (find_entry rest id)
      end
  end.

(** [get_type_size] *)
Definition get_type_size (type : Z) : Z :=
  if (type =? UR_PARAM_TYPE_U8) || (type =? UR_PARAM_TYPE_I8)
     || (type =? UR_PARAM_TYPE_BOOL) then 1
  else if (type =? UR_PARAM_TYPE_U16) || (type =? UR_PARAM_TYPE_I16) then 2
  else if (type =? UR_PARAM_TYPE_U32) || (type =? UR_PARAM_TYPE_I32)
          || (type =? UR_PARAM_TYPE_F32) then 4
  else 0.

Definition has_flag (flags flag : Z) : bool :=
  negb (Z.land flags flag =? 0).

Definition with_entry (w : world) (i : nat) (e : ur_param_entry_t) : world :=
  mk_world
    (mk_param (<[i := e]> (param_entries (w_param w)))
              (param_storage (w_param w)) (param_batch_mode (w_param w)))
    (w_bus w) (w_registry w) (w_saved w) (w_notified w).

(** [save_entry (entry)] for the entry at position [i] with definition
    [d]. *)
Definition save_entry (w : world) (i : nat) (e : ur_param_entry_t)
           (d : ur_param_def_t) : ur_err_t * world :=
  match param_storage (w_param w) with
  | None => (UR_OK, w)
  | Some storage =>
      match sto_save storage with
      | None => (UR_OK, w)
      | Some save =>
          if negb (has_flag (def_flags d) UR_PARAM_FLAG_PERSIST)
          then (UR_OK, w)
          else
            let size :=
              if (def_type d =? UR_PARAM_TYPE_STR)
                 || (def_type d =? UR_PARAM_TYPE_BLOB)
              then def_size d else get_type_size (def_type d) in
            let err := save (def_name d) (def_type d) (entry_value e) size in
            let w := mk_world (w_param w) (w_bus w) (w_registry w)
                              (w_saved w ++ [(def_name d, entry_value e)])
                              (w_notified w) in
            if ur_err_eqb err UR_OK
            then (err,
                  with_entry w i
                    (mk_entry (entry_def e) (entry_value e)
                              (Z.ldiff (entry_flags e) UR_PARAM_FLAG_DIRTY)))
            else (err, w)
      end
  end.

(** [notify_change (param_id, value)]: publish PARAM_CHANGED with the id
    in [payload.u16[0]]; the pointer to the value is modelled by the
    position of the entry plus one. *)
Definition notify_change (in_isr : bool) (now : Z) (w : world)
           (param_id : Z) (i : nat) : world :=
  let sig :=
    mk_signal SIG_PARAM_CHANGED 0
              [Z.land param_id 0xFF; Z.land (Z.shiftr param_id 8) 0xFF; 0; 0]
              (Z.of_nat i + 1) 0 in
  let '(_, bus, reg, _) :=
    ur_publish in_isr now (w_bus w) (w_registry w) sig in
  mk_world (w_param w) bus reg (w_saved w) (w_notified w ++ [sig]).

(** The common tail of every setter once the new value is stored in [e]:
    mark dirty, save when persistent and not in batch mode, notify. *)
Definition commit_change (in_isr : bool) (now : Z) (w : world) (id : Z)
           (i : nat) (e : ur_param_entry_t) (d : ur_param_def_t)
  : ur_err_t * world :=
  let e := mk_entry (entry_def e) (entry_value e)
                    (Z.lor (entry_flags e) UR_PARAM_FLAG_DIRTY) in
  let w := with_entry w i e in
  let w :=
    if negb (param_batch_mode (w_param w))
       && has_flag (def_flags d) UR_PARAM_FLAG_PERSIST
    then snd (save_entry w i e d) else w in
  let w :=
    if has_flag (def_flags d) UR_PARAM_FLAG_NOTIFY
    then notify_change in_isr now w id i else w in
  (UR_OK, w).

(** [PARAM_SET_IMPL (suffix, ctype, member, param_type)]: [member_get] and
    [member_set] read and write the member, [member_eqb] is [==] at the
    member's C type. *)
Definition PARAM_SET_IMPL (param_type : Z)
           (member_get : ur_param_value_t -> Z)
           (member_set : Z -> ur_param_value_t -> ur_param_value_t)
           (member_eqb : Z -> Z -> bool)
           (in_isr : bool) (now : Z) (w : world) (id value : Z)
  : ur_err_t * world :=
  match find_entry (param_entries (w_param w)) id with
  | None => (UR_ERR_NOT_FOUND, w)
  | Some i =>
      match param_entries (w_param w) !! i with
      | None => (UR_ERR_NOT_FOUND, w)
      | Some e =>
          match entry_def e with
          | None => (UR_ERR_NOT_FOUND, w)
          | Some d =>
              if negb (def_type d =? param_type)
              then (UR_ERR_INVALID_ARG, w)
              else if has_flag (def_flags d) UR_PARAM_FLAG_READONLY
              then (UR_ERR_INVALID_STATE, w)
              else if member_eqb (member_get (entry_value e)) value
              then (UR_OK, w)
              else
                commit_change in_isr now w id i
                  (mk_entry (entry_def e)
                            (member_set value (entry_value e))
                            (entry_flags e)) d
          end
      end
  end.

Definition ur_param_set_u8 :=
  PARAM_SET_IMPL UR_PARAM_TYPE_U8 (load_le 1) (store_le 1) Z.eqb.
Definition ur_param_set_u16 :=
  PARAM_SET_IMPL UR_PARAM_TYPE_U16 (load_le 2) (store_le 2) Z.eqb.
Definition ur_param_set_u32 :=
  PARAM_SET_IMPL UR_PARAM_TYPE_U32 (load_le 4) (store_le 4) Z.eqb.
Definition ur_param_set_i8 :=
  PARAM_SET_IMPL UR_PARAM_TYPE_I8 (load_signed 1) (store_le 1) Z.eqb.
Definition ur_param_set_i16 :=
  PARAM_SET_IMPL UR_PARAM_TYPE_I16 (load_signed 2) (store_le 2) Z.eqb.
Definition ur_param_set_i32 :=
  PARAM_SET_IMPL UR_PARAM_TYPE_I32 (load_signed 4) (store_le 4) Z.eqb.
Definition ur_param_set_f32 :=
  PARAM_SET_IMPL UR_PARAM_TYPE_F32 (load_le 4) (store_le 4) f32_eqb.
Definition ur_param_set_bool :=
  PARAM_SET_IMPL UR_PARAM_TYPE_BOOL (load_le 1) (store_le 1) Z.eqb.

(** [strncmp (a, b, n) == 0] on NUL-terminated byte strings; bytes past
    the end of a list read as NUL. *)
Fixpoint strncmp_eq (a b : list Z) (n : nat) : bool :=
  match n with
  | O => true
  | S n' =>
      let x := hd 0 a in
      let y := hd 0 b in
      if x =? y
      then if x =? 0 then true else strncmp_eq (tl a) (tl b) n'
      else false
  end.

(** The [n] bytes [strncpy (dst, src, n)] writes: the characters of [src]
    up to its NUL, then NUL padding. *)
Fixpoint strncpy_bytes (src : list Z) (n : nat) {struct n} : list Z :=
  match n with
  | O => []
  | S n' =>
      match src with
      | c :: rest =>
          if c =? 0 then repeat 0 (S n') else c :: strncpy_bytes rest n'
      | [] => repeat 0 (S n')
      end
  end.

(** [ur_param_set_str]; [def_size] is at least 1 for a string parameter. *)
Definition ur_param_set_str (in_isr : bool) (now : Z) (w : world)
           (id : Z) (value : list Z) : ur_err_t * world :=
  match find_entry (param_entries (w_param w)) id with
  | None => (UR_ERR_NOT_FOUND, w)
  | Some i =>
      match param_entries (w_param w) !! i with
      | None => (UR_ERR_NOT_FOUND, w)
      | Some e =>
          match entry_def e with
          | None => (UR_ERR_NOT_FOUND, w)
          | Some d =>
              if negb (def_type d =? UR_PARAM_TYPE_STR)
              then (UR_ERR_INVALID_ARG, w)
              else if has_flag (def_flags d) UR_PARAM_FLAG_READONLY
              then (UR_ERR_INVALID_STATE, w)
              else
                let n := Z.to_nat (def_size d - 1) in
                if strncmp_eq (entry_value e) value n then (UR_OK, w)
                else
                  commit_change in_isr now w id i
                    (mk_entry (entry_def e)
                              (<[n := 0]>
                                 (memcpy_bytes (entry_value e)
                                               (strncpy_bytes value n)))
                              (entry_flags e)) d
          end
      end
  end.

(** [ur_param_set_blob (id, data, len)] with [len = length data]. *)
Definition ur_param_set_blob (in_isr : bool) (now : Z) (w : world)
           (id : Z) (data : list Z) : ur_err_t * world :=
  if (length data =? 0)%nat then (UR_ERR_INVALID_ARG, w)
  else
    match find_entry (param_entries (w_param w)) id with
    | None => (UR_ERR_NOT_FOUND, w)
    | Some i =>
        match param_entries (w_param w) !! i with
        | None => (UR_ERR_NOT_FOUND, w)
        | Some e =>
            match entry_def e with
            | None => (UR_ERR_NOT_FOUND, w)
            | Some d =>
                if negb (def_type d =? UR_PARAM_TYPE_BLOB)
                then (UR_ERR_INVALID_ARG, w)
                else if has_flag (def_flags d) UR_PARAM_FLAG_READONLY
                then (UR_ERR_INVALID_STATE, w)
                else
                  let copy_len :=
                    Nat.min (length data) (Z.to_nat (def_size d)) in
                  commit_change in_isr now w id i
                    (mk_entry (entry_def e)
                              (memcpy_bytes (entry_value e)
                                            (take copy_len data))
                              (entry_flags e)) d
            end
        end
    end.

(** Every entry holds the full value union. *)
Definition values_wf (w : world) : Prop :=
  Forall (fun e => length (entry_value e)
                   = Z.to_nat UR_CFG_PARAM_MAX_STRING_LEN)
         (param_entries (w_param w)).

(** A setter for which a second set of the same value changes nothing:
    no save, no notification, no change of the store. *)
Definition second_set_is_noop {V : Type}
           (set : bool -> Z -> world -> Z -> V -> ur_err_t * world)
           (w : world) (id : Z) (value : V) : Prop :=
  forall in_isr in_isr' now now',
    let w1 := snd (set in_isr now w id value) in
    snd (set in_isr' now' w1 id value) = w1.

(** String parameters are declared with a size between 1 and the width of
    the value union. *)
Definition str_sizes_wf (w : world) : Prop :=
  Forall (fun e => match entry_def e with
                   | Some d => def_type d = UR_PARAM_TYPE_STR ->
                               1 <= def_size d <= UR_CFG_PARAM_MAX_STRING_LEN
                   | None => True
                   end)
         (param_entries (w_param w)).

(** ** Example: a store with a u8 volume, a blob key and a float gain, all
    NOTIFY and PERSIST, a RAM backend, and one subscriber to
    PARAM_CHANGED. *)

Definition PARAM_VOLUME : Z := 1.
Definition PARAM_KEY : Z := 2.
Definition PARAM_GAIN : Z := 3.

Definition zero_value : ur_param_value_t :=
  repeat 0 (Z.to_nat UR_CFG_PARAM_MAX_STRING_LEN).

Definition volume_def : ur_param_def_t :=
  mk_def PARAM_VOLUME UR_PARAM_TYPE_U8
         (Z.lor UR_PARAM_FLAG_PERSIST UR_PARAM_FLAG_NOTIFY) 100 0 zero_value.

Definition key_def : ur_param_def_t :=
  mk_def PARAM_KEY UR_PARAM_TYPE_BLOB
         (Z.lor UR_PARAM_FLAG_PERSIST UR_PARAM_FLAG_NOTIFY) 101 8 zero_value.

Definition gain_def : ur_param_def_t :=
  mk_def PARAM_GAIN UR_PARAM_TYPE_F32
         (Z.lor UR_PARAM_FLAG_PERSIST UR_PARAM_FLAG_NOTIFY) 102 0 zero_value.

Definition ur_param_storage_ram : ur_param_storage_t :=
  mk_storage (Some (fun _ _ _ _ => UR_OK)).

Definition listener : ur_entity_t := subscriber 1 [].

Definition sample_world : world :=
  mk_world
    (mk_param [mk_entry (Some volume_def) zero_value
                        (Z.lor UR_PARAM_FLAG_PERSIST UR_PARAM_FLAG_NOTIFY);
               mk_entry (Some key_def) zero_value
                        (Z.lor UR_PARAM_FLAG_PERSIST UR_PARAM_FLAG_NOTIFY);
               mk_entry (Some gain_def) zero_value
                        (Z.lor UR_PARAM_FLAG_PERSIST UR_PARAM_FLAG_NOTIFY)]
              (Some ur_param_storage_ram) false)
    (snd (ur_subscribe g_bus_zero listener SIG_PARAM_CHANGED))
    (snd (ur_register_entity registry_empty listener))
    [] [].

Definition sample_key : list Z := [1; 2; 3; 4].

(** The bit pattern of a quiet NaN. *)
Definition f32_quiet_nan : Z := 0x7FC00000.

(** ** Getters, batch mode and saving *)

(** [PARAM_GET_IMPL (suffix, ctype, member, param_type)] for a non-NULL
    [value]: the error code, and [*value] when it was written. *)
Definition PARAM_GET_IMPL (param_type : Z)
           (member_get : ur_param_value_t -> Z) (w : world) (id : Z)
  : ur_err_t * option Z :=
  match find_entry (param_entries (w_param w)) id with
  | None => (UR_ERR_NOT_FOUND, None)
  | Some i =>
      match param_entries (w_param w) !! i with
      | None => (UR_ERR_NOT_FOUND, None)
      | Some e =>
          match entry_def e with
          | None => (UR_ERR_NOT_FOUND, None)
          | Some d =>
              if negb (def_type d =? param_type)
              then (UR_ERR_INVALID_ARG, None)
              else (UR_OK, Some (member_get (entry_value e)))
          end
      end
  end.

Definition ur_param_get_u8 := PARAM_GET_IMPL UR_PARAM_TYPE_U8 (load_le 1).
Definition ur_param_get_u16 := PARAM_GET_IMPL UR_PARAM_TYPE_U16 (load_le 2).
Definition ur_param_get_u32 := PARAM_GET_IMPL UR_PARAM_TYPE_U32 (load_le 4).
Definition ur_param_get_i8 := PARAM_GET_IMPL UR_PARAM_TYPE_I8 (load_signed 1).
Definition ur_param_get_i16 :=
  PARAM_GET_IMPL UR_PARAM_TYPE_I16 (load_signed 2).
Definition ur_param_get_i32 :=
  PARAM_GET_IMPL UR_PARAM_TYPE_I32 (load_signed 4).
Definition ur_param_get_f32 := PARAM_GET_IMPL UR_PARAM_TYPE_F32 (load_le 4).
Definition ur_param_get_bool := PARAM_GET_IMPL UR_PARAM_TYPE_BOOL (load_le 1).

Definition with_batch_mode (w : world) (b : bool) : world :=
  mk_world
    (mk_param (param_entries (w_param w)) (param_storage (w_param w)) b)
    (w_bus w) (w_registry w) (w_saved w) (w_notified w).

(** [ur_param_batch_begin] *)
Definition ur_param_batch_begin (w : world) : world := with_batch_mode w true.

(** One iteration of the loop of [ur_param_save_all], on
    [g_param.entries[i]]; [saved] counts the entries [save_entry] returned
    [UR_OK] for.  [save_entry] reads [entry->def] once a [save] callback is
    there: for a dirty entry whose [def] is NULL the result is [None]. *)
Definition save_all_step (acc : option (nat * world)) (i : nat)
  : option (nat * world) :=
  match acc with
  | None => None
  | Some (saved, w) =>
      match param_entries (w_param w) !! i with
      | None => Some (saved, w)
      | Some e =>
          if has_flag (entry_flags e) UR_PARAM_FLAG_DIRTY
          then
            match entry_def e with
            | Some d =>
                let '(err, w') := save_entry w i e d in
                Some (if ur_err_eqb err UR_OK then S saved else saved, w')
            | None =>
                match param_storage (w_param w) with
                | Some (mk_storage (Some _)) => None
                | _ => Some (S saved, w)
                end
            end
          else Some (saved, w)
      end
  end.

(** [ur_param_save_all]: the number it returns and the world afterwards.
    The [commit] callback called at the end acts on the storage medium
    only. *)
Definition ur_param_save_all (w : world) : option (nat * world) :=
  match param_storage (w_param w) with
  | None => Some (O, w)
  | Some _ =>
      fold_left save_all_step
                (seq 0 (length (param_entries (w_param w))))
                (Some (O, w))
  end.

(** [ur_param_commit] *)
Definition ur_param_commit (w : world) : option (nat * world) :=
  ur_param_save_all (with_batch_mode w false).

(** An entry [ur_param_save_all] hands to the [save] callback: dirty, and
    declared persistent. *)
Definition needs_save (e : ur_param_entry_t) : bool :=
  has_flag (entry_flags e) UR_PARAM_FLAG_DIRTY
  && match entry_def e with
     | Some d => has_flag (def_flags d) UR_PARAM_FLAG_PERSIST
     | None => false
     end.

(** The key and the value the [save] callback gets for an entry. *)
Definition save_record (e : ur_param_entry_t) : Z * ur_param_value_t :=
  (match entry_def e with Some d => def_name d | None => 0 end,
   entry_value e).

(** Every entry of the table has its definition, as [ur_param_init] leaves
    the table. *)
Definition defs_present (w : world) : Prop :=
  Forall (fun e => entry_def e <> None) (param_entries (w_param w)).

End Param.

(* ====================================================================== *)
(** * Properties                                                          *)
(* ====================================================================== *)

(** ** Power manager *)

Lemma allowed_mode_empty (b : bool) :
  Power.ur_power_get_allowed_mode (Power.mk_power [] b)
  = Power.UR_POWER_DEEP_SLEEP.
Proof. reflexivity. Qed.

(** The scan only asks whether a mode itself is named by a lock: a state
    whose locks all name LIGHT_SLEEP leaves DEEP_SLEEP allowed. *)
Lemma allowed_mode_ignores_shallower_locks (g : Power.g_power_t) :
  Power.ur_power_is_locked g Power.UR_POWER_DEEP_SLEEP = false ->
  Power.ur_power_get_allowed_mode g = Power.UR_POWER_DEEP_SLEEP.
Proof.
  intros H. unfold Power.ur_power_get_allowed_mode. simpl.
  rewrite H. reflexivity.
Qed.

(** C1 (code at the failing input).  From the empty lock set the allowed
    mode is DEEP_SLEEP; after one [ur_power_lock (e, LIGHT_SLEEP)] the lock
    is recorded and LIGHT_SLEEP is reported locked, yet
    [ur_power_get_allowed_mode] still answers DEEP_SLEEP, where the
    documented semantics ("that mode or deeper" is prevented) gives IDLE. *)
Theorem power_light_sleep_lock_leaves_deep_sleep_allowed (e : Z) :
  let g0 := Power.g_power_zero in
  let '(err, g1) := Power.ur_power_lock g0 e Power.UR_POWER_LIGHT_SLEEP in
  Power.ur_power_get_allowed_mode g0 = Power.UR_POWER_DEEP_SLEEP
  /\ err = UR_OK
  /\ Power.locks g1 = [Power.mk_lock e Power.UR_POWER_LIGHT_SLEEP 1]
  /\ Power.ur_power_is_locked g1 Power.UR_POWER_LIGHT_SLEEP = true
  /\ Power.ur_power_get_allowed_mode g1 = Power.UR_POWER_DEEP_SLEEP
  /\ Power.allowed_mode_by_doc g1 = Power.UR_POWER_IDLE.
Proof.
  cbv zeta. unfold Power.ur_power_lock. simpl.
  repeat split; reflexivity.
Qed.

(** ** Core engine: forced transitions *)

Section CoreProperties.
Import Core.

Lemma find_state_id (states : list ur_state_def_t) (id : Z)
      (s : ur_state_def_t) :
  find_state states id = Some s -> st_id s = id.
Proof.
  induction states as [|x xs IH]; simpl; [discriminate|].
  destruct (st_id x =? id) eqn:E; [|exact IH].
  intros [= <-]. now apply Z.eqb_eq.
Qed.

Lemma reset_flow_fields (e : ur_entity_t) :
  ent_flow_line (reset_flow e) = 0
  /\ ent_flow_wait_sig (reset_flow e) = SIG_NONE
  /\ ent_flow_wait_until (reset_flow e) = 0
  /\ flag_set (reset_flow e) UR_FLAG_FLOW_RUNNING = false
  /\ ent_current_state (reset_flow e) = ent_current_state e.
Proof.
  repeat split. unfold flag_set, reset_flow; simpl.
  apply negb_false_iff, Z.eqb_eq. apply Z.bits_inj'. intros n Hn.
  rewrite Z.land_spec, Z.ldiff_spec, Z.bits_0.
  destruct (Z.testbit UR_FLAG_FLOW_RUNNING n); simpl;
    now rewrite ?andb_false_r.
Qed.

(** What [ur_set_state] does on a started entity (current state nonzero)
    for an existing target: exit action of the current state, flow reset,
    swap, entry action of the target. *)
Lemma ur_set_state_started (t : ur_entity_tables) (now : Z)
      (ent : ur_entity_t) (state_id : Z) (new_state : ur_state_def_t) :
  ent_current_state ent <> 0 ->
  find_state (tab_states t) state_id = Some new_state ->
  ur_set_state t now ent state_id
  = (UR_OK,
     run_hook (st_on_entry new_state)
       (set_current_state
          (reset_flow
             (run_hook (state_on_exit t (ent_current_state ent)) ent
                       (exit_signal now ent)))
          state_id)
       (entry_signal now ent),
     hook_call (state_on_exit t (ent_current_state ent))
               (CallOnExit (ent_current_state ent) (exit_signal now ent))
     ++ hook_call (st_on_entry new_state)
                  (CallOnEntry state_id (entry_signal now ent))).
Proof.
  intros Hcur Hfind. unfold ur_set_state. rewrite Hfind.
  destruct (ent_current_state ent =? 0) eqn:E.
  - apply Z.eqb_eq in E. contradiction.
  - reflexivity.
Qed.

Lemma ur_set_state_missing (t : ur_entity_tables) (now : Z)
      (ent : ur_entity_t) (state_id : Z) :
  find_state (tab_states t) state_id = None ->
  ur_set_state t now ent state_id = (UR_ERR_NOT_FOUND, ent, []).
Proof. intros H. unfold ur_set_state. now rewrite H. Qed.

(** C9.  [ur_set_state] with the target equal to the current (nonzero,
    existing) state is not short-circuited: it returns [UR_OK] after
    calling the state's on-exit action with an EXIT signal, zeroing the
    flow coroutine state (line, awaited signal, wake time, flow-running
    flag) and calling the same state's on-entry action with an ENTRY
    signal; the entity handed to on-entry is still in that state. *)
Theorem set_state_same_id_runs_exit_and_entry
        (t : ur_entity_tables) (now : Z) (ent : ur_entity_t)
        (st : ur_state_def_t) :
  ent_current_state ent <> 0 ->
  find_state (tab_states t) (ent_current_state ent) = Some st ->
  let cur := ent_current_state ent in
  let after_exit := run_hook (st_on_exit st) ent (exit_signal now ent) in
  let mid := set_current_state (reset_flow after_exit) cur in
  ur_set_state t now ent cur
  = (UR_OK,
     run_hook (st_on_entry st) mid (entry_signal now ent),
     hook_call (st_on_exit st) (CallOnExit cur (exit_signal now ent))
     ++ hook_call (st_on_entry st) (CallOnEntry cur (entry_signal now ent)))
  /\ sig_id (exit_signal now ent) = SIG_SYS_EXIT
  /\ sig_id (entry_signal now ent) = SIG_SYS_ENTRY
  /\ ent_current_state mid = cur
  /\ ent_flow_line mid = 0
  /\ ent_flow_wait_sig mid = SIG_NONE
  /\ ent_flow_wait_until mid = 0
  /\ flag_set mid UR_FLAG_FLOW_RUNNING = false.
Proof.
  intros Hcur Hfind cur after_exit mid.
  split.
  - subst cur mid after_exit.
    rewrite (ur_set_state_started t now ent _ st Hcur Hfind).
    unfold state_on_exit. rewrite Hfind. reflexivity.
  - destruct (reset_flow_fields after_exit) as (H1 & H2 & H3 & H4 & _).
    repeat split; assumption.
Qed.

(** The theorem at the controller of the examples: both hooks run, in the
    order exit (mark 2) then entry (mark 3), and the flow state is gone. *)
Lemma set_state_same_id_witness :
  ur_set_state controller_tables 0 (controller []) STATE_NORMAL
  = (UR_OK,
     mk_entity 1 STATE_NORMAL UR_FLAG_ACTIVE STATE_STANDBY 0 0 0 [2; 3] 0 [],
     [CallOnExit STATE_NORMAL (exit_signal 0 (controller []));
      CallOnEntry STATE_NORMAL (entry_signal 0 (controller []))]).
Proof.
  pose proof (set_state_same_id_runs_exit_and_entry
                controller_tables 0 (controller [])
                (mk_state STATE_NORMAL STATE_STANDBY (Some act_on_entry)
                          (Some act_on_exit) normal_rules)) as H.
  cbv zeta in H.
  specialize (H ltac:(discriminate) eq_refl).
  destruct H as [H _]. exact H.
Defined.


(** ** Core engine: dispatch *)

Lemma chain_log_middleware_only (mws : list ur_middleware_t) :
  forall i ent sig ent1 sig1 r log,
    run_middleware_chain_from i mws ent sig = (ent1, sig1, r, log) ->
    forallb is_middleware_call log = true
    /\ (r = UR_MW_CONTINUE \/ r = UR_MW_HANDLED \/ r = UR_MW_FILTERED).
Proof.
  induction mws as [|mw rest IH]; intros i ent sig ent1 sig1 r log; simpl.
  - intros [= <- <- <- <-]. auto.
  - destruct (if mw_enabled mw =? 0 then None else mw_fn mw) as [fn|];
      [|apply IH].
    destruct (fn ent sig (mw_ctx mw)) as [[e' s'] res].
    destruct ((res =? UR_MW_FILTERED) || (res =? UR_MW_HANDLED)) eqn:E.
    + intros [= <- <- <- <-]. split; [reflexivity|].
      apply orb_true_iff in E as [E|E]; apply Z.eqb_eq in E; auto.
    + destruct (run_middleware_chain_from (S i) rest e' s')
        as [[[e2 s2] r2] l2] eqn:R.
      intros [= <- <- <- <-]. apply IH in R as [R1 R2]. simpl. auto.
Qed.

(** [ur_dispatch] once the chain has let the signal through. *)
Lemma ur_dispatch_after_chain (fuel : nat) (t : ur_entity_tables) (now : Z)
      (ent : ur_entity_t) (sig0 : ur_signal_t) (rest : list ur_signal_t)
      (e0 : ur_entity_t) (s0 : ur_signal_t) (r : Z) (log_mw : list ur_call) :
  flag_set ent UR_FLAG_ACTIVE = true ->
  flag_set ent UR_FLAG_SUSPENDED = false ->
  ent_inbox ent = sig0 :: rest ->
  run_middleware_chain t (set_inbox ent rest) sig0 = (e0, s0, r, log_mw) ->
  r <> UR_MW_FILTERED -> r <> UR_MW_HANDLED ->
  ur_dispatch fuel t now ent
  = match dispatch_rule fuel t now e0 s0 with
    | Some (err, e2, log) => Some (err, e2, log_mw ++ log)
    | None => None
    end.
Proof.
  intros Ha Hs Hq Hc Hf Hh. unfold ur_dispatch.
  rewrite Ha, Hs, Hq. simpl. rewrite Hc.
  apply Z.eqb_neq in Hf, Hh. now rewrite Hf, Hh.
Qed.

(** The next state chosen by a matched rule: the action's return value,
    or the rule's declared target when the action returns 0. *)
Lemma dispatch_rule_matched (fuel : nat) (t : ur_entity_tables) (now : Z)
      (ent : ur_entity_t) (sig : ur_signal_t) (rule : ur_rule_t)
      (action : ur_action_fn_t) :
  cascading_lookup fuel t ent (sig_id sig) = Some (Some rule) ->
  rule_action rule = Some action ->
  let ent1 := fst (action ent sig) in
  let ret := snd (action ent sig) in
  let next := if ret =? 0 then rule_next_state rule else ret in
  dispatch_rule fuel t now ent sig
  = if negb (next =? 0) && negb (next =? ent_current_state ent1)
    then Some (UR_OK, snd (fst (ur_set_state t now ent1 next)),
               [CallAction (rule_signal_id rule) sig]
               ++ snd (ur_set_state t now ent1 next))
    else Some (UR_OK, ent1, [CallAction (rule_signal_id rule) sig]).
Proof.
  intros Hl Ha ent1 ret next. unfold dispatch_rule. rewrite Hl, Ha.
  subst ent1 ret next. destruct (action ent sig) as [e1 res]. simpl.
  destruct (negb _ && negb _); [|reflexivity].
  unfold execute_transition.
  destruct (ur_set_state t now e1 _) as [[err e2] lg]. reflexivity.
Qed.

(** What a matched rule does, whether it has an action or not: the entity
    after the action, the next state chosen, and the action call made. *)
Lemma dispatch_rule_found (fuel : nat) (t : ur_entity_tables) (now : Z)
      (ent : ur_entity_t) (sig : ur_signal_t) (rule : ur_rule_t) :
  cascading_lookup fuel t ent (sig_id sig) = Some (Some rule) ->
  let ent1 := match rule_action rule with
              | Some action => fst (action ent sig)
              | None => ent
              end in
  let next := match rule_action rule with
              | Some action =>
                  if snd (action ent sig) =? 0 then rule_next_state rule
                  else snd (action ent sig)
              | None => rule_next_state rule
              end in
  let calls := match rule_action rule with
               | Some _ => [CallAction (rule_signal_id rule) sig]
               | None => []
               end in
  dispatch_rule fuel t now ent sig
  = if negb (next =? 0) && negb (next =? ent_current_state ent1)
    then Some (UR_OK, snd (fst (ur_set_state t now ent1 next)),
               calls ++ snd (ur_set_state t now ent1 next))
    else Some (UR_OK, ent1, calls).
Proof.
  intros Hl ent1 next calls. unfold dispatch_rule. rewrite Hl.
  subst ent1 next calls.
  destruct (rule_action rule) as [action|].
  - destruct (action ent sig) as [e1 res].
    cbn [fst snd]. destruct (negb _ && negb _); [|reflexivity].
    unfold execute_transition.
    destruct (ur_set_state t now e1 _) as [[err e2] lg]. reflexivity.
  - destruct (negb _ && negb _); [|reflexivity].
    unfold execute_transition.
    destruct (ur_set_state t now ent _) as [[err e2] lg]. reflexivity.
Qed.

(** C3 (amended).  When the chain lets the signal through and a rule
    matches, a non-null rule action is called exactly once, with the entity
    and the signal, and a NULL action is not called.  The resulting next
    state is the action's return value when that is nonzero; when the
    action returns 0, or the rule has no action, it is the rule's declared
    next state: a return of 0 does not keep the entity where it is, it
    leaves the rule's declared next state in force.  For an entity whose
    current state is nonzero, the transition protocol runs iff the
    resulting next state is nonzero, differs from the current state and is
    found in the entity's state table: on-exit of the old state with an
    EXIT signal, flow reset, swap of the current state id, on-entry of the
    new state with an ENTRY signal, in that order.  Otherwise (next state
    0, equal to the current state, or not in the table) nothing but the
    action runs. *)
Theorem dispatch_transition_protocol
        (fuel : nat) (t : ur_entity_tables) (now : Z)
        (ent : ur_entity_t) (sig0 : ur_signal_t) (rest : list ur_signal_t)
        (e0 : ur_entity_t) (s0 : ur_signal_t) (r : Z)
        (log_mw : list ur_call) (rule : ur_rule_t) :
  flag_set ent UR_FLAG_ACTIVE = true ->
  flag_set ent UR_FLAG_SUSPENDED = false ->
  ent_inbox ent = sig0 :: rest ->
  run_middleware_chain t (set_inbox ent rest) sig0 = (e0, s0, r, log_mw) ->
  r <> UR_MW_FILTERED -> r <> UR_MW_HANDLED ->
  cascading_lookup fuel t e0 (sig_id s0) = Some (Some rule) ->
  let e1 := match rule_action rule with
            | Some action => fst (action e0 s0)
            | None => e0
            end in
  let next := match rule_action rule with
              | Some action =>
                  if snd (action e0 s0) =? 0 then rule_next_state rule
                  else snd (action e0 s0)
              | None => rule_next_state rule
              end in
  let calls := match rule_action rule with
               | Some _ => [CallAction (rule_signal_id rule) s0]
               | None => []
               end in
  let cur := ent_current_state e1 in
  let on_exit := state_on_exit t cur in
  cur <> 0 ->
  (forall new_state,
      next <> 0 -> next <> cur ->
      find_state (tab_states t) next = Some new_state ->
      let exited := run_hook on_exit e1 (exit_signal now e1) in
      let swapped := set_current_state (reset_flow exited) next in
      ur_dispatch fuel t now ent
      = Some (UR_OK,
              run_hook (st_on_entry new_state) swapped (entry_signal now e1),
              log_mw ++ calls
              ++ hook_call on_exit (CallOnExit cur (exit_signal now e1))
              ++ hook_call (st_on_entry new_state)
                           (CallOnEntry next (entry_signal now e1)))
      /\ fsm_view swapped = (next, 0, SIG_NONE, 0, false))
  /\ (next = 0 \/ next = cur \/ find_state (tab_states t) next = None ->
      ur_dispatch fuel t now ent = Some (UR_OK, e1, log_mw ++ calls))
  /\ (forall err e2 log,
         ur_dispatch fuel t now ent = Some (err, e2, log) ->
         List.filter is_action_call log = calls).
Proof.
  intros Ha Hs Hq Hc Hf Hh Hl e1 next calls cur on_exit Hcur.
  pose proof (ur_dispatch_after_chain fuel t now ent sig0 rest e0 s0 r log_mw
                Ha Hs Hq Hc Hf Hh) as Hd.
  pose proof (dispatch_rule_found fuel t now e0 s0 rule Hl) as Hr.
  cbv zeta in Hr. fold e1 next calls in Hr. fold cur in Hr.
  assert (Hmw : List.filter is_action_call log_mw = []).
  { apply chain_log_middleware_only in Hc as [Hc _].
    clear -Hc. induction log_mw as [|c l IH]; [reflexivity|].
    simpl in Hc. apply andb_true_iff in Hc as [Hc1 Hc2].
    destruct c; try discriminate. simpl. auto. }
  assert (Hcalls : List.filter is_action_call calls = calls)
    by (subst calls; destruct (rule_action rule); reflexivity).
  split; [|split].
  - intros new_state Hn0 Hnc Hfind exited swapped.
    split.
    + rewrite Hd, Hr.
      apply Z.eqb_neq in Hn0, Hnc. rewrite Hn0, Hnc. simpl.
      rewrite (ur_set_state_started t now e1 next new_state Hcur Hfind).
      reflexivity.
    + subst swapped. unfold fsm_view.
      destruct (reset_flow_fields exited) as (H1 & H2 & H3 & H4 & _).
      unfold set_current_state, flag_set in *. simpl in *.
      now rewrite H4.
  - intros Hno. rewrite Hd, Hr.
    destruct (negb (next =? 0) && negb (next =? cur)) eqn:E; [|reflexivity].
    apply andb_true_iff in E as [E1 E2].
    apply negb_true_iff, Z.eqb_neq in E1, E2.
    destruct Hno as [Hno|[Hno|Hno]]; try contradiction.
    rewrite (ur_set_state_missing t now e1 next Hno).
    cbn [fst snd]. now rewrite app_nil_r.
  - intros err e2 log. rewrite Hd, Hr.
    destruct (negb (next =? 0) && negb (next =? cur)) eqn:E.
    + intros [= <- <- <-]. rewrite !List.filter_app, Hmw, Hcalls.
      cbn [app].
      unfold ur_set_state.
      destruct (find_state (tab_states t) next) as [ns|];
        [|cbn [snd List.filter]; apply app_nil_r].
      apply Z.eqb_neq in Hcur. fold cur. rewrite Hcur. cbn [snd].
      rewrite List.filter_app.
      destruct (state_on_exit t cur), (st_on_entry ns); cbn;
        apply app_nil_r.
    + intros [= <- <- <-]. rewrite List.filter_app, Hmw, Hcalls.
      reflexivity.
Qed.

(** The protocol at the controller of the examples.  With an action:
    POWER_OFF reaches the rule of the parent state, whose action returns 0
    and whose target STANDBY exists, and the entity moves to STANDBY; the
    scratchpad shows the order action (1), on-exit (2), on-entry (3).
    Without an action: the rule [{SIG_POWER_OFF, STATE_STANDBY, NULL}] of
    NORMAL makes the same transition with no action call. *)
Lemma dispatch_transition_witness :
  ur_dispatch 1 controller_tables 0 (controller [sample_signal SIG_POWER_OFF])
  = Some (UR_OK,
          mk_entity 1 STATE_STANDBY UR_FLAG_ACTIVE STATE_STANDBY 0 0 0
                    [1; 2; 3] 0 [],
          [CallAction SIG_POWER_OFF (sample_signal SIG_POWER_OFF);
           CallOnExit STATE_NORMAL (exit_signal 0 (controller []));
           CallOnEntry STATE_STANDBY (entry_signal 0 (controller []))])
  /\ ur_dispatch 0 silent_tables 0 (controller [sample_signal SIG_POWER_OFF])
     = Some (UR_OK,
             mk_entity 1 STATE_STANDBY UR_FLAG_ACTIVE STATE_STANDBY 0 0 0
                       [2; 3] 0 [],
             [CallOnExit STATE_NORMAL (exit_signal 0 (controller []));
              CallOnEntry STATE_STANDBY (entry_signal 0 (controller []))]).
Proof.
  split.
  - pose proof (dispatch_transition_protocol
                  1 controller_tables 0
                  (controller [sample_signal SIG_POWER_OFF])
                  (sample_signal SIG_POWER_OFF) []
                  (controller []) (sample_signal SIG_POWER_OFF)
                  UR_MW_CONTINUE []
                  (mk_rule SIG_POWER_OFF STATE_STANDBY (Some act_power_off)))
      as H.
    cbv zeta in H.
    specialize (H eq_refl eq_refl eq_refl eq_refl
                  ltac:(discriminate) ltac:(discriminate) eq_refl
                  ltac:(discriminate)).
    destruct H as [H _].
    specialize (H (mk_state STATE_STANDBY 0 (Some act_on_entry)
                            (Some act_on_exit) standby_rules)
                  ltac:(discriminate) ltac:(discriminate) eq_refl).
    destruct H as [H _]. exact H.
  - pose proof (dispatch_transition_protocol
                  0 silent_tables 0
                  (controller [sample_signal SIG_POWER_OFF])
                  (sample_signal SIG_POWER_OFF) []
                  (controller []) (sample_signal SIG_POWER_OFF)
                  UR_MW_CONTINUE []
                  (mk_rule SIG_POWER_OFF STATE_STANDBY None))
      as H.
    cbv zeta in H.
    specialize (H eq_refl eq_refl eq_refl eq_refl
                  ltac:(discriminate) ltac:(discriminate) eq_refl
                  ltac:(discriminate)).
    destruct H as [H _].
    specialize (H (mk_state STATE_STANDBY 0 (Some act_on_entry)
                            (Some act_on_exit) [])
                  ltac:(discriminate) ltac:(discriminate) eq_refl).
    destruct H as [H _]. exact H.
Defined.

(** C3 (as stated) fails when the target is not in the state table: the
    rule of NORMAL for SIG_GOTO_MISSING names state 7, which is nonzero and
    differs from the current state 2, yet only the action runs; no exit or
    entry action is called, the flow state is not reset and the entity
    stays in NORMAL. *)
Lemma dispatch_transition_missing_target :
  let ent := controller [sample_signal SIG_GOTO_MISSING] in
  cascading_lookup 0 controller_tables (set_inbox ent [])
                   SIG_GOTO_MISSING
  = Some (Some (mk_rule SIG_GOTO_MISSING 7 (Some act_power_off)))
  /\ snd (act_power_off (set_inbox ent [])
                        (sample_signal SIG_GOTO_MISSING)) = 0
  /\ 7 <> 0 /\ 7 <> ent_current_state ent
  /\ ur_dispatch 0 controller_tables 0 ent
     = Some (UR_OK,
             mk_entity 1 STATE_NORMAL
                       (Z.lor UR_FLAG_ACTIVE UR_FLAG_FLOW_RUNNING)
                       STATE_STANDBY 5 9 77 [1] 0 [],
             [CallAction SIG_GOTO_MISSING (sample_signal SIG_GOTO_MISSING)]).
Proof. repeat split; discriminate. Qed.

(** ** Core engine: hierarchical bubble-up *)

(** C2 (amended).  An entity in child state NORMAL whose parent STANDBY has
    the rule {POWER_OFF, STANDBY, act}, with no rule for POWER_OFF in NORMAL
    or in a mixin and no middleware: dispatching POWER_OFF runs [act] through
    the parent rule, and when [act] returns 0 and leaves the entity in
    NORMAL, the rule's target STANDBY differs from the current state, so
    the transition protocol runs: on-exit of NORMAL, flow reset, current
    state becomes STANDBY, on-entry of STANDBY. *)
Theorem hsm_bubble_up_transitions_to_parent
        (fuel : nat) (t : ur_entity_tables) (now : Z)
        (ent : ur_entity_t) (sig : ur_signal_t) (rest : list ur_signal_t)
        (NORMAL STANDBY POWER_OFF : Z)
        (normal standby : ur_state_def_t) (act : ur_action_fn_t) :
  flag_set ent UR_FLAG_ACTIVE = true ->
  flag_set ent UR_FLAG_SUSPENDED = false ->
  tab_middleware t = [] ->
  ent_inbox ent = sig :: rest ->
  sig_id sig = POWER_OFF ->
  ent_current_state ent = NORMAL ->
  NORMAL <> 0 -> STANDBY <> 0 -> STANDBY <> NORMAL ->
  find_state (tab_states t) NORMAL = Some normal ->
  st_parent_id normal = STANDBY ->
  find_rule_in_state normal POWER_OFF = None ->
  find_rule_in_mixins (tab_mixins t) POWER_OFF = None ->
  find_state (tab_states t) STANDBY = Some standby ->
  find_rule_in_state standby POWER_OFF
  = Some (mk_rule POWER_OFF STANDBY (Some act)) ->
  let e1 := fst (act (set_inbox ent rest) sig) in
  snd (act (set_inbox ent rest) sig) = 0 ->
  ent_current_state e1 = NORMAL ->
  (1 <= fuel)%nat ->
  let exited := run_hook (st_on_exit normal) e1 (exit_signal now e1) in
  let swapped := set_current_state (reset_flow exited) STANDBY in
  cascading_lookup fuel t (set_inbox ent rest) POWER_OFF
  = Some (Some (mk_rule POWER_OFF STANDBY (Some act)))
  /\ ur_dispatch fuel t now ent
     = Some (UR_OK,
             run_hook (st_on_entry standby) swapped (entry_signal now e1),
             [CallAction POWER_OFF sig]
             ++ hook_call (st_on_exit normal)
                          (CallOnExit NORMAL (exit_signal now e1))
             ++ hook_call (st_on_entry standby)
                          (CallOnEntry STANDBY (entry_signal now e1)))
  /\ ent_current_state swapped = STANDBY.
Proof.
  intros Ha Hs Hmw Hq Hid Hcur Hn0 Hs0 Hsn Hfn Hpar Hrn Hrm Hfs Hrs
         e1 Hret Hcur1 Hfuel exited swapped.
  assert (Hl : cascading_lookup fuel t (set_inbox ent rest) POWER_OFF
               = Some (Some (mk_rule POWER_OFF STANDBY (Some act)))).
  { unfold cascading_lookup. simpl. rewrite Hcur, Hfn, Hrn, Hrm.
    destruct fuel as [|fuel']; [lia|]. simpl.
    rewrite Hpar. apply Z.eqb_neq in Hs0. rewrite Hs0, Hfs, Hrs.
    reflexivity. }
  split; [exact Hl|]. split; [|reflexivity].
  rewrite (ur_dispatch_after_chain fuel t now ent sig rest
             (set_inbox ent rest) sig UR_MW_CONTINUE [] Ha Hs Hq);
    try discriminate;
    [|unfold run_middleware_chain; now rewrite Hmw].
  rewrite <- Hid in Hl.
  rewrite (dispatch_rule_matched fuel t now (set_inbox ent rest) sig _ act
             Hl eq_refl).
  simpl. rewrite Hret. simpl. fold e1. rewrite Hcur1.
  apply Z.eqb_neq in Hs0, Hsn. rewrite Hs0, Hsn. simpl.
  rewrite (ur_set_state_started t now e1 STANDBY standby); try congruence.
  unfold state_on_exit. rewrite Hcur1, Hfn, Hid. reflexivity.
Qed.

Lemma hsm_bubble_up_witness :
  ur_dispatch 3 controller_tables 7 (controller [sample_signal SIG_POWER_OFF])
  = Some (UR_OK,
          mk_entity 1 STATE_STANDBY UR_FLAG_ACTIVE STATE_STANDBY 0 0 0
                    [1; 2; 3] 0 [],
          [CallAction SIG_POWER_OFF (sample_signal SIG_POWER_OFF);
           CallOnExit STATE_NORMAL (exit_signal 7 (controller []));
           CallOnEntry STATE_STANDBY (entry_signal 7 (controller []))]).
Proof.
  pose proof (hsm_bubble_up_transitions_to_parent
                3 controller_tables 7
                (controller [sample_signal SIG_POWER_OFF])
                (sample_signal SIG_POWER_OFF) []
                STATE_NORMAL STATE_STANDBY SIG_POWER_OFF
                (mk_state STATE_NORMAL STATE_STANDBY (Some act_on_entry)
                          (Some act_on_exit) normal_rules)
                (mk_state STATE_STANDBY 0 (Some act_on_entry)
                          (Some act_on_exit) standby_rules)
                act_power_off) as H.
  cbv zeta in H.
  specialize (H eq_refl eq_refl eq_refl eq_refl eq_refl eq_refl
                ltac:(discriminate) ltac:(discriminate) ltac:(discriminate)
                eq_refl eq_refl eq_refl eq_refl eq_refl eq_refl
                eq_refl eq_refl ltac:(lia)).
  destruct H as (_ & H & _). exact H.
Defined.

(** C2 (as stated) fails: after the dispatch of POWER_OFF the controller is
    no longer in NORMAL, and the exit action of NORMAL and the entry action
    of STANDBY have both been called. *)
Lemma hsm_bubble_up_leaves_child_state :
  match ur_dispatch 1 controller_tables 0
                    (controller [sample_signal SIG_POWER_OFF]) with
  | Some (_, e', log) =>
      ent_current_state e' = STATE_STANDBY
      /\ ent_current_state e' <> STATE_NORMAL
      /\ In (CallOnExit STATE_NORMAL (exit_signal 0 (controller []))) log
      /\ In (CallOnEntry STATE_STANDBY (entry_signal 0 (controller []))) log
  | None => False
  end.
Proof.
  simpl. repeat split; try discriminate; auto.
Qed.

(** ** Core engine: middleware chain *)

Lemma chain_step (i : nat) (mw : ur_middleware_t)
      (rest : list ur_middleware_t) (e : ur_entity_t) (s : ur_signal_t)
      (fn : ur_middleware_fn_t) :
  mw_enabled mw <> 0 -> mw_fn mw = Some fn ->
  let e' := fst (fst (fn e s (mw_ctx mw))) in
  let s' := snd (fst (fn e s (mw_ctx mw))) in
  let res := snd (fn e s (mw_ctx mw)) in
  (res = UR_MW_HANDLED \/ res = UR_MW_FILTERED ->
   run_middleware_chain_from i (mw :: rest) e s
   = (e', s', res, [CallMiddleware i s]))
  /\ (res <> UR_MW_HANDLED -> res <> UR_MW_FILTERED ->
      run_middleware_chain_from i (mw :: rest) e s
      = let '(e2, s2, r2, l2) :=
          run_middleware_chain_from (S i) rest e' s' in
        (e2, s2, r2, CallMiddleware i s :: l2)).
Proof.
  intros Hen Hfn e' s' res. subst e' s' res. simpl.
  apply Z.eqb_neq in Hen. rewrite Hen, Hfn.
  destruct (fn e s (mw_ctx mw)) as [[e1 s1] r1]. simpl. split.
  - intros [-> | ->]; reflexivity.
  - intros H1 H2. apply Z.eqb_neq in H1, H2. now rewrite H1, H2.
Qed.

Lemma chain_keeps_fsm (mws : list ur_middleware_t) :
  (forall mw fn, In mw mws -> mw_fn mw = Some fn -> mw_keeps_fsm fn) ->
  forall i ent sig ent1 sig1 r log,
    run_middleware_chain_from i mws ent sig = (ent1, sig1, r, log) ->
    fsm_view ent1 = fsm_view ent.
Proof.
  induction mws as [|mw rest IH]; intros Hk i ent sig ent1 sig1 r log; simpl.
  - now intros [= <- _ _ _].
  - assert (Hrest : forall mw' fn, In mw' rest -> mw_fn mw' = Some fn ->
                                   mw_keeps_fsm fn)
      by (intros mw' fn Hin; apply Hk; now right).
    destruct (mw_enabled mw =? 0); [now apply IH|].
    destruct (mw_fn mw) as [fn|] eqn:Hfn; [|now apply IH].
    pose proof (Hk mw fn (or_introl eq_refl) Hfn ent sig (mw_ctx mw)) as Hv.
    destruct (fn ent sig (mw_ctx mw)) as [[e' s'] res]. simpl in Hv.
    destruct ((res =? UR_MW_FILTERED) || (res =? UR_MW_HANDLED)).
    + now intros [= <- _ _ _].
    + destruct (run_middleware_chain_from (S i) rest e' s')
        as [[[e2 s2] r2] l2] eqn:R.
      intros [= <- _ _ _]. rewrite <- Hv. exact (IH Hrest _ _ _ _ _ _ _ R).
Qed.

(** C8.  When the chain ends in HANDLED or FILTERED, [ur_dispatch] returns
    at once: the result is the entity exactly as the chain left it, the
    only calls made are middleware calls (no rule lookup, so this holds for
    any fuel, and no rule, exit or entry action), and with middleware that
    leave the FSM part alone the current state and the flow coroutine
    state are those from before the dispatch.  A middleware answering
    anything else (CONTINUE, TRANSFORM) is followed by the next one, and a
    chain that does not end in HANDLED or FILTERED is followed by rule
    matching on the entity and signal the chain produced. *)
Theorem middleware_termination_frame
        (fuel : nat) (t : ur_entity_tables) (now : Z)
        (ent : ur_entity_t) (sig0 : ur_signal_t) (rest : list ur_signal_t)
        (e1 : ur_entity_t) (s1 : ur_signal_t) (r : Z)
        (log_mw : list ur_call) :
  flag_set ent UR_FLAG_ACTIVE = true ->
  flag_set ent UR_FLAG_SUSPENDED = false ->
  ent_inbox ent = sig0 :: rest ->
  run_middleware_chain t (set_inbox ent rest) sig0 = (e1, s1, r, log_mw) ->
  (r = UR_MW_HANDLED \/ r = UR_MW_FILTERED ->
   ur_dispatch fuel t now ent = Some (UR_OK, e1, log_mw)
   /\ forallb is_middleware_call log_mw = true
   /\ ((forall mw fn, In mw (tab_middleware t) -> mw_fn mw = Some fn ->
                      mw_keeps_fsm fn) ->
       fsm_view e1 = fsm_view ent))
  /\ (r <> UR_MW_HANDLED -> r <> UR_MW_FILTERED ->
      ur_dispatch fuel t now ent
      = match dispatch_rule fuel t now e1 s1 with
        | Some (err, e2, log) => Some (err, e2, log_mw ++ log)
        | None => None
        end)
  /\ (forall i mw mws e s fn,
         mw_enabled mw <> 0 -> mw_fn mw = Some fn ->
         let res := snd (fn e s (mw_ctx mw)) in
         (res = UR_MW_HANDLED \/ res = UR_MW_FILTERED ->
          run_middleware_chain_from i (mw :: mws) e s
          = (fn e s (mw_ctx mw), [CallMiddleware i s]))
         /\ (res = UR_MW_CONTINUE \/ res = UR_MW_TRANSFORM ->
             run_middleware_chain_from i (mw :: mws) e s
             = let '(e2, s2, r2, l2) :=
                 run_middleware_chain_from
                   (S i) mws (fst (fst (fn e s (mw_ctx mw))))
                   (snd (fst (fn e s (mw_ctx mw)))) in
               (e2, s2, r2, CallMiddleware i s :: l2))).
Proof.
  intros Ha Hs Hq Hc. split; [|split].
  - intros Hr. split; [|split].
    + unfold ur_dispatch. rewrite Ha, Hs, Hq. simpl. rewrite Hc.
      destruct Hr as [-> | ->]; reflexivity.
    + exact (proj1 (chain_log_middleware_only _ _ _ _ _ _ _ _ Hc)).
    + intros Hk.
      exact (chain_keeps_fsm _ Hk _ _ _ _ _ _ _ Hc).
  - intros H1 H2.
    exact (ur_dispatch_after_chain fuel t now ent sig0 rest e1 s1 r log_mw
             Ha Hs Hq Hc H2 H1).
  - intros i mw mws e s fn Hen Hfn res.
    destruct (chain_step i mw mws e s fn Hen Hfn) as [A B].
    cbv zeta in A, B. fold res in A, B. split.
    + intros Hr. rewrite (A Hr). subst res.
      now destruct (fn e s (mw_ctx mw)) as [[? ?] ?].
    + intros [Hr | Hr]; apply B; rewrite Hr; discriminate.
Qed.

(** The frame at the controller behind a pass-through and a dropping
    middleware: POWER_OFF would match the parent rule, but the dispatch
    ends after the second middleware with the entity untouched. *)
Lemma middleware_termination_witness :
  ur_dispatch 0 filtered_tables 0 (controller [sample_signal SIG_POWER_OFF])
  = Some (UR_OK, controller [],
          [CallMiddleware 0 (sample_signal SIG_POWER_OFF);
           CallMiddleware 1 (sample_signal SIG_POWER_OFF)])
  /\ fsm_view (controller [])
     = fsm_view (controller [sample_signal SIG_POWER_OFF]).
Proof.
  pose proof (middleware_termination_frame
                0 filtered_tables 0
                (controller [sample_signal SIG_POWER_OFF])
                (sample_signal SIG_POWER_OFF) []
                (controller []) (sample_signal SIG_POWER_OFF)
                UR_MW_FILTERED
                [CallMiddleware 0 (sample_signal SIG_POWER_OFF);
                 CallMiddleware 1 (sample_signal SIG_POWER_OFF)]
                eq_refl eq_refl eq_refl eq_refl) as [H _].
  destruct (H (or_intror eq_refl)) as (H1 & _ & H3).
  split; [exact H1|]. apply H3.
  intros mw fn [<- | [<- | []]] [= <-]; intros e s c; reflexivity.
Defined.

End CoreProperties.

(** ** Access control: the rule table stays in priority order *)

Section AclProperties.
Import Core Acl.

Lemma insert_from_right_sorted (temp : ur_acl_rule_t) :
  forall l shifted,
    rules_sorted (reverse l ++ shifted) ->
    Forall (fun y => acl_priority temp < acl_priority y) shifted ->
    rules_sorted (insert_from_right l temp shifted).
Proof.
  unfold rules_sorted.
  induction l as [|x rest IH]; intros shifted Hs Hlt; simpl.
  - apply StronglySorted_cons. split; [|exact Hs].
    eapply Forall_impl; [exact Hlt|]. intros y Hy. unfold prio_le. simpl in Hy. lia.
  - destruct (acl_priority temp <? acl_priority x) eqn:E.
    + apply Z.ltb_lt in E. apply IH.
      * rewrite reverse_cons, <- app_assoc in Hs. exact Hs.
      * constructor; assumption.
    + apply Z.ltb_ge in E.
      apply StronglySorted_app in Hs as (Hcross & Hl & Hsh).
      apply StronglySorted_app_2; [|exact Hl|].
      * intros a b Ha Hb. apply elem_of_cons in Hb as [-> | Hb].
        -- rewrite reverse_cons in Ha, Hl.
           apply elem_of_app in Ha as [Ha | Ha].
           ++ pose proof (StronglySorted_app_1_elem_of _ _ _ a x Hl Ha
                            ltac:(apply list_elem_of_singleton; reflexivity))
                as Hax.
              unfold prio_le in *. lia.
           ++ apply list_elem_of_singleton in Ha as ->. exact E.
        -- now apply Hcross.
      * apply StronglySorted_cons. split; [|exact Hsh].
        eapply Forall_impl; [exact Hlt|]. intros y Hy. unfold prio_le. simpl in Hy. lia.
Qed.

Lemma sort_loop_sorted :
  forall rest prefix,
    rules_sorted prefix -> rules_sorted (sort_loop prefix rest).
Proof.
  induction rest as [|temp rest IH]; intros prefix Hp; simpl; [exact Hp|].
  apply IH, insert_from_right_sorted; [|constructor].
  now rewrite reverse_involutive, app_nil_r.
Qed.

Lemma sort_by_priority_sorted (rules : list ur_acl_rule_t) :
  rules_sorted (sort_by_priority rules).
Proof.
  destruct rules as [|r0 rest]; simpl; [constructor|].
  apply sort_loop_sorted. repeat constructor.
Qed.

Lemma insert_by_priority_elem (rule : ur_acl_rule_t) :
  forall rules y, y ∈ insert_by_priority rule rules -> y = rule \/ y ∈ rules.
Proof.
  induction rules as [|x rest IH]; intros y; simpl.
  - intros H. apply list_elem_of_singleton in H. now left.
  - destruct (acl_priority rule <? acl_priority x).
    + intros H. apply elem_of_cons in H as [-> | H]; auto.
    + intros H. apply elem_of_cons in H as [-> | H].
      * right. left.
      * apply IH in H as [-> | H]; auto. right. now right.
Qed.

Lemma insert_by_priority_sorted (rule : ur_acl_rule_t) :
  forall rules,
    rules_sorted rules -> rules_sorted (insert_by_priority rule rules).
Proof.
  unfold rules_sorted.
  induction rules as [|x rest IH]; intros Hs; simpl.
  - repeat constructor.
  - apply StronglySorted_cons in Hs as [Hx Hrest].
    destruct (acl_priority rule <? acl_priority x) eqn:E.
    + apply Z.ltb_lt in E. apply StronglySorted_cons. split.
      * constructor; [unfold prio_le; lia|].
        eapply Forall_impl; [exact Hx|]. intros y Hy. unfold prio_le in *. simpl in Hy. lia.
      * apply StronglySorted_cons. auto.
    + apply Z.ltb_ge in E. apply StronglySorted_cons. split; [|auto].
      apply Forall_forall. intros y Hy.
      apply insert_by_priority_elem in Hy as [-> | Hy]; [exact E|].
      rewrite Forall_forall in Hx. auto.
Qed.

Lemma filter_rules_sorted (f : ur_acl_rule_t -> bool) :
  forall rules, rules_sorted rules -> rules_sorted (List.filter f rules).
Proof.
  unfold rules_sorted.
  induction rules as [|x rest IH]; intros Hs; simpl; [constructor|].
  apply StronglySorted_cons in Hs as [Hx Hrest].
  destruct (f x); [|auto].
  apply StronglySorted_cons. split; [|auto].
  apply Forall_forall. intros y Hy.
  apply list_elem_of_In, filter_In in Hy as [Hy _].
  rewrite Forall_forall in Hx. apply Hx. now apply list_elem_of_In.
Qed.

Lemma find_acl_entry_index_Some (es : list acl_entry_t) (id : Z) :
  forall i, find_acl_entry_index es id = Some i ->
            exists e, es !! i = Some e /\ entry_entity_id e = id.
Proof.
  induction es as [|x xs IH]; intros i; simpl; [discriminate|].
  destruct (entry_entity_id x =? id) eqn:E.
  - intros [= <-]. exists x. split; [reflexivity|]. now apply Z.eqb_eq.
  - destruct (find_acl_entry_index xs id) as [j|]; [|discriminate].
    intros [= <-]. exact (IH j eq_refl).
Qed.

Lemma find_or_create_inv (g g' : g_acl_t) (id : Z) (i : nat) :
  acl_inv g ->
  find_or_create_acl_entry g id = Some (i, g') ->
  acl_inv g' /\ acl_initialized g' = acl_initialized g.
Proof.
  intros [Hs Hz]. unfold find_or_create_acl_entry.
  destruct (find_acl_entry_index (acl_entries g) id).
  - intros [= <- <-]. split; [split; assumption | reflexivity].
  - destruct (UR_CFG_MAX_ENTITIES <=? _); [discriminate|].
    intros [= <- <-]. split; [|reflexivity]. split; simpl.
    + apply Forall_app. split; [exact Hs|]. repeat constructor.
    + intros Hi. apply Forall_app. split; [now apply Hz|].
      repeat constructor.
Qed.

Lemma init_if_needed_inv (g : g_acl_t) :
  acl_inv g ->
  acl_inv (init_if_needed g) /\ acl_initialized (init_if_needed g) = true.
Proof.
  intros H. unfold init_if_needed.
  destruct (acl_initialized g) eqn:E; [now split|].
  split; [|reflexivity]. split; simpl; [constructor | discriminate].
Qed.

(** An update of one entry that leaves the table initialised keeps the
    invariant as soon as the new rule list is sorted. *)
Lemma alter_rules_inv (g : g_acl_t) (i : nat)
      (f : acl_entry_t -> acl_entry_t) :
  acl_inv g -> acl_initialized g = true ->
  (forall e, rules_sorted (entry_rules e) -> rules_sorted (entry_rules (f e))) ->
  acl_inv (with_entries g (alter f i (acl_entries g))).
Proof.
  intros [Hs _] Hi Hf. split; simpl.
  - apply Forall_alter; [exact Hs|]. intros e _. apply Hf.
  - rewrite Hi. discriminate.
Qed.

Lemma ur_acl_register_inv (g : g_acl_t) (ent : ur_entity_t)
      (rules : list ur_acl_rule_t) :
  acl_inv g -> acl_inv (snd (ur_acl_register g ent rules)).
Proof.
  intros H. unfold ur_acl_register.
  destruct (init_if_needed_inv g H) as [H1 Hi].
  destruct (UR_CFG_ACL_MAX_RULES <? _); [exact H1|].
  destruct (find_or_create_acl_entry _ _) as [[i g']|] eqn:F; [|exact H1].
  destruct (find_or_create_inv _ _ _ _ H1 F) as [H2 Hi']. simpl.
  apply alter_rules_inv; [exact H2 | congruence |].
  intros e _. apply sort_by_priority_sorted.
Qed.

Lemma ur_acl_add_rule_inv (g : g_acl_t) (ent : ur_entity_t)
      (rule : ur_acl_rule_t) :
  acl_inv g -> acl_inv (snd (ur_acl_add_rule g ent rule)).
Proof.
  intros H. unfold ur_acl_add_rule.
  destruct (init_if_needed_inv g H) as [H1 Hi].
  destruct (find_or_create_acl_entry _ _) as [[i g']|] eqn:F; [|exact H1].
  destruct (find_or_create_inv _ _ _ _ H1 F) as [H2 Hi'].
  destruct (acl_entries g' !! i) as [e|] eqn:L; [|exact H2].
  destruct (UR_CFG_ACL_MAX_RULES <=? _); [exact H2|]. simpl.
  destruct H2 as [Hs _]. split; simpl.
  - apply Forall_insert; [exact Hs|]. simpl.
    apply insert_by_priority_sorted.
    exact (Forall_lookup_1 _ _ _ _ Hs L).
  - rewrite Hi', Hi. discriminate.
Qed.

Lemma ur_acl_remove_rules_inv (g : g_acl_t) (ent : ur_entity_t)
      (src sig : Z) :
  acl_inv g -> acl_inv (snd (ur_acl_remove_rules g ent src sig)).
Proof.
  intros H. unfold ur_acl_remove_rules.
  destruct (find_acl_entry_index _ _) as [i|]; [|exact H].
  destruct (acl_entries g !! i) as [e|] eqn:L; [|exact H]. simpl.
  destruct H as [Hs Hz]. split; simpl.
  - apply Forall_insert; [exact Hs|]. simpl.
    apply filter_rules_sorted. exact (Forall_lookup_1 _ _ _ _ Hs L).
  - intros Hi. specialize (Hz Hi).
    apply Forall_insert; [exact Hz|]. simpl.
    destruct (Forall_lookup_1 _ _ _ _ Hz L) as [-> ->]. now split.
Qed.

Lemma ur_acl_set_default_inv (g : g_acl_t) (ent : ur_entity_t) (p : Z) :
  acl_inv g -> acl_inv (ur_acl_set_default g ent p).
Proof.
  intros H. unfold ur_acl_set_default.
  destruct (init_if_needed_inv g H) as [H1 Hi].
  destruct (find_or_create_acl_entry _ _) as [[i g']|] eqn:F; [|exact H1].
  destruct (find_or_create_inv _ _ _ _ H1 F) as [H2 Hi'].
  apply alter_rules_inv; [exact H2 | congruence | auto].
Qed.

Lemma ur_acl_set_transform_inv (g : g_acl_t) (ent : ur_entity_t)
      (fn : option ur_acl_transform_fn_t) (ctx : Z) :
  acl_inv g -> acl_inv (ur_acl_set_transform g ent fn ctx).
Proof.
  intros H. unfold ur_acl_set_transform.
  destruct (find_or_create_acl_entry _ _) as [[i g']|] eqn:F; [|exact H].
  destruct (find_or_create_inv _ _ _ _ H F) as [[Hs Hz] Hi'].
  split; simpl.
  - apply Forall_alter; [exact Hs|]. auto.
  - intros Hi. apply Forall_alter; [now apply Hz|]. auto.
Qed.

Lemma ur_acl_check_entries (g : g_acl_t) (ent : ur_entity_t)
      (sig : ur_signal_t) :
  acl_entries (snd (ur_acl_check g ent sig)) = acl_entries g
  /\ acl_initialized (snd (ur_acl_check g ent sig)) = acl_initialized g.
Proof.
  unfold ur_acl_check. destruct (acl_initialized g) eqn:E; simpl; [|auto].
  destruct (find_acl_entry _ _) as [e|]; [|simpl; auto].
  destruct (find_matching_rule _ _); simpl; auto.
Qed.

Lemma ur_acl_filter_entries (g : g_acl_t) (ent : ur_entity_t)
      (sig : ur_signal_t) :
  acl_entries (snd (ur_acl_filter g ent sig)) = acl_entries g
  /\ acl_initialized (snd (ur_acl_filter g ent sig)) = acl_initialized g.
Proof.
  unfold ur_acl_filter.
  pose proof (ur_acl_check_entries g ent sig) as [H1 H2].
  destruct (ur_acl_check g ent sig) as [a g1]. simpl in H1, H2.
  repeat match goal with
         | |- context [if ?b then _ else _] => destruct b
         | |- context [match ?x with Some _ => _ | None => _ end] =>
             destruct x
         | |- context [let '(_, _) := ?p in _] => destruct p
         end; simpl; auto.
Qed.

Lemma acl_reachable_inv (g : g_acl_t) : acl_reachable g -> acl_inv g.
Proof.
  induction 1.
  - split; simpl; constructor.
  - split; simpl; [constructor | discriminate].
  - split; simpl; constructor.
  - now apply ur_acl_register_inv.
  - now apply ur_acl_add_rule_inv.
  - now apply ur_acl_remove_rules_inv.
  - now apply ur_acl_set_default_inv.
  - now apply ur_acl_set_transform_inv.
  - destruct (ur_acl_check_entries g ent sig) as [H1 H2].
    destruct IHacl_reachable as [Hs Hz].
    split; [now rewrite H1 | rewrite H1, H2; exact Hz].
  - destruct (ur_acl_filter_entries g ent sig) as [H1 H2].
    destruct IHacl_reachable as [Hs Hz].
    split; [now rewrite H1 | rewrite H1, H2; exact Hz].
Qed.

(** ** Access control: checking and filtering *)

Lemma find_matching_rule_first (sig : ur_signal_t) :
  forall rules,
    match find_matching_rule rules sig with
    | Some rule =>
        exists pre post,
          rules = pre ++ rule :: post
          /\ rule_matches sig rule = true
          /\ Forall (fun r => rule_matches sig r = false) pre
    | None => Forall (fun r => rule_matches sig r = false) rules
    end.
Proof.
  induction rules as [|x rest IH]; simpl; [constructor|].
  destruct (rule_matches sig x) eqn:E.
  - exists [], rest. repeat split; [exact E | constructor].
  - destruct (find_matching_rule rest sig) as [rule|].
    + destruct IH as (pre & post & -> & Hm & Hpre).
      exists (x :: pre), post. repeat split; [exact Hm|].
      constructor; assumption.
    + constructor; assumption.
Qed.

Lemma first_match_least_priority (sig : ur_signal_t)
      (pre post : list ur_acl_rule_t) (rule : ur_acl_rule_t) :
  rules_sorted (pre ++ rule :: post) ->
  Forall (fun r => rule_matches sig r = false) pre ->
  forall r, r ∈ pre ++ rule :: post -> rule_matches sig r = true ->
            acl_priority rule <= acl_priority r.
Proof.
  intros Hs Hpre r Hr Hm.
  apply elem_of_app in Hr as [Hr | Hr].
  - rewrite Forall_forall in Hpre. rewrite (Hpre r Hr) in Hm. discriminate.
  - apply StronglySorted_app_1_r in Hs.
    apply elem_of_cons in Hr as [-> | Hr]; [lia|].
    apply StronglySorted_cons in Hs as [Hs _].
    rewrite Forall_forall in Hs. exact (Hs r Hr).
Qed.

Lemma find_acl_entry_with_stats (g : g_acl_t) (s : ur_acl_stats_t) (id : Z) :
  find_acl_entry (with_stats g s) id = find_acl_entry g id.
Proof. reflexivity. Qed.

Lemma match_source_any (s : Z) : match_source UR_ACL_SRC_ANY s = true.
Proof. reflexivity. Qed.

Lemma match_source_local (s : Z) :
  match_source UR_ACL_SRC_LOCAL s = true <-> 1 <= s <= UR_CFG_MAX_ENTITIES.
Proof.
  unfold match_source. simpl. rewrite andb_true_iff, !Z.leb_le. tauto.
Qed.

Lemma match_source_external (s : Z) :
  match_source UR_ACL_SRC_EXTERNAL s = true
  <-> s = 0 \/ UR_CFG_MAX_ENTITIES < s.
Proof.
  unfold match_source. simpl. rewrite orb_true_iff, Z.eqb_eq, Z.ltb_lt.
  tauto.
Qed.

Lemma match_source_literal (l s : Z) :
  l <> UR_ACL_SRC_ANY -> l <> UR_ACL_SRC_LOCAL -> l <> UR_ACL_SRC_EXTERNAL ->
  (match_source l s = true <-> s = l).
Proof.
  intros H1 H2 H3. unfold match_source.
  apply Z.eqb_neq in H1, H2, H3. rewrite H1, H2, H3, Z.eqb_eq.
  split; congruence.
Qed.

Lemma match_signal_any (x : Z) : match_signal UR_ACL_SIG_ANY x = true.
Proof. reflexivity. Qed.

Lemma match_signal_system (x : Z) :
  match_signal UR_ACL_SIG_SYSTEM x = true <-> 0x0001 <= x <= 0x00FF.
Proof.
  unfold match_signal. simpl. rewrite andb_true_iff, !Z.leb_le. tauto.
Qed.

Lemma match_signal_user (x : Z) :
  match_signal UR_ACL_SIG_USER x = true <-> 0x0100 <= x.
Proof. unfold match_signal. simpl. now rewrite Z.leb_le. Qed.

Lemma match_signal_literal (l x : Z) :
  l <> UR_ACL_SIG_ANY -> l <> UR_ACL_SIG_SYSTEM -> l <> UR_ACL_SIG_USER ->
  (match_signal l x = true <-> x = l).
Proof.
  intros H1 H2 H3. unfold match_signal.
  apply Z.eqb_neq in H1, H2, H3. rewrite H1, H2, H3, Z.eqb_eq.
  split; congruence.
Qed.

(** C6.  On a table produced by the ACL interface, [ur_acl_check] answers
    with the action of the first rule of the entity's list whose source
    predicate matches the signal's source id and whose signal predicate
    matches the signal's id; the list is in priority order, so no matching
    rule has a smaller priority value.  When no rule matches the answer is
    the entity's default policy: ALLOW when the policy is DEFAULT_ALLOW,
    and DENY when it is DEFAULT_DENY or any other value.  An entity without
    an entry gets ALLOW.
    Source predicates: ANY matches everything, LOCAL matches 1..N with N =
    [UR_CFG_MAX_ENTITIES], EXTERNAL matches 0 and everything above N, any
    other value matches only itself.  Signal predicates: ANY matches
    everything, SYSTEM matches 0x0001..0x00FF, USER matches 0x0100 and
    above, any other value matches only itself. *)
Theorem acl_check_first_match
        (g : g_acl_t) (ent : ur_entity_t) (sig : ur_signal_t) :
  acl_reachable g ->
  let action := fst (ur_acl_check g ent sig) in
  match find_acl_entry g (ent_id ent) with
  | Some entry =>
      (exists pre rule post,
          entry_rules entry = pre ++ rule :: post
          /\ Forall (fun r => rule_matches sig r = false) pre
          /\ match_source (acl_src_id rule) (sig_src_id sig) = true
          /\ match_signal (acl_signal_id rule) (sig_id sig) = true
          /\ (forall r, r ∈ entry_rules entry ->
                        rule_matches sig r = true ->
                        acl_priority rule <= acl_priority r)
          /\ action = acl_action rule)
      \/ (Forall (fun r => rule_matches sig r = false) (entry_rules entry)
          /\ (entry_default_policy entry = UR_ACL_DEFAULT_ALLOW ->
              action = UR_ACL_ALLOW)
          /\ (entry_default_policy entry = UR_ACL_DEFAULT_DENY ->
              action = UR_ACL_DENY)
          /\ (entry_default_policy entry <> UR_ACL_DEFAULT_ALLOW ->
              action = UR_ACL_DENY))
  | None => action = UR_ACL_ALLOW
  end
  /\ (forall s, match_source UR_ACL_SRC_ANY s = true)
  /\ (forall s, match_source UR_ACL_SRC_LOCAL s = true
                <-> 1 <= s <= UR_CFG_MAX_ENTITIES)
  /\ (forall s, match_source UR_ACL_SRC_EXTERNAL s = true
                <-> s = 0 \/ UR_CFG_MAX_ENTITIES < s)
  /\ (forall l s, l <> UR_ACL_SRC_ANY -> l <> UR_ACL_SRC_LOCAL ->
                  l <> UR_ACL_SRC_EXTERNAL ->
                  (match_source l s = true <-> s = l))
  /\ (forall x, match_signal UR_ACL_SIG_ANY x = true)
  /\ (forall x, match_signal UR_ACL_SIG_SYSTEM x = true
                <-> 0x0001 <= x <= 0x00FF)
  /\ (forall x, match_signal UR_ACL_SIG_USER x = true <-> 0x0100 <= x)
  /\ (forall l x, l <> UR_ACL_SIG_ANY -> l <> UR_ACL_SIG_SYSTEM ->
                  l <> UR_ACL_SIG_USER ->
                  (match_signal l x = true <-> x = l)).
Proof.
  intros Hreach action. apply acl_reachable_inv in Hreach as [Hs Hz].
  split.
  - subst action. unfold ur_acl_check.
    destruct (find_acl_entry g (ent_id ent)) as [entry|] eqn:F.
    + assert (Hin : rules_sorted (entry_rules entry)
                    /\ (acl_initialized g = false ->
                        entry_rules entry = []
                        /\ entry_default_policy entry
                           = UR_ACL_DEFAULT_ALLOW)).
      { unfold find_acl_entry in F.
        destruct (find_acl_entry_index _ _) as [i|]; [|discriminate].
        split; [exact (Forall_lookup_1 _ _ _ _ Hs F)|].
        intros Hi. exact (Forall_lookup_1 _ _ _ _ (Hz Hi) F). }
      destruct Hin as [Hsorted Hzero].
      destruct (acl_initialized g) eqn:Hi; simpl.
      * rewrite find_acl_entry_with_stats, F.
        pose proof (find_matching_rule_first sig (entry_rules entry)) as Hf.
        destruct (find_matching_rule (entry_rules entry) sig) as [rule|].
        -- left. destruct Hf as (pre & post & Heq & Hm & Hpre).
           exists pre, rule, post.
           unfold rule_matches in Hm. apply andb_true_iff in Hm as [Hm1 Hm2].
           repeat split; try assumption.
           rewrite Heq. apply first_match_least_priority; [|exact Hpre].
           now rewrite <- Heq.
        -- right. split; [exact Hf|]. cbn [fst]. unfold policy_action.
           destruct (Z.eqb_spec (entry_default_policy entry)
                                UR_ACL_DEFAULT_ALLOW) as [Hp|Hp].
           ++ rewrite Hp. repeat split; try reflexivity;
                intros Hq; [discriminate Hq | contradiction].
           ++ repeat split; try reflexivity. intros Hq. contradiction.
      * right. destruct (Hzero eq_refl) as [-> ->].
        split; [constructor|].
        repeat split; try reflexivity;
          intros Hq; [discriminate Hq | contradiction].
    + destruct (acl_initialized g); simpl; [|reflexivity].
      now rewrite find_acl_entry_with_stats, F.
  - split; [exact match_source_any|].
    split; [exact match_source_local|].
    split; [exact match_source_external|].
    split; [exact match_source_literal|].
    split; [exact match_signal_any|].
    split; [exact match_signal_system|].
    split; [exact match_signal_user|].
    exact match_signal_literal.
Qed.

(** The theorem at the AUDIO table: registration sorts the three rules by
    priority, and an external FACTORY_RESET meets the DENY rule first.  An
    external signal that no rule matches gets the default policy: DENY
    once [ur_acl_set_default] has made DENY the default. *)
Lemma acl_check_witness :
  entry_rules <$> find_acl_entry audio_acl (ent_id audio)
  = Some [mk_acl_rule UR_ACL_SRC_EXTERNAL SIG_FACTORY_RESET UR_ACL_DENY 0 0;
          mk_acl_rule UR_ACL_SRC_LOCAL UR_ACL_SIG_ANY UR_ACL_ALLOW 1 0;
          mk_acl_rule UR_ACL_SRC_EXTERNAL SIG_CMD_PLAY UR_ACL_TRANSFORM 5 0]
  /\ fst (ur_acl_check audio_acl audio (external_signal SIG_FACTORY_RESET))
     = UR_ACL_DENY
  /\ fst (ur_acl_check
            (ur_acl_set_default audio_acl audio UR_ACL_DEFAULT_DENY)
            audio (external_signal 0x0140))
     = UR_ACL_DENY.
Proof.
  split; [reflexivity|]. split.
  - pose proof (acl_check_first_match
                  audio_acl audio (external_signal SIG_FACTORY_RESET)
                  (reach_register _ audio audio_rules reach_zero)) as [H _].
    cbv zeta in H.
    change (find_acl_entry audio_acl (ent_id audio))
      with (Some (mk_acl_entry 3
                    [mk_acl_rule UR_ACL_SRC_EXTERNAL SIG_FACTORY_RESET
                                 UR_ACL_DENY 0 0;
                     mk_acl_rule UR_ACL_SRC_LOCAL UR_ACL_SIG_ANY
                                 UR_ACL_ALLOW 1 0;
                     mk_acl_rule UR_ACL_SRC_EXTERNAL SIG_CMD_PLAY
                                 UR_ACL_TRANSFORM 5 0]
                    UR_ACL_DEFAULT_ALLOW None 0)) in H.
    cbv beta iota in H.
    destruct H as [(pre & rule & post & Heq & Hpre & _ & _ & _ & Ha)
                  | [Hnone _]].
    + rewrite Ha. destruct pre as [|p pre'].
      * injection Heq as <- _. reflexivity.
      * injection Heq as <- _. inversion Hpre as [|? ? Hp _].
        discriminate Hp.
    + inversion Hnone as [|? ? Hp _]. discriminate Hp.
  - pose proof (acl_check_first_match
                  (ur_acl_set_default audio_acl audio UR_ACL_DEFAULT_DENY)
                  audio (external_signal 0x0140)
                  (reach_set_default
                     _ audio UR_ACL_DEFAULT_DENY
                     (reach_register _ audio audio_rules reach_zero)))
      as [H _].
    cbv zeta in H.
    change (find_acl_entry
              (ur_acl_set_default audio_acl audio UR_ACL_DEFAULT_DENY)
              (ent_id audio))
      with (Some (mk_acl_entry 3
                    [mk_acl_rule UR_ACL_SRC_EXTERNAL SIG_FACTORY_RESET
                                 UR_ACL_DENY 0 0;
                     mk_acl_rule UR_ACL_SRC_LOCAL UR_ACL_SIG_ANY
                                 UR_ACL_ALLOW 1 0;
                     mk_acl_rule UR_ACL_SRC_EXTERNAL SIG_CMD_PLAY
                                 UR_ACL_TRANSFORM 5 0]
                    UR_ACL_DEFAULT_DENY None 0)) in H.
    cbv beta iota in H.
    destruct H as [(pre & rule & post & Heq & _ & Hsrc & Hsig & _ & _)
                  | (_ & _ & Hdeny & _)].
    + assert (Hin : rule
                    ∈ [mk_acl_rule UR_ACL_SRC_EXTERNAL SIG_FACTORY_RESET
                                   UR_ACL_DENY 0 0;
                       mk_acl_rule UR_ACL_SRC_LOCAL UR_ACL_SIG_ANY
                                   UR_ACL_ALLOW 1 0;
                       mk_acl_rule UR_ACL_SRC_EXTERNAL SIG_CMD_PLAY
                                   UR_ACL_TRANSFORM 5 0]).
      { cbn [entry_rules] in Heq. rewrite Heq.
        apply elem_of_app. right. left. }
      repeat (apply elem_of_cons in Hin as [-> | Hin]);
        try discriminate Hsrc; try discriminate Hsig.
      inversion Hin.
    + apply Hdeny. reflexivity.
Defined.

Lemma ur_acl_check_counts (g : g_acl_t) (ent : ur_entity_t)
      (sig : ur_signal_t) :
  let s := acl_stats g in
  let s' := acl_stats (snd (ur_acl_check g ent sig)) in
  allowed_count s' = allowed_count s
  /\ denied_count s' = denied_count s
  /\ logged_count s' = logged_count s
  /\ transformed_count s' = transformed_count s.
Proof.
  unfold ur_acl_check. destruct (acl_initialized g); simpl; [|auto].
  destruct (find_acl_entry _ _) as [e|]; [|simpl; auto].
  destruct (find_matching_rule _ _); simpl; auto.
Qed.

(** C10.  When [ur_acl_check] answers TRANSFORM and the entity has no
    transform callback (its entry holds none, or it has no entry),
    [ur_acl_filter] lets the signal through: it returns true, leaves the
    signal as it was and counts it as allowed, not as denied or
    transformed. *)
Theorem acl_filter_transform_without_callback
        (g : g_acl_t) (ent : ur_entity_t) (sig : ur_signal_t) :
  fst (ur_acl_check g ent sig) = UR_ACL_TRANSFORM ->
  (forall entry, find_acl_entry g (ent_id ent) = Some entry ->
                 entry_transform_fn entry = None) ->
  let '(pass, sig', g') := ur_acl_filter g ent sig in
  pass = true
  /\ sig' = sig
  /\ allowed_count (acl_stats g') = u32 (allowed_count (acl_stats g) + 1)
  /\ denied_count (acl_stats g') = denied_count (acl_stats g)
  /\ transformed_count (acl_stats g') = transformed_count (acl_stats g)
  /\ acl_entries g' = acl_entries g.
Proof.
  intros Hact Hno. unfold ur_acl_filter.
  pose proof (ur_acl_check_counts g ent sig) as (Ca & Cd & _ & Ct).
  pose proof (ur_acl_check_entries g ent sig) as [He _].
  destruct (ur_acl_check g ent sig) as [action g1]. simpl in *.
  subst action. simpl.
  assert (Hf : find_acl_entry g1 (ent_id ent) = find_acl_entry g (ent_id ent))
    by (unfold find_acl_entry; now rewrite He).
  rewrite Hf.
  destruct (find_acl_entry g (ent_id ent)) as [entry|] eqn:F.
  - rewrite (Hno entry eq_refl). simpl. rewrite Ca.
    repeat split; assumption.
  - simpl. rewrite Ca. repeat split; assumption.
Qed.

(** The theorem at the AUDIO table: an external CMD_PLAY meets the
    TRANSFORM rule, and no callback was ever registered. *)
Lemma acl_filter_transform_witness :
  fst (ur_acl_filter audio_acl audio (external_signal SIG_CMD_PLAY))
  = (true, external_signal SIG_CMD_PLAY)
  /\ allowed_count
       (acl_stats
          (snd (ur_acl_filter audio_acl audio (external_signal SIG_CMD_PLAY))))
     = 1.
Proof.
  pose proof (acl_filter_transform_without_callback
                audio_acl audio (external_signal SIG_CMD_PLAY) eq_refl) as H.
  destruct (ur_acl_filter audio_acl audio (external_signal SIG_CMD_PLAY))
    as [[pass sig'] g'].
  destruct H as (-> & -> & Ha & _).
  - intros entry [= <-]. reflexivity.
  - split; [reflexivity | exact Ha].
Defined.

End AclProperties.

(** ** Publish/subscribe: fan-out *)

Section BusProperties.
Import Core Bus.

Lemma stamped_idem (now : Z) (sig : ur_signal_t) :
  stamped now (stamped now sig) = stamped now sig.
Proof.
  unfold stamped. destruct (sig_timestamp sig =? 0) eqn:E; [|now rewrite E].
  simpl. destruct (now =? 0) eqn:N; [|reflexivity].
  apply Z.eqb_eq in N. now subst.
Qed.

(** [ur_emit] enqueues the stamped copy, or fails on a full inbox, in task
    and in interrupt context alike. *)
Lemma ur_emit_result (in_isr : bool) (now : Z) (e : ur_entity_t)
      (sig : ur_signal_t) :
  ur_emit in_isr now e sig
  = if UR_CFG_INBOX_SIZE <=? Z.of_nat (length (ent_inbox e))
    then (UR_ERR_QUEUE_FULL, e)
    else (UR_OK, set_inbox e (ent_inbox e ++ [stamped now sig])).
Proof.
  unfold ur_emit, ur_emit_from_isr. fold (stamped now sig).
  fold (stamped now (stamped now sig)). rewrite stamped_idem.
  now destruct in_isr.
Qed.

Lemma get_entity_positive (reg : registry_t) (s : Z) (e : ur_entity_t) :
  0 <= s -> ur_get_entity reg s = Some e ->
  1 <= s /\ reg !! Z.to_nat (s - 1) = Some (Some e).
Proof.
  unfold ur_get_entity. intros Hs.
  destruct (Z.eqb_spec s 0); simpl; [discriminate|].
  destruct (UR_CFG_MAX_ENTITIES <? s); [discriminate|].
  destruct (reg !! Z.to_nat (s - 1)) as [slot|]; [|discriminate].
  intros ->. split; [lia | reflexivity].
Qed.

Lemma get_entity_insert_same (reg : registry_t) (s : Z)
      (e e' : ur_entity_t) :
  0 <= s -> ur_get_entity reg s = Some e ->
  ur_get_entity (<[Z.to_nat (s - 1) := Some e']> reg) s = Some e'.
Proof.
  intros Hs Hg. destruct (get_entity_positive reg s e Hs Hg) as [_ Hl].
  unfold ur_get_entity in *.
  destruct ((s =? 0) || (UR_CFG_MAX_ENTITIES <? s)); [discriminate|].
  cbv iota. rewrite list_lookup_insert_eq; [reflexivity|].
  exact (lookup_lt_Some _ _ _ Hl).
Qed.

Lemma get_entity_insert_other (reg : registry_t) (s id : Z)
      (e : ur_entity_t) (v : option ur_entity_t) :
  0 <= s -> 0 <= id -> id <> s -> ur_get_entity reg s = Some e ->
  ur_get_entity (<[Z.to_nat (s - 1) := v]> reg) id = ur_get_entity reg id.
Proof.
  intros Hs Hid Hne Hg.
  destruct (get_entity_positive reg s e Hs Hg) as [Hs1 _].
  unfold ur_get_entity.
  destruct (Z.eqb_spec id 0); simpl; [reflexivity|].
  destruct (UR_CFG_MAX_ENTITIES <? id); [reflexivity|].
  rewrite list_lookup_insert_ne by lia. reflexivity.
Qed.

(** The registry after the fan-out over [subs], told for every id. *)
Lemma publish_loop_spec (in_isr : bool) (now : Z) (sig : ur_signal_t) :
  forall subs reg stats d,
    NoDup subs ->
    Forall (fun s => 0 <= s /\ is_Some (ur_get_entity reg s)) subs ->
    bus_stats_wf stats ->
    exists stats' reg',
      publish_loop in_isr now sig subs reg stats d
      = (d + Z.of_nat (length (List.filter (has_free_slot reg) subs)),
         stats', reg',
         map (fun s => (s, if has_free_slot reg s then UR_OK
                           else UR_ERR_QUEUE_FULL)) subs)
      /\ publish_count stats' = publish_count stats
      /\ no_subscriber_count stats' = no_subscriber_count stats
      /\ delivery_count stats'
         = u32 (delivery_count stats
                + Z.of_nat (length (List.filter (has_free_slot reg) subs)))
      /\ drop_count stats'
         = u32 (drop_count stats
                + Z.of_nat (length (List.filter
                                      (fun s => negb (has_free_slot reg s))
                                      subs)))
      /\ (forall id, 0 <= id ->
            ur_get_entity reg' id
            = if existsb (Z.eqb id) subs && has_free_slot reg id
              then option_map
                     (fun e => set_inbox e (ent_inbox e ++ [stamped now sig]))
                     (ur_get_entity reg id)
              else ur_get_entity reg id).
Proof.
  induction subs as [|s rest IH]; intros reg stats d Hnd Hall Hwf.
  - exists stats, reg. simpl. destruct Hwf as [W1 W2]. unfold u32.
    rewrite !Z.add_0_r, !Z.mod_small by lia. repeat split; reflexivity.
  - apply NoDup_cons in Hnd as [Hnotin Hnd].
    apply Forall_cons in Hall as [[Hs0 [e He]] Hall].
    assert (Hother : forall v id, 0 <= id -> id ∈ rest ->
              ur_get_entity (<[Z.to_nat (s - 1) := v]> reg) id
              = ur_get_entity reg id).
    { intros v id Hid Hin. apply (get_entity_insert_other reg s id e);
        try assumption. intros ->. contradiction. }
    assert (Hfree : forall v id, 0 <= id -> id ∈ rest ->
              has_free_slot (<[Z.to_nat (s - 1) := v]> reg) id
              = has_free_slot reg id).
    { intros v id Hid Hin. unfold has_free_slot. now rewrite Hother. }
    assert (Hrest0 : forall id, id ∈ rest -> 0 <= id).
    { intros id Hin. rewrite Forall_forall in Hall. now apply Hall. }
    assert (Hmem : existsb (Z.eqb s) rest = false).
    { apply not_true_is_false. intros Hex. apply existsb_exists in Hex
        as (x & Hx & Heq). apply Z.eqb_eq in Heq as <-.
      apply Hnotin. now apply list_elem_of_In. }
    assert (Hfs : has_free_slot reg s
                  = negb (UR_CFG_INBOX_SIZE
                          <=? Z.of_nat (length (ent_inbox e))))
      by (unfold has_free_slot; now rewrite He).
    simpl. rewrite He, ur_emit_result, !Hfs.
    destruct (UR_CFG_INBOX_SIZE <=? Z.of_nat (length (ent_inbox e))) eqn:Full;
      simpl.
    + (* inbox full: dropped *)
      set (reg1 := <[Z.to_nat (s - 1) := Some e]> reg).
      destruct (IH reg1 (incr_drop stats) d Hnd) as
        (stats' & reg' & Heq & P1 & P2 & P3 & P4 & P5).
      { apply Forall_forall. intros id Hin. split; [auto|].
        unfold reg1. rewrite Hother by auto.
        rewrite Forall_forall in Hall. now apply Hall. }
      { destruct Hwf as [W1 W2]. split; simpl; [exact W1|].
        apply Z.mod_pos_bound. lia. }
      exists stats', reg'. rewrite Heq.
      assert (Ef : List.filter (has_free_slot reg1) rest
                   = List.filter (has_free_slot reg) rest).
      { apply filter_ext_in. intros id Hin. apply list_elem_of_In in Hin.
        apply Hfree; auto. }
      assert (Ed : List.filter (fun x => negb (has_free_slot reg1 x)) rest
                   = List.filter (fun x => negb (has_free_slot reg x)) rest).
      { apply filter_ext_in. intros id Hin. apply list_elem_of_In in Hin.
        f_equal. apply Hfree; auto. }
      rewrite Ef in *. rewrite Ed in *.
      split; [|split; [|split; [|split; [|split]]]].
      * assert (Hm : map (fun x => (x, if has_free_slot reg1 x then UR_OK
                                       else UR_ERR_QUEUE_FULL)) rest
                     = map (fun x => (x, if has_free_slot reg x then UR_OK
                                         else UR_ERR_QUEUE_FULL)) rest).
        { apply map_ext_in. intros id Hin. apply list_elem_of_In in Hin.
          unfold reg1. now rewrite Hfree by auto. }
        rewrite Hm. reflexivity.
      * exact P1.
      * exact P2.
      * exact P3.
      * rewrite P4. simpl. unfold u32. rewrite Zplus_mod_idemp_l.
        f_equal. lia.
      * intros id Hid. rewrite P5 by exact Hid.
        destruct (Z.eqb_spec id s) as [-> | Hne]; simpl.
        -- rewrite Hmem, Hfs. simpl.
           unfold reg1. now rewrite (get_entity_insert_same reg s e e Hs0 He).
        -- unfold reg1.
           rewrite (get_entity_insert_other reg s id e _ Hs0 Hid Hne He).
           unfold has_free_slot.
           now rewrite (get_entity_insert_other reg s id e _ Hs0 Hid Hne He).
    + (* free slot: delivered *)
      set (e' := set_inbox e (ent_inbox e ++ [stamped now sig])).
      set (reg1 := <[Z.to_nat (s - 1) := Some e']> reg).
      destruct (IH reg1 (incr_delivery stats) (d + 1) Hnd) as
        (stats' & reg' & Heq & P1 & P2 & P3 & P4 & P5).
      { apply Forall_forall. intros id Hin. split; [auto|].
        unfold reg1. rewrite Hother by auto.
        rewrite Forall_forall in Hall. now apply Hall. }
      { destruct Hwf as [W1 W2]. split; simpl; [|exact W2].
        apply Z.mod_pos_bound. lia. }
      exists stats', reg'. rewrite Heq.
      assert (Ef : List.filter (has_free_slot reg1) rest
                   = List.filter (has_free_slot reg) rest).
      { apply filter_ext_in. intros id Hin. apply list_elem_of_In in Hin.
        apply Hfree; auto. }
      assert (Ed : List.filter (fun x => negb (has_free_slot reg1 x)) rest
                   = List.filter (fun x => negb (has_free_slot reg x)) rest).
      { apply filter_ext_in. intros id Hin. apply list_elem_of_In in Hin.
        f_equal. apply Hfree; auto. }
      rewrite Ef in *. rewrite Ed in *.
      split; [|split; [|split; [|split; [|split]]]].
      * assert (Hm : map (fun x => (x, if has_free_slot reg1 x then UR_OK
                                       else UR_ERR_QUEUE_FULL)) rest
                     = map (fun x => (x, if has_free_slot reg x then UR_OK
                                         else UR_ERR_QUEUE_FULL)) rest).
        { apply map_ext_in. intros id Hin. apply list_elem_of_In in Hin.
          unfold reg1. now rewrite Hfree by auto. }
        rewrite Hm.
        match goal with
        | |- (?a, _, _, _) = (?b, _, _, _) =>
            replace a with b by (simpl length; lia)
        end.
        reflexivity.
      * exact P1.
      * exact P2.
      * rewrite P3. simpl. unfold u32. rewrite Zplus_mod_idemp_l.
        f_equal. lia.
      * exact P4.
      * intros id Hid. rewrite P5 by exact Hid.
        destruct (Z.eqb_spec id s) as [-> | Hne]; simpl.
        -- rewrite Hmem, Hfs. simpl.
           unfold reg1. rewrite (get_entity_insert_same reg s e e' Hs0 He).
           now rewrite He.
        -- unfold reg1.
           rewrite (get_entity_insert_other reg s id e _ Hs0 Hid Hne He).
           unfold has_free_slot.
           now rewrite (get_entity_insert_other reg s id e _ Hs0 Hid Hne He).
Qed.

Lemma existsb_eqb_elem_of (id : Z) (l : list Z) :
  existsb (Z.eqb id) l = true <-> id ∈ l.
Proof.
  rewrite existsb_exists, list_elem_of_In. split.
  - intros (x & Hx & Heq). apply Z.eqb_eq in Heq. now subst.
  - intros H. exists id. split; [exact H | apply Z.eqb_refl].
Qed.

Lemma filter_all (f : Z -> bool) (l : list Z) :
  Forall (fun s => f s = true) l -> List.filter f l = l.
Proof.
  induction 1 as [|x l Hx _ IH]; simpl; [reflexivity|].
  now rewrite Hx, IH.
Qed.

Lemma find_topic_topics (g g' : g_bus_t) (id : Z) :
  bus_topics g = bus_topics g' -> find_topic g id = find_topic g' id.
Proof. unfold find_topic. now intros ->. Qed.

(** C5 (amended).  For a topic whose subscribers are distinct registered
    entities, [ur_publish] visits them in subscriber-list order and calls
    [ur_emit] for each with its own signal.  A subscriber with a free
    inbox slot gains exactly one signal, which carries the id, source id,
    payload and pointer of the published signal and its timestamp when
    that is nonzero (a zero timestamp is replaced by the clock value); a
    subscriber with a full inbox is left as it was and the drop counter
    goes up instead, without ending the fan-out.  The returned count is the
    number of subscribers with a free slot, hence k when all k have one. *)
Theorem publish_fan_out
        (in_isr : bool) (now : Z) (g : g_bus_t) (reg : registry_t)
        (sig : ur_signal_t) (topic : ur_bus_topic_t) :
  bus_initialized g = true ->
  bus_stats_wf (bus_stats g) ->
  find_topic g (sig_id sig) = Some topic ->
  NoDup (subscribers topic) ->
  Forall (fun s => 0 <= s /\ is_Some (ur_get_entity reg s))
         (subscribers topic) ->
  let subs := subscribers topic in
  let free := List.filter (has_free_slot reg) subs in
  let full := List.filter (fun s => negb (has_free_slot reg s)) subs in
  let '(delivered, g', reg', log) := ur_publish in_isr now g reg sig in
  delivered = Z.of_nat (length free)
  /\ (Forall (fun s => has_free_slot reg s = true) subs ->
      delivered = Z.of_nat (length subs))
  /\ (forall s, s ∈ subs -> has_free_slot reg s = true ->
        inbox_count reg' s = inbox_count reg s + 1
        /\ exists e,
            ur_get_entity reg s = Some e
            /\ ur_get_entity reg' s
               = Some (set_inbox e (ent_inbox e ++ [stamped now sig])))
  /\ (forall s, s ∈ subs -> has_free_slot reg s = false ->
        ur_get_entity reg' s = ur_get_entity reg s
        /\ inbox_count reg' s = inbox_count reg s)
  /\ (forall id, 0 <= id -> id ∉ subs ->
        ur_get_entity reg' id = ur_get_entity reg id)
  /\ delivery_count (bus_stats g')
     = u32 (delivery_count (bus_stats g) + Z.of_nat (length free))
  /\ drop_count (bus_stats g')
     = u32 (drop_count (bus_stats g) + Z.of_nat (length full))
  /\ log = map (fun s => (s, if has_free_slot reg s then UR_OK
                             else UR_ERR_QUEUE_FULL)) subs
  /\ sig_id (stamped now sig) = sig_id sig
  /\ sig_src_id (stamped now sig) = sig_src_id sig
  /\ sig_payload (stamped now sig) = sig_payload sig
  /\ sig_ptr (stamped now sig) = sig_ptr sig
  /\ sig_timestamp (stamped now sig)
     = (if sig_timestamp sig =? 0 then now else sig_timestamp sig).
Proof.
  intros Hinit Hwf Hfind Hnd Hall subs free full.
  assert (Hstamp :
            sig_id (stamped now sig) = sig_id sig
            /\ sig_src_id (stamped now sig) = sig_src_id sig
            /\ sig_payload (stamped now sig) = sig_payload sig
            /\ sig_ptr (stamped now sig) = sig_ptr sig
            /\ sig_timestamp (stamped now sig)
               = (if sig_timestamp sig =? 0 then now else sig_timestamp sig)).
  { unfold stamped. destruct (sig_timestamp sig =? 0); repeat split. }
  assert (Hsame : forall reg' : registry_t,
            (forall id, 0 <= id ->
               ur_get_entity reg' id
               = if existsb (Z.eqb id) subs && has_free_slot reg id
                 then option_map
                        (fun e => set_inbox
                                    e (ent_inbox e ++ [stamped now sig]))
                        (ur_get_entity reg id)
                 else ur_get_entity reg id) ->
            (forall s, s ∈ subs -> has_free_slot reg s = true ->
               inbox_count reg' s = inbox_count reg s + 1
               /\ exists e,
                   ur_get_entity reg s = Some e
                   /\ ur_get_entity reg' s
                      = Some (set_inbox e
                                (ent_inbox e ++ [stamped now sig])))
            /\ (forall s, s ∈ subs -> has_free_slot reg s = false ->
                  ur_get_entity reg' s = ur_get_entity reg s
                  /\ inbox_count reg' s = inbox_count reg s)
            /\ (forall id, 0 <= id -> id ∉ subs ->
                  ur_get_entity reg' id = ur_get_entity reg id)).
  { intros reg' Hreg. split; [|split].
    - intros s Hin Hfree.
      assert (Hs : 0 <= s /\ is_Some (ur_get_entity reg s))
        by (rewrite Forall_forall in Hall; now apply Hall).
      destruct Hs as [Hs0 [e He]].
      assert (Hr : ur_get_entity reg' s
                   = Some (set_inbox e (ent_inbox e ++ [stamped now sig]))).
      { rewrite Hreg by exact Hs0.
        rewrite (proj2 (existsb_eqb_elem_of s subs) Hin), Hfree, He.
        reflexivity. }
      split; [|exists e; split; assumption].
      unfold inbox_count. rewrite Hr, He. simpl.
      rewrite length_app. simpl. lia.
    - intros s Hin Hfull.
      assert (Hs : 0 <= s) by (rewrite Forall_forall in Hall; now apply Hall).
      assert (Hr : ur_get_entity reg' s = ur_get_entity reg s).
      { rewrite Hreg by exact Hs. now rewrite Hfull, andb_false_r. }
      split; [exact Hr|]. unfold inbox_count. now rewrite Hr.
    - intros id Hid Hnot. rewrite Hreg by exact Hid.
      destruct (existsb (Z.eqb id) subs) eqn:E; [|reflexivity].
      apply existsb_eqb_elem_of in E. contradiction. }
  unfold ur_publish. rewrite Hinit. cbv zeta.
  match goal with
  | |- context [find_topic ?x (sig_id sig)] =>
      rewrite (find_topic_topics x g (sig_id sig) eq_refl), Hfind
  end.
  subst free full subs.
  destruct topic as [tid [|s rest]]; simpl subscribers in *.
  - simpl. destruct Hwf as [W1 W2]. unfold u32.
    rewrite !Z.add_0_r, !Z.mod_small by lia.
    destruct (Hsame reg) as (S1 & S2 & S3); [intros; reflexivity|].
    repeat split; try tauto; try apply S1; try apply S2; try apply S3;
      assumption.
  - destruct (publish_loop_spec in_isr now sig (s :: rest) reg
                (incr_publish (bus_stats g)) 0 Hnd Hall Hwf)
      as (stats' & reg' & Heq & P1 & P2 & P3 & P4 & P5).
    cbv beta iota. cbn [bus_stats bus_topics bus_initialized].
    rewrite Heq. cbn [bus_stats bus_topics bus_initialized].
    rewrite P3, P4. cbn [incr_publish delivery_count drop_count].
    destruct (Hsame reg' P5) as (S1 & S2 & S3).
    split; [reflexivity|].
    split; [intros Hf; now rewrite (filter_all _ _ Hf)|].
    split; [exact S1|]. split; [exact S2|]. split; [exact S3|].
    split; [reflexivity|]. split; [reflexivity|]. split; [reflexivity|].
    exact Hstamp.
Qed.

(** The theorem at the battery topic with B's inbox full: one delivery to
    A, one drop for B, both attempted in list order. *)
Lemma publish_fan_out_witness :
  let r := ur_publish false 50 battery_bus battery_registry_full
                      (battery_signal 1234) in
  fst (fst (fst r)) = 1
  /\ drop_count (bus_stats (snd (fst (fst r)))) = 1
  /\ inbox_count (snd (fst r)) 1 = 1
  /\ inbox_count (snd (fst r)) 2 = 8
  /\ snd r = [(1, UR_OK); (2, UR_ERR_QUEUE_FULL)].
Proof.
  assert (Hwf : bus_stats_wf (bus_stats battery_bus))
    by (split; simpl; lia).
  assert (Hnd : NoDup [1; 2]).
  { apply NoDup_cons. split.
    - intros H. apply list_elem_of_singleton in H. discriminate.
    - apply NoDup_singleton. }
  assert (Hall : Forall (fun s => 0 <= s
                                  /\ is_Some (ur_get_entity
                                                battery_registry_full s))
                        [1; 2]).
  { repeat constructor; try lia; eexists; reflexivity. }
  pose proof (publish_fan_out false 50 battery_bus battery_registry_full
                (battery_signal 1234) (mk_topic SIG_BATTERY_LEVEL [1; 2])
                eq_refl Hwf eq_refl Hnd Hall) as H.
  cbv zeta in H |- *.
  destruct (ur_publish false 50 battery_bus battery_registry_full
                       (battery_signal 1234)) as [[[d g'] reg'] log].
  destruct H as (H1 & _ & H3 & H4 & _ & _ & H7 & H8 & _).
  cbn [fst snd]. split; [exact H1|]. split; [exact H7|].
  split.
  - destruct (H3 1) as [Hc _]; [left | reflexivity | exact Hc].
  - split; [|exact H8].
    destruct (H4 2) as [_ Hc]; [right; left | reflexivity | exact Hc].
Defined.

(** C5 (as stated) fails for a signal published with timestamp 0, which is
    what [notify_change] of the parameter store publishes: the copies in
    the inboxes carry the clock value, so they are not the published
    signal unchanged. *)
Lemma publish_delivers_stamped_copy :
  let '(delivered, _, reg', _) :=
    ur_publish false 77 battery_bus battery_registry (battery_signal 0) in
  delivered = 2
  /\ ent_inbox <$> ur_get_entity reg' 1 = Some [battery_signal 77]
  /\ ent_inbox <$> ur_get_entity reg' 2 = Some [battery_signal 77]
  /\ battery_signal 77 <> battery_signal 0.
Proof. simpl. repeat split. discriminate. Qed.

End BusProperties.

(** ** Binary codec: the CRC *)

Section CodecProperties.
Import Codec.

(** A boolean property checked on [start .. start+n-1] holds there. *)
Lemma all_from_spec (P : Z -> bool) :
  forall n start,
    all_from P start n = true ->
    forall z, start <= z < start + Z.of_nat n -> P z = true.
Proof.
  induction n as [|n IH]; intros start H z Hz; [lia|].
  simpl in H. apply andb_true_iff in H as [H0 H1].
  destruct (Z.eq_dec z start) as [-> | Hne]; [exact H0|].
  apply (IH (start + 1) H1). lia.
Qed.

Lemma forall_below (P : Z -> bool) (n : Z) :
  all_from P 0 (Z.to_nat n) = true ->
  forall z, 0 <= z < n -> P z = true.
Proof.
  intros H z Hz. apply (all_from_spec P (Z.to_nat n) 0 H). lia.
Qed.

(** Splitting a 16-bit value into its two bytes and joining them again,
    as the encoder and the decoder do. *)
Lemma join_split_u16 (c : Z) :
  0 <= c < 65536 ->
  u16 (Z.lor (Z.land c 0xFF) (Z.shiftl (Z.land (Z.shiftr c 8) 0xFF) 8)) = c.
Proof.
  intros Hc.
  apply Z.eqb_eq.
  apply (forall_below
           (fun c => u16 (Z.lor (Z.land c 0xFF)
                                (Z.shiftl (Z.land (Z.shiftr c 8) 0xFF) 8))
                     =? c) 65536); [vm_compute; reflexivity | lia].
Qed.

Lemma crc16_update_range (crc b : Z) : 0 <= crc16_update crc b < 65536.
Proof.
  unfold crc16_update. change 0xFFFF with (Z.ones 16).
  rewrite Z.land_ones by lia. apply Z.mod_pos_bound. lia.
Qed.

Lemma ur_crc16_range (data : list Z) : 0 <= ur_crc16 data < 65536.
Proof.
  unfold ur_crc16.
  assert (H : forall l c, 0 <= c < 65536 ->
                          0 <= fold_left crc16_update l c < 65536).
  { induction l as [|b l IH]; intros c Hc; simpl; [exact Hc|].
    apply IH, crc16_update_range. }
  apply H. lia.
Qed.

(** Eight shift steps with polynomial 0x1021 are one table step. *)
Lemma ccitt_table_step (c : Z) :
  0 <= c < 65536 -> Nat.iter 8 ccitt_shift c = crc16_update c 0.
Proof.
  intros Hc. apply Z.eqb_eq.
  apply (forall_below
           (fun c => Nat.iter 8 ccitt_shift c =? crc16_update c 0) 65536);
    [vm_compute; reflexivity | lia].
Qed.

Lemma lxor_byte_range (crc b : Z) :
  0 <= crc < 65536 -> 0 <= b < 256 ->
  0 <= Z.lxor crc (Z.shiftl b 8) < 65536.
Proof.
  intros Hc Hb.
  assert (Hs : 0 <= Z.shiftl b 8 < 65536)
    by (rewrite Z.shiftl_mul_pow2 by lia; lia).
  assert (E : Z.lxor crc (Z.shiftl b 8)
              = Z.land (Z.lxor crc (Z.shiftl b 8)) (Z.ones 16)).
  { rewrite Z.land_ones by lia. symmetry. apply Z.mod_small.
    split; [apply Z.lxor_nonneg; lia|].
    destruct (Z.eq_dec (Z.lxor crc (Z.shiftl b 8)) 0) as [-> | Hne]; [lia|].
    assert (Hpos : 0 < Z.lxor crc (Z.shiftl b 8))
      by (assert (0 <= Z.lxor crc (Z.shiftl b 8))
           by (apply Z.lxor_nonneg; lia); lia).
    apply Z.log2_lt_pow2; [exact Hpos|].
    eapply Z.le_lt_trans; [apply Z.log2_lxor; lia|].
    apply Z.max_lub_lt.
    - destruct (Z.eq_dec crc 0) as [-> | ?]; [simpl; lia|].
      apply Z.log2_lt_pow2; lia.
    - destruct (Z.eq_dec (Z.shiftl b 8) 0) as [-> | ?]; [simpl; lia|].
      apply Z.log2_lt_pow2; lia. }
  rewrite E, Z.land_ones by lia. apply Z.mod_pos_bound. lia.
Qed.

(** The table step on (crc, byte) is the table step on crc ^ (byte << 8)
    with a zero byte. *)
Lemma crc16_update_fold_byte (crc b : Z) :
  crc16_update crc b = crc16_update (Z.lxor crc (Z.shiftl b 8)) 0.
Proof.
  unfold crc16_update.
  rewrite Z.shiftr_lxor, Z.shiftr_shiftl_l, Z.sub_diag, Z.shiftl_0_r,
    Z.lxor_0_r by lia.
  set (T := nth _ crc16_table 0).
  apply Z.bits_inj'. intros n Hn.
  rewrite !Z.land_spec, !Z.lxor_spec, Z.shiftl_lxor, Z.lxor_spec.
  change 0xFFFF with (Z.ones 16).
  rewrite Z.testbit_ones_nonneg by lia.
  destruct (n <? 16) eqn:E; [|now rewrite !andb_false_r].
  apply Z.ltb_lt in E.
  rewrite (Z.shiftl_shiftl b 8 8) by lia.
  rewrite (Z.shiftl_spec_low b) by lia.
  now rewrite xorb_false_r.
Qed.

(** The table-driven [ur_crc16] computes CRC-16/CCITT with polynomial
    0x1021 and initial value 0xFFFF. *)
Lemma ur_crc16_is_ccitt (data : list Z) :
  Forall is_byte data -> ur_crc16 data = crc16_ccitt_spec data.
Proof.
  unfold ur_crc16, crc16_ccitt_spec.
  assert (H : forall l c, 0 <= c < 65536 -> Forall is_byte l ->
                          fold_left crc16_update l c
                          = fold_left ccitt_byte l c).
  { induction l as [|b l IH]; intros c Hc Hl; simpl; [reflexivity|].
    apply Forall_cons in Hl as [Hb Hl].
    assert (E : ccitt_byte c b = crc16_update c b).
    { unfold ccitt_byte.
      rewrite ccitt_table_step by (apply lxor_byte_range; assumption).
      symmetry. apply crc16_update_fold_byte. }
    rewrite E. apply IH; [apply crc16_update_range | exact Hl]. }
  apply H. lia.
Qed.

(** ** Binary codec: buffers *)

Lemma memcpy_cons :
  forall n src x l pos,
    memcpy (x :: l) (S pos) src n = x :: memcpy l pos src n.
Proof.
  induction n as [|n IH]; intros [|b src] x l pos; simpl; try reflexivity.
  apply IH.
Qed.

Lemma memcpy_0 :
  forall n src l,
    (n <= length src)%nat -> (n <= length l)%nat ->
    memcpy l 0 src n = take n src ++ drop n l.
Proof.
  induction n as [|n IH]; intros src l Hs Hl; [reflexivity|].
  destruct src as [|b src]; [simpl in Hs; lia|].
  destruct l as [|x l]; [simpl in Hl; lia|].
  simpl in *. rewrite memcpy_cons, IH by lia. reflexivity.
Qed.

Lemma length_memcpy :
  forall n src l pos, length (memcpy l pos src n) = length l.
Proof.
  induction n as [|n IH]; intros [|b src] l pos; simpl; try reflexivity.
  now rewrite IH, length_insert.
Qed.

(** Two adjacent writes at [w] and [w+1]. *)
Lemma insert_pair (l : list Z) (w : nat) (x y : Z) :
  (w + 2 <= length l)%nat ->
  <[S w := y]> (<[w := x]> l) = take w l ++ x :: y :: drop (w + 2) l.
Proof.
  revert l. induction w as [|w IH]; intros l Hl.
  - destruct l as [|a [|b l]]; simpl in *; try lia. reflexivity.
  - destruct l as [|a l]; simpl in *; [lia|].
    f_equal. apply IH. lia.
Qed.

(** The frame [ur_codec_encode_binary] leaves in the buffer. *)
Lemma encode_frame (schemas : list ur_codec_schema_t) (sig : ur_signal_t)
      (buffer : list Z) :
  let w := Z.to_nat (payload_size_of schemas sig) in
  let m := Nat.min w (Z.to_nat UR_CFG_SIGNAL_PAYLOAD_SIZE) in
  let body := take w (take m (sig_payload sig) ++ drop (7 + m) buffer) in
  let header :=
    [Z.land (Z.of_nat w) 0xFF; Z.land (Z.shiftr (Z.of_nat w) 8) 0xFF;
     Z.land (sig_id sig) 0xFF; Z.land (Z.shiftr (sig_id sig) 8) 0xFF;
     Z.land (sig_src_id sig) 0xFF;
     Z.land (Z.shiftr (sig_src_id sig) 8) 0xFF] in
  let crc := ur_crc16 (header ++ body) in
  length (sig_payload sig) = Z.to_nat UR_CFG_SIGNAL_PAYLOAD_SIZE ->
  (9 + w <= length buffer)%nat ->
  length body = w
  /\ ur_codec_encode_binary schemas sig buffer
     = (UR_OK,
        UR_CODEC_SYNC_BYTE :: header ++ body
          ++ [Z.land crc 0xFF; Z.land (Z.shiftr crc 8) 0xFF]
          ++ drop (9 + w) buffer,
        Some (9 + w)%nat).
Proof.
  intros w m body header crc Hp Hlen.
  assert (Hm : (m <= w)%nat) by apply Nat.le_min_l.
  assert (Hm4 : (m <= length (sig_payload sig))%nat)
    by (rewrite Hp; apply Nat.le_min_r).
  destruct buffer as [|b0 [|b1 [|b2 [|b3 [|b4 [|b5 [|b6 tail]]]]]]];
    simpl in Hlen; try lia.
  assert (Hbody : body = take w (take m (sig_payload sig) ++ drop m tail))
    by reflexivity.
  assert (Hlb : length body = w).
  { rewrite Hbody, length_take, length_app, length_take, length_drop. lia. }
  split; [exact Hlb|].
  unfold ur_codec_encode_binary. fold w. fold m.
  replace (length (b0 :: b1 :: b2 :: b3 :: b4 :: b5 :: b6 :: tail)
           <? UR_CODEC_HEADER_SIZE + w + UR_CODEC_CRC_SIZE)%nat
    with false
    by (symmetry; apply Nat.ltb_ge; unfold UR_CODEC_HEADER_SIZE,
          UR_CODEC_CRC_SIZE; simpl; lia).
  cbv zeta.
  change (<[6%nat := ?h6]> (<[5%nat := ?h5]> (<[4%nat := ?h4]>
           (<[3%nat := ?h3]> (<[2%nat := ?h2]> (<[1%nat := ?h1]>
           (<[0%nat := ?h0]>
              (b0 :: b1 :: b2 :: b3 :: b4 :: b5 :: b6 :: tail))))))))
    with (h0 :: h1 :: h2 :: h3 :: h4 :: h5 :: h6 :: tail).
  rewrite !memcpy_cons.
  rewrite (memcpy_0 m (sig_payload sig) tail) by lia.
  set (T := take m (sig_payload sig) ++ drop m tail).
  assert (HT : (w + 2 <= length T)%nat).
  { unfold T. rewrite length_app, length_take, length_drop. lia. }
  change (7 + w - 1)%nat with (6 + w)%nat.
  change (drop 1 (?a :: ?l)) with l.
  change (take (6 + w) (?h1 :: ?h2 :: ?h3 :: ?h4 :: ?h5 :: ?h6 :: T))
    with (h1 :: h2 :: h3 :: h4 :: h5 :: h6 :: take w T).
  change (<[S (7 + w) := ?y]> (<[(7 + w)%nat := ?x]>
            (?a0 :: ?a1 :: ?a2 :: ?a3 :: ?a4 :: ?a5 :: ?a6 :: T)))
    with (a0 :: a1 :: a2 :: a3 :: a4 :: a5 :: a6
             :: <[S w := y]> (<[w := x]> T)).
  rewrite insert_pair by exact HT.
  assert (Hd : drop (w + 2) T = drop (9 + w)
                 (b0 :: b1 :: b2 :: b3 :: b4 :: b5 :: b6 :: tail)).
  { unfold T. rewrite drop_app_ge by (rewrite length_take; lia).
    rewrite length_take, drop_drop.
    replace (9 + w)%nat with (S (S (S (S (S (S (S (w + 2)))))))) by lia.
    simpl. f_equal. lia. }
  rewrite Hd. reflexivity.
Qed.

(** What [ur_codec_decode_binary] makes of a frame that starts with the
    sync byte, announces the length of its body and ends with the CRC of
    header and body. *)
Lemma decode_frame (h1 h2 h3 h4 h5 h6 c0 c1 : Z) (body : list Z) :
  u16 (Z.lor h1 (Z.shiftl h2 8)) = Z.of_nat (length body) ->
  u16 (Z.lor c0 (Z.shiftl c1 8))
  = ur_crc16 ([h1; h2; h3; h4; h5; h6] ++ body) ->
  ur_codec_decode_binary
    (UR_CODEC_SYNC_BYTE :: [h1; h2; h3; h4; h5; h6] ++ body ++ [c0; c1])
  = (UR_OK,
     mk_result
       (mk_signal
          (u16 (Z.lor h3 (Z.shiftl h4 8)))
          (u16 (Z.lor h5 (Z.shiftl h6 8)))
          (memcpy (sig_payload zero_signal) 0 (body ++ [c0; c1])
                  (Nat.min (length body)
                           (Z.to_nat UR_CFG_SIGNAL_PAYLOAD_SIZE)))
          0 0)
       (9 + length body) true).
Proof.
  intros Hlen Hcrc. set (w := length body) in *.
  unfold ur_codec_decode_binary.
  set (data := UR_CODEC_SYNC_BYTE :: [h1; h2; h3; h4; h5; h6]
                 ++ body ++ [c0; c1]).
  assert (Hl : length data = (9 + w)%nat).
  { unfold data. simpl. rewrite length_app. simpl. fold w. lia. }
  assert (Hs : find_sync data = 0%nat) by reflexivity.
  rewrite Hl, Hs.
  replace (9 + w <? UR_CODEC_HEADER_SIZE)%nat with false
    by (symmetry; apply Nat.ltb_ge; unfold UR_CODEC_HEADER_SIZE; lia).
  replace (9 + w <=? 0)%nat with false
    by (symmetry; apply Nat.leb_gt; lia).
  replace (9 + w - 0 <? UR_CODEC_HEADER_SIZE)%nat with false
    by (symmetry; apply Nat.ltb_ge; unfold UR_CODEC_HEADER_SIZE; lia).
  cbv zeta.
  change (nth (0 + 1) data 0) with h1.
  change (nth (0 + 2) data 0) with h2.
  change (nth (0 + 3) data 0) with h3.
  change (nth (0 + 4) data 0) with h4.
  change (nth (0 + 5) data 0) with h5.
  change (nth (0 + 6) data 0) with h6.
  rewrite Hlen, Nat2Z.id.
  replace (9 + w - 0
           <? UR_CODEC_HEADER_SIZE + w + UR_CODEC_CRC_SIZE)%nat with false
    by (symmetry; apply Nat.ltb_ge;
        unfold UR_CODEC_HEADER_SIZE, UR_CODEC_CRC_SIZE; lia).
  replace (UR_CODEC_HEADER_SIZE + w + UR_CODEC_CRC_SIZE - 2)%nat
    with (7 + w)%nat by (unfold UR_CODEC_HEADER_SIZE, UR_CODEC_CRC_SIZE; lia).
  replace (UR_CODEC_HEADER_SIZE + w + UR_CODEC_CRC_SIZE - 1)%nat
    with (8 + w)%nat by (unfold UR_CODEC_HEADER_SIZE, UR_CODEC_CRC_SIZE; lia).
  replace (UR_CODEC_HEADER_SIZE + w + UR_CODEC_CRC_SIZE - 3)%nat
    with (6 + w)%nat by (unfold UR_CODEC_HEADER_SIZE, UR_CODEC_CRC_SIZE; lia).
  replace (0 + (UR_CODEC_HEADER_SIZE + w + UR_CODEC_CRC_SIZE))%nat
    with (9 + w)%nat by (unfold UR_CODEC_HEADER_SIZE, UR_CODEC_CRC_SIZE; lia).
  change (nth (0 + (7 + w)) data 0) with (nth w (body ++ [c0; c1]) 0).
  change (nth (0 + (8 + w)) data 0) with (nth (S w) (body ++ [c0; c1]) 0).
  change (take (6 + w) (drop (0 + 1) data))
    with (h1 :: h2 :: h3 :: h4 :: h5 :: h6 :: take w (body ++ [c0; c1])).
  change (drop (0 + UR_CODEC_HEADER_SIZE) data) with (body ++ [c0; c1]).
  assert (N0 : nth w (body ++ [c0; c1]) 0 = c0).
  { rewrite app_nth2 by (fold w; lia). fold w.
    now rewrite Nat.sub_diag. }
  assert (N1 : nth (S w) (body ++ [c0; c1]) 0 = c1).
  { rewrite app_nth2 by (fold w; lia). fold w.
    replace (S w - w)%nat with 1%nat by lia. reflexivity. }
  assert (Tk : take w (body ++ [c0; c1]) = body).
  { rewrite take_app_le by (fold w; lia). apply take_ge. fold w. lia. }
  rewrite N0, N1, Tk.
  change (h1 :: h2 :: h3 :: h4 :: h5 :: h6 :: body)
    with ([h1; h2; h3; h4; h5; h6] ++ body).
  rewrite Hcrc, Z.eqb_refl. reflexivity.
Qed.

(** ** Binary codec: round trip *)

Lemma land_ff_byte (x : Z) : is_byte (Z.land x 0xFF).
Proof.
  unfold is_byte. change 0xFF with (Z.ones 8).
  rewrite Z.land_ones by lia. apply Z.mod_pos_bound. lia.
Qed.

Lemma payload_size_range (schemas : list ur_codec_schema_t)
      (sig : ur_signal_t) :
  schemas_wf schemas -> 0 <= payload_size_of schemas sig < 256.
Proof.
  unfold payload_size_of, schemas_wf. intros H.
  induction schemas as [|s rest IH]; simpl.
  - unfold UR_CFG_SIGNAL_PAYLOAD_SIZE. lia.
  - apply Forall_cons in H as [Hs Hrest].
    destruct (schema_signal_id s =? sig_id sig); [exact Hs | exact (IH Hrest)].
Qed.

(** C4.  For every well-formed signal, every schema table and every byte
    buffer that can hold the frame, with w the payload width the encoder
    uses: [ur_codec_encode_binary] succeeds and writes the frame
    [0x55 | w:2 | sig_id:2 | src_id:2 | body:w | crc:2], multi-byte fields
    little-endian, whose body starts with the first min(w, payload size)
    bytes of the signal payload and whose CRC is the CRC-16/CCITT
    (polynomial 0x1021, initial value 0xFFFF) of the bytes after the sync
    byte up to the end of the body; [ur_codec_decode_binary] on that frame
    succeeds, consumes all of it and yields a signal with the same id, the
    same source id and the same first min(w, payload size) payload bytes. *)
Theorem codec_binary_round_trip
        (schemas : list ur_codec_schema_t) (sig : ur_signal_t)
        (buffer : list Z) :
  schemas_wf schemas ->
  signal_wf sig ->
  Forall is_byte buffer ->
  let w := Z.to_nat (payload_size_of schemas sig) in
  let m := Nat.min w (Z.to_nat UR_CFG_SIGNAL_PAYLOAD_SIZE) in
  (9 + w <= length buffer)%nat ->
  let header :=
    [Z.land (Z.of_nat w) 0xFF; Z.land (Z.shiftr (Z.of_nat w) 8) 0xFF;
     Z.land (sig_id sig) 0xFF; Z.land (Z.shiftr (sig_id sig) 8) 0xFF;
     Z.land (sig_src_id sig) 0xFF;
     Z.land (Z.shiftr (sig_src_id sig) 8) 0xFF] in
  exists body rest,
    length body = w
    /\ (forall i, (i < m)%nat -> body !! i = sig_payload sig !! i)
    /\ let crc := ur_crc16 (header ++ body) in
       let frame :=
         UR_CODEC_SYNC_BYTE :: header ++ body
           ++ [Z.land crc 0xFF; Z.land (Z.shiftr crc 8) 0xFF] in
       ur_codec_encode_binary schemas sig buffer
       = (UR_OK, frame ++ rest, Some (9 + w)%nat)
       /\ length frame = (9 + w)%nat
       /\ take (6 + w) (drop 1 frame) = header ++ body
       /\ crc = crc16_ccitt_spec (header ++ body)
       /\ exists sig',
           ur_codec_decode_binary frame
           = (UR_OK, mk_result sig' (9 + w) true)
           /\ sig_id sig' = sig_id sig
           /\ sig_src_id sig' = sig_src_id sig
           /\ forall i, (i < m)%nat ->
                        sig_payload sig' !! i = sig_payload sig !! i.
Proof.
  intros Hsch (Hid & Hsrc & Hplen & Hpbytes) Hbuf w m Hlen header.
  pose proof (payload_size_range schemas sig Hsch) as Hw.
  assert (Hw16 : 0 <= Z.of_nat w < 65536) by (unfold w; lia).
  destruct (encode_frame schemas sig buffer Hplen Hlen) as [Hlb Henc].
  fold w in Hlb, Henc. fold m in Hlb, Henc. fold header in Henc.
  set (body := take w (take m (sig_payload sig) ++ drop (7 + m) buffer))
    in *.
  assert (Hm : (m <= w)%nat) by apply Nat.le_min_l.
  assert (Hm4 : (m <= length (sig_payload sig))%nat)
    by (rewrite Hplen; apply Nat.le_min_r).
  assert (Hbody : forall i, (i < m)%nat -> body !! i = sig_payload sig !! i).
  { intros i Hi. unfold body.
    rewrite lookup_take_lt by lia.
    rewrite lookup_app_l by (rewrite length_take; lia).
    now rewrite lookup_take_lt by lia. }
  exists body, (drop (9 + w) buffer).
  split; [exact Hlb|]. split; [exact Hbody|].
  set (crc := ur_crc16 (header ++ body)) in *. cbv zeta.
  set (frame := UR_CODEC_SYNC_BYTE :: header ++ body
                  ++ [Z.land crc 0xFF; Z.land (Z.shiftr crc 8) 0xFF]).
  assert (Hfl : length frame = (9 + w)%nat).
  { unfold frame. simpl. rewrite length_app. simpl. lia. }
  split.
  { rewrite Henc. f_equal. f_equal. unfold frame. simpl.
    now rewrite <- app_assoc. }
  split; [exact Hfl|].
  split.
  { unfold frame. simpl. rewrite take_app_le by lia.
    now rewrite take_ge by lia. }
  split.
  { unfold crc. apply ur_crc16_is_ccitt. apply Forall_app. split.
    - unfold header. repeat constructor; apply land_ff_byte.
    - unfold body. apply Forall_take, Forall_app. split.
      + now apply Forall_take.
      + now apply Forall_drop. }
  pose proof (decode_frame
                (Z.land (Z.of_nat w) 0xFF)
                (Z.land (Z.shiftr (Z.of_nat w) 8) 0xFF)
                (Z.land (sig_id sig) 0xFF)
                (Z.land (Z.shiftr (sig_id sig) 8) 0xFF)
                (Z.land (sig_src_id sig) 0xFF)
                (Z.land (Z.shiftr (sig_src_id sig) 8) 0xFF)
                (Z.land crc 0xFF) (Z.land (Z.shiftr crc 8) 0xFF) body)
    as Hdec.
  rewrite Hlb in Hdec. fold m in Hdec.
  rewrite !join_split_u16 in Hdec
    by first [assumption | apply ur_crc16_range].
  specialize (Hdec eq_refl eq_refl).
  eexists. split; [exact Hdec|].
  split; [reflexivity|]. split; [reflexivity|].
  intros i Hi. cbn [sig_payload].
  rewrite memcpy_0.
  - rewrite lookup_app_l by (rewrite length_take, length_app; simpl; lia).
    rewrite lookup_take_lt by lia.
    rewrite lookup_app_l by lia. now apply Hbody.
  - rewrite length_app. simpl. lia.
  - unfold zero_signal. cbn [sig_payload]. rewrite repeat_length.
    apply Nat.le_min_r.
Qed.

(** The round trip at the DEADBEEF signal, with no schema registered and a
    16-byte buffer: the 13 bytes written decode to the same id, source and
    payload bytes. *)
Lemma codec_round_trip_witness :
  exists sig',
    ur_codec_decode_binary
      (take 13 (snd (fst (ur_codec_encode_binary [] deadbeef_signal
                                                 scratch_buffer))))
    = (UR_OK, mk_result sig' 13 true)
    /\ sig_id sig' = 0x0120
    /\ sig_src_id sig' = 7
    /\ forall i, (i < 4)%nat ->
                 sig_payload sig' !! i = [0xEF; 0xBE; 0xAD; 0xDE] !! i.
Proof.
  assert (Hsch : schemas_wf []) by constructor.
  assert (Hwf : signal_wf deadbeef_signal).
  { unfold signal_wf, deadbeef_signal, is_byte. simpl.
    repeat split; try lia. repeat constructor; lia. }
  assert (Hbuf : Forall is_byte scratch_buffer).
  { unfold scratch_buffer, is_byte. simpl. repeat constructor; lia. }
  destruct (codec_binary_round_trip [] deadbeef_signal scratch_buffer
              Hsch Hwf Hbuf)
    as (body & rest & Hlb & _ & Henc & Hfl & _ & _ & sig' & Hdec & Hi & Hs
        & Hp).
  { change (9 + 4 <= 16)%nat. lia. }
  exists sig'. rewrite Henc. cbn [fst snd].
  change 13%nat with (9 + Z.to_nat (payload_size_of [] deadbeef_signal))%nat
    at 1.
  rewrite take_app_le by (rewrite Hfl; lia).
  rewrite take_ge by (rewrite Hfl; lia).
  split; [exact Hdec|]. split; [exact Hi|]. split; [exact Hs|]. exact Hp.
Defined.

End CodecProperties.

(* ---------------------------------------------------------------------- *)
(** ** Parameter store *)

Section ParamProperties.
Import Core Bus Param.

(** [find_entry] looks at the definitions only. *)
Lemma find_entry_defs (es es' : list ur_param_entry_t) (id : Z) :
  entry_def <$> es = entry_def <$> es' ->
  find_entry es id = find_entry es' id.
Proof.
  revert es'. induction es as [|e es IH]; intros [|e' es'] H;
    simpl in *; try discriminate; auto.
  injection H as He Hes. rewrite He, (IH es' Hes). reflexivity.
Qed.

(** What [find_entry] returns is the position of an entry with a
    definition of the id asked for. *)
Lemma find_entry_lookup (es : list ur_param_entry_t) (id : Z) (i : nat) :
  find_entry es id = Some i ->
  exists e d, es !! i = Some e /\ entry_def e = Some d /\ def_id d = id.
Proof.
  revert i. induction es as [|e es IH]; intros i H; simpl in H.
  - discriminate.
  - destruct (entry_def e) as [d|] eqn:Ed.
    + destruct (def_id d =? id) eqn:Eid.
      * injection H as <-. exists e, d. repeat split; auto. lia.
      * destruct (find_entry es id) as [j|]; [|discriminate].
        injection H as <-. apply (IH j eq_refl).
    + destruct (find_entry es id) as [j|]; [|discriminate].
      injection H as <-. apply (IH j eq_refl).
Qed.

Lemma insert_keeps_defs (es : list ur_param_entry_t) (i : nat)
      (e0 e : ur_param_entry_t) :
  es !! i = Some e0 -> entry_def e = entry_def e0 ->
  entry_def <$> <[i := e]> es = entry_def <$> es.
Proof.
  intros Hl Hd. rewrite list_fmap_insert. apply list_insert_id.
  rewrite list_lookup_fmap, Hl. simpl. now rewrite Hd.
Qed.

(** [notify_change] records one PARAM_CHANGED signal and leaves the store
    and the save record alone. *)
Lemma notify_change_fields (in_isr : bool) (now : Z) (w : world)
      (id : Z) (i : nat) :
  w_param (notify_change in_isr now w id i) = w_param w
  /\ w_saved (notify_change in_isr now w id i) = w_saved w
  /\ exists sig,
       w_notified (notify_change in_isr now w id i) = w_notified w ++ [sig]
       /\ sig_id sig = SIG_PARAM_CHANGED.
Proof.
  unfold notify_change.
  destruct (ur_publish _ _ _ _ _) as [[[? ?] ?] ?]. simpl.
  repeat split. eexists. split; reflexivity.
Qed.

(** [save_entry] on the entry just written at position [i]: the entry
    keeps its definition and value. *)
Lemma save_entry_entries (w : world) (i : nat) (e : ur_param_entry_t)
      (d : ur_param_def_t) :
  exists fl,
    param_entries (w_param (snd (save_entry (with_entry w i e) i e d)))
    = <[i := mk_entry (entry_def e) (entry_value e) fl]>
        (param_entries (w_param w)).
Proof.
  unfold save_entry. cbn [with_entry w_param param_storage].
  destruct e as [ed ev ef]. cbn [entry_def entry_value entry_flags].
  destruct (param_storage (w_param w)) as [st|];
    [|exists ef; reflexivity].
  destruct (sto_save st) as [save|]; [|exists ef; reflexivity].
  destruct (negb _); [exists ef; reflexivity|].
  destruct (ur_err_eqb _ _); [|exists ef; reflexivity].
  eexists. cbn [snd with_entry w_param param_entries].
  now rewrite list_insert_insert_eq.
Qed.

Lemma save_entry_notified (w : world) (i : nat) (e : ur_param_entry_t)
      (d : ur_param_def_t) :
  w_notified (snd (save_entry w i e d)) = w_notified w.
Proof.
  unfold save_entry.
  destruct (param_storage (w_param w)) as [st|]; [|reflexivity].
  destruct (sto_save st) as [save|]; [|reflexivity].
  destruct (negb _); [reflexivity|].
  destruct (ur_err_eqb _ _); reflexivity.
Qed.

(** A persistent entry with a [save] callback: exactly one call is made,
    with the entry's name and value. *)
Lemma save_entry_saved (w : world) (i : nat) (e : ur_param_entry_t)
      (d : ur_param_def_t) (st : ur_param_storage_t)
      (save : Z -> Z -> ur_param_value_t -> Z -> ur_err_t) :
  param_storage (w_param w) = Some st -> sto_save st = Some save ->
  has_flag (def_flags d) UR_PARAM_FLAG_PERSIST = true ->
  w_saved (snd (save_entry w i e d))
  = w_saved w ++ [(def_name d, entry_value e)].
Proof.
  intros Hst Hsave Hp. unfold save_entry. rewrite Hst, Hsave, Hp.
  cbn [negb]. destruct (ur_err_eqb _ _); reflexivity.
Qed.

(** The common tail of the setters leaves the written entry in place. *)
Lemma commit_change_entries (in_isr : bool) (now : Z) (w : world) (id : Z)
      (i : nat) (e : ur_param_entry_t) (d : ur_param_def_t) :
  exists fl,
    param_entries (w_param (snd (commit_change in_isr now w id i e d)))
    = <[i := mk_entry (entry_def e) (entry_value e) fl]>
        (param_entries (w_param w)).
Proof.
  unfold commit_change. cbn [snd].
  set (e1 := mk_entry (entry_def e) (entry_value e)
                      (Z.lor (entry_flags e) UR_PARAM_FLAG_DIRTY)).
  destruct (save_entry_entries w i e1 d) as [fl Hs].
  cbn [entry_def entry_value e1] in Hs. fold e1 in Hs.
  set (w1 := if _ && _ then _ else _).
  assert (H1 : exists fl,
             param_entries (w_param w1)
             = <[i := mk_entry (entry_def e) (entry_value e) fl]>
                 (param_entries (w_param w))).
  { subst w1. destruct (_ && _).
    - exists fl. exact Hs.
    - eexists. reflexivity. }
  destruct H1 as [fl1 H1]. exists fl1.
  destruct (has_flag _ UR_PARAM_FLAG_NOTIFY); [|exact H1].
  destruct (notify_change_fields in_isr now w1 id i) as [-> _]. exact H1.
Qed.

(** A scalar setter either returns early with the world as it was, or
    stores the value and runs the common tail; which of the two does not
    depend on the clock. *)
Lemma PARAM_SET_IMPL_cases (param_type : Z)
      (member_get : ur_param_value_t -> Z)
      (member_set : Z -> ur_param_value_t -> ur_param_value_t)
      (member_eqb : Z -> Z -> bool) (w : world) (id value : Z) :
  (exists err, forall in_isr now,
      PARAM_SET_IMPL param_type member_get member_set member_eqb
                     in_isr now w id value = (err, w))
  \/ (exists i e d,
         find_entry (param_entries (w_param w)) id = Some i
         /\ param_entries (w_param w) !! i = Some e
         /\ entry_def e = Some d
         /\ def_type d = param_type
         /\ has_flag (def_flags d) UR_PARAM_FLAG_READONLY = false
         /\ member_eqb (member_get (entry_value e)) value = false
         /\ forall in_isr now,
             PARAM_SET_IMPL param_type member_get member_set member_eqb
                            in_isr now w id value
             = commit_change in_isr now w id i
                 (mk_entry (entry_def e) (member_set value (entry_value e))
                           (entry_flags e)) d).
Proof.
  unfold PARAM_SET_IMPL.
  destruct (find_entry _ id) as [i|] eqn:Hf; [|left; eauto].
  destruct (_ !! i) as [e|] eqn:Hl; [|left; eauto].
  destruct (entry_def e) as [d|] eqn:Hd; [|left; eauto].
  destruct (def_type d =? param_type) eqn:Ht; cbn [negb]; [|left; eauto].
  destruct (has_flag _ _) eqn:Hr; [left; eauto|].
  destruct (member_eqb _ _) eqn:He; [left; eauto|].
  apply Z.eqb_eq in Ht.
  right. exists i, e, d. repeat split; auto.
  intros. now rewrite Hd.
Qed.

(** The scalar setters short-circuit on an equal value: when writing
    [value] makes the member compare equal to [value], a second set of the
    same value leaves the world exactly as the first one left it, so it
    saves nothing and notifies nobody. *)
Lemma PARAM_SET_IMPL_twice (param_type : Z)
      (member_get : ur_param_value_t -> Z)
      (member_set : Z -> ur_param_value_t -> ur_param_value_t)
      (member_eqb : Z -> Z -> bool)
      (in_isr in_isr' : bool) (now now' : Z) (w : world) (id value : Z) :
  (forall i e, param_entries (w_param w) !! i = Some e ->
               member_eqb (member_get (member_set value (entry_value e)))
                          value = true) ->
  let w1 := snd (PARAM_SET_IMPL param_type member_get member_set member_eqb
                                in_isr now w id value) in
  PARAM_SET_IMPL param_type member_get member_set member_eqb
                 in_isr' now' w1 id value = (UR_OK, w1)
  \/ w1 = w
     /\ PARAM_SET_IMPL param_type member_get member_set member_eqb
                       in_isr' now' w1 id value
        = (fst (PARAM_SET_IMPL param_type member_get member_set member_eqb
                               in_isr now w id value), w).
Proof.
  intros Hrt w1.
  destruct (PARAM_SET_IMPL_cases param_type member_get member_set
                                 member_eqb w id value)
    as [[err H] | (i & e & d & Hf & Hl & Hd & Ht & Hr & He & H)].
  - right. subst w1. rewrite (H in_isr now). cbn [fst snd].
    split; [reflexivity|]. apply H.
  - left. subst w1. rewrite (H in_isr now).
    destruct (commit_change_entries in_isr now w id i
                (mk_entry (entry_def e) (member_set value (entry_value e))
                          (entry_flags e)) d) as [fl Hes].
    cbn [entry_def entry_value] in Hes.
    set (w1 := snd (commit_change _ _ _ _ _ _ _)) in *.
    assert (Hi : (i < length (param_entries (w_param w)))%nat)
      by (eapply lookup_lt_Some; eassumption).
    unfold PARAM_SET_IMPL.
    rewrite (find_entry_defs _ (param_entries (w_param w))), Hf.
    + rewrite Hes, list_lookup_insert_eq by exact Hi.
      cbn [entry_def entry_value]. rewrite Hd, Ht, Z.eqb_refl, Hr.
      cbn [negb]. now rewrite (Hrt i e Hl).
    + rewrite Hes. now apply (insert_keeps_defs _ i e).
Qed.

(** Writing a member and reading it back. *)
Lemma load_store_le (k : nat) (v : Z) (bytes : list Z) :
  (k <= length bytes)%nat ->
  load_le k (store_le k v bytes) = v mod 2 ^ (8 * Z.of_nat k).
Proof.
  revert v bytes. induction k as [|k IH]; intros v bytes Hk.
  - simpl. now rewrite Z.mod_1_r.
  - destruct bytes as [|b rest]; [simpl in Hk; lia|].
    simpl in Hk. cbn [store_le load_le]. rewrite IH by lia.
    replace (8 * Z.of_nat (S k)) with (8 + 8 * Z.of_nat k) by lia.
    rewrite Z.pow_add_r by lia. change (2 ^ 8) with 256.
    rewrite (Z.mul_comm 256), Z.rem_mul_r by lia. lia.
Qed.

Lemma load_signed_store_le (k : nat) (v : Z) (bytes : list Z) :
  (0 < k <= length bytes)%nat ->
  - 2 ^ (8 * Z.of_nat k - 1) <= v < 2 ^ (8 * Z.of_nat k - 1) ->
  load_signed k (store_le k v bytes) = v.
Proof.
  intros Hk Hv. unfold load_signed. cbv zeta.
  rewrite load_store_le by lia.
  set (h := 2 ^ (8 * Z.of_nat k - 1)) in *.
  assert (E : 2 ^ (8 * Z.of_nat k) = 2 * h).
  { subst h. rewrite <- Z.pow_succ_r by lia. f_equal. lia. }
  assert (Hh : 0 < h) by (subst h; apply Z.pow_pos_nonneg; lia).
  rewrite E. destruct (Z_lt_le_dec v 0) as [Hn|Hp].
  - replace (v mod (2 * h)) with (v + 2 * h).
    + destruct (Z.ltb_spec (v + 2 * h) h); lia.
    + apply Z.mod_unique with (q := -1); lia.
  - rewrite Z.mod_small by lia. destruct (Z.ltb_spec v h); lia.
Qed.

Lemma values_wf_lookup (w : world) (i : nat) (e : ur_param_entry_t) :
  values_wf w -> param_entries (w_param w) !! i = Some e ->
  length (entry_value e) = 64%nat.
Proof.
  intros Hwf Hl. exact (Forall_lookup_1 _ _ _ _ Hwf Hl).
Qed.

Lemma scalar_set_twice (param_type : Z)
      (member_get : ur_param_value_t -> Z)
      (member_set : Z -> ur_param_value_t -> ur_param_value_t)
      (member_eqb : Z -> Z -> bool) (w : world) (id value : Z) :
  (forall i e, param_entries (w_param w) !! i = Some e ->
               member_eqb (member_get (member_set value (entry_value e)))
                          value = true) ->
  second_set_is_noop
    (PARAM_SET_IMPL param_type member_get member_set member_eqb) w id value.
Proof.
  intros Hrt in_isr in_isr' now now' w1.
  destruct (PARAM_SET_IMPL_twice param_type member_get member_set member_eqb
              in_isr in_isr' now now' w id value Hrt) as [H | [Hw H]];
    fold w1 in H |- *.
  - now rewrite H.
  - fold w1 in Hw. rewrite H. cbn [snd]. now rewrite Hw.
Qed.

(** The integer, boolean and float setters short-circuit: for a value of
    the setter's C type (and, for a float, one that is not a NaN) the
    second of two equal sets does nothing. *)
Lemma scalar_setters_short_circuit (w : world) (id v : Z) :
  values_wf w ->
  (0 <= v < 2 ^ 8 -> second_set_is_noop ur_param_set_u8 w id v)
  /\ (0 <= v < 2 ^ 16 -> second_set_is_noop ur_param_set_u16 w id v)
  /\ (0 <= v < 2 ^ 32 -> second_set_is_noop ur_param_set_u32 w id v)
  /\ (- 2 ^ 7 <= v < 2 ^ 7 -> second_set_is_noop ur_param_set_i8 w id v)
  /\ (- 2 ^ 15 <= v < 2 ^ 15 -> second_set_is_noop ur_param_set_i16 w id v)
  /\ (- 2 ^ 31 <= v < 2 ^ 31 -> second_set_is_noop ur_param_set_i32 w id v)
  /\ (0 <= v <= 1 -> second_set_is_noop ur_param_set_bool w id v)
  /\ (0 <= v < 2 ^ 32 -> f32_is_nan v = false ->
      second_set_is_noop ur_param_set_f32 w id v).
Proof.
  intros Hwf.
  assert (Hu : forall (k : nat) pt, (k <= 4)%nat ->
             0 <= v < 2 ^ (8 * Z.of_nat k) ->
             second_set_is_noop
               (PARAM_SET_IMPL pt (load_le k) (store_le k) Z.eqb) w id v).
  { intros k pt Hk Hv. apply scalar_set_twice. intros i e Hl.
    pose proof (values_wf_lookup w i e Hwf Hl) as Hlen.
    rewrite load_store_le by lia. rewrite Z.mod_small by exact Hv.
    apply Z.eqb_refl. }
  assert (Hs : forall (k : nat) pt, (0 < k <= 4)%nat ->
             - 2 ^ (8 * Z.of_nat k - 1) <= v < 2 ^ (8 * Z.of_nat k - 1) ->
             second_set_is_noop
               (PARAM_SET_IMPL pt (load_signed k) (store_le k) Z.eqb)
               w id v).
  { intros k pt Hk Hv. apply scalar_set_twice. intros i e Hl.
    pose proof (values_wf_lookup w i e Hwf Hl) as Hlen.
    rewrite load_signed_store_le by (try exact Hv; lia).
    apply Z.eqb_refl. }
  repeat split.
  - intros Hv. apply (Hu 1%nat); [lia | exact Hv].
  - intros Hv. apply (Hu 2%nat); [lia | exact Hv].
  - intros Hv. apply (Hu 4%nat); [lia | exact Hv].
  - intros Hv. apply (Hs 1%nat); [lia | exact Hv].
  - intros Hv. apply (Hs 2%nat); [lia | exact Hv].
  - intros Hv. apply (Hs 4%nat); [lia | exact Hv].
  - intros Hv. apply (Hu 1%nat); [lia | simpl; lia].
  - intros Hv Hnan. apply scalar_set_twice. intros i e Hl.
    pose proof (values_wf_lookup w i e Hwf Hl) as Hlen.
    rewrite (load_store_le 4) by lia.
    rewrite Z.mod_small by exact Hv.
    unfold f32_eqb. rewrite Hnan. cbn [orb]. rewrite Z.eqb_refl.
    now destruct (_ && _).
Qed.

(** [strncmp] finds what [strncpy] wrote equal to its source. *)
Lemma strncmp_eq_strncpy (v rest : list Z) (n : nat) :
  strncmp_eq (strncpy_bytes v n ++ rest) v n = true.
Proof.
  revert v. induction n as [|n IH]; intros v; [reflexivity|].
  destruct v as [|c r].
  - reflexivity.
  - cbn [strncpy_bytes]. destruct (c =? 0) eqn:Ec.
    + apply Z.eqb_eq in Ec. subst c. reflexivity.
    + cbn [strncmp_eq app hd tl]. rewrite Z.eqb_refl, Ec. apply IH.
Qed.

Lemma length_strncpy_bytes (v : list Z) (n : nat) :
  length (strncpy_bytes v n) = n.
Proof.
  revert v. induction n as [|n IH]; intros v; [reflexivity|].
  destruct v as [|c r]; cbn [strncpy_bytes].
  - apply repeat_length.
  - destruct (c =? 0); [apply repeat_length|]. simpl. now rewrite IH.
Qed.

Lemma memcpy_bytes_app (dst src : list Z) :
  (length src <= length dst)%nat ->
  memcpy_bytes dst src = src ++ drop (length src) dst.
Proof.
  revert dst. induction src as [|b src IH]; intros dst H.
  - now destruct dst.
  - destruct dst as [|x dst]; [simpl in H; lia|].
    simpl in H. cbn [memcpy_bytes]. rewrite IH by lia. reflexivity.
Qed.

Lemma memcpy_bytes_take (v : list Z) (n : nat) :
  memcpy_bytes v (take n v) = v.
Proof.
  revert n. induction v as [|x v IH]; intros [|n]; try reflexivity.
  cbn [take memcpy_bytes]. now rewrite IH.
Qed.

(** The string setter returns early with the world as it was, or stores
    the string and runs the common tail. *)
Lemma ur_param_set_str_cases (w : world) (id : Z) (value : list Z) :
  (exists err, forall in_isr now,
      ur_param_set_str in_isr now w id value = (err, w))
  \/ (exists i e d,
         find_entry (param_entries (w_param w)) id = Some i
         /\ param_entries (w_param w) !! i = Some e
         /\ entry_def e = Some d
         /\ def_type d = UR_PARAM_TYPE_STR
         /\ has_flag (def_flags d) UR_PARAM_FLAG_READONLY = false
         /\ forall in_isr now,
             ur_param_set_str in_isr now w id value
             = commit_change in_isr now w id i
                 (mk_entry (Some d)
                    (<[Z.to_nat (def_size d - 1) := 0]>
                       (memcpy_bytes (entry_value e)
                          (strncpy_bytes value
                                         (Z.to_nat (def_size d - 1)))))
                    (entry_flags e)) d).
Proof.
  unfold ur_param_set_str.
  destruct (find_entry _ id) as [i|] eqn:Hf; [|left; eauto].
  destruct (_ !! i) as [e|] eqn:Hl; [|left; eauto].
  destruct (entry_def e) as [d|] eqn:Hd; [|left; eauto].
  destruct (def_type d =? UR_PARAM_TYPE_STR) eqn:Ht; cbn [negb];
    [|left; eauto].
  destruct (has_flag _ _) eqn:Hr; [left; eauto|].
  cbv zeta. destruct (strncmp_eq _ _ _) eqn:He; [left; eauto|].
  apply Z.eqb_eq in Ht.
  right. exists i, e, d. repeat split; auto.
Qed.

(** The string setter short-circuits: the second of two equal sets does
    nothing. *)
Lemma ur_param_set_str_twice (w : world) (id : Z) (value : list Z) :
  values_wf w -> str_sizes_wf w ->
  second_set_is_noop ur_param_set_str w id value.
Proof.
  intros Hwf Hsz in_isr in_isr' now now' w1. subst w1.
  destruct (ur_param_set_str_cases w id value)
    as [[err H] | (i & e & d & Hf & Hl & Hd & Ht & Hr & H)].
  - rewrite (H in_isr now). cbn [snd]. now rewrite (H in_isr' now').
  - rewrite (H in_isr now).
    set (n := Z.to_nat (def_size d - 1)) in *.
    set (e1 := mk_entry _ _ _).
    destruct (commit_change_entries in_isr now w id i e1 d) as [fl Hes].
    cbn [entry_def entry_value e1] in Hes.
    set (w1 := snd (commit_change _ _ _ _ _ _ _)) in *.
    assert (Hi : (i < length (param_entries (w_param w)))%nat)
      by (eapply lookup_lt_Some; eassumption).
    pose proof (values_wf_lookup w i e Hwf Hl) as Hlen.
    assert (Hn : (n < 64)%nat).
    { pose proof (Forall_lookup_1 _ _ _ _ Hsz Hl) as Hs. cbv beta in Hs.
      rewrite Hd in Hs. specialize (Hs Ht).
      subst n. unfold UR_CFG_PARAM_MAX_STRING_LEN in Hs. lia. }
    unfold ur_param_set_str.
    rewrite (find_entry_defs _ (param_entries (w_param w))), Hf.
    + rewrite Hes, list_lookup_insert_eq by exact Hi.
      cbn [entry_def entry_value]. rewrite Ht, Z.eqb_refl, Hr.
      cbn [negb]. cbv zeta. fold n.
      rewrite memcpy_bytes_app by (rewrite length_strncpy_bytes; lia).
      rewrite insert_app_r_alt by (rewrite length_strncpy_bytes; lia).
      now rewrite strncmp_eq_strncpy.
    + rewrite Hes. apply (insert_keeps_defs _ i e); [exact Hl|].
      now rewrite Hd.
Qed.

(** The blob setter has no such test: setting the bytes the parameter
    already holds still succeeds through the common tail, so a persistent
    parameter is saved again and a NOTIFY parameter is announced again. *)
Lemma ur_param_set_blob_equal_value (in_isr : bool) (now : Z) (w : world)
      (id : Z) (data : list Z) (i : nat) (e : ur_param_entry_t)
      (d : ur_param_def_t) (st : ur_param_storage_t)
      (save : Z -> Z -> ur_param_value_t -> Z -> ur_err_t) :
  find_entry (param_entries (w_param w)) id = Some i ->
  param_entries (w_param w) !! i = Some e ->
  entry_def e = Some d ->
  def_type d = UR_PARAM_TYPE_BLOB ->
  has_flag (def_flags d) UR_PARAM_FLAG_READONLY = false ->
  has_flag (def_flags d) UR_PARAM_FLAG_PERSIST = true ->
  has_flag (def_flags d) UR_PARAM_FLAG_NOTIFY = true ->
  param_batch_mode (w_param w) = false ->
  param_storage (w_param w) = Some st ->
  sto_save st = Some save ->
  data <> [] ->
  take (length data) (entry_value e) = data ->
  let r := ur_param_set_blob in_isr now w id data in
  fst r = UR_OK
  /\ (exists fl, param_entries (w_param (snd r))
                 = <[i := mk_entry (Some d) (entry_value e) fl]>
                     (param_entries (w_param w)))
  /\ w_saved (snd r) = w_saved w ++ [(def_name d, entry_value e)]
  /\ exists sig, w_notified (snd r) = w_notified w ++ [sig]
                 /\ sig_id sig = SIG_PARAM_CHANGED.
Proof.
  intros Hf Hl Hd Ht Hr Hp Hn Hb Hst Hsave Hne Heq r.
  assert (Hr' : r = commit_change in_isr now w id i
                      (mk_entry (Some d) (entry_value e) (entry_flags e)) d).
  { assert (Hlen : (length data =? 0)%nat = false)
      by (destruct data; [congruence | reflexivity]).
    subst r. unfold ur_param_set_blob.
    rewrite Hlen, Hf, Hl, Hd, Ht, Z.eqb_refl, Hr. cbn [negb]. cbv zeta.
    f_equal. f_equal.
    set (L := length data) in *. rewrite <- Heq. rewrite take_take.
    apply memcpy_bytes_take. }
  split; [now rewrite Hr'|].
  split.
  { destruct (commit_change_entries in_isr now w id i
                (mk_entry (Some d) (entry_value e) (entry_flags e)) d)
      as [fl Hes].
    exists fl. now rewrite Hr'. }
  rewrite Hr'. unfold commit_change. cbn [snd entry_def entry_value].
  cbn [with_entry w_param param_batch_mode].
  rewrite Hb, Hp, Hn. cbn [negb andb].
  set (w1 := snd (save_entry _ _ _ _)).
  destruct (notify_change_fields in_isr now w1 id i)
    as (_ & Hs & sig & Hnot & Hid).
  split.
  - rewrite Hs. subst w1.
    rewrite (save_entry_saved _ i _ d st save); auto.
  - exists sig. split; [|exact Hid]. rewrite Hnot. subst w1.
    now rewrite save_entry_notified.
Qed.

(** The float setter compares with [==], which a NaN never satisfies: two
    sets of the same NaN are two changes. *)
Lemma ur_param_set_f32_nan_twice (now : Z) :
  let w1 := snd (ur_param_set_f32 false now sample_world PARAM_GAIN
                                  f32_quiet_nan) in
  let w2 := snd (ur_param_set_f32 false now w1 PARAM_GAIN f32_quiet_nan) in
  param_entries (w_param w2) = param_entries (w_param w1)
  /\ length (w_notified w1) = 1%nat
  /\ length (w_notified w2) = 2%nat
  /\ length (w_saved w2) = 2%nat.
Proof.
  vm_compute. repeat split.
Qed.

(** C7 (the code departs from the claim).  [ur_param_set_blob] called twice
    with the same four bytes on the NOTIFY and PERSIST blob parameter of
    the sample store, outside batch mode: after the first call the
    parameter holds those bytes, and the second call, which sets a value
    equal to the current one, still returns UR_OK through the full path.
    It leaves the store as it was, makes a second storage save and
    publishes a second PARAM_CHANGED signal, which reaches the
    subscriber's inbox: two notifications for [set(id, v); set(id, v)]. *)
Theorem param_set_blob_twice_notifies_twice (in_isr : bool) (now : Z) :
  let w1 := snd (ur_param_set_blob in_isr now sample_world PARAM_KEY
                                   sample_key) in
  let r := ur_param_set_blob in_isr now w1 PARAM_KEY sample_key in
  (exists e, param_entries (w_param w1) !! 1%nat = Some e
             /\ take (length sample_key) (entry_value e) = sample_key)
  /\ length (w_notified w1) = 1%nat
  /\ length (w_saved w1) = 1%nat
  /\ fst r = UR_OK
  /\ param_entries (w_param (snd r)) = param_entries (w_param w1)
  /\ length (w_saved (snd r)) = 2%nat
  /\ length (w_notified (snd r)) = 2%nat
  /\ Forall (fun s => sig_id s = SIG_PARAM_CHANGED) (w_notified (snd r))
  /\ inbox_count (w_registry (snd r)) (ent_id listener) = 2.
Proof.
  destruct in_isr; vm_compute.
  - repeat split; try (eexists; split; reflexivity);
      repeat constructor.
  - repeat split; try (eexists; split; reflexivity);
      repeat constructor.
Qed.

End ParamProperties.

(* ====================================================================== *)
(** * Further properties of the modelled code                             *)
(* ====================================================================== *)

(** ** Power locks *)

Section PowerLocks.
Import Power.

Lemma find_lock_Some (ls : list lock_entry_t) (e m : Z) :
  forall i, find_lock ls e m = Some i ->
            exists l, ls !! i = Some l /\ lock_matches e m l = true.
Proof.
  induction ls as [|x ls IH]; intros i H; simpl in H; [discriminate|].
  destruct (lock_matches e m x) eqn:E.
  - injection H as <-. exists x. split; [reflexivity | exact E].
  - destruct (find_lock ls e m) as [j|]; [|discriminate].
    injection H as <-. apply (IH j eq_refl).
Qed.

Lemma find_lock_app_new (ls : list lock_entry_t) (e m c : Z) :
  find_lock ls e m = None ->
  find_lock (ls ++ [mk_lock e m c]) e m = Some (length ls).
Proof.
  induction ls as [|x ls IH]; intros H; simpl in *.
  - unfold lock_matches. simpl. now rewrite !Z.eqb_refl.
  - destruct (lock_matches e m x); [discriminate|].
    destruct (find_lock ls e m); [discriminate|].
    now rewrite IH.
Qed.

Lemma find_lock_alter (f : lock_entry_t -> lock_entry_t)
      (ls : list lock_entry_t) (e m : Z) (i : nat) :
  (forall l, lock_entity_id (f l) = lock_entity_id l
             /\ lock_mode (f l) = lock_mode l) ->
  find_lock (alter f i ls) e m = find_lock ls e m.
Proof.
  intros Hf. revert i. induction ls as [|x ls IH]; intros i; [reflexivity|].
  destruct i as [|i].
  - change (alter f 0%nat (x :: ls)) with (f x :: ls). cbn [find_lock].
    unfold lock_matches. destruct (Hf x) as [-> ->]. reflexivity.
  - change (alter f (S i) (x :: ls)) with (x :: alter f i ls).
    cbn [find_lock]. now rewrite IH.
Qed.

Lemma lock_matches_fields (e m : Z) (l : lock_entry_t) :
  lock_matches e m l = true -> lock_entity_id l = e /\ lock_mode l = m.
Proof.
  unfold lock_matches. intros H. apply andb_true_iff in H as [H1 H2].
  split; now apply Z.eqb_eq.
Qed.

(** X1.  Locks are reference counted: on an initialised lock table whose
    counters are between 1 and 254, a successful [ur_power_lock] followed
    by [ur_power_unlock] of the same entity and mode succeeds and gives the
    table back exactly as it was, whether the lock added a new entry or
    incremented an existing one. *)
Theorem power_lock_then_unlock_restores (g : g_power_t) (e m : Z) :
  initialized g = true ->
  Forall (fun l => 1 <= lock_count l <= 254) (locks g) ->
  fst (ur_power_lock g e m) = UR_OK ->
  ur_power_unlock (snd (ur_power_lock g e m)) e m = (UR_OK, g).
Proof.
  intros Hinit Hc Hok. unfold ur_power_lock in *.
  destruct (UR_POWER_MODE_COUNT <=? m) eqn:Hm; [discriminate|].
  rewrite Hinit in *. cbv zeta in *.
  destruct g as [ls ini]. cbn [locks initialized] in *. subst ini.
  destruct (find_lock ls e m) as [i|] eqn:Hf.
  - destruct (find_lock_Some ls e m i Hf) as (l & Hl & Hlm).
    pose proof (Forall_lookup_1 _ _ _ _ Hc Hl) as Hcl. cbv beta in Hcl.
    cbn [snd]. unfold ur_power_unlock. rewrite Hm. cbn [locks initialized].
    rewrite find_lock_alter, Hf by (intros; split; reflexivity).
    rewrite list_lookup_alter_eq, Hl. cbn [fmap option_fmap option_map].
    cbn [lock_count lock_entity_id lock_mode]. cbv zeta.
    assert (E : u8 (u8 (lock_count l + 1) - 1) = lock_count l).
    { unfold u8. rewrite (Z.mod_small (lock_count l + 1)) by lia.
      rewrite Z.mod_small by lia. lia. }
    rewrite E. destruct (lock_count l =? 0) eqn:E0; [lia|].
    f_equal. f_equal.
    apply list_eq. intros j. destruct (decide (i = j)) as [<-|Hne].
    + rewrite list_lookup_insert_eq
        by (rewrite length_alter; eapply lookup_lt_Some; exact Hl).
      rewrite Hl. destruct l; reflexivity.
    + now rewrite list_lookup_insert_ne, list_lookup_alter_ne.
  - destruct (MAX_LOCKS <=? Z.of_nat (length ls)) eqn:Hfull; [discriminate|].
    cbn [snd]. unfold ur_power_unlock. rewrite Hm. cbn [locks initialized].
    rewrite find_lock_app_new by exact Hf.
    rewrite lookup_app_r, Nat.sub_diag by lia. cbn [lookup list_lookup].
    cbn [lock_count]. change (u8 (1 - 1) =? 0) with true. cbv iota zeta.
    f_equal. f_equal. rewrite delete_middle. apply app_nil_r.
Qed.

Lemma power_lock_then_unlock_witness :
  ur_power_unlock
    (snd (ur_power_lock (mk_power [mk_lock 3 UR_POWER_LIGHT_SLEEP 2] true)
                        3 UR_POWER_LIGHT_SLEEP))
    3 UR_POWER_LIGHT_SLEEP
  = (UR_OK, mk_power [mk_lock 3 UR_POWER_LIGHT_SLEEP 2] true).
Proof.
  apply power_lock_then_unlock_restores.
  - reflexivity.
  - repeat constructor; simpl; lia.
  - reflexivity.
Defined.

(** X2.  [ur_power_get_allowed_mode] returns one of the four modes; the
    mode returned is named by no lock unless it is ACTIVE, and every deeper
    mode is named by some lock: it is the deepest sleep mode that no lock
    names. *)
Theorem power_allowed_mode_is_deepest_unnamed (g : g_power_t) :
  let r := ur_power_get_allowed_mode g in
  UR_POWER_ACTIVE <= r <= UR_POWER_DEEP_SLEEP
  /\ (r <> UR_POWER_ACTIVE -> ur_power_is_locked g r = false)
  /\ forall mode, r < mode <= UR_POWER_DEEP_SLEEP ->
                  ur_power_is_locked g mode = true.
Proof.
  unfold ur_power_get_allowed_mode, UR_POWER_DEEP_SLEEP, UR_POWER_IDLE,
    UR_POWER_ACTIVE.
  change (Z.to_nat (3 - 1 + 1)) with 3%nat. cbn [allowed_mode_scan].
  unfold UR_POWER_IDLE, UR_POWER_ACTIVE.
  change (3 - 1 - 1) with 1. change (3 - 1) with 2.
  change (1 <=? 3) with true. change (1 <=? 2) with true.
  change (1 <=? 1) with true. cbv iota zeta.
  destruct (ur_power_is_locked g 3) eqn:E3;
    [destruct (ur_power_is_locked g 2) eqn:E2;
     [destruct (ur_power_is_locked g 1) eqn:E1|]|];
    cbn [negb]; cbv iota;
    (split; [lia|]); (split; [intros Hr; try assumption; lia|]);
    intros mode Hm;
    assert (mode = 1 \/ mode = 2 \/ mode = 3) as [-> | [-> | ->]] by lia;
    first [assumption | lia].
Qed.

Lemma unlock_all_scan_spec (e : Z) :
  forall rest kept count,
    unlock_all_scan kept rest e count
    = (count
       + Z.of_nat (length (List.filter (fun l => lock_entity_id l =? e)
                                       rest)),
       kept ++ List.filter (fun l => negb (lock_entity_id l =? e)) rest).
Proof.
  induction rest as [|l rest IH]; intros kept count; simpl.
  - now rewrite Z.add_0_r, app_nil_r.
  - destruct (lock_entity_id l =? e); simpl; rewrite IH.
    + f_equal. lia.
    + now rewrite <- app_assoc.
Qed.

Lemma find_lock_none_of_entity (e : Z) (ls : list lock_entry_t) :
  Forall (fun l => lock_entity_id l <> e) ls ->
  forall m, find_lock ls e m = None.
Proof.
  induction 1 as [|l ls Hl _ IH]; intros m; simpl; [reflexivity|].
  unfold lock_matches. apply Z.eqb_neq in Hl. rewrite Hl. simpl.
  now rewrite IH.
Qed.

(** X3.  [ur_power_unlock_all] removes every lock entry of the entity,
    whatever its mode and count, keeps the entries of the other entities in
    their order, and returns the number of entries removed; afterwards the
    entity holds no lock, so [ur_power_unlock] answers
    [UR_ERR_NOT_FOUND] for each valid mode. *)
Theorem power_unlock_all_removes_entity (g : g_power_t) (e : Z) :
  let r := ur_power_unlock_all g e in
  locks (snd r)
  = List.filter (fun l => negb (lock_entity_id l =? e)) (locks g)
  /\ fst r = Z.of_nat (length (locks g)) - Z.of_nat (length (locks (snd r)))
  /\ initialized (snd r) = initialized g
  /\ forall m, holds_lock (snd r) e m = false
               /\ (m < UR_POWER_MODE_COUNT ->
                   ur_power_unlock (snd r) e m = (UR_ERR_NOT_FOUND, snd r)).
Proof.
  unfold ur_power_unlock_all. rewrite unlock_all_scan_spec. cbn [fst snd].
  cbn [locks initialized app].
  set (kept := List.filter _ (locks g)).
  assert (Hnone : forall m, find_lock kept e m = None).
  { apply find_lock_none_of_entity. apply Forall_forall. intros l Hl.
    apply list_elem_of_In, filter_In in Hl as [_ Hl].
    apply negb_true_iff, Z.eqb_neq in Hl. exact Hl. }
  split; [reflexivity|]. split.
  { assert (Hlen : forall ls : list lock_entry_t,
               Nat.add
                 (length (List.filter (fun l => lock_entity_id l =? e) ls))
                 (length (List.filter
                            (fun l => negb (lock_entity_id l =? e)) ls))
               = length ls).
    { induction ls as [|l ls IH]; simpl; [reflexivity|].
      destruct (lock_entity_id l =? e); simpl; lia. }
    specialize (Hlen (locks g)). subst kept. lia. }
  split; [reflexivity|].
  intros m. split.
  - unfold holds_lock. cbn [locks]. now rewrite Hnone.
  - intros Hm. unfold ur_power_unlock. cbn [locks].
    replace (UR_POWER_MODE_COUNT <=? m) with false
      by (symmetry; apply Z.leb_gt; exact Hm).
    now rewrite Hnone.
Qed.

End PowerLocks.

Section PowerEntities.
Import Power.

Lemma holds_lock_existsb (g : g_power_t) (a m : Z) :
  holds_lock g a m = existsb (lock_matches a m) (locks g).
Proof.
  unfold holds_lock. induction (locks g) as [|l ls IH]; simpl; [reflexivity|].
  destruct (lock_matches a m l); [reflexivity|].
  destruct (find_lock ls a m); simpl; exact IH.
Qed.

Lemma existsb_alter_same (P : lock_entry_t -> bool)
      (f : lock_entry_t -> lock_entry_t) (ls : list lock_entry_t) (i : nat) :
  (forall x, P (f x) = P x) ->
  existsb P (alter f i ls) = existsb P ls.
Proof.
  intros Hf. revert i. induction ls as [|x ls IH]; intros [|i];
    try reflexivity.
  - change (alter f 0%nat (x :: ls)) with (f x :: ls). simpl.
    now rewrite Hf.
  - change (alter f (S i) (x :: ls)) with (x :: alter f i ls). simpl.
    now rewrite IH.
Qed.

Lemma existsb_insert_same (P : lock_entry_t -> bool)
      (ls : list lock_entry_t) (i : nat) (l l' : lock_entry_t) :
  ls !! i = Some l -> P l' = P l ->
  existsb P (<[i := l']> ls) = existsb P ls.
Proof.
  revert i. induction ls as [|x ls IH]; intros [|i] Hl Hp;
    try discriminate; simpl in *.
  - injection Hl as ->. now rewrite Hp.
  - now rewrite (IH i Hl Hp).
Qed.

Lemma existsb_delete_false (P : lock_entry_t -> bool)
      (ls : list lock_entry_t) (i : nat) (l : lock_entry_t) :
  ls !! i = Some l -> P l = false ->
  existsb P (delete i ls) = existsb P ls.
Proof.
  revert i. induction ls as [|x ls IH]; intros [|i] Hl Hp;
    try discriminate; simpl in *.
  - injection Hl as ->. now rewrite Hp.
  - now rewrite (IH i Hl Hp).
Qed.

Lemma lock_matches_other (a b m m' : Z) (l : lock_entry_t) :
  a <> b -> lock_matches b m l = true -> lock_matches a m' l = false.
Proof.
  intros Hab H. apply lock_matches_fields in H as [He _].
  unfold lock_matches. apply Z.eqb_neq in Hab.
  rewrite He, Z.eqb_sym, Hab. reflexivity.
Qed.

(** X4.  Locks belong to the entity that took them: on an initialised lock
    table, neither a [ur_power_lock] nor a [ur_power_unlock] by entity [b],
    on any mode and whatever its result, changes whether another entity [a]
    holds a lock on a mode. *)
Theorem power_locks_are_per_entity (g : g_power_t) (a b m m' : Z) :
  initialized g = true ->
  a <> b ->
  holds_lock (snd (ur_power_lock g b m)) a m' = holds_lock g a m'
  /\ holds_lock (snd (ur_power_unlock g b m)) a m' = holds_lock g a m'.
Proof.
  intros Hinit Hab. rewrite !holds_lock_existsb. split.
  - unfold ur_power_lock.
    destruct (UR_POWER_MODE_COUNT <=? m); [reflexivity|].
    rewrite Hinit. cbv zeta.
    destruct (find_lock (locks g) b m) as [i|] eqn:Hf.
    + cbn [snd locks]. apply existsb_alter_same. intros x.
      reflexivity.
    + destruct (MAX_LOCKS <=? _); [reflexivity|]. cbn [snd locks].
      rewrite existsb_app. simpl. unfold lock_matches at 2. simpl.
      apply Z.eqb_neq in Hab. rewrite Z.eqb_sym, Hab. simpl.
      now rewrite !orb_false_r.
  - unfold ur_power_unlock.
    destruct (UR_POWER_MODE_COUNT <=? m); [reflexivity|].
    destruct (find_lock (locks g) b m) as [i|] eqn:Hf; [|reflexivity].
    destruct (find_lock_Some _ _ _ _ Hf) as (l & Hl & Hm).
    rewrite Hl. cbv zeta.
    destruct (u8 (lock_count l - 1) =? 0); cbn [snd locks].
    + apply (existsb_delete_false _ _ _ l Hl).
      eapply lock_matches_other; eassumption.
    + apply (existsb_insert_same _ _ _ l _ Hl). reflexivity.
Qed.

Lemma power_locks_per_entity_witness :
  let g := mk_power [mk_lock 1 UR_POWER_LIGHT_SLEEP 1;
                     mk_lock 2 UR_POWER_LIGHT_SLEEP 1] true in
  holds_lock (snd (ur_power_lock g 2 UR_POWER_DEEP_SLEEP)) 1
             UR_POWER_LIGHT_SLEEP
  = holds_lock g 1 UR_POWER_LIGHT_SLEEP
  /\ holds_lock (snd (ur_power_unlock g 2 UR_POWER_LIGHT_SLEEP)) 1
                UR_POWER_LIGHT_SLEEP
     = holds_lock g 1 UR_POWER_LIGHT_SLEEP.
Proof.
  intros g. split.
  - apply (power_locks_are_per_entity g 1 2); [reflexivity | lia].
  - apply (power_locks_are_per_entity g 1 2); [reflexivity | lia].
Defined.

Lemma next_event_scan_spec (now : Z) :
  forall events min_delta,
    0 <= now ->
    Forall (fun t => 0 <= t <= UINT32_MAX) events ->
    let r := next_event_scan now events min_delta in
    r <= min_delta
    /\ (forall t, t ∈ events -> t <> UINT32_MAX -> now < t -> r <= t - now)
    /\ (r = min_delta
        \/ exists t, t ∈ events /\ t <> UINT32_MAX /\ now < t
                     /\ r = t - now).
Proof.
  induction events as [|t0 events IH]; intros min_delta Hnow Hall; simpl.
  - split; [lia|]. split; [|now left].
    intros t Ht. apply elem_of_nil in Ht. contradiction.
  - apply Forall_cons in Hall as [Ht0 Hall].
    destruct (negb (t0 =? UINT32_MAX) && (now <? t0)) eqn:E.
    + apply andb_true_iff in E as [E1 E2].
      apply negb_true_iff, Z.eqb_neq in E1. apply Z.ltb_lt in E2.
      assert (Hd : u32 (t0 - now) = t0 - now).
      { unfold u32. apply Z.mod_small. unfold UINT32_MAX in *. lia. }
      rewrite Hd.
      destruct (IH (if t0 - now <? min_delta then t0 - now else min_delta)
                   Hnow Hall) as (H1 & H2 & H3).
      cbv zeta in *.
      set (r := next_event_scan now events _) in *.
      destruct (Z.ltb_spec (t0 - now) min_delta) as [Hlt|Hge].
      * split; [lia|]. split.
        -- intros t Ht Hne Hf. apply elem_of_cons in Ht as [-> | Ht];
             [lia | now apply H2].
        -- right. destruct H3 as [-> | (t & Ht & Hne & Hf & Hr)].
           ++ exists t0. repeat split; auto. left.
           ++ exists t. repeat split; auto. now right.
      * split; [lia|]. split.
        -- intros t Ht Hne Hf. apply elem_of_cons in Ht as [-> | Ht];
             [lia | now apply H2].
        -- destruct H3 as [-> | (t & Ht & Hne & Hf & Hr)]; [now left|].
           right. exists t. repeat split; auto. now right.
    + destruct (IH min_delta Hnow Hall) as (H1 & H2 & H3). cbv zeta in *.
      split; [exact H1|]. split.
      * intros t Ht Hne Hf. apply elem_of_cons in Ht as [-> | Ht];
          [|now apply H2].
        apply andb_false_iff in E as [E | E].
        -- apply negb_false_iff, Z.eqb_eq in E. contradiction.
        -- apply Z.ltb_ge in E. lia.
      * destruct H3 as [-> | (t & Ht & Hne & Hf & Hr)]; [now left|].
        right. exists t. repeat split; auto. now right.
Qed.

(** X5.  [ur_power_get_next_event_ms] returns the time to the nearest
    pending event: it is positive, it is no larger than the distance to any
    event time that is set and lies in the future, and it is either the
    distance to one of them or [UINT32_MAX] when there is none.  Event
    times that are not after [now] are ignored. *)
Theorem power_next_event_is_nearest (now : Z) (events : list Z) :
  0 <= now ->
  Forall (fun t => 0 <= t <= UINT32_MAX) events ->
  let r := ur_power_get_next_event_ms now events in
  0 < r <= UINT32_MAX
  /\ (forall t, t ∈ events -> t <> UINT32_MAX -> now < t -> r <= t - now)
  /\ ((r = UINT32_MAX
       /\ forall t, t ∈ events -> t = UINT32_MAX \/ t <= now)
      \/ exists t, t ∈ events /\ t <> UINT32_MAX /\ now < t
                   /\ r = t - now).
Proof.
  intros Hnow Hall r.
  destruct (next_event_scan_spec now events UINT32_MAX Hnow Hall)
    as (H1 & H2 & H3).
  fold (ur_power_get_next_event_ms now events) in H1, H2, H3. fold r in H1, H2, H3.
  assert (Hr : 0 < r <= UINT32_MAX).
  { split; [|exact H1].
    destruct H3 as [-> | (t & _ & _ & Hf & ->)];
      [unfold UINT32_MAX|]; lia. }
  split; [exact Hr|]. split; [exact H2|].
  destruct H3 as [Hmax | Hex]; [|now right].
  left. split; [exact Hmax|].
  intros t Ht.
  destruct (Z.eq_dec t UINT32_MAX) as [|Hne]; [now left|].
  destruct (Z_lt_le_dec now t) as [Hf|Hp]; [|now right].
  specialize (H2 t Ht Hne Hf).
  rewrite Forall_forall in Hall. specialize (Hall t Ht). lia.
Qed.

Lemma power_next_event_witness :
  let events :=
    ur_power_set_next_event
      (ur_power_set_next_event next_events_init 1 5000) 2 1200 in
  let r := ur_power_get_next_event_ms 1000 events in
  0 < r <= UINT32_MAX
  /\ (forall t, t ∈ events -> t <> UINT32_MAX -> 1000 < t -> r <= t - 1000)
  /\ ((r = UINT32_MAX
       /\ forall t, t ∈ events -> t = UINT32_MAX \/ t <= 1000)
      \/ exists t, t ∈ events /\ t <> UINT32_MAX /\ 1000 < t
                   /\ r = t - 1000).
Proof.
  intros events.
  apply (power_next_event_is_nearest 1000 events); [lia|].
  assert (E : events
              = [5000; 1200] ++ repeat UINT32_MAX 14) by reflexivity.
  rewrite E. unfold UINT32_MAX. simpl repeat.
  repeat (constructor; [lia|]). constructor.
Defined.

End PowerEntities.

(** ** Entity lifecycle *)

Section Lifecycle.
Import Core Bus.

Lemma land_lor_mask (f m : Z) : Z.land (Z.lor f m) m = m.
Proof.
  apply Z.bits_inj'. intros n _.
  rewrite Z.land_spec, Z.lor_spec.
  destruct (Z.testbit f n), (Z.testbit m n); reflexivity.
Qed.

Lemma land_ldiff_mask (f m : Z) : Z.land (Z.ldiff f m) m = 0.
Proof.
  apply Z.bits_inj'. intros n _.
  rewrite Z.land_spec, Z.ldiff_spec, Z.bits_0.
  destruct (Z.testbit f n), (Z.testbit m n); reflexivity.
Qed.

Lemma ldiff_lor_absent (f m : Z) :
  Z.land f m = 0 -> Z.ldiff (Z.lor f m) m = f.
Proof.
  intros H. apply Z.bits_inj'. intros n _.
  rewrite Z.ldiff_spec, Z.lor_spec.
  assert (Hn : Z.testbit (Z.land f m) n = false)
    by (rewrite H; apply Z.bits_0).
  rewrite Z.land_spec in Hn.
  destruct (Z.testbit f n), (Z.testbit m n); try reflexivity;
    discriminate.
Qed.

Lemma land_ldiff_other (f a b : Z) :
  Z.land (Z.ldiff (Z.ldiff f a) b) a = 0.
Proof.
  apply Z.bits_inj'. intros n _.
  rewrite Z.land_spec, !Z.ldiff_spec, Z.bits_0.
  destruct (Z.testbit f n), (Z.testbit a n), (Z.testbit b n); reflexivity.
Qed.

Lemma flag_clear_land (e : ur_entity_t) (flag : Z) :
  flag_set e flag = false -> Z.land (ent_flags e) flag = 0.
Proof.
  unfold flag_set. intros H. now apply negb_false_iff, Z.eqb_eq in H.
Qed.

Lemma set_flags_same (e : ur_entity_t) : set_flags e (ent_flags e) = e.
Proof. now destruct e. Qed.

(** X6.  [ur_start].  An entity that is already active is refused with
    [UR_ERR_INVALID_STATE] and left alone.  When the initial state is not
    in the state table the call fails with [UR_ERR_NOT_FOUND] and the
    ACTIVE flag it had set is taken back, so the entity is exactly as
    before.  Otherwise a fresh entity (current state 0) becomes active in
    its initial state: only the entry action of that state is called, with
    an ENTRY signal and after the state id is set, and an INIT signal from
    the entity itself is appended to its inbox; the call returns [UR_OK]
    even when the inbox was full and the INIT signal was lost. *)
Theorem start_enters_initial_state_or_rolls_back
        (t : ur_entity_tables) (in_isr : bool)
        (now_state now_sig now_emit : Z) (ent : ur_entity_t) :
  (flag_set ent UR_FLAG_ACTIVE = true ->
   ur_start t in_isr now_state now_sig now_emit ent
   = (UR_ERR_INVALID_STATE, ent, []))
  /\ (flag_set ent UR_FLAG_ACTIVE = false ->
      find_state (tab_states t) (ent_initial_state ent) = None ->
      ur_start t in_isr now_state now_sig now_emit ent
      = (UR_ERR_NOT_FOUND, ent, []))
  /\ (forall s0,
        flag_set ent UR_FLAG_ACTIVE = false ->
        ent_current_state ent = 0 ->
        find_state (tab_states t) (ent_initial_state ent) = Some s0 ->
        let armed :=
          set_current_state
            (set_flags ent (Z.lor (ent_flags ent) UR_FLAG_ACTIVE))
            (ent_initial_state ent) in
        let entry_sig := entry_signal now_state ent in
        let entered := run_hook (st_on_entry s0) armed entry_sig in
        let init_sig :=
          stamped now_emit
                  (ur_signal_create now_sig SIG_SYS_INIT (ent_id entered)) in
        flag_set armed UR_FLAG_ACTIVE = true
        /\ ur_start t in_isr now_state now_sig now_emit ent
           = (UR_OK,
              (if UR_CFG_INBOX_SIZE <=? Z.of_nat (length (ent_inbox entered))
               then entered
               else set_inbox entered (ent_inbox entered ++ [init_sig])),
              hook_call (st_on_entry s0)
                        (CallOnEntry (ent_initial_state ent) entry_sig))).
Proof.
  split; [|split].
  - intros Ha. unfold ur_start. now rewrite Ha.
  - intros Ha Hf. unfold ur_start. rewrite Ha.
    unfold ur_set_state. cbn [ent_initial_state set_flags]. rewrite Hf.
    cbn [ur_err_eqb negb]. f_equal. f_equal.
    cbn [ent_flags set_flags].
    rewrite ldiff_lor_absent by (now apply flag_clear_land).
    now destruct ent.
  - intros s0 Ha Hc Hf armed entry_sig entered init_sig. split.
    + unfold flag_set, armed. cbn [ent_flags set_current_state set_flags].
      now rewrite land_lor_mask.
    + unfold ur_start. rewrite Ha. unfold ur_set_state.
      cbn [ent_initial_state ent_current_state set_flags]. rewrite Hf, Hc.
      cbn [Z.eqb]. cbv zeta. cbn [app ur_err_eqb negb].
      rewrite ur_emit_result. fold armed.
      change (entry_signal now_state
                (set_flags ent (Z.lor (ent_flags ent) UR_FLAG_ACTIVE)))
        with entry_sig.
      fold entered.
      destruct (UR_CFG_INBOX_SIZE <=? _); reflexivity.
Qed.

(** X7.  [ur_stop] on an active entity calls the exit action of the
    current state (when it has one) exactly once and then, whatever that
    action did, leaves the entity in state 0, not active, with an empty
    inbox and the flow coroutine reset.  A stopped entity refuses
    [ur_dispatch] and a second [ur_stop] with [UR_ERR_INVALID_STATE]. *)
Theorem stop_resets_entity (t : ur_entity_tables) (now : Z)
        (ent : ur_entity_t) :
  flag_set ent UR_FLAG_ACTIVE = true ->
  let r := ur_stop t now ent in
  let ent' := snd (fst r) in
  fst (fst r) = UR_OK
  /\ snd r = hook_call (state_on_exit t (ent_current_state ent))
                       (CallOnExit (ent_current_state ent)
                          (ur_signal_create now SIG_SYS_EXIT (ent_id ent)))
  /\ ent_current_state ent' = 0
  /\ flag_set ent' UR_FLAG_ACTIVE = false
  /\ flag_set ent' UR_FLAG_FLOW_RUNNING = false
  /\ ent_inbox ent' = []
  /\ ent_flow_line ent' = 0
  /\ ent_flow_wait_sig ent' = SIG_NONE
  /\ ent_flow_wait_until ent' = 0
  /\ (forall fuel now',
        ur_dispatch fuel t now' ent' = Some (UR_ERR_INVALID_STATE, ent', []))
  /\ (forall now', ur_stop t now' ent' = (UR_ERR_INVALID_STATE, ent', [])).
Proof.
  intros Ha r ent'. subst r ent'. unfold ur_stop. rewrite Ha.
  cbn [negb fst snd]. cbv zeta.
  set (e1 := run_hook _ ent _).
  assert (Hact : flag_set
                   (reset_flow
                      (ur_inbox_clear
                         (set_flags (set_current_state e1 0)
                            (Z.ldiff (ent_flags (set_current_state e1 0))
                                     UR_FLAG_ACTIVE))))
                   UR_FLAG_ACTIVE = false).
  { unfold flag_set. cbn [ent_flags reset_flow ur_inbox_clear set_inbox
                            set_flags set_current_state].
    now rewrite land_ldiff_other. }
  repeat split; try reflexivity.
  - exact Hact.
  - apply reset_flow_fields.
  - intros fuel now'. unfold ur_dispatch. now rewrite Hact.
  - intros now'. now rewrite Hact.
Qed.

Lemma stop_resets_entity_witness :
  let r := ur_stop controller_tables 50
                   (controller [sample_signal SIG_POWER_OFF]) in
  ent_scratch (snd (fst r)) = [2]
  /\ ent_current_state (snd (fst r)) = 0
  /\ ent_inbox (snd (fst r)) = []
  /\ ur_dispatch 4 controller_tables 51 (snd (fst r))
     = Some (UR_ERR_INVALID_STATE, snd (fst r), []).
Proof.
  intros r.
  destruct (stop_resets_entity controller_tables 50
              (controller [sample_signal SIG_POWER_OFF]) eq_refl)
    as (_ & _ & Hs & _ & _ & Hi & _ & _ & _ & Hd & _).
  fold r in Hs, Hi, Hd.
  split; [reflexivity|]. split; [exact Hs|]. split; [exact Hi|].
  exact (Hd 4%nat 51).
Defined.

(** X8.  A suspended entity is skipped by [ur_dispatch], which returns
    [UR_ERR_INVALID_STATE] without touching the inbox, while [ur_emit]
    still queues signals for it exactly as for the running entity;
    [ur_resume] clears the flag again and gives back the entity that
    [ur_suspend] was applied to when that one was not suspended. *)
Theorem suspended_entity_keeps_its_inbox
        (fuel : nat) (t : ur_entity_tables) (now : Z) (in_isr : bool)
        (ent : ur_entity_t) (sig : ur_signal_t) :
  let s := ur_suspend ent in
  ur_dispatch fuel t now s = Some (UR_ERR_INVALID_STATE, s, [])
  /\ ent_inbox s = ent_inbox ent
  /\ fst (ur_emit in_isr now s sig) = fst (ur_emit in_isr now ent sig)
  /\ ent_inbox (snd (ur_emit in_isr now s sig))
     = ent_inbox (snd (ur_emit in_isr now ent sig))
  /\ flag_set (ur_resume s) UR_FLAG_SUSPENDED = false
  /\ (flag_set ent UR_FLAG_SUSPENDED = false -> ur_resume s = ent).
Proof.
  intros s.
  assert (Hs : flag_set s UR_FLAG_SUSPENDED = true).
  { unfold flag_set, s, ur_suspend. cbn [ent_flags set_flags].
    now rewrite land_lor_mask. }
  split.
  { unfold ur_dispatch. rewrite Hs. now rewrite orb_true_r. }
  split; [reflexivity|].
  rewrite !ur_emit_result.
  change (ent_inbox s) with (ent_inbox ent).
  split; [now destruct (UR_CFG_INBOX_SIZE <=? _)|].
  split; [now destruct (UR_CFG_INBOX_SIZE <=? _)|].
  split.
  - unfold flag_set, ur_resume. cbn [ent_flags set_flags].
    now rewrite land_ldiff_mask.
  - intros Hn. unfold ur_resume, s, ur_suspend.
    cbn [ent_flags set_flags].
    rewrite ldiff_lor_absent by (now apply flag_clear_land).
    now destruct ent.
Qed.

Lemma in_state_loop_chain (states : list ur_state_def_t)
      (st : ur_state_def_t) (id : Z) :
  on_parent_chain states st id ->
  exists fuel, in_state_loop fuel states (Some st) id = Some true.
Proof.
  induction 1 as [st Hp | st p id Hp Hf _ [fuel IH]].
  - exists 1%nat. simpl. apply Z.eqb_neq in Hp. rewrite Hp.
    now rewrite Z.eqb_refl.
  - exists (S fuel). simpl. apply Z.eqb_neq in Hp. rewrite Hp.
    destruct (st_parent_id st =? id); [reflexivity|].
    now rewrite Hf.
Qed.

Lemma in_state_loop_true (states : list ur_state_def_t) (id : Z) :
  forall fuel st,
    in_state_loop fuel states (Some st) id = Some true ->
    on_parent_chain states st id.
Proof.
  induction fuel as [|fuel IH]; intros st H; simpl in H.
  - destruct (st_parent_id st =? 0); discriminate.
  - destruct (st_parent_id st =? 0) eqn:Hp; [discriminate|].
    apply Z.eqb_neq in Hp.
    destruct (st_parent_id st =? id) eqn:Hid.
    + apply Z.eqb_eq in Hid. subst id. now constructor.
    + destruct (find_state states (st_parent_id st)) as [p|] eqn:Hf.
      * eapply chain_up; [exact Hp | exact Hf | now apply IH].
      * destruct fuel; discriminate.
Qed.

(** X9.  [ur_in_state] answers true exactly for the current state and for
    the states reached from it by following parent links through the state
    table: the ancestors of the current state in the hierarchy. *)
Theorem in_state_iff_current_or_ancestor
        (t : ur_entity_tables) (ent : ur_entity_t) (state_id : Z) :
  (exists fuel, ur_in_state fuel t ent state_id = Some true)
  <-> (ent_current_state ent = state_id
       \/ exists st,
           find_state (tab_states t) (ent_current_state ent) = Some st
           /\ on_parent_chain (tab_states t) st state_id).
Proof.
  unfold ur_in_state. split.
  - intros [fuel H].
    destruct (ent_current_state ent =? state_id) eqn:E.
    + left. now apply Z.eqb_eq.
    + right.
      destruct (find_state (tab_states t) (ent_current_state ent))
        as [st|]; [|destruct fuel; discriminate].
      exists st. split; [reflexivity|].
      eapply in_state_loop_true. exact H.
  - intros [-> | (st & Hf & Hc)].
    + exists 0%nat. now rewrite Z.eqb_refl.
    + destruct (in_state_loop_chain _ _ _ Hc) as [fuel Hl].
      exists fuel. rewrite Hf, Hl.
      now destruct (ent_current_state ent =? state_id).
Qed.

End Lifecycle.

(** ** Registry, emission by id, broadcast *)

Section Registry.
Import Core Bus.

(** X10.  Registering an entity under a free id between 1 and
    [UR_CFG_MAX_ENTITIES] succeeds; afterwards [ur_get_entity] returns that
    entity for its id and what it returned before for every other id, and a
    second registration under the same id is refused with
    [UR_ERR_ALREADY_EXISTS] without changing the registry. *)
Theorem register_then_get (reg : registry_t) (ent : ur_entity_t) :
  length reg = Z.to_nat UR_CFG_MAX_ENTITIES ->
  1 <= ent_id ent <= UR_CFG_MAX_ENTITIES ->
  ur_get_entity reg (ent_id ent) = None ->
  let r := ur_register_entity reg ent in
  fst r = UR_OK
  /\ length (snd r) = length reg
  /\ ur_get_entity (snd r) (ent_id ent) = Some ent
  /\ (forall id, 0 <= id -> id <> ent_id ent ->
                 ur_get_entity (snd r) id = ur_get_entity reg id)
  /\ forall other, ent_id other = ent_id ent ->
                   ur_register_entity (snd r) other
                   = (UR_ERR_ALREADY_EXISTS, snd r).
Proof.
  intros Hlen Hid Hfree r. subst r.
  unfold UR_CFG_MAX_ENTITIES in *. simpl in Hlen.
  assert (Hguard : (ent_id ent =? 0) || (16 <? ent_id ent) = false).
  { apply orb_false_iff. split; [apply Z.eqb_neq | apply Z.ltb_ge]; lia. }
  assert (Hi : (Z.to_nat (ent_id ent - 1) < length reg)%nat) by lia.
  unfold ur_get_entity, UR_CFG_MAX_ENTITIES in Hfree.
  rewrite Hguard in Hfree.
  destruct (lookup_lt_is_Some_2 reg _ Hi) as [slot Hslot].
  rewrite Hslot in Hfree. subst slot.
  unfold ur_register_entity, UR_CFG_MAX_ENTITIES.
  rewrite Hguard, Hslot. cbn [fst snd].
  split; [reflexivity|]. split; [apply length_insert|].
  split.
  { unfold ur_get_entity, UR_CFG_MAX_ENTITIES. rewrite Hguard.
    now rewrite list_lookup_insert_eq. }
  split.
  { intros id Hid0 Hne. unfold ur_get_entity, UR_CFG_MAX_ENTITIES.
    destruct ((id =? 0) || (16 <? id)) eqn:G; [reflexivity|].
    apply orb_false_iff in G as [G1 G2].
    apply Z.eqb_neq in G1. apply Z.ltb_ge in G2.
    rewrite list_lookup_insert_ne by lia. reflexivity. }
  intros other Ho. rewrite Ho, Hguard.
  now rewrite list_lookup_insert_eq.
Qed.

Lemma register_then_get_witness :
  let r := ur_register_entity registry_empty (subscriber 2 []) in
  fst r = UR_OK
  /\ ur_get_entity (snd r) 2 = Some (subscriber 2 [])
  /\ ur_get_entity (snd r) 1 = None
  /\ ur_register_entity (snd r) (subscriber 2 [sample_signal 9])
     = (UR_ERR_ALREADY_EXISTS, snd r).
Proof.
  intros r.
  destruct (register_then_get registry_empty (subscriber 2 []))
    as (H1 & _ & H3 & H4 & H5);
    [reflexivity | unfold UR_CFG_MAX_ENTITIES; simpl; lia | reflexivity |].
  fold r in H1, H3, H4, H5.
  split; [exact H1|]. split; [exact H3|].
  split; [rewrite (H4 1) by (simpl; lia); reflexivity|].
  now apply H5.
Defined.

Lemma broadcast_loop_spec (in_isr : bool) (now : Z) (sig : ur_signal_t) :
  forall slots count,
    broadcast_loop in_isr now sig slots count
    = (count
       + Z.of_nat
           (length
              (List.filter
                 (fun slot : option ur_entity_t =>
                    match slot with
                    | Some e =>
                        negb (UR_CFG_INBOX_SIZE
                              <=? Z.of_nat (length (ent_inbox e)))
                    | None => false
                    end) slots)),
       (fun slot : option ur_entity_t =>
          (fun e => snd (ur_emit in_isr now e sig)) <$> slot) <$> slots).
Proof.
  induction slots as [|[e|] slots IH]; intros count.
  - simpl. now rewrite Z.add_0_r.
  - cbn [broadcast_loop]. rewrite ur_emit_result.
    destruct (UR_CFG_INBOX_SIZE <=? Z.of_nat (length (ent_inbox e))) eqn:E.
    + rewrite IH. cbn [ur_err_eqb List.filter]. rewrite E. cbn [negb].
      cbn [fmap list_fmap option_fmap option_map]. rewrite ur_emit_result, E.
      reflexivity.
    + rewrite IH. cbn [ur_err_eqb List.filter]. rewrite E. cbn [negb].
      cbn [fmap list_fmap option_fmap option_map]. rewrite ur_emit_result, E.
      cbn [length snd]. f_equal. lia.
  - cbn [broadcast_loop]. rewrite IH. reflexivity.
Qed.

(** X11.  [ur_broadcast] offers the signal to every registered entity,
    each through its own [ur_emit]: afterwards [ur_get_entity] returns, for
    every id, the entity it returned before with the signal queued (or
    unchanged when its inbox was full), and the count returned is the
    number of registered entities whose inbox had a free slot.
    [ur_emit_to_id] does the same for one id and answers
    [UR_ERR_NOT_FOUND] for an id with no entity. *)
Theorem broadcast_reaches_every_registered_entity
        (in_isr : bool) (now : Z) (reg : registry_t) (sig : ur_signal_t) :
  let r := ur_broadcast in_isr now reg sig in
  (forall id,
      ur_get_entity (snd r) id
      = (fun e => snd (ur_emit in_isr now e sig)) <$> ur_get_entity reg id)
  /\ fst r
     = Z.of_nat
         (length
            (List.filter
               (fun slot : option ur_entity_t =>
                  match slot with
                  | Some e =>
                      negb (UR_CFG_INBOX_SIZE
                            <=? Z.of_nat (length (ent_inbox e)))
                  | None => false
                  end) reg))
  /\ length (snd r) = length reg
  /\ forall id,
       0 <= id ->
       match ur_get_entity reg id with
       | None => ur_emit_to_id in_isr now reg id sig = (UR_ERR_NOT_FOUND, reg)
       | Some e =>
           fst (ur_emit_to_id in_isr now reg id sig)
           = fst (ur_emit in_isr now e sig)
           /\ ur_get_entity (snd (ur_emit_to_id in_isr now reg id sig)) id
              = ur_get_entity (snd r) id
       end.
Proof.
  intros r. subst r. unfold ur_broadcast. rewrite broadcast_loop_spec.
  cbn [fst snd].
  assert (Hget : forall id,
             ur_get_entity
               ((fun slot : option ur_entity_t =>
                   (fun e => snd (ur_emit in_isr now e sig)) <$> slot)
                  <$> reg) id
             = (fun e => snd (ur_emit in_isr now e sig))
                 <$> ur_get_entity reg id).
  { intros id. unfold ur_get_entity.
    destruct ((id =? 0) || (UR_CFG_MAX_ENTITIES <? id)); [reflexivity|].
    rewrite list_lookup_fmap.
    destruct (reg !! Z.to_nat (id - 1)) as [[e|]|]; reflexivity. }
  split; [exact Hget|]. split; [reflexivity|].
  split; [apply length_fmap|].
  intros id Hid. unfold ur_emit_to_id.
  destruct (ur_get_entity reg id) as [e|] eqn:Hg; [|reflexivity].
  destruct (ur_emit in_isr now e sig) as [err e'] eqn:He. cbn [fst snd].
  split; [reflexivity|].
  rewrite Hget, Hg. cbn [fmap option_fmap option_map]. rewrite He.
  now apply (get_entity_insert_same reg id e e').
Qed.

End Registry.

(** ** Middleware and mixin registration *)

Section Registration.
Import Core.

(** Where the inner loop of [sort_middleware] puts [temp]: the elements it
    walked over, all of larger priority, end up behind it. *)
Lemma mw_insert_from_right_split (temp : ur_middleware_t) :
  forall l shifted,
    exists moved kept,
      l = moved ++ kept
      /\ Forall (fun x => mw_priority temp < mw_priority x) moved
      /\ match kept with
         | [] => True
         | x :: _ => mw_priority x <= mw_priority temp
         end
      /\ mw_insert_from_right l temp shifted
         = reverse kept ++ temp :: reverse moved ++ shifted.
Proof.
  induction l as [|x rest IH]; intros shifted.
  - exists [], []. repeat split; constructor.
  - cbn [mw_insert_from_right].
    destruct (mw_priority temp <? mw_priority x) eqn:E.
    + apply Z.ltb_lt in E.
      destruct (IH (x :: shifted)) as (moved & kept & -> & Hm & Hk & Heq).
      exists (x :: moved), kept. repeat split; auto.
      rewrite Heq, reverse_cons, <- app_assoc. reflexivity.
    + apply Z.ltb_ge in E. exists [], (x :: rest).
      repeat split; auto.
Qed.

Lemma mw_insert_sorted_tail (prefix : list ur_middleware_t)
      (temp : ur_middleware_t) :
  StronglySorted mw_prio_le (prefix ++ [temp]) ->
  mw_insert_from_right (reverse prefix) temp [] = prefix ++ [temp].
Proof.
  intros Hs.
  destruct (reverse prefix) as [|x rest] eqn:Hr.
  - apply (f_equal reverse) in Hr. rewrite reverse_involutive in Hr.
    now subst prefix.
  - cbn [mw_insert_from_right].
    assert (Hx : mw_priority x <= mw_priority temp).
    { apply StronglySorted_app in Hs as (Hcross & _ & _).
      apply (Hcross x temp); [|apply list_elem_of_singleton; reflexivity].
      apply elem_of_reverse. rewrite Hr. left. }
    replace (mw_priority temp <? mw_priority x) with false
      by (symmetry; apply Z.ltb_ge; exact Hx).
    rewrite <- Hr, reverse_involutive. reflexivity.
Qed.

Lemma mw_sort_loop_sorted_prefix :
  forall mid prefix rest,
    StronglySorted mw_prio_le (prefix ++ mid) ->
    mw_sort_loop prefix (mid ++ rest) = mw_sort_loop (prefix ++ mid) rest.
Proof.
  induction mid as [|m mid IH]; intros prefix rest Hs.
  - now rewrite app_nil_r.
  - cbn [app mw_sort_loop].
    assert (Hpm : StronglySorted mw_prio_le (prefix ++ [m])).
    { replace (prefix ++ m :: mid) with ((prefix ++ [m]) ++ mid) in Hs
        by (rewrite <- app_assoc; reflexivity).
      now apply StronglySorted_app in Hs as (_ & Hs & _). }
    rewrite mw_insert_sorted_tail by exact Hpm.
    rewrite IH by (rewrite <- app_assoc; exact Hs).
    now rewrite <- app_assoc.
Qed.

Lemma sort_middleware_append (old : list ur_middleware_t)
      (new : ur_middleware_t) :
  StronglySorted mw_prio_le old ->
  sort_middleware (old ++ [new]) = mw_insert_from_right (reverse old) new [].
Proof.
  intros Hs. destruct old as [|m0 old]; [reflexivity|].
  cbn [app sort_middleware].
  rewrite (mw_sort_loop_sorted_prefix old [m0] [new]) by exact Hs.
  reflexivity.
Qed.

(** X12.  [ur_register_middleware] on a chain that is in priority order
    and has room puts the new entry, enabled, behind every entry whose
    priority is not larger than its own and in front of every entry of
    larger priority, and keeps the relative order of the others: the chain
    stays in priority order and entries of equal priority run in
    registration order.  A full chain gives [UR_ERR_NO_MEMORY] and a NULL
    function [UR_ERR_INVALID_ARG], both without change. *)
Theorem register_middleware_inserts_in_priority_order
        (t : ur_entity_tables) (fn : ur_middleware_fn_t)
        (ctx priority : Z) :
  StronglySorted mw_prio_le (tab_middleware t) ->
  let new := mk_middleware (Some fn) ctx priority 1 in
  let r := ur_register_middleware t (Some fn) ctx priority in
  (UR_CFG_MAX_MIDDLEWARE <= Z.of_nat (length (tab_middleware t)) ->
   r = (UR_ERR_NO_MEMORY, t))
  /\ ur_register_middleware t None ctx priority = (UR_ERR_INVALID_ARG, t)
  /\ (Z.of_nat (length (tab_middleware t)) < UR_CFG_MAX_MIDDLEWARE ->
      fst r = UR_OK
      /\ tab_states (snd r) = tab_states t
      /\ tab_mixins (snd r) = tab_mixins t
      /\ StronglySorted mw_prio_le (tab_middleware (snd r))
      /\ exists before after,
          tab_middleware t = before ++ after
          /\ tab_middleware (snd r) = before ++ new :: after
          /\ Forall (fun x => mw_priority x <= priority) before
          /\ Forall (fun x => priority < mw_priority x) after).
Proof.
  intros Hs new r. subst r. unfold ur_register_middleware.
  split; [|split].
  - intros Hfull.
    replace (UR_CFG_MAX_MIDDLEWARE <=? _) with true
      by (symmetry; apply Z.leb_le; exact Hfull).
    reflexivity.
  - reflexivity.
  - intros Hroom.
    replace (UR_CFG_MAX_MIDDLEWARE <=? _) with false
      by (symmetry; apply Z.leb_gt; exact Hroom).
    cbn [fst snd tab_states tab_mixins tab_middleware]. fold new.
    rewrite sort_middleware_append by exact Hs.
    destruct (mw_insert_from_right_split new (reverse (tab_middleware t)) [])
      as (moved & kept & Hrev & Hm & Hk & ->).
    rewrite app_nil_r.
    assert (Hold : tab_middleware t = reverse kept ++ reverse moved).
    { rewrite <- reverse_app, <- Hrev. symmetry. apply reverse_involutive. }
    assert (Hbefore : Forall (fun x => mw_priority x <= priority)
                             (reverse kept)).
    { apply Forall_forall. intros x Hx. rewrite elem_of_reverse in Hx.
      destruct kept as [|k kept]; [now apply elem_of_nil in Hx|].
      cbn [mw_priority new] in Hk.
      apply elem_of_cons in Hx as [-> | Hx]; [exact Hk|].
      rewrite Hold, reverse_cons in Hs.
      apply StronglySorted_app in Hs as (_ & Hs & _).
      apply StronglySorted_app in Hs as (Hcross & _ & _).
      specialize (Hcross x k).
      unfold mw_prio_le in Hcross.
      assert (mw_priority x <= mw_priority k); [|lia].
      apply Hcross; [rewrite elem_of_reverse; exact Hx|].
      apply list_elem_of_singleton. reflexivity. }
    assert (Hafter : Forall (fun x => priority < mw_priority x)
                            (reverse moved)).
    { apply Forall_forall. intros x Hx. rewrite elem_of_reverse in Hx.
      rewrite Forall_forall in Hm. exact (Hm x Hx). }
    repeat split.
    + rewrite Hold in Hs.
      apply StronglySorted_app in Hs as (Hcross & Hk' & Hm').
      apply StronglySorted_app_2; [|exact Hk'|].
      * intros a b Ha Hb. apply elem_of_cons in Hb as [-> | Hb].
        -- rewrite Forall_forall in Hbefore. exact (Hbefore a Ha).
        -- now apply Hcross.
      * apply StronglySorted_cons. split; [|exact Hm'].
        eapply Forall_impl; [exact Hafter|].
        intros y Hy. unfold mw_prio_le. cbn [mw_priority new]. simpl in Hy.
        lia.
    + exists (reverse kept), (reverse moved). repeat split; assumption.
Qed.

Lemma register_middleware_witness :
  let t := filtered_tables in
  let r := ur_register_middleware t (Some mw_pass) 0 0 in
  fst r = UR_OK
  /\ StronglySorted mw_prio_le (tab_middleware (snd r))
  /\ map mw_priority (tab_middleware (snd r)) = [0; 0; 1].
Proof.
  intros t r.
  assert (Hs : StronglySorted mw_prio_le (tab_middleware t)).
  { unfold t, filtered_tables, mw_prio_le. simpl.
    repeat constructor; simpl; lia. }
  destruct (register_middleware_inserts_in_priority_order t mw_pass 0 0 Hs)
    as (_ & _ & H).
  destruct H as (H1 & _ & _ & H4 & _); [reflexivity|].
  fold r in H1, H4. split; [exact H1|]. split; [exact H4|]. reflexivity.
Defined.

Lemma mixin_insert_split (mixin : ur_mixin_t) :
  forall mixins,
    Forall is_Some mixins ->
    exists before after,
      mixins = before ++ after
      /\ mixin_insert mixin mixins = Some (before ++ Some mixin :: after)
      /\ Forall (fun s => match s with
                          | Some x => mixin_priority x
                                      <= mixin_priority mixin
                          | None => False
                          end) before
      /\ match after with
         | Some x :: _ => mixin_priority mixin < mixin_priority x
         | _ => True
         end.
Proof.
  induction mixins as [|[x|] rest IH]; intros Hall.
  - exists [], []. repeat split. constructor.
  - apply Forall_cons in Hall as [_ Hrest]. cbn [mixin_insert].
    destruct (mixin_priority mixin <? mixin_priority x) eqn:E.
    + apply Z.ltb_lt in E. exists [], (Some x :: rest).
      repeat split; [constructor | exact E].
    + apply Z.ltb_ge in E.
      destruct (IH Hrest) as (before & after & -> & Hi & Hb & Ha).
      exists (Some x :: before), after. rewrite Hi.
      repeat split; [constructor; assumption | exact Ha].
  - apply Forall_cons in Hall as [[y Hy] _]. discriminate.
Qed.

(** X13.  [ur_bind_mixin] on a table of bound (non-NULL) mixins with room
    succeeds and inserts the mixin behind the leading mixins whose priority
    is not larger than its own and directly in front of the first mixin of
    larger priority, keeping the others in place; for a table in priority
    order the result is again in priority order.  A full table gives
    [UR_ERR_NO_MEMORY] without change. *)
Theorem bind_mixin_inserts_in_priority_order
        (t : ur_entity_tables) (mixin : ur_mixin_t) :
  Forall is_Some (tab_mixins t) ->
  (UR_CFG_MAX_MIXINS_PER_ENTITY <= Z.of_nat (length (tab_mixins t)) ->
   ur_bind_mixin t mixin = Some (UR_ERR_NO_MEMORY, t))
  /\ (Z.of_nat (length (tab_mixins t)) < UR_CFG_MAX_MIXINS_PER_ENTITY ->
      exists before after,
        tab_mixins t = before ++ after
        /\ ur_bind_mixin t mixin
           = Some (UR_OK,
                   mk_tables (tab_states t)
                             (before ++ Some mixin :: after)
                             (tab_middleware t))
        /\ Forall (fun s => mixin_prio_le s (Some mixin)) before
        /\ match after with
           | Some x :: _ => mixin_priority mixin < mixin_priority x
           | _ => True
           end
        /\ (StronglySorted mixin_prio_le (tab_mixins t) ->
            StronglySorted mixin_prio_le (before ++ Some mixin :: after))).
Proof.
  intros Hall. unfold ur_bind_mixin. split.
  - intros Hfull.
    replace (UR_CFG_MAX_MIXINS_PER_ENTITY <=? _) with true
      by (symmetry; apply Z.leb_le; exact Hfull).
    reflexivity.
  - intros Hroom.
    replace (UR_CFG_MAX_MIXINS_PER_ENTITY <=? _) with false
      by (symmetry; apply Z.leb_gt; exact Hroom).
    destruct (mixin_insert_split mixin (tab_mixins t) Hall)
      as (before & after & Hsplit & Hi & Hb & Ha).
    exists before, after. rewrite Hi.
    assert (Hb' : Forall (fun s => mixin_prio_le s (Some mixin)) before).
    { eapply Forall_impl; [exact Hb|]. intros [x|] Hx; exact Hx. }
    repeat split; try assumption.
    intros Hs. rewrite Hsplit in Hs, Hall.
    apply StronglySorted_app in Hs as (Hcross & Hsb & Hsa).
    apply StronglySorted_app_2; [|exact Hsb|].
    + intros a b Ha' Hb''. apply elem_of_cons in Hb'' as [-> | Hb''].
      * rewrite Forall_forall in Hb'. exact (Hb' a Ha').
      * now apply Hcross.
    + apply StronglySorted_cons. split; [|exact Hsa].
      destruct after as [|[x|] after]; [constructor| |].
      * apply StronglySorted_cons in Hsa as [Hx _].
        constructor; [exact (Z.lt_le_incl _ _ Ha)|].
        eapply Forall_impl; [exact Hx|].
        intros [y|] Hy; simpl in Hy |- *; [lia | exact Hy].
      * apply Forall_app in Hall as [_ Hall].
        apply Forall_cons in Hall as [[y Hy] _]. discriminate.
Qed.

Lemma bind_mixin_witness :
  let low := mk_mixin [mk_rule SIG_POWER_OFF STATE_STANDBY None] 1 in
  let high := mk_mixin [] 5 in
  let t := mk_tables [] [Some high] [] in
  ur_bind_mixin t low
  = Some (UR_OK, mk_tables [] [Some low; Some high] []).
Proof.
  intros low high t.
  destruct (bind_mixin_inserts_in_priority_order t low) as [_ H].
  { repeat constructor. now exists high. }
  destruct H as (before & after & Hsplit & Hbind & Hb & _ & _);
    [reflexivity|].
  rewrite Hbind.
  destruct before as [|b before].
  - simpl in Hsplit. subst after. reflexivity.
  - exfalso. apply Forall_cons in Hb as [Hb _].
    simpl in Hsplit. injection Hsplit as <- _. simpl in Hb. lia.
Defined.

End Registration.

(** ** Dispatch over a cyclic hierarchy *)

Section ParentCycle.
Import Core.

Lemma bubble_up_cycle (states cycle : list ur_state_def_t) (signal_id : Z) :
  (forall s, s ∈ cycle ->
             find_rule_in_state s signal_id = None
             /\ st_parent_id s <> 0
             /\ exists p, find_state states (st_parent_id s) = Some p
                          /\ p ∈ cycle) ->
  forall fuel st, st ∈ cycle ->
                  bubble_up fuel states (Some st) signal_id = None.
Proof.
  intros Hc. induction fuel as [|fuel IH]; intros st Hst;
    destruct (Hc st Hst) as (_ & Hp & p & Hf & Hpc);
    apply Z.eqb_neq in Hp; simpl; rewrite Hp; [reflexivity|].
  rewrite Hf. destruct (Hc p Hpc) as (Hr & _). rewrite Hr.
  now apply IH.
Qed.

(** X14.  The parent walk of the rule lookup has no cycle guard.  When the
    current state lies on a cycle of parent links (for instance a state
    that names itself as parent) and neither the states of the cycle nor
    the mixins have a rule for the signal at the head of the inbox, the
    lookup keeps walking the cycle: [ur_dispatch] does not return, however
    many iterations are allowed. *)
Theorem dispatch_never_returns_on_parent_cycle
        (t : ur_entity_tables) (now : Z) (ent : ur_entity_t)
        (sig : ur_signal_t) (rest : list ur_signal_t)
        (cycle : list ur_state_def_t) (st : ur_state_def_t) :
  flag_set ent UR_FLAG_ACTIVE = true ->
  flag_set ent UR_FLAG_SUSPENDED = false ->
  ent_inbox ent = sig :: rest ->
  tab_middleware t = [] ->
  find_rule_in_mixins (tab_mixins t) (sig_id sig) = None ->
  find_state (tab_states t) (ent_current_state ent) = Some st ->
  st ∈ cycle ->
  (forall s, s ∈ cycle ->
             find_rule_in_state s (sig_id sig) = None
             /\ st_parent_id s <> 0
             /\ exists p, find_state (tab_states t) (st_parent_id s) = Some p
                          /\ p ∈ cycle) ->
  forall fuel, ur_dispatch fuel t now ent = None.
Proof.
  intros Ha Hs Hin Hmw Hmix Hf Hst Hc fuel.
  unfold ur_dispatch. rewrite Ha, Hs, Hin. cbn [negb orb].
  unfold run_middleware_chain. rewrite Hmw.
  cbn [run_middleware_chain_from]. cbn [Z.eqb UR_MW_CONTINUE].
  change (UR_MW_CONTINUE =? UR_MW_FILTERED) with false.
  change (UR_MW_CONTINUE =? UR_MW_HANDLED) with false. cbv iota.
  unfold dispatch_rule, cascading_lookup.
  cbn [ent_current_state set_inbox]. rewrite Hf.
  destruct (Hc st Hst) as (Hr & _). rewrite Hr, Hmix.
  now rewrite (bubble_up_cycle _ cycle _ Hc fuel st Hst).
Qed.

Lemma dispatch_parent_cycle_witness :
  let looped := mk_state 1 1 None None [] in
  let t := mk_tables [looped] [] [] in
  let ent := mk_entity 1 1 UR_FLAG_ACTIVE 1 0 0 0 [] 0 [sample_signal 9] in
  ur_dispatch 1000 t 0 ent = None.
Proof.
  intros looped t ent.
  refine (dispatch_never_returns_on_parent_cycle
            t 0 ent (sample_signal 9) [] [looped] looped
            eq_refl eq_refl eq_refl eq_refl eq_refl eq_refl _ _ 1000%nat).
  - apply list_elem_of_singleton. reflexivity.
  - intros s Hs. apply list_elem_of_singleton in Hs. subst s.
    split; [reflexivity|]. split; [discriminate|].
    exists looped. split; [reflexivity|].
    apply list_elem_of_singleton. reflexivity.
Defined.

End ParentCycle.

(** ** Access control: rule tables *)

Section AclTables.
Import Core Acl.

Lemma acl_insert_from_right_split (temp : ur_acl_rule_t) :
  forall l shifted,
    exists moved kept,
      l = moved ++ kept
      /\ Forall (fun x => acl_priority temp < acl_priority x) moved
      /\ insert_from_right l temp shifted
         = reverse kept ++ temp :: reverse moved ++ shifted.
Proof.
  induction l as [|x rest IH]; intros shifted.
  - exists [], []. repeat split. constructor.
  - cbn [insert_from_right].
    destruct (acl_priority temp <? acl_priority x) eqn:E.
    + apply Z.ltb_lt in E.
      destruct (IH (x :: shifted)) as (moved & kept & -> & Hm & Heq).
      exists (x :: moved), kept. repeat split; auto.
      rewrite Heq, reverse_cons, <- app_assoc. reflexivity.
    + exists [], (x :: rest). repeat split. constructor.
Qed.

Lemma rules_of_priority_app (p : Z) (l1 l2 : list ur_acl_rule_t) :
  rules_of_priority p (l1 ++ l2)
  = rules_of_priority p l1 ++ rules_of_priority p l2.
Proof. apply List.filter_app. Qed.

Lemma rules_of_priority_larger (p : Z) (temp : ur_acl_rule_t)
      (l : list ur_acl_rule_t) :
  acl_priority temp = p ->
  Forall (fun x => acl_priority temp < acl_priority x) l ->
  rules_of_priority p l = [].
Proof.
  intros Hp. induction 1 as [|x l Hx _ IH]; [reflexivity|].
  unfold rules_of_priority in *. simpl.
  replace (acl_priority x =? p) with false
    by (symmetry; apply Z.eqb_neq; lia).
  exact IH.
Qed.

(** One pass of the inner loop moves [temp] in front of rules of larger
    priority only: the array is permuted and the order among the rules of
    each priority is kept. *)
Lemma insert_from_right_stable (temp : ur_acl_rule_t)
      (prefix : list ur_acl_rule_t) :
  insert_from_right (reverse prefix) temp [] ≡ₚ prefix ++ [temp]
  /\ forall p, rules_of_priority p (insert_from_right (reverse prefix) temp [])
               = rules_of_priority p (prefix ++ [temp]).
Proof.
  destruct (acl_insert_from_right_split temp (reverse prefix) [])
    as (moved & kept & Hrev & Hm & ->).
  rewrite app_nil_r.
  assert (Hp : prefix = reverse kept ++ reverse moved).
  { rewrite <- reverse_app, <- Hrev. symmetry. apply reverse_involutive. }
  rewrite Hp. split.
  - rewrite <- app_assoc. apply Permutation_app_head.
    apply Permutation_cons_append.
  - intros p. rewrite <- app_assoc, !rules_of_priority_app.
    f_equal. change (temp :: reverse moved) with ([temp] ++ reverse moved).
    rewrite rules_of_priority_app.
    destruct (Z.eq_dec (acl_priority temp) p) as [E|E].
    + rewrite (rules_of_priority_larger p temp (reverse moved) E).
      * now rewrite app_nil_r.
      * apply Forall_forall. intros x Hx. rewrite elem_of_reverse in Hx.
        rewrite Forall_forall in Hm. exact (Hm x Hx).
    + unfold rules_of_priority at 1 4. simpl.
      apply Z.eqb_neq in E. rewrite E. now rewrite app_nil_r.
Qed.

Lemma sort_loop_stable :
  forall rest prefix,
    sort_loop prefix rest ≡ₚ prefix ++ rest
    /\ forall p, rules_of_priority p (sort_loop prefix rest)
                 = rules_of_priority p (prefix ++ rest).
Proof.
  induction rest as [|temp rest IH]; intros prefix; cbn [sort_loop].
  - rewrite app_nil_r. split; reflexivity.
  - destruct (IH (insert_from_right (reverse prefix) temp []))
      as [Hperm Hst].
    destruct (insert_from_right_stable temp prefix) as [Hp1 Hs1].
    split.
    + rewrite Hperm, Hp1, <- app_assoc. reflexivity.
    + intros p. rewrite Hst, rules_of_priority_app, Hs1.
      change (temp :: rest) with ([temp] ++ rest).
      rewrite !rules_of_priority_app, <- app_assoc. reflexivity.
Qed.

Lemma sort_by_priority_stable (rules : list ur_acl_rule_t) :
  sort_by_priority rules ≡ₚ rules
  /\ forall p, rules_of_priority p (sort_by_priority rules)
               = rules_of_priority p rules.
Proof.
  destruct rules as [|r0 rest]; [split; reflexivity|].
  exact (sort_loop_stable rest [r0]).
Qed.

Lemma find_acl_entry_index_alter (f : acl_entry_t -> acl_entry_t)
      (es : list acl_entry_t) (id : Z) (i : nat) :
  (forall e, entry_entity_id (f e) = entry_entity_id e) ->
  find_acl_entry_index (alter f i es) id = find_acl_entry_index es id.
Proof.
  intros Hf. revert i. induction es as [|x es IH]; intros i; [reflexivity|].
  destruct i as [|i].
  - change (alter f 0%nat (x :: es)) with (f x :: es).
    cbn [find_acl_entry_index]. now rewrite Hf.
  - change (alter f (S i) (x :: es)) with (x :: alter f i es).
    cbn [find_acl_entry_index]. now rewrite IH.
Qed.

Lemma find_acl_entry_index_app_new (es : list acl_entry_t) (e : acl_entry_t) :
  find_acl_entry_index es (entry_entity_id e) = None ->
  find_acl_entry_index (es ++ [e]) (entry_entity_id e) = Some (length es).
Proof.
  induction es as [|x es IH]; intros H; simpl in *.
  - now rewrite Z.eqb_refl.
  - destruct (entry_entity_id x =? entry_entity_id e); [discriminate|].
    destruct (find_acl_entry_index es (entry_entity_id e)); [discriminate|].
    now rewrite IH.
Qed.

(** [find_or_create_acl_entry] succeeds when the entity has an entry or the
    table has room, and returns the position of the entity's entry. *)
Lemma find_or_create_spec (g : g_acl_t) (id : Z) :
  (is_Some (find_acl_entry g id)
   \/ Z.of_nat (length (acl_entries g)) < UR_CFG_MAX_ENTITIES) ->
  exists i g' e0,
    find_or_create_acl_entry g id = Some (i, g')
    /\ find_acl_entry_index (acl_entries g') id = Some i
    /\ acl_entries g' !! i = Some e0
    /\ entry_entity_id e0 = id
    /\ acl_stats g' = acl_stats g
    /\ acl_initialized g' = acl_initialized g
    /\ (forall e, find_acl_entry g id = Some e -> e0 = e /\ g' = g)
    /\ (find_acl_entry g id = None ->
        e0 = mk_acl_entry id [] UR_ACL_DEFAULT_ALLOW None 0).
Proof.
  intros H. unfold find_or_create_acl_entry, find_acl_entry in *.
  destruct (find_acl_entry_index (acl_entries g) id) as [i|] eqn:Hf.
  - destruct (find_acl_entry_index_Some _ _ _ Hf) as (e & He & Hid).
    exists i, g, e. rewrite He.
    split; [reflexivity|]. split; [exact Hf|]. split; [reflexivity|].
    split; [exact Hid|]. split; [reflexivity|]. split; [reflexivity|].
    split; [|discriminate].
    intros e' [= <-]. split; reflexivity.
  - destruct H as [[e He] | Hroom]; [discriminate|].
    replace (UR_CFG_MAX_ENTITIES <=? _) with false
      by (symmetry; apply Z.leb_gt; exact Hroom).
    set (e0 := mk_acl_entry id [] UR_ACL_DEFAULT_ALLOW None 0).
    exists (length (acl_entries g)), (with_entries g (acl_entries g ++ [e0])),
      e0.
    cbn [acl_entries with_entries acl_stats acl_initialized].
    repeat split; try discriminate.
    + exact (find_acl_entry_index_app_new (acl_entries g) e0 Hf).
    + rewrite lookup_app_r, Nat.sub_diag by lia. reflexivity.
Qed.

(** X15.  [ur_acl_register] replaces the rule list of the entity by the
    given rules sorted by priority with a stable sort: the stored list is a
    permutation of the input in ascending priority order in which rules of
    equal priority keep their input order, and it is what
    [find_acl_entry] then returns for the entity.  More than
    [UR_CFG_ACL_MAX_RULES] rules are refused with [UR_ERR_NO_MEMORY]. *)
Theorem acl_register_stores_stable_sort
        (g : g_acl_t) (ent : ur_entity_t) (rules : list ur_acl_rule_t) :
  let g0 := init_if_needed g in
  (is_Some (find_acl_entry g0 (ent_id ent))
   \/ Z.of_nat (length (acl_entries g0)) < UR_CFG_MAX_ENTITIES) ->
  let r := ur_acl_register g ent rules in
  (UR_CFG_ACL_MAX_RULES < Z.of_nat (length rules) ->
   r = (UR_ERR_NO_MEMORY, g0))
  /\ (Z.of_nat (length rules) <= UR_CFG_ACL_MAX_RULES ->
      fst r = UR_OK
      /\ exists e,
          find_acl_entry (snd r) (ent_id ent) = Some e
          /\ entry_rules e = sort_by_priority rules
          /\ entry_rules e ≡ₚ rules
          /\ rules_sorted (entry_rules e)
          /\ (forall p, rules_of_priority p (entry_rules e)
                        = rules_of_priority p rules)
          /\ ur_acl_rule_count (snd r) ent = Z.of_nat (length rules)).
Proof.
  intros g0 Hroom r. subst r. unfold ur_acl_register. fold g0. split.
  - intros Hbig.
    replace (UR_CFG_ACL_MAX_RULES <? _) with true
      by (symmetry; apply Z.ltb_lt; exact Hbig).
    reflexivity.
  - intros Hfit.
    replace (UR_CFG_ACL_MAX_RULES <? _) with false
      by (symmetry; apply Z.ltb_ge; exact Hfit).
    destruct (find_or_create_spec g0 (ent_id ent) Hroom)
      as (i & g' & e0 & -> & Hidx & Hl & Hid & _).
    cbn [fst snd]. split; [reflexivity|].
    assert (Hfind :
              find_acl_entry
                (with_entries g'
                   (alter (fun e => set_entry_rules e (sort_by_priority rules))
                          i (acl_entries g'))) (ent_id ent)
              = Some (set_entry_rules e0 (sort_by_priority rules))).
    { unfold find_acl_entry. cbn [acl_entries with_entries].
      rewrite find_acl_entry_index_alter, Hidx by reflexivity.
      now rewrite list_lookup_alter_eq, Hl. }
    exists (set_entry_rules e0 (sort_by_priority rules)).
    destruct (sort_by_priority_stable rules) as [Hperm Hst].
    split; [exact Hfind|]. split; [reflexivity|].
    split; [exact Hperm|]. split; [apply sort_by_priority_sorted|].
    split; [exact Hst|].
    unfold ur_acl_rule_count. rewrite Hfind. cbn [entry_rules set_entry_rules].
    now rewrite Hperm.
Qed.

Lemma acl_register_witness :
  exists e,
    find_acl_entry audio_acl (ent_id audio) = Some e
    /\ entry_rules e ≡ₚ audio_rules
    /\ rules_sorted (entry_rules e)
    /\ map acl_priority (entry_rules e) = [0; 1; 5].
Proof.
  destruct (acl_register_stores_stable_sort g_acl_zero audio audio_rules)
    as [_ H]; [right; reflexivity|].
  destruct H as (_ & e & Hf & He & Hp & Hs & _);
    [unfold UR_CFG_ACL_MAX_RULES, audio_rules; simpl; lia|].
  exists e. split; [exact Hf|]. split; [exact Hp|]. split; [exact Hs|].
  rewrite He. reflexivity.
Defined.

End AclTables.

Section AclRules.
Import Core Acl.

Lemma find_matching_rule_elem (sig : ur_signal_t) :
  forall rules r,
    find_matching_rule rules sig = Some r ->
    r ∈ rules /\ rule_matches sig r = true.
Proof.
  induction rules as [|x rest IH]; intros r H; simpl in H; [discriminate|].
  destruct (rule_matches sig x) eqn:E.
  - injection H as <-. split; [left | exact E].
  - destruct (IH r H) as [Hin Hm]. split; [now right | exact Hm].
Qed.

(** An older matching rule of no larger priority keeps precedence over an
    added rule. *)
Lemma insert_keeps_earlier_match (rule : ur_acl_rule_t) (sig : ur_signal_t) :
  forall rules r0,
    rules_sorted rules ->
    find_matching_rule rules sig = Some r0 ->
    acl_priority r0 <= acl_priority rule ->
    find_matching_rule (insert_by_priority rule rules) sig = Some r0.
Proof.
  unfold rules_sorted.
  induction rules as [|x rest IH]; intros r0 Hs Hf Hp; [discriminate|].
  apply StronglySorted_cons in Hs as [Hx Hrest].
  cbn [insert_by_priority].
  destruct (acl_priority rule <? acl_priority x) eqn:E.
  - apply Z.ltb_lt in E. exfalso.
    destruct (find_matching_rule_elem sig _ _ Hf) as [Hin _].
    apply elem_of_cons in Hin as [-> | Hin]; [lia|].
    rewrite Forall_forall in Hx. specialize (Hx r0 Hin).
    unfold prio_le in Hx. lia.
  - cbn [find_matching_rule] in *.
    destruct (rule_matches sig x); [exact Hf|].
    now apply IH.
Qed.

(** The added rule decides when it matches and no rule of smaller or equal
    priority does. *)
Lemma insert_new_rule_matches (rule : ur_acl_rule_t) (sig : ur_signal_t) :
  forall rules,
    rule_matches sig rule = true ->
    Forall (fun r => acl_priority r <= acl_priority rule ->
                     rule_matches sig r = false) rules ->
    find_matching_rule (insert_by_priority rule rules) sig = Some rule.
Proof.
  induction rules as [|x rest IH]; intros Hm Hall; cbn [insert_by_priority].
  - cbn [find_matching_rule]. now rewrite Hm.
  - apply Forall_cons in Hall as [Hx Hrest].
    destruct (acl_priority rule <? acl_priority x) eqn:E.
    + cbn [find_matching_rule]. now rewrite Hm.
    + apply Z.ltb_ge in E. cbn [find_matching_rule].
      rewrite (Hx E). now apply IH.
Qed.

Lemma find_acl_entry_index_insert (es : list acl_entry_t) (id : Z)
      (i : nat) (e e' : acl_entry_t) :
  es !! i = Some e -> entry_entity_id e' = entry_entity_id e ->
  find_acl_entry_index (<[i := e']> es) id = find_acl_entry_index es id.
Proof.
  revert i. induction es as [|x es IH]; intros [|i] Hl He;
    try discriminate; simpl in *.
  - injection Hl as ->. now rewrite He.
  - now rewrite (IH i Hl He).
Qed.

(** X16.  [ur_acl_add_rule] on an initialised table, for an entity whose
    entry holds fewer than [UR_CFG_ACL_MAX_RULES] rules in priority order,
    succeeds and keeps the list in priority order with one rule more.  The
    rule goes behind the existing rules of the same priority: for every
    signal, a rule that decided before and whose priority is not larger
    than the new one still decides, and the new rule decides when it
    matches and no existing rule of smaller or equal priority does.  A
    full rule list gives [UR_ERR_NO_MEMORY] without change. *)
Theorem acl_add_rule_keeps_earlier_rules_first
        (g : g_acl_t) (ent : ur_entity_t) (rule : ur_acl_rule_t)
        (e : acl_entry_t) :
  acl_initialized g = true ->
  find_acl_entry g (ent_id ent) = Some e ->
  rules_sorted (entry_rules e) ->
  let r := ur_acl_add_rule g ent rule in
  (UR_CFG_ACL_MAX_RULES <= Z.of_nat (length (entry_rules e)) ->
   r = (UR_ERR_NO_MEMORY, g))
  /\ (Z.of_nat (length (entry_rules e)) < UR_CFG_ACL_MAX_RULES ->
      fst r = UR_OK
      /\ exists e',
          find_acl_entry (snd r) (ent_id ent) = Some e'
          /\ entry_rules e' = insert_by_priority rule (entry_rules e)
          /\ rules_sorted (entry_rules e')
          /\ ur_acl_rule_count (snd r) ent = ur_acl_rule_count g ent + 1
          /\ (forall sig r0,
                find_matching_rule (entry_rules e) sig = Some r0 ->
                acl_priority r0 <= acl_priority rule ->
                find_matching_rule (entry_rules e') sig = Some r0)
          /\ (forall sig,
                rule_matches sig rule = true ->
                Forall (fun r => acl_priority r <= acl_priority rule ->
                                 rule_matches sig r = false)
                       (entry_rules e) ->
                find_matching_rule (entry_rules e') sig = Some rule)).
Proof.
  intros Hinit Hfind Hsorted r. subst r.
  destruct (find_or_create_spec g (ent_id ent))
    as (i & g' & e0 & Hfc & Hidx & Hl & Hid & _ & _ & Hsame & _);
    [left; now exists e|].
  destruct (Hsame e Hfind) as [-> ->].
  unfold ur_acl_add_rule, init_if_needed. rewrite Hinit, Hfc, Hl. split.
  - intros Hfull.
    replace (UR_CFG_ACL_MAX_RULES <=? _) with true
      by (symmetry; apply Z.leb_le; exact Hfull).
    reflexivity.
  - intros Hroom.
    replace (UR_CFG_ACL_MAX_RULES <=? _) with false
      by (symmetry; apply Z.leb_gt; exact Hroom).
    cbn [fst snd]. split; [reflexivity|].
    set (e' := set_entry_rules e (insert_by_priority rule (entry_rules e))).
    assert (Hfind' : find_acl_entry
                       (with_entries g (<[i := e']> (acl_entries g)))
                       (ent_id ent) = Some e').
    { unfold find_acl_entry. cbn [acl_entries with_entries].
      rewrite (find_acl_entry_index_insert _ _ i e e' Hl eq_refl), Hidx.
      apply list_lookup_insert_eq. eapply lookup_lt_Some. exact Hl. }
    exists e'. split; [exact Hfind'|]. split; [reflexivity|].
    split; [now apply insert_by_priority_sorted|].
    split.
    { unfold ur_acl_rule_count. rewrite Hfind', Hfind.
      cbn [entry_rules e' set_entry_rules].
      assert (Hlen : forall rs,
                 length (insert_by_priority rule rs) = S (length rs)).
      { induction rs as [|x rs IH]; [reflexivity|]. simpl.
        destruct (acl_priority rule <? acl_priority x); simpl;
          [reflexivity | now rewrite IH]. }
      rewrite Hlen. lia. }
    split.
    + intros sig r0 Hf Hp.
      now apply insert_keeps_earlier_match.
    + intros sig Hm Hall. now apply insert_new_rule_matches.
Qed.

End AclRules.

Section AclDecisions.
Import Core Acl.

Lemma acl_add_rule_witness :
  let rule := mk_acl_rule UR_ACL_SRC_ANY UR_ACL_SIG_ANY UR_ACL_DENY 1 0 in
  let r := ur_acl_add_rule audio_acl audio rule in
  fst r = UR_OK
  /\ ur_acl_rule_count (snd r) audio = 4
  /\ exists e',
      find_acl_entry (snd r) (ent_id audio) = Some e'
      /\ find_matching_rule (entry_rules e')
                            (mk_signal SIG_CMD_PLAY 2 [0; 0; 0; 0] 0 1)
         = Some (mk_acl_rule UR_ACL_SRC_LOCAL UR_ACL_SIG_ANY UR_ACL_ALLOW 1 0).
Proof.
  intros rule r.
  destruct (acl_add_rule_keeps_earlier_rules_first
              audio_acl audio rule
              (mk_acl_entry 3 (sort_by_priority audio_rules)
                            UR_ACL_DEFAULT_ALLOW None 0))
    as [_ H]; [reflexivity | reflexivity | apply sort_by_priority_sorted |].
  destruct H as (H1 & e' & Hf & _ & _ & Hc & Hold & _); [reflexivity|].
  fold r in H1, Hf, Hc.
  split; [exact H1|]. split; [rewrite Hc; reflexivity|].
  exists e'. split; [exact Hf|].
  apply Hold; [reflexivity | simpl; lia].
Defined.

Lemma filter_twice (f : ur_acl_rule_t -> bool) (l : list ur_acl_rule_t) :
  List.filter f (List.filter f l) = List.filter f l.
Proof.
  induction l as [|x xs IH]; [reflexivity|]. simpl.
  destruct (f x) eqn:E; simpl; [rewrite E; now f_equal | exact IH].
Qed.

Lemma length_filter_le (f : ur_acl_rule_t -> bool) (l : list ur_acl_rule_t) :
  (length (List.filter f l) <= length l)%nat.
Proof.
  induction l as [|x xs IH]; [simpl; lia|]. simpl.
  destruct (f x); simpl; lia.
Qed.

Lemma removal_wildcard_keeps_nothing (l : list ur_acl_rule_t) :
  List.filter
    (fun r => negb (removal_match UR_ACL_SRC_ANY UR_ACL_SIG_ANY r)) l = [].
Proof.
  induction l as [|x xs IH]; [reflexivity|]. simpl. exact IH.
Qed.

(** X17.  [ur_acl_remove_rules] is idempotent: after one call a second
    call with the same arguments removes nothing, returns 0 and leaves the
    table as it is.  The count returned is the number of rules by which the
    entity's list shrank, the wildcard pair (any source, any signal) empties
    the list, and the entries of other entities are not touched. *)
Theorem acl_remove_rules_is_idempotent
        (g : g_acl_t) (ent : ur_entity_t) (src_id signal_id : Z) :
  let r := ur_acl_remove_rules g ent src_id signal_id in
  ur_acl_remove_rules (snd r) ent src_id signal_id = (0, snd r)
  /\ 0 <= fst r
  /\ ur_acl_rule_count (snd r) ent = ur_acl_rule_count g ent - fst r
  /\ (src_id = UR_ACL_SRC_ANY -> signal_id = UR_ACL_SIG_ANY ->
      ur_acl_rule_count (snd r) ent = 0)
  /\ forall id, id <> ent_id ent ->
                find_acl_entry (snd r) id = find_acl_entry g id.
Proof.
  intros r. subst r. unfold ur_acl_remove_rules.
  destruct (find_acl_entry_index (acl_entries g) (ent_id ent)) as [i|] eqn:Hidx.
  2: { cbn [fst snd]. rewrite Hidx.
       unfold ur_acl_rule_count, find_acl_entry. rewrite Hidx.
       repeat split; try lia; reflexivity. }
  destruct (find_acl_entry_index_Some _ _ _ Hidx) as (e & Hl & Hid).
  rewrite Hl. cbv zeta. cbn [fst snd].
  set (f := fun r => negb (removal_match src_id signal_id r)).
  set (kept := List.filter f (entry_rules e)).
  set (e1 := set_entry_rules e kept).
  assert (Hi : (i < length (acl_entries g))%nat)
    by (eapply lookup_lt_Some; exact Hl).
  assert (Hidx1 : forall id,
             find_acl_entry_index (<[i := e1]> (acl_entries g)) id
             = find_acl_entry_index (acl_entries g) id).
  { intros id. now apply (find_acl_entry_index_insert _ _ i e e1). }
  assert (Hkk : List.filter f kept = kept) by apply filter_twice.
  assert (Hle : (length kept <= length (entry_rules e))%nat)
    by apply length_filter_le.
  split.
  { cbn [acl_entries with_entries]. rewrite Hidx1, Hidx.
    rewrite list_lookup_insert_eq by exact Hi.
    cbn [entry_rules e1 set_entry_rules]. fold f. rewrite Hkk.
    f_equal; [lia|].
    unfold with_entries. cbn [acl_entries acl_stats acl_initialized].
    now rewrite list_insert_insert_eq. }
  split; [lia|].
  assert (Hfind1 : find_acl_entry
                     (with_entries g (<[i := e1]> (acl_entries g)))
                     (ent_id ent) = Some e1).
  { unfold find_acl_entry. cbn [acl_entries with_entries].
    rewrite Hidx1, Hidx. now apply list_lookup_insert_eq. }
  assert (Hfind0 : find_acl_entry g (ent_id ent) = Some e).
  { unfold find_acl_entry. now rewrite Hidx. }
  split.
  { unfold ur_acl_rule_count. rewrite Hfind1, Hfind0.
    cbn [entry_rules e1 set_entry_rules]. lia. }
  split.
  { intros -> ->. unfold ur_acl_rule_count. rewrite Hfind1.
    cbn [entry_rules e1 set_entry_rules].
    subst kept f. now rewrite removal_wildcard_keeps_nothing. }
  intros id Hne. unfold find_acl_entry. cbn [acl_entries with_entries].
  rewrite Hidx1.
  destruct (find_acl_entry_index (acl_entries g) id) as [j|] eqn:Hj;
    [|reflexivity].
  apply list_lookup_insert_ne. intros <-.
  destruct (find_acl_entry_index_Some _ _ _ Hj) as (e2 & Hl2 & Hid2).
  rewrite Hl in Hl2. injection Hl2 as <-. congruence.
Qed.

(** X18.  The default policy decides unmatched signals.  After
    [ur_acl_set_default (ent, DENY)], for an entity that has an entry or
    for which the table has room, a signal that none of the entity's rules
    matches is refused by [ur_acl_filter], unchanged, and counted as
    denied.  When the table is full and the entity has no entry the call
    does nothing, and the same signal is let through. *)
Theorem acl_default_deny_blocks_unmatched
        (g : g_acl_t) (ent : ur_entity_t) (sig : ur_signal_t) :
  let g0 := init_if_needed g in
  let g1 := ur_acl_set_default g ent UR_ACL_DEFAULT_DENY in
  (forall e, find_acl_entry g0 (ent_id ent) = Some e ->
             find_matching_rule (entry_rules e) sig = None) ->
  ((is_Some (find_acl_entry g0 (ent_id ent))
    \/ Z.of_nat (length (acl_entries g0)) < UR_CFG_MAX_ENTITIES) ->
   fst (fst (ur_acl_filter g1 ent sig)) = false
   /\ snd (fst (ur_acl_filter g1 ent sig)) = sig
   /\ denied_count (acl_stats (snd (ur_acl_filter g1 ent sig)))
      = u32 (denied_count (acl_stats g0) + 1))
  /\ (find_acl_entry g0 (ent_id ent) = None ->
      UR_CFG_MAX_ENTITIES <= Z.of_nat (length (acl_entries g0)) ->
      g1 = g0 /\ fst (fst (ur_acl_filter g1 ent sig)) = true).
Proof.
  intros g0 g1 Hnomatch.
  assert (Hinit : acl_initialized g0 = true).
  { unfold g0, init_if_needed. destruct (acl_initialized g) eqn:E;
      [exact E | reflexivity]. }
  split.
  - intros Hroom.
    destruct (find_or_create_spec g0 (ent_id ent) Hroom)
      as (i & g' & e0 & Hfc & Hidx & Hl & Hid & Hst & Hin & Hsame & Hnew).
    assert (Hrules : find_matching_rule (entry_rules e0) sig = None).
    { destruct (find_acl_entry g0 (ent_id ent)) as [e|] eqn:Hf.
      - destruct (Hsame e eq_refl) as [-> _]. now apply Hnomatch.
      - rewrite (Hnew eq_refl). reflexivity. }
    subst g1. unfold ur_acl_set_default. fold g0. rewrite Hfc.
    set (e1 := mk_acl_entry (entry_entity_id e0) (entry_rules e0)
                            UR_ACL_DEFAULT_DENY (entry_transform_fn e0)
                            (entry_transform_ctx e0)).
    set (g1 := with_entries g' _).
    assert (Hfind : forall s, find_acl_entry (with_stats g1 s) (ent_id ent)
                              = Some e1).
    { intros s. unfold find_acl_entry, g1.
      cbn [acl_entries with_entries with_stats].
      rewrite find_acl_entry_index_alter, Hidx by reflexivity.
      now rewrite list_lookup_alter_eq, Hl. }
    unfold ur_acl_filter, ur_acl_check.
    replace (acl_initialized g1) with true
      by (unfold g1; cbn [acl_initialized with_entries]; congruence).
    cbn [negb]. rewrite Hfind. cbn [entry_rules e1]. rewrite Hrules.
    cbn [entry_default_policy e1 policy_action].
    change (policy_action UR_ACL_DEFAULT_DENY) with UR_ACL_DENY.
    change (UR_ACL_DENY =? UR_ACL_ALLOW) with false.
    change (UR_ACL_DENY =? UR_ACL_DENY) with true. cbv iota.
    cbn [fst snd acl_stats with_stats denied_count incr_denied incr_default
           incr_checked].
    repeat split. unfold g1. cbn [acl_stats with_entries]. now rewrite Hst.
  - intros Hnone Hfull. subst g1. unfold ur_acl_set_default. fold g0.
    unfold find_or_create_acl_entry.
    unfold find_acl_entry in Hnone.
    destruct (find_acl_entry_index (acl_entries g0) (ent_id ent)) as [i|]
      eqn:Hidx.
    + destruct (find_acl_entry_index_Some _ _ _ Hidx) as (e & He & _).
      congruence.
    + replace (UR_CFG_MAX_ENTITIES <=? _) with true
        by (symmetry; apply Z.leb_le; exact Hfull).
      split; [reflexivity|].
      unfold ur_acl_filter, ur_acl_check. rewrite Hinit. cbn [negb].
      unfold find_acl_entry. cbn [acl_entries with_stats]. rewrite Hidx.
      reflexivity.
Qed.

Lemma acl_default_deny_witness :
  let g1 := ur_acl_set_default audio_acl audio UR_ACL_DEFAULT_DENY in
  let sig := mk_signal 0x0140 0 [0; 0; 0; 0] 0 1 in
  fst (fst (ur_acl_filter audio_acl audio sig)) = true
  /\ fst (fst (ur_acl_filter g1 audio sig)) = false.
Proof.
  intros g1 sig. split; [reflexivity|].
  destruct (acl_default_deny_blocks_unmatched audio_acl audio sig)
    as [H _].
  - intros e He. injection He as <-. reflexivity.
  - destruct H as (H1 & _); [left; eexists; reflexivity|]. exact H1.
Defined.

(** X19.  With the ACL filter as the first enabled middleware of an active
    entity, a signal that [ur_acl_filter] refuses is taken from the inbox
    and dropped: [ur_dispatch] returns [UR_OK] after that one middleware
    call, no rule is looked up, no action or transition runs and the entity
    is otherwise unchanged. *)
Theorem acl_denied_signal_is_dropped_by_dispatch
        (fuel : nat) (t : ur_entity_tables) (now : Z) (g : g_acl_t)
        (ent : ur_entity_t) (sig : ur_signal_t) (rest : list ur_signal_t)
        (ctx prio : Z) (others : list ur_middleware_t) :
  flag_set ent UR_FLAG_ACTIVE = true ->
  flag_set ent UR_FLAG_SUSPENDED = false ->
  ent_inbox ent = sig :: rest ->
  tab_middleware t
  = mk_middleware (Some (ur_acl_middleware g)) ctx prio 1 :: others ->
  fst (fst (ur_acl_filter g (set_inbox ent rest) sig)) = false ->
  ur_dispatch fuel t now ent
  = Some (UR_OK, set_inbox ent rest, [CallMiddleware 0 sig]).
Proof.
  intros Ha Hs Hin Hmw Hdeny.
  unfold ur_dispatch. rewrite Ha, Hs, Hin. cbn [negb orb].
  unfold run_middleware_chain. rewrite Hmw.
  cbn [run_middleware_chain_from mw_enabled mw_fn mw_ctx].
  change (1 =? 0) with false. cbv iota.
  unfold ur_acl_middleware at 1.
  destruct (ur_acl_filter g (set_inbox ent rest) sig) as [[pass sig'] g'].
  cbn [fst] in Hdeny. subst pass.
  change (UR_MW_FILTERED =? UR_MW_FILTERED) with true.
  cbn [orb]. cbv iota. reflexivity.
Qed.

Lemma acl_denied_signal_witness :
  let t := snd (ur_acl_enable_middleware audio_acl controller_tables) in
  ur_dispatch 4 t 10 (mk_entity 3 STATE_NORMAL UR_FLAG_ACTIVE 1 0 0 0 [] 0
                                [external_signal SIG_FACTORY_RESET])
  = Some (UR_OK,
          mk_entity 3 STATE_NORMAL UR_FLAG_ACTIVE 1 0 0 0 [] 0 [],
          [CallMiddleware 0 (external_signal SIG_FACTORY_RESET)]).
Proof.
  intros t.
  exact (acl_denied_signal_is_dropped_by_dispatch
           4 t 10 audio_acl
           (mk_entity 3 STATE_NORMAL UR_FLAG_ACTIVE 1 0 0 0 [] 0
                      [external_signal SIG_FACTORY_RESET])
           (external_signal SIG_FACTORY_RESET) [] 0 0 []
           eq_refl eq_refl eq_refl eq_refl eq_refl).
Defined.

(** On an initialised table every [ur_acl_filter] call is counted
    once: [checked_count] goes up by one and, according to the answer,
    exactly one of [allowed_count] (signal passed) and [denied_count]
    (signal refused) goes up by one, all modulo 2^32. *)
Theorem acl_filter_counts_every_decision
        (g : g_acl_t) (ent : ur_entity_t) (sig : ur_signal_t) :
  acl_initialized g = true ->
  let r := ur_acl_filter g ent sig in
  let s := acl_stats g in
  let s' := acl_stats (snd r) in
  checked_count s' = u32 (checked_count s + 1)
  /\ if fst (fst r)
     then allowed_count s' = u32 (allowed_count s + 1)
          /\ denied_count s' = denied_count s
     else denied_count s' = u32 (denied_count s + 1)
          /\ allowed_count s' = allowed_count s.
Proof.
  intros Hinit r s s'. subst r s s'.
  unfold ur_acl_filter, ur_acl_check. rewrite Hinit. cbn [negb].
  destruct (find_acl_entry _ (ent_id ent)) as [e|] eqn:Hf.
  - destruct (find_matching_rule (entry_rules e) sig) as [rule|].
    + destruct (acl_action rule =? UR_ACL_ALLOW); [simpl; auto|].
      destruct (acl_action rule =? UR_ACL_DENY); [simpl; auto|].
      destruct (acl_action rule =? UR_ACL_LOG); [simpl; auto|].
      destruct (acl_action rule =? UR_ACL_TRANSFORM); [|simpl; auto].
      rewrite Hf.
      destruct (entry_transform_fn e) as [fn|]; [|simpl; auto].
      destruct (fn sig (entry_transform_ctx e)) as [sig' [|]]; simpl; auto.
    + destruct (policy_action (entry_default_policy e) =? UR_ACL_ALLOW);
        [simpl; auto|].
      destruct (policy_action (entry_default_policy e) =? UR_ACL_DENY);
        [simpl; auto|].
      destruct (policy_action (entry_default_policy e) =? UR_ACL_LOG);
        [simpl; auto|].
      destruct (policy_action (entry_default_policy e) =? UR_ACL_TRANSFORM);
        [|simpl; auto].
      cbn [with_stats acl_entries]. unfold find_acl_entry in *.
      cbn [acl_entries with_stats] in *. rewrite Hf.
      destruct (entry_transform_fn e) as [fn|]; [|simpl; auto].
      destruct (fn sig (entry_transform_ctx e)) as [sig' [|]]; simpl; auto.
  - simpl. auto.
Qed.

Lemma acl_filter_counts_witness :
  let r := ur_acl_filter audio_acl audio (external_signal SIG_FACTORY_RESET) in
  fst (fst r) = false
  /\ checked_count (acl_stats (snd r)) = 1
  /\ denied_count (acl_stats (snd r)) = 1
  /\ allowed_count (acl_stats (snd r)) = 0.
Proof.
  intros r.
  pose proof (acl_filter_counts_every_decision
                audio_acl audio (external_signal SIG_FACTORY_RESET) eq_refl)
    as H.
  cbv zeta in H. fold r in H.
  assert (Hr : fst (fst r) = false) by reflexivity.
  rewrite Hr in H. destruct H as (H1 & H2 & H3).
  split; [exact Hr|]. split; [exact H1|]. split; [exact H2 | exact H3].
Defined.

End AclDecisions.

(** ** Publish/subscribe: subscriptions *)

Section Subscriptions.
Import Core Bus.

Lemma find_topic_index_Some (ts : list ur_bus_topic_t) (id : Z) :
  forall i, find_topic_index ts id = Some i ->
            exists topic, ts !! i = Some topic /\ topic_id topic = id.
Proof.
  induction ts as [|x ts IH]; intros i H; simpl in H; [discriminate|].
  destruct (topic_id x =? id) eqn:E.
  - injection H as <-. exists x. split; [reflexivity | now apply Z.eqb_eq].
  - destruct (find_topic_index ts id) as [j|]; [|discriminate].
    injection H as <-. exact (IH j eq_refl).
Qed.

Lemma find_topic_index_insert (ts : list ur_bus_topic_t) (id : Z)
      (i : nat) (x x' : ur_bus_topic_t) :
  ts !! i = Some x -> topic_id x' = topic_id x ->
  find_topic_index (<[i := x']> ts) id = find_topic_index ts id.
Proof.
  revert i. induction ts as [|y ts IH]; intros [|i] Hl He;
    try discriminate; simpl in *.
  - injection Hl as ->. now rewrite He.
  - now rewrite (IH i Hl He).
Qed.

Lemma find_topic_index_app_new (ts : list ur_bus_topic_t) (id : Z)
      (subs : list Z) :
  find_topic_index ts id = None ->
  find_topic_index (ts ++ [mk_topic id subs]) id = Some (length ts).
Proof.
  induction ts as [|x ts IH]; intros H; simpl in *.
  - now rewrite Z.eqb_refl.
  - destruct (topic_id x =? id); [discriminate|].
    destruct (find_topic_index ts id); [discriminate|].
    now rewrite IH.
Qed.

Lemma is_subscribed_elem_of (topic : ur_bus_topic_t) (id : Z) :
  is_subscribed_to_topic topic id = true <-> id ∈ subscribers topic.
Proof.
  unfold is_subscribed_to_topic.
  rewrite existsb_exists, list_elem_of_In. split.
  - intros (x & Hx & Heq). apply Z.eqb_eq in Heq. now subst.
  - intros H. exists id. split; [exact H | apply Z.eqb_refl].
Qed.

(** What a successful [ur_subscribe] does to the table, and when it
    fails. *)
Lemma ur_subscribe_cases (g : g_bus_t) (ent : ur_entity_t) (id : Z) :
  let g0 := if bus_initialized g then g else ur_bus_init g in
  ur_subscribe g ent id = (UR_ERR_NO_MEMORY, g0)
  \/ (exists i topic,
         bus_topics g0 !! i = Some topic
         /\ find_topic_index (bus_topics g0) id = Some i
         /\ (((ent_id ent ∈ subscribers topic)
              /\ ur_subscribe g ent id = (UR_OK, g0))
             \/ ((ent_id ent ∉ subscribers topic)
                 /\ ur_subscribe g ent id
                    = (UR_OK,
                       mk_bus (<[i := mk_topic (topic_id topic)
                                        (subscribers topic ++ [ent_id ent])]>
                                 (bus_topics g0))
                              (bus_stats g0) (bus_initialized g0)))))
  \/ (find_topic_index (bus_topics g0) id = None
      /\ ur_subscribe g ent id
         = (UR_OK,
            mk_bus (bus_topics g0 ++ [mk_topic id [ent_id ent]])
                   (bus_stats g0) (bus_initialized g0))).
Proof.
  intros g0. unfold ur_subscribe. fold g0. cbv zeta.
  destruct (find_topic_index (bus_topics g0) id) as [i|] eqn:Hidx.
  - destruct (find_topic_index_Some _ _ _ Hidx) as (topic & Hl & Hid).
    rewrite Hl.
    destruct (is_subscribed_to_topic topic (ent_id ent)) eqn:Hsub.
    + right. left. exists i, topic. repeat split; auto.
      left. split; [now apply is_subscribed_elem_of | reflexivity].
    + destruct (UR_CFG_BUS_MAX_SUBSCRIBERS <=? _); [now left|].
      right. left. exists i, topic. repeat split; auto.
      right. split; [|reflexivity].
      intros Hin. apply is_subscribed_elem_of in Hin. congruence.
  - destruct (UR_CFG_BUS_MAX_TOPICS <=? _); [now left|].
    cbn [bus_topics bus_stats bus_initialized].
    rewrite lookup_app_r, Nat.sub_diag by lia.
    cbn [lookup list_lookup subscribers is_subscribed_to_topic existsb
           length].
    change (UR_CFG_BUS_MAX_SUBSCRIBERS <=? Z.of_nat 0) with false.
    cbv iota. right. right. split; [reflexivity|].
    f_equal. f_equal.
    rewrite list_insert_alter.
    replace (length (bus_topics g0)) with (length (bus_topics g0) + 0)%nat
      by lia.
    rewrite (alter_app_r _ (bus_topics g0) [mk_topic id []] 0).
    reflexivity.
Qed.

Lemma ur_subscribe_again (g : g_bus_t) (ent : ur_entity_t) (id : Z)
      (i : nat) (topic : ur_bus_topic_t) :
  bus_initialized g = true ->
  find_topic_index (bus_topics g) id = Some i ->
  bus_topics g !! i = Some topic ->
  is_subscribed_to_topic topic (ent_id ent) = true ->
  ur_subscribe g ent id = (UR_OK, g)
  /\ ur_is_subscribed g ent id = true.
Proof.
  intros Hinit Hidx Hl Hsub. split.
  - unfold ur_subscribe. rewrite Hinit. cbv zeta.
    now rewrite Hidx, Hl, Hsub.
  - unfold ur_is_subscribed, find_topic. now rewrite Hidx, Hl.
Qed.

Lemma bus_inv_init (g : g_bus_t) :
  bus_inv g -> bus_inv (if bus_initialized g then g else ur_bus_init g).
Proof.
  intros H. destruct (bus_initialized g); [exact H | constructor].
Qed.

(** X20.  [ur_subscribe] never lists an entity twice under a topic: it
    keeps every subscriber list free of duplicates.  After a successful
    call the entity is subscribed ([ur_is_subscribed] answers true) and
    subscribing again is a no-op that returns [UR_OK]; the only failure is
    [UR_ERR_NO_MEMORY], which leaves the table as it was. *)
Theorem subscribe_is_idempotent (g : g_bus_t) (ent : ur_entity_t) (id : Z) :
  bus_inv g ->
  let g0 := if bus_initialized g then g else ur_bus_init g in
  let r := ur_subscribe g ent id in
  bus_inv (snd r)
  /\ (fst r = UR_OK \/ r = (UR_ERR_NO_MEMORY, g0))
  /\ (fst r = UR_OK ->
      ur_is_subscribed (snd r) ent id = true
      /\ ur_subscribe (snd r) ent id = (UR_OK, snd r)).
Proof.
  intros Hinv g0 r. subst r.
  pose proof (bus_inv_init g Hinv) as Hinv0. fold g0 in Hinv0.
  assert (Hinit0 : bus_initialized g0 = true).
  { unfold g0. destruct (bus_initialized g) eqn:E; [exact E | reflexivity]. }
  pose proof (ur_subscribe_cases g ent id) as Hc. cbv zeta in Hc.
  fold g0 in Hc.
  destruct Hc
    as [H | [(i & topic & Hl & Hidx & [[Hin H] | [Hnin H]]) | [Hidx H]]];
    rewrite H; cbn [fst snd].
  - split; [exact Hinv0|]. split; [now right|]. discriminate.
  - split; [exact Hinv0|]. split; [now left|]. intros _.
    destruct (ur_subscribe_again g0 ent id i topic Hinit0 Hidx Hl)
      as [H1 H2]; [now apply is_subscribed_elem_of|].
    split; [exact H2 | exact H1].
  - set (topic' := mk_topic (topic_id topic)
                            (subscribers topic ++ [ent_id ent])).
    assert (Hi : (i < length (bus_topics g0))%nat)
      by (eapply lookup_lt_Some; exact Hl).
    set (g1 := mk_bus _ _ _).
    split.
    { unfold bus_inv, g1. cbn [bus_topics].
      apply Forall_insert; [exact Hinv0|].
      cbn [subscribers topic']. apply NoDup_app. split; [|split].
      - exact (Forall_lookup_1 _ _ _ _ Hinv0 Hl).
      - intros x Hx Hx'. apply list_elem_of_singleton in Hx'. now subst x.
      - apply NoDup_singleton. }
    split; [now left|]. intros _.
    destruct (ur_subscribe_again g1 ent id i topic') as [H1 H2].
    + exact Hinit0.
    + unfold g1. cbn [bus_topics].
      now rewrite (find_topic_index_insert _ _ i topic topic' Hl eq_refl).
    + unfold g1. cbn [bus_topics]. now apply list_lookup_insert_eq.
    + apply is_subscribed_elem_of. cbn [subscribers topic'].
      apply elem_of_app. right. apply list_elem_of_singleton. reflexivity.
    + split; [exact H2 | exact H1].
  - set (g1 := mk_bus _ _ _).
    split.
    { unfold bus_inv, g1. cbn [bus_topics]. apply Forall_app. split;
        [exact Hinv0|]. constructor; [|constructor]. cbn [subscribers].
      apply NoDup_singleton. }
    split; [now left|]. intros _.
    destruct (ur_subscribe_again g1 ent id (length (bus_topics g0))
                                 (mk_topic id [ent_id ent])) as [H1 H2].
    + exact Hinit0.
    + unfold g1. cbn [bus_topics]. now apply find_topic_index_app_new.
    + unfold g1. cbn [bus_topics].
      rewrite lookup_app_r, Nat.sub_diag by lia. reflexivity.
    + unfold is_subscribed_to_topic. simpl. now rewrite Z.eqb_refl.
    + split; [exact H2 | exact H1].
Qed.

Lemma subscribe_is_idempotent_witness :
  bus_inv battery_bus
  /\ ur_is_subscribed battery_bus (subscriber 2 []) SIG_BATTERY_LEVEL = true
  /\ ur_subscribe battery_bus (subscriber 2 []) SIG_BATTERY_LEVEL
     = (UR_OK, battery_bus).
Proof.
  set (g1 := snd (ur_subscribe g_bus_zero (subscriber 1 [])
                               SIG_BATTERY_LEVEL)).
  assert (Hz : bus_inv g_bus_zero) by constructor.
  destruct (subscribe_is_idempotent g_bus_zero (subscriber 1 [])
                                    SIG_BATTERY_LEVEL Hz) as (H1 & _ & _).
  destruct (subscribe_is_idempotent g1 (subscriber 2 [])
                                    SIG_BATTERY_LEVEL H1) as (H2 & _ & H3).
  destruct (H3 eq_refl) as [H4 H5].
  split; [exact H2|]. split; [exact H4 | exact H5].
Defined.

End Subscriptions.

Section Unsubscribe.
Import Core Bus.

Lemma filter_other_absent (id : Z) (subs : list Z) :
  id ∉ subs -> List.filter (other_than id) subs = subs.
Proof.
  induction subs as [|s rest IH]; intros H; [reflexivity|].
  apply not_elem_of_cons in H as [Hne Hrest]. simpl. unfold other_than at 1.
  replace (s =? id) with false by (symmetry; apply Z.eqb_neq; congruence).
  simpl. now rewrite IH.
Qed.

Lemma remove_first_absent (id : Z) (subs : list Z) :
  id ∉ subs -> remove_first id subs = None.
Proof.
  induction subs as [|s rest IH]; intros H; [reflexivity|].
  apply not_elem_of_cons in H as [Hne Hrest]. simpl.
  replace (s =? id) with false by (symmetry; apply Z.eqb_neq; congruence).
  now rewrite IH.
Qed.

(** On a list without duplicates the removal loop deletes the id and
    nothing else, keeping the order. *)
Lemma remove_first_present (id : Z) (subs : list Z) :
  NoDup subs -> id ∈ subs ->
  remove_first id subs = Some (List.filter (other_than id) subs).
Proof.
  induction subs as [|s rest IH]; intros Hnd Hin.
  - now apply elem_of_nil in Hin.
  - apply NoDup_cons in Hnd as [Hs Hnd]. simpl. unfold other_than at 1.
    destruct (Z.eqb_spec s id) as [->|Hne]; simpl.
    + now rewrite filter_other_absent.
    + apply elem_of_cons in Hin as [-> | Hin]; [congruence|].
      now rewrite IH.
Qed.

Lemma length_filter_other_present (id : Z) (subs : list Z) :
  NoDup subs -> id ∈ subs ->
  length subs = S (length (List.filter (other_than id) subs)).
Proof.
  induction subs as [|s rest IH]; intros Hnd Hin.
  - now apply elem_of_nil in Hin.
  - apply NoDup_cons in Hnd as [Hs Hnd]. simpl. unfold other_than at 1.
    destruct (Z.eqb_spec s id) as [->|Hne]; simpl.
    + now rewrite filter_other_absent.
    + apply elem_of_cons in Hin as [Heq | Hin]; [congruence|].
      now rewrite (IH Hnd Hin).
Qed.

Lemma elem_of_filter_other (id x : Z) (subs : list Z) :
  x ∈ List.filter (other_than id) subs <-> x <> id /\ x ∈ subs.
Proof.
  rewrite !list_elem_of_In, filter_In. unfold other_than.
  rewrite negb_true_iff, Z.eqb_neq. tauto.
Qed.

Lemma is_subscribed_filter_other (topic : ur_bus_topic_t) (id x : Z) :
  is_subscribed_to_topic
    (mk_topic (topic_id topic) (List.filter (other_than id) (subscribers topic)))
    x
  = if x =? id then false else is_subscribed_to_topic topic x.
Proof.
  apply eq_true_iff_eq. rewrite is_subscribed_elem_of. cbn [subscribers].
  rewrite elem_of_filter_other.
  destruct (Z.eqb_spec x id) as [->|Hne].
  - split; [intros [H _]; exfalso; now apply H | discriminate].
  - rewrite is_subscribed_elem_of. tauto.
Qed.

(** X21.  [ur_unsubscribe] on a table without duplicate subscribers: an
    entity that is not subscribed to the topic gets [UR_ERR_NOT_FOUND] and
    nothing changes; a subscribed entity is removed from that topic only,
    so it is no longer subscribed, the topic has one subscriber less, the
    subscriptions of every other entity and to every other topic are as
    before, and the topic record itself stays in the table even when it is
    left without subscribers. *)
Theorem unsubscribe_removes_one_subscription
        (g : g_bus_t) (ent : ur_entity_t) (id : Z) :
  bus_inv g ->
  let r := ur_unsubscribe g ent id in
  (ur_is_subscribed g ent id = false -> r = (UR_ERR_NOT_FOUND, g))
  /\ (ur_is_subscribed g ent id = true ->
      fst r = UR_OK
      /\ bus_inv (snd r)
      /\ ur_is_subscribed (snd r) ent id = false
      /\ ur_bus_subscriber_count (snd r) id
         = ur_bus_subscriber_count g id - 1
      /\ length (bus_topics (snd r)) = length (bus_topics g)
      /\ (forall id', is_Some (find_topic (snd r) id')
                      <-> is_Some (find_topic g id'))
      /\ forall other id',
          (ent_id other <> ent_id ent \/ id' <> id) ->
          ur_is_subscribed (snd r) other id' = ur_is_subscribed g other id').
Proof.
  intros Hinv r. subst r. unfold ur_unsubscribe, ur_is_subscribed, find_topic.
  destruct (find_topic_index (bus_topics g) id) as [i|] eqn:Hidx;
    [|split; [reflexivity | discriminate]].
  destruct (find_topic_index_Some _ _ _ Hidx) as (topic & Hl & Hid).
  rewrite Hl.
  pose proof (Forall_lookup_1 _ _ _ _ Hinv Hl) as Hnd. cbv beta in Hnd.
  split.
  - intros Hsub.
    rewrite remove_first_absent; [reflexivity|].
    intros Hin. apply is_subscribed_elem_of in Hin. congruence.
  - intros Hsub. apply is_subscribed_elem_of in Hsub.
    rewrite (remove_first_present _ _ Hnd Hsub). cbn [fst snd bus_topics].
    set (topic' := mk_topic (topic_id topic)
                            (List.filter (other_than (ent_id ent))
                                         (subscribers topic))).
    assert (Hi : (i < length (bus_topics g))%nat)
      by (eapply lookup_lt_Some; exact Hl).
    assert (Hidx' : forall id',
               find_topic_index (<[i := topic']> (bus_topics g)) id'
               = find_topic_index (bus_topics g) id').
    { intros id'.
      now apply (find_topic_index_insert _ _ i topic topic' Hl). }
    assert (Hlen : length (subscribers topic)
                   = S (length (subscribers topic'))).
    { cbn [subscribers topic'].
      now apply length_filter_other_present. }
    split; [reflexivity|]. split.
    { unfold bus_inv. cbn [bus_topics]. apply Forall_insert; [exact Hinv|].
      cbn [subscribers topic']. apply NoDup_ListNoDup, List.NoDup_filter.
      now apply NoDup_ListNoDup. }
    split.
    { rewrite Hidx', Hidx, list_lookup_insert_eq by exact Hi.
      unfold topic'. rewrite is_subscribed_filter_other.
      now rewrite Z.eqb_refl. }
    split.
    { unfold ur_bus_subscriber_count, find_topic. cbn [bus_topics].
      rewrite Hidx', Hidx, Hl, list_lookup_insert_eq by exact Hi. lia. }
    split; [apply length_insert|]. split.
    { intros id'. rewrite Hidx'.
      destruct (find_topic_index (bus_topics g) id') as [j|] eqn:Hj;
        [|reflexivity].
      destruct (decide (i = j)) as [<-|Hne].
      - rewrite list_lookup_insert_eq by exact Hi. rewrite Hl.
        split; intros _; eexists; reflexivity.
      - now rewrite list_lookup_insert_ne. }
    intros other id' Hother. rewrite Hidx'.
    destruct (find_topic_index (bus_topics g) id') as [j|] eqn:Hj;
      [|reflexivity].
    destruct (decide (i = j)) as [<-|Hne].
    + rewrite list_lookup_insert_eq by exact Hi. rewrite Hl.
      unfold topic'. rewrite is_subscribed_filter_other.
      destruct (Z.eqb_spec (ent_id other) (ent_id ent)) as [E|E];
        [|reflexivity].
      destruct Hother as [Ho | Ho]; [congruence|].
      destruct (find_topic_index_Some _ _ _ Hj) as (t2 & Hl2 & Hid2).
      rewrite Hl in Hl2. injection Hl2 as <-. congruence.
    + now rewrite list_lookup_insert_ne.
Qed.

Lemma unsubscribe_witness :
  let r := ur_unsubscribe battery_bus (subscriber 1 []) SIG_BATTERY_LEVEL in
  fst r = UR_OK
  /\ ur_is_subscribed (snd r) (subscriber 1 []) SIG_BATTERY_LEVEL = false
  /\ ur_is_subscribed (snd r) (subscriber 2 []) SIG_BATTERY_LEVEL = true
  /\ ur_bus_subscriber_count (snd r) SIG_BATTERY_LEVEL = 1.
Proof.
  intros r.
  assert (Hinv : bus_inv battery_bus).
  { repeat constructor; simpl; rewrite ?elem_of_cons, ?elem_of_nil;
      intuition discriminate. }
  destruct (unsubscribe_removes_one_subscription
              battery_bus (subscriber 1 []) SIG_BATTERY_LEVEL Hinv)
    as [_ H].
  destruct (H eq_refl) as (H1 & _ & H3 & H4 & _ & _ & H7).
  fold r in H1, H3, H4, H7.
  split; [exact H1|]. split; [exact H3|]. split.
  - rewrite H7; [reflexivity | left; discriminate].
  - rewrite H4. reflexivity.
Defined.

Lemma remove_first_appended (id : Z) (subs : list Z) :
  id ∉ subs -> remove_first id (subs ++ [id]) = Some subs.
Proof.
  induction subs as [|s rest IH]; intros H; simpl.
  - now rewrite Z.eqb_refl.
  - apply not_elem_of_cons in H as [Hne Hrest].
    replace (s =? id) with false by (symmetry; apply Z.eqb_neq; congruence).
    now rewrite IH.
Qed.

(** X22.  Subscribe followed by unsubscribe is a round trip: on an
    initialised bus where the topic already has a record and the entity is
    not yet subscribed to it, a successful [ur_subscribe] followed by
    [ur_unsubscribe] of the same entity and topic returns [UR_OK] and
    gives the bus back exactly as it was. *)
Theorem subscribe_then_unsubscribe_restores
        (g : g_bus_t) (ent : ur_entity_t) (id : Z) :
  bus_initialized g = true ->
  is_Some (find_topic g id) ->
  ur_is_subscribed g ent id = false ->
  fst (ur_subscribe g ent id) = UR_OK ->
  ur_unsubscribe (snd (ur_subscribe g ent id)) ent id = (UR_OK, g).
Proof.
  intros Hinit [topic Hft] Hsub Hok.
  pose proof (ur_subscribe_cases g ent id) as Hc. cbv zeta in Hc.
  rewrite Hinit in Hc.
  unfold ur_is_subscribed in Hsub. rewrite Hft in Hsub.
  unfold find_topic in Hft.
  destruct (find_topic_index (bus_topics g) id) as [i|] eqn:Hidx;
    [|discriminate].
  destruct Hc as [H | [(j & topic' & Hl & Hj & [[Hin H] | [Hnin H]])
                      | [Hnone _]]];
    try discriminate.
  - rewrite H in Hok. discriminate.
  - injection Hj as <-. rewrite Hl in Hft. injection Hft as <-.
    apply is_subscribed_elem_of in Hin. congruence.
  - injection Hj as <-. rewrite Hl in Hft. injection Hft as <-.
    rewrite H. cbn [snd]. unfold ur_unsubscribe. cbn [bus_topics].
    assert (Hi : (i < length (bus_topics g))%nat)
      by (eapply lookup_lt_Some; exact Hl).
    rewrite (find_topic_index_insert
               _ _ i topic'
               (mk_topic (topic_id topic')
                         (subscribers topic' ++ [ent_id ent]))
               Hl eq_refl), Hidx.
    rewrite list_lookup_insert_eq by exact Hi.
    cbn [subscribers topic_id].
    rewrite remove_first_appended by exact Hnin.
    cbn [bus_stats bus_initialized].
    rewrite list_insert_insert_eq.
    rewrite list_insert_id by (rewrite Hl; now destruct topic').
    now destruct g.
Qed.

Lemma subscribe_then_unsubscribe_witness :
  ur_unsubscribe
    (snd (ur_subscribe battery_bus (subscriber 5 []) SIG_BATTERY_LEVEL))
    (subscriber 5 []) SIG_BATTERY_LEVEL
  = (UR_OK, battery_bus).
Proof.
  apply subscribe_then_unsubscribe_restores; try reflexivity.
  eexists. reflexivity.
Defined.

End Unsubscribe.

Section UnsubscribeAll.
Import Core Bus.

Lemma unsubscribe_all_loop_spec (id : Z) :
  forall topics count,
    Forall (fun topic => NoDup (subscribers topic)) topics ->
    unsubscribe_all_loop id topics count
    = (count
       + Z.of_nat
           (length (List.filter (fun topic => is_subscribed_to_topic topic id)
                                topics)),
       (fun topic =>
          mk_topic (topic_id topic)
                   (List.filter (other_than id) (subscribers topic)))
         <$> topics).
Proof.
  induction topics as [|topic rest IH]; intros count Hall.
  - simpl. now rewrite Z.add_0_r.
  - apply Forall_cons in Hall as [Hnd Hrest].
    cbn [unsubscribe_all_loop List.filter fmap list_fmap].
    destruct (is_subscribed_to_topic topic id) eqn:Hsub.
    + apply is_subscribed_elem_of in Hsub.
      rewrite (remove_first_present _ _ Hnd Hsub), (IH _ Hrest).
      cbn [length]. f_equal. lia.
    + assert (Hnin : id ∉ subscribers topic).
      { intros Hin. apply is_subscribed_elem_of in Hin. congruence. }
      rewrite (remove_first_absent _ _ Hnin), (IH _ Hrest).
      rewrite (filter_other_absent _ _ Hnin). now destruct topic.
Qed.

Lemma find_topic_index_fmap (f : ur_bus_topic_t -> ur_bus_topic_t)
      (ts : list ur_bus_topic_t) (id : Z) :
  (forall topic, topic_id (f topic) = topic_id topic) ->
  find_topic_index (f <$> ts) id = find_topic_index ts id.
Proof.
  intros Hf. induction ts as [|x ts IH]; [reflexivity|].
  cbn [fmap list_fmap find_topic_index]. rewrite Hf.
  fold (f <$> ts). now rewrite IH.
Qed.

(** X23.  [ur_unsubscribe_all] on a table without duplicate subscribers
    removes the entity from every topic: afterwards it is subscribed to
    none, the subscriptions of every other entity are as before, no topic
    record is added or removed, and the number returned is the number of
    topics the entity was subscribed to. *)
Theorem unsubscribe_all_leaves_no_subscription
        (g : g_bus_t) (ent : ur_entity_t) :
  bus_inv g ->
  let r := ur_unsubscribe_all g ent in
  (forall id, ur_is_subscribed (snd r) ent id = false)
  /\ (forall other id, ent_id other <> ent_id ent ->
                       ur_is_subscribed (snd r) other id
                       = ur_is_subscribed g other id)
  /\ fst r
     = Z.of_nat
         (length (List.filter
                    (fun topic => is_subscribed_to_topic topic (ent_id ent))
                    (bus_topics g)))
  /\ bus_inv (snd r)
  /\ topic_id <$> bus_topics (snd r) = topic_id <$> bus_topics g.
Proof.
  intros Hinv r. subst r. unfold ur_unsubscribe_all.
  rewrite (unsubscribe_all_loop_spec _ _ _ Hinv). cbn [fst snd].
  set (f := fun topic =>
              mk_topic (topic_id topic)
                       (List.filter (other_than (ent_id ent))
                                    (subscribers topic))).
  assert (Hsub : forall x id,
             ur_is_subscribed
               (mk_bus (f <$> bus_topics g) (bus_stats g) (bus_initialized g))
               x id
             = if ent_id x =? ent_id ent then false
               else ur_is_subscribed g x id).
  { intros x id. unfold ur_is_subscribed, find_topic. cbn [bus_topics].
    rewrite find_topic_index_fmap by reflexivity.
    destruct (find_topic_index (bus_topics g) id) as [i|];
      [|now destruct (ent_id x =? ent_id ent)].
    rewrite list_lookup_fmap.
    destruct (bus_topics g !! i) as [topic|];
      [|now destruct (ent_id x =? ent_id ent)].
    cbn [fmap option_fmap option_map]. apply is_subscribed_filter_other. }
  split.
  { intros id. rewrite Hsub. now rewrite Z.eqb_refl. }
  split.
  { intros other id Hne. rewrite Hsub.
    now replace (ent_id other =? ent_id ent) with false
      by (symmetry; now apply Z.eqb_neq). }
  split; [reflexivity|]. split.
  - unfold bus_inv in *. cbn [bus_topics]. apply Forall_fmap.
    eapply Forall_impl; [exact Hinv|]. intros topic Hnd.
    cbn [subscribers f]. apply NoDup_ListNoDup, List.NoDup_filter.
    now apply NoDup_ListNoDup.
  - cbn [bus_topics]. rewrite <- list_fmap_compose. reflexivity.
Qed.

Lemma unsubscribe_all_witness :
  let r := ur_unsubscribe_all battery_bus (subscriber 2 []) in
  fst r = 1
  /\ ur_is_subscribed (snd r) (subscriber 2 []) SIG_BATTERY_LEVEL = false
  /\ ur_is_subscribed (snd r) (subscriber 1 []) SIG_BATTERY_LEVEL = true.
Proof.
  intros r.
  assert (Hinv : bus_inv battery_bus).
  { repeat constructor; simpl; rewrite ?elem_of_cons, ?elem_of_nil;
      intuition discriminate. }
  destruct (unsubscribe_all_leaves_no_subscription
              battery_bus (subscriber 2 []) Hinv) as (H1 & H2 & H3 & _).
  fold r in H1, H2, H3.
  split; [rewrite H3; reflexivity|]. split; [apply H1|].
  rewrite H2; [reflexivity | discriminate].
Defined.

End UnsubscribeAll.

Section PublishFromIsr.
Import Core Bus.

Lemma ur_emit_from_isr_result (now : Z) (e : ur_entity_t)
      (sig : ur_signal_t) :
  ur_emit_from_isr now e sig
  = if UR_CFG_INBOX_SIZE <=? Z.of_nat (length (ent_inbox e))
    then (UR_ERR_QUEUE_FULL, e)
    else (UR_OK, set_inbox e (ent_inbox e ++ [stamped now sig])).
Proof. reflexivity. Qed.

Lemma publish_isr_loop_matches (now : Z) (sig : ur_signal_t) :
  forall subs reg stats delivered,
    publish_isr_loop now sig subs reg delivered
    = (fst (fst (fst (publish_loop true now sig subs reg stats delivered))),
       snd (fst (publish_loop true now sig subs reg stats delivered))).
Proof.
  induction subs as [|s rest IH]; intros reg stats delivered;
    [reflexivity|].
  cbn [publish_isr_loop publish_loop].
  destruct (ur_get_entity reg s) as [ent|]; [|apply IH].
  rewrite ur_emit_result, ur_emit_from_isr_result.
  destruct (UR_CFG_INBOX_SIZE <=? Z.of_nat (length (ent_inbox ent))).
  - cbn [ur_err_eqb].
    rewrite (IH _ (incr_drop stats) delivered).
    destruct (publish_loop true now sig rest _ (incr_drop stats) delivered)
      as [[[d st] r] log]. reflexivity.
  - cbn [ur_err_eqb].
    rewrite (IH _ (incr_delivery stats) (delivered + 1)).
    destruct (publish_loop true now sig rest _ (incr_delivery stats)
                           (delivered + 1))
      as [[[d st] r] log]. reflexivity.
Qed.

(** X24.  On an initialised bus [ur_publish_from_isr] delivers exactly
    what [ur_publish] delivers when called from an interrupt handler: the
    same signals reach the same inboxes and the same number is returned.
    The difference is that the ISR variant leaves the bus alone: it
    updates no statistics. *)
Theorem publish_from_isr_matches_publish
        (now : Z) (g : g_bus_t) (reg : registry_t) (sig : ur_signal_t) :
  bus_initialized g = true ->
  let r := ur_publish true now g reg sig in
  ur_publish_from_isr now g reg sig = (fst (fst (fst r)), snd (fst r))
  /\ publish_count (bus_stats (snd (fst (fst r))))
     = u32 (publish_count (bus_stats g) + 1).
Proof.
  intros Hinit r. subst r. unfold ur_publish_from_isr, ur_publish.
  rewrite Hinit. cbv zeta.
  match goal with
  | |- context [find_topic ?x (sig_id sig)] =>
      rewrite (find_topic_topics x g (sig_id sig) eq_refl)
  end.
  destruct (find_topic g (sig_id sig)) as [[tid [|s rest]]|];
    try (split; reflexivity).
  rewrite (publish_isr_loop_matches now sig (s :: rest) reg
             (bus_stats
                (mk_bus (bus_topics g) (incr_publish (bus_stats g))
                        (bus_initialized g))) 0).
  destruct (publish_loop true now sig (s :: rest) reg _ 0)
    as [[[d st] r] log] eqn:Hloop.
  cbn [fst snd]. split; [reflexivity|].
  cbn [bus_stats].
  assert (Hpc : forall subs reg0 st0 d0,
             publish_count
               (snd (fst (fst (publish_loop true now sig subs reg0 st0 d0))))
             = publish_count st0).
  { induction subs as [|x xs IH]; intros reg0 st0 d0; [reflexivity|].
    cbn [publish_loop].
    destruct (ur_get_entity reg0 x) as [ent|]; [|apply IH].
    destruct (ur_emit true now ent sig) as [err ent'].
    destruct (ur_err_eqb err UR_OK).
    - specialize (IH (<[Z.to_nat (x - 1) := Some ent']> reg0)
                     (incr_delivery st0) (d0 + 1)).
      destruct (publish_loop true now sig xs _ (incr_delivery st0) (d0 + 1))
        as [[[d1 st1] r1] log1]. exact IH.
    - specialize (IH (<[Z.to_nat (x - 1) := Some ent']> reg0)
                     (incr_drop st0) d0).
      destruct (publish_loop true now sig xs _ (incr_drop st0) d0)
        as [[[d1 st1] r1] log1]. exact IH. }
  specialize (Hpc (s :: rest) reg
                  (bus_stats
                     (mk_bus (bus_topics g) (incr_publish (bus_stats g))
                             (bus_initialized g))) 0).
  rewrite Hloop in Hpc. cbn [fst snd] in Hpc. rewrite Hpc. reflexivity.
Qed.

Lemma publish_from_isr_witness :
  ur_publish_from_isr 77 battery_bus battery_registry_full (battery_signal 0)
  = (1, snd (fst (ur_publish true 77 battery_bus battery_registry_full
                             (battery_signal 0)))).
Proof.
  destruct (publish_from_isr_matches_publish
              77 battery_bus battery_registry_full (battery_signal 0)
              eq_refl) as [H _].
  rewrite H. reflexivity.
Defined.

End PublishFromIsr.

(** ** Binary codec: error detection *)

Section CodecErrors.
Import Codec.

(** One table step at byte 0 can be undone: the step is a bijection of the
    16-bit CRC states. *)
Lemma crc16_unstep_step (c : Z) :
  0 <= c < 65536 -> crc16_unstep (crc16_update c 0) = c.
Proof.
  intros Hc. apply Z.eqb_eq.
  apply (forall_below
           (fun c => crc16_unstep (crc16_update c 0) =? c) 65536);
    [vm_compute; reflexivity | lia].
Qed.

Lemma lxor_cancel_r (a b x : Z) : Z.lxor a x = Z.lxor b x -> a = b.
Proof.
  intros H. apply (f_equal (fun v => Z.lxor v x)) in H.
  now rewrite !Z.lxor_assoc, Z.lxor_nilpotent, !Z.lxor_0_r in H.
Qed.

Lemma lxor_cancel_l (a x y : Z) : Z.lxor a x = Z.lxor a y -> x = y.
Proof.
  intros H. rewrite (Z.lxor_comm a x), (Z.lxor_comm a y) in H.
  exact (lxor_cancel_r _ _ _ H).
Qed.

Lemma crc16_update_inj_state (c c' b : Z) :
  0 <= c < 65536 -> 0 <= c' < 65536 -> is_byte b ->
  crc16_update c b = crc16_update c' b -> c = c'.
Proof.
  intros Hc Hc' Hb H.
  rewrite (crc16_update_fold_byte c), (crc16_update_fold_byte c') in H.
  apply (f_equal crc16_unstep) in H.
  rewrite !crc16_unstep_step in H by (now apply lxor_byte_range).
  exact (lxor_cancel_r _ _ _ H).
Qed.

Lemma crc16_update_inj_byte (c b b' : Z) :
  0 <= c < 65536 -> is_byte b -> is_byte b' ->
  crc16_update c b = crc16_update c b' -> b = b'.
Proof.
  intros Hc Hb Hb' H.
  rewrite (crc16_update_fold_byte c b), (crc16_update_fold_byte c b') in H.
  apply (f_equal crc16_unstep) in H.
  rewrite !crc16_unstep_step in H by (now apply lxor_byte_range).
  apply lxor_cancel_l in H.
  rewrite !Z.shiftl_mul_pow2 in H by lia. lia.
Qed.

Lemma crc16_fold_inj (l : list Z) :
  Forall is_byte l ->
  forall c c', 0 <= c < 65536 -> 0 <= c' < 65536 ->
               fold_left crc16_update l c = fold_left crc16_update l c' ->
               c = c'.
Proof.
  induction 1 as [|b l Hb _ IH]; intros c c' Hc Hc' H; [exact H|].
  simpl in H. apply IH in H; try apply crc16_update_range.
  exact (crc16_update_inj_state c c' b Hc Hc' Hb H).
Qed.

Lemma crc16_fold_range (l : list Z) :
  forall c, 0 <= c < 65536 -> 0 <= fold_left crc16_update l c < 65536.
Proof.
  induction l as [|b l IH]; intros c Hc; simpl; [exact Hc|].
  apply IH, crc16_update_range.
Qed.

(** Changing one byte of the data changes the CRC. *)
Lemma crc16_detects_byte_change (pre post : list Z) (b b' : Z) :
  Forall is_byte post -> is_byte b -> is_byte b' -> b <> b' ->
  ur_crc16 (pre ++ b :: post) <> ur_crc16 (pre ++ b' :: post).
Proof.
  intros Hpost Hb Hb' Hne H. unfold ur_crc16 in H.
  rewrite !fold_left_app in H. simpl in H.
  apply (crc16_fold_inj post Hpost) in H; try apply crc16_update_range.
  apply crc16_update_inj_byte in H; auto.
  apply crc16_fold_range. lia.
Qed.

(** [ur_codec_decode_binary] on data that starts with a sync byte, six
    header bytes announcing the length of [body], the body, two CRC bytes
    and any further bytes. *)
Lemma decode_checked (h1 h2 h3 h4 h5 h6 c0 c1 : Z) (body tail : list Z) :
  u16 (Z.lor h1 (Z.shiftl h2 8)) = Z.of_nat (length body) ->
  ur_codec_decode_binary
    (UR_CODEC_SYNC_BYTE :: [h1; h2; h3; h4; h5; h6] ++ body
       ++ [c0; c1] ++ tail)
  = if u16 (Z.lor c0 (Z.shiftl c1 8))
       =? ur_crc16 ([h1; h2; h3; h4; h5; h6] ++ body)
    then (UR_OK,
          mk_result
            (mk_signal
               (u16 (Z.lor h3 (Z.shiftl h4 8)))
               (u16 (Z.lor h5 (Z.shiftl h6 8)))
               (memcpy (sig_payload zero_signal) 0
                       (body ++ [c0; c1] ++ tail)
                       (Nat.min (length body)
                                (Z.to_nat UR_CFG_SIGNAL_PAYLOAD_SIZE)))
               0 0)
            (9 + length body) true)
    else (UR_ERR_INVALID_ARG, zero_result 1).
Proof.
  intros Hlen. set (w := length body) in *.
  unfold ur_codec_decode_binary.
  set (data := UR_CODEC_SYNC_BYTE :: [h1; h2; h3; h4; h5; h6]
                 ++ body ++ [c0; c1] ++ tail).
  assert (Hl : length data = (9 + w + length tail)%nat).
  { unfold data. simpl. rewrite !length_app. simpl. fold w. lia. }
  assert (Hs : find_sync data = 0%nat) by reflexivity.
  rewrite Hl, Hs.
  replace (9 + w + length tail <? UR_CODEC_HEADER_SIZE)%nat with false
    by (symmetry; apply Nat.ltb_ge; unfold UR_CODEC_HEADER_SIZE; lia).
  replace (9 + w + length tail <=? 0)%nat with false
    by (symmetry; apply Nat.leb_gt; lia).
  replace (9 + w + length tail - 0 <? UR_CODEC_HEADER_SIZE)%nat with false
    by (symmetry; apply Nat.ltb_ge; unfold UR_CODEC_HEADER_SIZE; lia).
  cbv zeta.
  change (nth (0 + 1) data 0) with h1.
  change (nth (0 + 2) data 0) with h2.
  change (nth (0 + 3) data 0) with h3.
  change (nth (0 + 4) data 0) with h4.
  change (nth (0 + 5) data 0) with h5.
  change (nth (0 + 6) data 0) with h6.
  rewrite Hlen, Nat2Z.id.
  replace (9 + w + length tail - 0
           <? UR_CODEC_HEADER_SIZE + w + UR_CODEC_CRC_SIZE)%nat with false
    by (symmetry; apply Nat.ltb_ge;
        unfold UR_CODEC_HEADER_SIZE, UR_CODEC_CRC_SIZE; lia).
  replace (UR_CODEC_HEADER_SIZE + w + UR_CODEC_CRC_SIZE - 2)%nat
    with (7 + w)%nat by (unfold UR_CODEC_HEADER_SIZE, UR_CODEC_CRC_SIZE; lia).
  replace (UR_CODEC_HEADER_SIZE + w + UR_CODEC_CRC_SIZE - 1)%nat
    with (8 + w)%nat by (unfold UR_CODEC_HEADER_SIZE, UR_CODEC_CRC_SIZE; lia).
  replace (UR_CODEC_HEADER_SIZE + w + UR_CODEC_CRC_SIZE - 3)%nat
    with (6 + w)%nat by (unfold UR_CODEC_HEADER_SIZE, UR_CODEC_CRC_SIZE; lia).
  replace (0 + (UR_CODEC_HEADER_SIZE + w + UR_CODEC_CRC_SIZE))%nat
    with (9 + w)%nat by (unfold UR_CODEC_HEADER_SIZE, UR_CODEC_CRC_SIZE; lia).
  change (nth (0 + (7 + w)) data 0)
    with (nth w (body ++ [c0; c1] ++ tail) 0).
  change (nth (0 + (8 + w)) data 0)
    with (nth (S w) (body ++ [c0; c1] ++ tail) 0).
  change (take (6 + w) (drop (0 + 1) data))
    with (h1 :: h2 :: h3 :: h4 :: h5 :: h6
             :: take w (body ++ [c0; c1] ++ tail)).
  change (drop (0 + UR_CODEC_HEADER_SIZE) data)
    with (body ++ [c0; c1] ++ tail).
  assert (N0 : nth w (body ++ [c0; c1] ++ tail) 0 = c0).
  { rewrite app_nth2 by (fold w; lia). fold w.
    now rewrite Nat.sub_diag. }
  assert (N1 : nth (S w) (body ++ [c0; c1] ++ tail) 0 = c1).
  { rewrite app_nth2 by (fold w; lia). fold w.
    replace (S w - w)%nat with 1%nat by lia. reflexivity. }
  assert (Tk : take w (body ++ [c0; c1] ++ tail) = body).
  { rewrite take_app_le by (fold w; lia). apply take_ge. fold w. lia. }
  rewrite N0, N1, Tk.
  change (h1 :: h2 :: h3 :: h4 :: h5 :: h6 :: body)
    with ([h1; h2; h3; h4; h5; h6] ++ body).
  destruct (u16 (Z.lor c0 (Z.shiftl c1 8))
            =? ur_crc16 ([h1; h2; h3; h4; h5; h6] ++ body)); reflexivity.
Qed.

End CodecErrors.

(** ** Binary codec: resynchronisation and the streaming decoder *)

Section CodecStreams.
Import Codec.

Lemma memcpy_src_app (n : nat) :
  forall src more dst pos,
    (n <= length src)%nat ->
    memcpy dst pos (src ++ more) n = memcpy dst pos src n.
Proof.
  induction n as [|n IH]; intros [|b src] more dst pos H; simpl in *;
    try reflexivity; try lia.
  all: try (now destruct more).
  apply IH. lia.
Qed.

Lemma lor_bytes_range (a b : Z) :
  is_byte a -> is_byte b -> 0 <= Z.lor a (Z.shiftl b 8) < 65536.
Proof.
  unfold is_byte. intros Ha Hb.
  assert (Hs : Z.shiftl b 8 = b * 256)
    by (rewrite Z.shiftl_mul_pow2 by lia; reflexivity).
  pose proof (Z.add_lor_land a (Z.shiftl b 8)) as E.
  assert (0 <= Z.land a (Z.shiftl b 8)) by (apply Z.land_nonneg; lia).
  assert (0 <= Z.lor a (Z.shiftl b 8)) by (apply Z.lor_nonneg; lia).
  lia.
Qed.

Lemma find_sync_noise (noise data : list Z) :
  no_sync noise ->
  find_sync (noise ++ data) = (length noise + find_sync data)%nat.
Proof.
  induction 1 as [|b noise Hb _ IH]; [reflexivity|].
  simpl. apply Z.eqb_neq in Hb. now rewrite Hb, IH.
Qed.

(** Bytes other than the sync byte in front of the data are skipped, and
    counted in [consumed]. *)
Lemma decode_after_noise (noise data : list Z) :
  no_sync noise ->
  find_sync data = 0%nat ->
  (UR_CODEC_HEADER_SIZE <= length data)%nat ->
  ur_codec_decode_binary (noise ++ data)
  = (fst (ur_codec_decode_binary data),
     mk_result (res_signal (snd (ur_codec_decode_binary data)))
               (length noise + res_consumed (snd (ur_codec_decode_binary data)))
               (res_complete (snd (ur_codec_decode_binary data)))).
Proof.
  intros Hn Hs Hl. unfold ur_codec_decode_binary.
  rewrite length_app, find_sync_noise, Hs by exact Hn.
  set (m := length noise). set (len := length data) in *.
  assert (Hnth : forall i, nth (m + 0 + i) (noise ++ data) 0
                           = nth (0 + i) data 0).
  { intros i. rewrite app_nth2 by (fold m; lia). fold m.
    f_equal. lia. }
  assert (Hdrop : forall i, drop (m + 0 + i) (noise ++ data)
                            = drop (0 + i) data).
  { intros i. rewrite drop_app_ge by (fold m; lia). fold m.
    f_equal. lia. }
  replace (m + len <? UR_CODEC_HEADER_SIZE)%nat with false
    by (symmetry; apply Nat.ltb_ge; lia).
  replace (len <? UR_CODEC_HEADER_SIZE)%nat with false
    by (symmetry; apply Nat.ltb_ge; lia).
  replace (m + len <=? m + 0)%nat with false
    by (symmetry; apply Nat.leb_gt; unfold UR_CODEC_HEADER_SIZE in Hl; lia).
  replace (len <=? 0)%nat with false
    by (symmetry; apply Nat.leb_gt; unfold UR_CODEC_HEADER_SIZE in Hl; lia).
  replace (m + len - (m + 0))%nat with (len - 0)%nat by lia.
  replace (len - 0 <? UR_CODEC_HEADER_SIZE)%nat with false
    by (symmetry; apply Nat.ltb_ge; lia).
  cbv zeta. rewrite !Hnth, !Hdrop.
  destruct (len - 0 <? _)%nat; [reflexivity|].
  destruct (negb _);
    cbn [fst snd res_signal res_consumed res_complete zero_result];
    do 2 f_equal; [unfold zero_result; f_equal|]; lia.
Qed.

(** A well-formed frame followed by any bytes decodes to its signal, and
    [consumed] is the length of the frame. *)
Lemma decode_frame_of (header body tail : list Z) :
  frame_wf header body ->
  ur_codec_decode_binary (frame_of header body ++ tail)
  = (UR_OK,
     mk_result (frame_signal header body) (9 + length body) true).
Proof.
  intros (Hlen & Hh & Hb & Hw).
  destruct header as [|h1 [|h2 [|h3 [|h4 [|h5 [|h6 [|]]]]]]];
    simpl in Hlen; try discriminate.
  unfold frame_of, frame_signal. cbn [nth] in *.
  set (crc := ur_crc16 ([h1; h2; h3; h4; h5; h6] ++ body)).
  change ((UR_CODEC_SYNC_BYTE
             :: [h1; h2; h3; h4; h5; h6] ++ body
                  ++ [Z.land crc 255; Z.land (Z.shiftr crc 8) 255]) ++ tail)
    with (UR_CODEC_SYNC_BYTE
            :: ([h1; h2; h3; h4; h5; h6] ++ body
                  ++ [Z.land crc 255; Z.land (Z.shiftr crc 8) 255]) ++ tail).
  rewrite <- !app_assoc.
  rewrite (decode_checked h1 h2 h3 h4 h5 h6 _ _ body tail Hw).
  fold crc. rewrite join_split_u16 by apply ur_crc16_range.
  rewrite Z.eqb_refl.
  rewrite memcpy_src_app by apply Nat.le_min_l. reflexivity.
Qed.

Lemma length_frame_of (header body : list Z) :
  length header = 6%nat ->
  length (frame_of header body) = (9 + length body)%nat.
Proof.
  intros H. unfold frame_of. simpl. rewrite !length_app, H. simpl. lia.
Qed.

(** X25.  [ur_codec_decode_binary] resynchronises: bytes other than the
    sync byte in front of a well-formed frame are skipped, the frame is
    decoded to its signal whatever follows it, and [consumed] counts the
    skipped bytes and the frame, so that the caller can go on behind it. *)
Theorem decode_skips_to_frame (noise header body tail : list Z) :
  no_sync noise ->
  frame_wf header body ->
  ur_codec_decode_binary (noise ++ frame_of header body ++ tail)
  = (UR_OK,
     mk_result (frame_signal header body)
               (length noise + (9 + length body)) true).
Proof.
  intros Hn Hwf.
  rewrite decode_after_noise.
  - now rewrite decode_frame_of.
  - exact Hn.
  - reflexivity.
  - rewrite length_app, length_frame_of by apply Hwf.
    unfold UR_CODEC_HEADER_SIZE. lia.
Qed.

Lemma decode_skips_to_frame_witness :
  ur_codec_decode_binary
    ([0x00; 0xFF]
       ++ frame_of [2; 0; 0x20; 0x01; 7; 0] [0xEF; 0xBE] ++ [0x55; 0x01])
  = (UR_OK,
     mk_result (frame_signal [2; 0; 0x20; 0x01; 7; 0] [0xEF; 0xBE])
               13 true).
Proof.
  apply (decode_skips_to_frame [0x00; 0xFF] [2; 0; 0x20; 0x01; 7; 0]
                               [0xEF; 0xBE] [0x55; 0x01]).
  - repeat constructor; discriminate.
  - unfold frame_wf. split; [reflexivity|].
    split; [repeat constructor; unfold is_byte; lia|].
    split; [repeat constructor; unfold is_byte; lia|reflexivity].
Defined.

(** X26.  The CRC detects every single-byte error behind the length field:
    when one byte of the ids or the payload of a valid frame is replaced by
    another byte, [ur_codec_decode_binary] rejects the frame with
    [UR_ERR_INVALID_ARG] and lets the caller skip the sync byte only. *)
Theorem decode_rejects_corrupted_byte
        (h1 h2 b b' : Z) (pre post tail : list Z) :
  (length pre + 1 + length post
   = 4 + Z.to_nat (u16 (Z.lor h1 (Z.shiftl h2 8))))%nat ->
  Forall is_byte post -> is_byte b -> is_byte b' -> b <> b' ->
  ur_codec_decode_binary
    (UR_CODEC_SYNC_BYTE
       :: (h1 :: h2 :: pre ++ b' :: post)
       ++ [Z.land (ur_crc16 (h1 :: h2 :: pre ++ b :: post)) 0xFF;
           Z.land (Z.shiftr (ur_crc16 (h1 :: h2 :: pre ++ b :: post)) 8)
                  0xFF]
       ++ tail)
  = (UR_ERR_INVALID_ARG, zero_result 1).
Proof.
  intros Hlen Hpost Hb Hb' Hne.
  pose proof (crc16_detects_byte_change (h1 :: h2 :: pre) post b b'
                                        Hpost Hb Hb' Hne) as Hcrc.
  change ((h1 :: h2 :: pre) ++ b :: post)
    with (h1 :: h2 :: pre ++ b :: post) in Hcrc.
  change ((h1 :: h2 :: pre) ++ b' :: post)
    with (h1 :: h2 :: pre ++ b' :: post) in Hcrc.
  set (crc := ur_crc16 (h1 :: h2 :: pre ++ b :: post)) in *.
  assert (Hl' : length (pre ++ b' :: post)
                = (4 + Z.to_nat (u16 (Z.lor h1 (Z.shiftl h2 8))))%nat)
    by (rewrite length_app; simpl; lia).
  remember (pre ++ b' :: post) as r eqn:Hr.
  destruct r as [|h3 [|h4 [|h5 [|h6 body]]]]; simpl in Hl'; try lia.
  assert (Hw : u16 (Z.lor h1 (Z.shiftl h2 8)) = Z.of_nat (length body)).
  { assert (0 <= u16 (Z.lor h1 (Z.shiftl h2 8)))
      by (unfold u16; apply Z.mod_pos_bound; lia).
    lia. }
  change (UR_CODEC_SYNC_BYTE
            :: (h1 :: h2 :: h3 :: h4 :: h5 :: h6 :: body)
            ++ [Z.land crc 255; Z.land (Z.shiftr crc 8) 255] ++ tail)
    with (UR_CODEC_SYNC_BYTE
            :: [h1; h2; h3; h4; h5; h6] ++ body
            ++ [Z.land crc 255; Z.land (Z.shiftr crc 8) 255] ++ tail).
  rewrite (decode_checked h1 h2 h3 h4 h5 h6 _ _ body tail Hw).
  rewrite join_split_u16 by apply ur_crc16_range.
  change ([h1; h2; h3; h4; h5; h6] ++ body)
    with (h1 :: h2 :: h3 :: h4 :: h5 :: h6 :: body).
  destruct (crc =? ur_crc16 (h1 :: h2 :: h3 :: h4 :: h5 :: h6 :: body))
    eqn:E; [|reflexivity].
  apply Z.eqb_eq in E. contradiction.
Qed.

Lemma decode_rejects_corrupted_byte_witness :
  ur_codec_decode_binary
    (UR_CODEC_SYNC_BYTE
       :: (2 :: 0 :: [0x20; 0x01; 7] ++ 1 :: [0xEF; 0xBE])
       ++ [Z.land (ur_crc16 (2 :: 0 :: [0x20; 0x01; 7] ++ 0 :: [0xEF; 0xBE]))
                  0xFF;
           Z.land
             (Z.shiftr
                (ur_crc16 (2 :: 0 :: [0x20; 0x01; 7] ++ 0 :: [0xEF; 0xBE])) 8)
             0xFF]
       ++ [])
  = (UR_ERR_INVALID_ARG, zero_result 1).
Proof.
  apply (decode_rejects_corrupted_byte 2 0 0 1 [0x20; 0x01; 7]
                                       [0xEF; 0xBE] []).
  - reflexivity.
  - repeat constructor; unfold is_byte; lia.
  - unfold is_byte; lia.
  - unfold is_byte; lia.
  - discriminate.
Defined.

(** *** The streaming decoder *)

Lemma insert_within (frame buffer : list Z) (k : nat) (b : Z) :
  frame !! k = Some b -> (k < length buffer)%nat ->
  <[k := b]> (take k frame ++ drop k buffer)
  = take (S k) frame ++ drop (S k) buffer.
Proof.
  intros Hf Hb.
  assert (Hk : length (take k frame) = k).
  { rewrite length_take. apply lookup_lt_Some in Hf. lia. }
  rewrite insert_app_r_alt by lia. rewrite Hk, Nat.sub_diag.
  destruct (lookup_lt_is_Some_2 buffer k Hb) as [y Hy].
  rewrite (drop_S _ _ _ Hy). simpl.
  rewrite (take_S_r _ _ _ Hf), <- app_assoc. reflexivity.
Qed.

Lemma expected_len_of_frame (header body buffer : list Z) :
  frame_wf header body ->
  Nat.add
    (Nat.add
       (Z.to_nat
          (Z.lor (nth 1 (take 3 (frame_of header body) ++ drop 3 buffer) 0)
                 (Z.shiftl
                    (nth 2 (take 3 (frame_of header body) ++ drop 3 buffer)
                         0) 8)))
       UR_CODEC_HEADER_SIZE)
    UR_CODEC_CRC_SIZE
  = (9 + length body)%nat.
Proof.
  intros (Hlen & Hh & Hb & Hw).
  destruct header as [|h1 [|h2 [|h3 [|h4 [|h5 [|h6 [|]]]]]]];
    simpl in Hlen; try discriminate.
  unfold frame_of. cbn [take app nth] in *.
  assert (R : 0 <= Z.lor h1 (Z.shiftl h2 8) < 65536).
  { apply lor_bytes_range.
    - exact (Forall_inv Hh).
    - exact (Forall_inv (Forall_inv_tail Hh)). }
  unfold u16 in Hw. rewrite Z.mod_small in Hw by (simpl; lia).
  rewrite Hw, Nat2Z.id.
  unfold UR_CODEC_HEADER_SIZE, UR_CODEC_CRC_SIZE. lia.
Qed.

Section Frame.
Variables header body buffer : list Z.
Variable e0 : nat.
Hypothesis Hwf : frame_wf header body.
Hypothesis Hfits :
  (9 + length body <= Z.to_nat UR_CFG_CODEC_BUFFER_SIZE)%nat.
Hypothesis Hbuf : length buffer = Z.to_nat UR_CFG_CODEC_BUFFER_SIZE.

Let frame := frame_of header body.
Let n := (9 + length body)%nat.

Lemma decoder_step_within (k : nat) (b : Z) :
  (1 <= k)%nat -> (S k < n)%nat -> frame !! k = Some b ->
  decoder_step (decoder_within frame buffer e0 n k) b
  = (decoder_within frame buffer e0 n (S k), None).
Proof.
  intros Hk1 Hkn Hb.
  unfold decoder_step, decoder_within.
  cbn [dec_in_frame dec_pos dec_buffer dec_expected_len negb].
  rewrite insert_within by (subst n; try exact Hb; lia).
  replace (Z.to_nat UR_CFG_CODEC_BUFFER_SIZE <=? k)%nat with false
    by (symmetry; apply Nat.leb_gt; subst n; lia).
  destruct (Nat.eqb_spec (S k) 3) as [E3|N3].
  - rewrite E3. unfold frame.
    rewrite (expected_len_of_frame header body buffer Hwf).
    fold n.
    replace (Z.to_nat UR_CFG_CODEC_BUFFER_SIZE <? n)%nat with false
      by (symmetry; apply Nat.ltb_ge; subst n; lia).
    reflexivity.
  - cbn [andb].
    destruct (Nat.ltb_spec k 3) as [L|G].
    + replace (UR_CODEC_HEADER_SIZE <=? S k)%nat with false
        by (symmetry; apply Nat.leb_gt; unfold UR_CODEC_HEADER_SIZE; lia).
      replace (S k <? 3)%nat with true
        by (symmetry; apply Nat.ltb_lt; lia).
      reflexivity.
    + replace (n <=? S k)%nat with false
        by (symmetry; apply Nat.leb_gt; lia).
      replace (S k <? 3)%nat with false
        by (symmetry; apply Nat.ltb_ge; lia).
      rewrite andb_false_r. reflexivity.
Qed.

Lemma length_frame : length frame = n.
Proof. unfold frame, n. apply length_frame_of, Hwf. Qed.

Lemma decoder_step_last (b : Z) :
  frame !! (8 + length body)%nat = Some b ->
  decoder_step (decoder_within frame buffer e0 n (8 + length body)) b
  = (mk_decoder (frame ++ drop n buffer) 0 0 false,
     Some (frame_signal header body)).
Proof.
  intros Hb.
  unfold decoder_step, decoder_within.
  cbn [dec_in_frame dec_pos dec_buffer dec_expected_len negb].
  rewrite insert_within by (subst n; try exact Hb; lia).
  replace (Z.to_nat UR_CFG_CODEC_BUFFER_SIZE <=? 8 + length body)%nat
    with false by (symmetry; apply Nat.leb_gt; lia).
  change (S (8 + length body)) with n.
  replace (n =? 3)%nat with false
    by (symmetry; apply Nat.eqb_neq; subst n; lia).
  replace (8 + length body <? 3)%nat with false
    by (symmetry; apply Nat.ltb_ge; lia).
  cbn [andb].
  replace (UR_CODEC_HEADER_SIZE <=? n)%nat with true
    by (symmetry; apply Nat.leb_le; unfold UR_CODEC_HEADER_SIZE; subst n;
        lia).
  rewrite Nat.leb_refl. cbn [andb].
  assert (Tf : take n frame = frame)
    by (apply take_ge; rewrite length_frame; lia).
  rewrite Tf.
  assert (Tb : take n (frame ++ drop n buffer) = frame)
    by (rewrite take_app_le by (rewrite length_frame; lia); exact Tf).
  rewrite Tb.
  pose proof (decode_frame_of header body [] Hwf) as D.
  rewrite app_nil_r in D. fold frame in D. rewrite D.
  reflexivity.
Qed.

Lemma frame_lookup (k : nat) :
  (k < n)%nat -> exists b, frame !! k = Some b
                           /\ drop k frame = b :: drop (S k) frame.
Proof.
  intros Hk.
  destruct (lookup_lt_is_Some_2 frame k) as [b Hb];
    [rewrite length_frame; exact Hk|].
  exists b. split; [exact Hb|]. now apply drop_S.
Qed.

(** A part of the frame that does not complete it is stored, and the call
    ends with [UR_ERR_TIMEOUT]. *)
Lemma feed_within_part :
  forall j k,
    (1 <= k)%nat -> (k + j < n)%nat ->
    ur_codec_decoder_feed (decoder_within frame buffer e0 n k)
                          (take j (drop k frame))
    = (UR_ERR_TIMEOUT, decoder_within frame buffer e0 n (k + j), None).
Proof.
  induction j as [|j IH]; intros k Hk1 Hkn.
  - rewrite take_0, Nat.add_0_r. reflexivity.
  - destruct (frame_lookup k) as (b & Hb & Hd); [lia|].
    rewrite Hd. cbn [take ur_codec_decoder_feed].
    rewrite decoder_step_within by (try exact Hb; lia).
    rewrite IH by lia. do 2 f_equal. f_equal. lia.
Qed.

(** The rest of the frame completes it. *)
Lemma feed_within_rest (rest : list Z) :
  forall m k,
    (1 <= k)%nat -> (k + S m = n)%nat ->
    ur_codec_decoder_feed (decoder_within frame buffer e0 n k)
                          (drop k frame ++ rest)
    = (UR_OK, mk_decoder (frame ++ drop n buffer) 0 0 false,
       Some (frame_signal header body)).
Proof.
  induction m as [|m IH]; intros k Hk1 Hkn.
  - destruct (frame_lookup k) as (b & Hb & Hd); [lia|].
    rewrite Hd. cbn [app ur_codec_decoder_feed].
    assert (Ek : k = (8 + length body)%nat) by (subst n; lia).
    rewrite Ek in *. rewrite decoder_step_last by exact Hb. reflexivity.
  - destruct (frame_lookup k) as (b & Hb & Hd); [lia|].
    rewrite Hd. cbn [app ur_codec_decoder_feed].
    rewrite decoder_step_within by (try exact Hb; lia).
    apply IH; lia.
Qed.

End Frame.

Lemma feed_noise (d : ur_codec_decoder_t) (noise data : list Z) :
  dec_in_frame d = false -> no_sync noise ->
  ur_codec_decoder_feed d (noise ++ data) = ur_codec_decoder_feed d data.
Proof.
  intros Hd. induction 1 as [|b noise Hb _ IH]; [reflexivity|].
  cbn [app ur_codec_decoder_feed]. unfold decoder_step.
  apply Z.eqb_neq in Hb. rewrite Hd, Hb. cbn [negb]. exact IH.
Qed.

Lemma decoder_step_sync (d : ur_codec_decoder_t) (header body : list Z) :
  dec_in_frame d = false ->
  length (dec_buffer d) = Z.to_nat UR_CFG_CODEC_BUFFER_SIZE ->
  decoder_step d UR_CODEC_SYNC_BYTE
  = (decoder_within (frame_of header body) (dec_buffer d)
                    (dec_expected_len d) (9 + length body) 1, None).
Proof.
  intros Hd Hl. unfold decoder_step, decoder_within. rewrite Hd.
  cbn [negb]. rewrite Z.eqb_refl.
  destruct (dec_buffer d) as [|x buf]; [discriminate Hl|].
  reflexivity.
Qed.

(** X27.  The streaming decoder finds a frame in a chunk: fed, outside a
    frame, bytes other than the sync byte, then a well-formed frame that
    fits its buffer, then anything, [ur_codec_decoder_feed] returns [UR_OK]
    with the signal of the frame and is reset for the next frame.  The
    bytes behind the frame are not looked at. *)
Theorem decoder_feed_finds_frame
        (d : ur_codec_decoder_t) (noise header body rest : list Z) :
  dec_in_frame d = false ->
  length (dec_buffer d) = Z.to_nat UR_CFG_CODEC_BUFFER_SIZE ->
  no_sync noise ->
  frame_wf header body ->
  (9 + length body <= Z.to_nat UR_CFG_CODEC_BUFFER_SIZE)%nat ->
  ur_codec_decoder_feed d (noise ++ frame_of header body ++ rest)
  = (UR_OK,
     mk_decoder
       (frame_of header body ++ drop (9 + length body) (dec_buffer d))
       0 0 false,
     Some (frame_signal header body)).
Proof.
  intros Hd Hl Hn Hwf Hfits.
  rewrite feed_noise by assumption.
  change (frame_of header body ++ rest)
    with (UR_CODEC_SYNC_BYTE :: (drop 1 (frame_of header body) ++ rest)).
  cbn [ur_codec_decoder_feed].
  rewrite (decoder_step_sync d header body Hd Hl).
  apply (feed_within_rest header body (dec_buffer d) (dec_expected_len d)
                          Hwf Hfits Hl rest (7 + length body) 1); lia.
Qed.

Lemma decoder_feed_finds_frame_witness :
  ur_codec_decoder_feed
    ur_codec_decoder_init
    ([0x00; 0xFF]
       ++ frame_of [2; 0; 0x20; 0x01; 7; 0] [0xEF; 0xBE] ++ [0x55; 0x01])
  = (UR_OK,
     mk_decoder
       (frame_of [2; 0; 0x20; 0x01; 7; 0] [0xEF; 0xBE]
          ++ drop (9 + length [0xEF; 0xBE])
                  (dec_buffer ur_codec_decoder_init))
       0 0 false,
     Some (frame_signal [2; 0; 0x20; 0x01; 7; 0] [0xEF; 0xBE])).
Proof.
  apply (decoder_feed_finds_frame
           ur_codec_decoder_init [0x00; 0xFF] [2; 0; 0x20; 0x01; 7; 0]
           [0xEF; 0xBE] [0x55; 0x01]).
  - reflexivity.
  - reflexivity.
  - repeat constructor; discriminate.
  - unfold frame_wf. split; [reflexivity|].
    split; [repeat constructor; unfold is_byte; lia|].
    split; [repeat constructor; unfold is_byte; lia|reflexivity].
  - unfold UR_CFG_CODEC_BUFFER_SIZE. simpl. lia.
Defined.

(** X28.  The streaming decoder keeps a partial frame between calls: when
    a well-formed frame arrives cut in two chunks, the call with the first
    chunk returns [UR_ERR_TIMEOUT] and writes no signal, and the call with
    the second chunk, on the decoder the first one left, returns [UR_OK]
    with the signal of the frame. *)
Theorem decoder_feed_across_calls
        (d : ur_codec_decoder_t) (header body chunk1 chunk2 rest : list Z) :
  dec_in_frame d = false ->
  length (dec_buffer d) = Z.to_nat UR_CFG_CODEC_BUFFER_SIZE ->
  frame_wf header body ->
  (9 + length body <= Z.to_nat UR_CFG_CODEC_BUFFER_SIZE)%nat ->
  frame_of header body = chunk1 ++ chunk2 ->
  chunk1 <> [] -> chunk2 <> [] ->
  exists d1,
    ur_codec_decoder_feed d chunk1 = (UR_ERR_TIMEOUT, d1, None)
    /\ ur_codec_decoder_feed d1 (chunk2 ++ rest)
       = (UR_OK,
          mk_decoder
            (frame_of header body ++ drop (9 + length body) (dec_buffer d))
            0 0 false,
          Some (frame_signal header body)).
Proof.
  intros Hd Hl Hwf Hfits Hsplit Hc1 Hc2.
  set (frame := frame_of header body) in *.
  set (n := (9 + length body)%nat).
  assert (Hlen : length frame = n)
    by (unfold frame, n; apply length_frame_of, Hwf).
  set (k := length chunk1).
  assert (H1 : chunk1 = take k frame)
    by (rewrite Hsplit; unfold k; now rewrite take_app_length).
  assert (H2 : chunk2 = drop k frame)
    by (rewrite Hsplit; unfold k; now rewrite drop_app_length).
  assert (Hk1 : (1 <= k)%nat)
    by (unfold k; destruct chunk1; [congruence | simpl; lia]).
  assert (Hkn : (k < n)%nat).
  { rewrite <- Hlen, Hsplit, length_app. fold k.
    destruct chunk2; [congruence | simpl; lia]. }
  exists (decoder_within frame (dec_buffer d) (dec_expected_len d) n k).
  split.
  - rewrite H1.
    replace k with (S (k - 1)) at 1 by lia.
    change (take (S (k - 1)) frame)
      with (UR_CODEC_SYNC_BYTE :: take (k - 1) (drop 1 frame)).
    cbn [ur_codec_decoder_feed].
    rewrite (decoder_step_sync d header body Hd Hl).
    subst frame.
    rewrite (feed_within_part header body (dec_buffer d) (dec_expected_len d)
                              Hwf Hfits Hl (k - 1) 1) by (fold n; lia).
    replace (1 + (k - 1))%nat with k by lia. reflexivity.
  - rewrite H2.
    apply (feed_within_rest header body (dec_buffer d) (dec_expected_len d)
                            Hwf Hfits Hl rest (n - k - 1) k);
      [exact Hk1 | fold n; lia].
Qed.

Lemma decoder_feed_across_calls_witness :
  exists d1,
    ur_codec_decoder_feed ur_codec_decoder_init
                          [UR_CODEC_SYNC_BYTE; 2; 0; 0x20]
    = (UR_ERR_TIMEOUT, d1, None)
    /\ ur_codec_decoder_feed
         d1
         ([0x01; 7; 0; 0xEF; 0xBE;
           Z.land (ur_crc16 [2; 0; 0x20; 0x01; 7; 0; 0xEF; 0xBE]) 0xFF;
           Z.land (Z.shiftr
                     (ur_crc16 [2; 0; 0x20; 0x01; 7; 0; 0xEF; 0xBE]) 8)
                  0xFF] ++ [0x55])
       = (UR_OK,
          mk_decoder
            (frame_of [2; 0; 0x20; 0x01; 7; 0] [0xEF; 0xBE]
               ++ drop (9 + length [0xEF; 0xBE])
                       (dec_buffer ur_codec_decoder_init))
            0 0 false,
          Some (frame_signal [2; 0; 0x20; 0x01; 7; 0] [0xEF; 0xBE])).
Proof.
  apply (decoder_feed_across_calls
           ur_codec_decoder_init [2; 0; 0x20; 0x01; 7; 0] [0xEF; 0xBE]).
  - reflexivity.
  - reflexivity.
  - unfold frame_wf. split; [reflexivity|].
    split; [repeat constructor; unfold is_byte; lia|].
    split; [repeat constructor; unfold is_byte; lia|reflexivity].
  - unfold UR_CFG_CODEC_BUFFER_SIZE. simpl. lia.
  - reflexivity.
  - discriminate.
  - discriminate.
Defined.

End CodecStreams.

(** ** Parameter store: getters and batch commits *)

Section ParamAccess.
Import Core Bus Param.

Lemma set_impl_then_get (param_type : Z)
      (member_get : ur_param_value_t -> Z)
      (member_set : Z -> ur_param_value_t -> ur_param_value_t)
      (member_eqb : Z -> Z -> bool)
      (in_isr : bool) (now : Z) (w w' : world) (id v : Z) :
  (forall i e, param_entries (w_param w) !! i = Some e ->
               member_get (member_set v (entry_value e)) = v) ->
  PARAM_SET_IMPL param_type member_get member_set member_eqb
                 in_isr now w id v = (UR_OK, w') ->
  exists g, PARAM_GET_IMPL param_type member_get w' id = (UR_OK, Some g)
            /\ (g = v \/ member_eqb g v = true).
Proof.
  intros Hrt H. unfold PARAM_SET_IMPL in H.
  destruct (find_entry _ id) as [i|] eqn:Hf; [|discriminate].
  destruct (_ !! i) as [e|] eqn:Hl; [|discriminate].
  destruct (entry_def e) as [d|] eqn:Hd; [|discriminate].
  destruct (def_type d =? param_type) eqn:Ht; cbn [negb] in H;
    [|discriminate].
  destruct (has_flag _ _) eqn:Hr; [discriminate|].
  destruct (member_eqb _ _) eqn:He.
  - injection H as <-. exists (member_get (entry_value e)).
    split; [|right; exact He].
    unfold PARAM_GET_IMPL. now rewrite Hf, Hl, Hd, Ht.
  - exists v. split; [|left; reflexivity].
    destruct (commit_change_entries in_isr now w id i
                (mk_entry (Some d) (member_set v (entry_value e))
                          (entry_flags e)) d) as [fl Hes].
    rewrite H in Hes. cbn [snd entry_def entry_value] in Hes.
    assert (Hi : (i < length (param_entries (w_param w)))%nat)
      by (eapply lookup_lt_Some; eassumption).
    unfold PARAM_GET_IMPL.
    rewrite (find_entry_defs _ (param_entries (w_param w))), Hf.
    + rewrite Hes, list_lookup_insert_eq by exact Hi.
      cbn [entry_def entry_value]. rewrite Ht. cbn [negb].
      now rewrite (Hrt i e Hl).
    + rewrite Hes. apply (insert_keeps_defs _ i e); [exact Hl|].
      now rewrite Hd.
Qed.

(** X29.  A value set is the value read: after a setter of an integer or
    boolean parameter has returned [UR_OK] for a value of its C type, the
    getter of the same type returns [UR_OK] and that value, whether the
    setter stored it or found it already there. *)
Theorem param_set_then_get
        (in_isr : bool) (now : Z) (w w' : world) (id v : Z) :
  values_wf w ->
  (0 <= v < 2 ^ 8 -> ur_param_set_u8 in_isr now w id v = (UR_OK, w') ->
   ur_param_get_u8 w' id = (UR_OK, Some v))
  /\ (0 <= v < 2 ^ 16 -> ur_param_set_u16 in_isr now w id v = (UR_OK, w') ->
      ur_param_get_u16 w' id = (UR_OK, Some v))
  /\ (0 <= v < 2 ^ 32 -> ur_param_set_u32 in_isr now w id v = (UR_OK, w') ->
      ur_param_get_u32 w' id = (UR_OK, Some v))
  /\ (- 2 ^ 7 <= v < 2 ^ 7 ->
      ur_param_set_i8 in_isr now w id v = (UR_OK, w') ->
      ur_param_get_i8 w' id = (UR_OK, Some v))
  /\ (- 2 ^ 15 <= v < 2 ^ 15 ->
      ur_param_set_i16 in_isr now w id v = (UR_OK, w') ->
      ur_param_get_i16 w' id = (UR_OK, Some v))
  /\ (- 2 ^ 31 <= v < 2 ^ 31 ->
      ur_param_set_i32 in_isr now w id v = (UR_OK, w') ->
      ur_param_get_i32 w' id = (UR_OK, Some v))
  /\ (0 <= v <= 1 -> ur_param_set_bool in_isr now w id v = (UR_OK, w') ->
      ur_param_get_bool w' id = (UR_OK, Some v)).
Proof.
  intros Hwf.
  assert (Hu : forall (k : nat) pt, (k <= 4)%nat ->
             0 <= v < 2 ^ (8 * Z.of_nat k) ->
             PARAM_SET_IMPL pt (load_le k) (store_le k) Z.eqb
                            in_isr now w id v = (UR_OK, w') ->
             PARAM_GET_IMPL pt (load_le k) w' id = (UR_OK, Some v)).
  { intros k pt Hk Hv H.
    destruct (set_impl_then_get pt (load_le k) (store_le k) Z.eqb
                                in_isr now w w' id v) as (g & Hg & Hc).
    - intros i e Hl.
      pose proof (values_wf_lookup w i e Hwf Hl) as Hlen.
      rewrite load_store_le by lia. now rewrite Z.mod_small by exact Hv.
    - exact H.
    - destruct Hc as [-> | Hc]; [exact Hg|].
      apply Z.eqb_eq in Hc. now rewrite Hc in Hg. }
  assert (Hs : forall (k : nat) pt, (0 < k <= 4)%nat ->
             - 2 ^ (8 * Z.of_nat k - 1) <= v < 2 ^ (8 * Z.of_nat k - 1) ->
             PARAM_SET_IMPL pt (load_signed k) (store_le k) Z.eqb
                            in_isr now w id v = (UR_OK, w') ->
             PARAM_GET_IMPL pt (load_signed k) w' id = (UR_OK, Some v)).
  { intros k pt Hk Hv H.
    destruct (set_impl_then_get pt (load_signed k) (store_le k) Z.eqb
                                in_isr now w w' id v) as (g & Hg & Hc).
    - intros i e Hl.
      pose proof (values_wf_lookup w i e Hwf Hl) as Hlen.
      now rewrite load_signed_store_le by (try exact Hv; lia).
    - exact H.
    - destruct Hc as [-> | Hc]; [exact Hg|].
      apply Z.eqb_eq in Hc. now rewrite Hc in Hg. }
  repeat split.
  - intros Hv. apply (Hu 1%nat); [lia | exact Hv].
  - intros Hv. apply (Hu 2%nat); [lia | exact Hv].
  - intros Hv. apply (Hu 4%nat); [lia | exact Hv].
  - intros Hv. apply (Hs 1%nat); [lia | exact Hv].
  - intros Hv. apply (Hs 2%nat); [lia | exact Hv].
  - intros Hv. apply (Hs 4%nat); [lia | exact Hv].
  - intros Hv. apply (Hu 1%nat); [lia | simpl; lia].
Qed.

Lemma param_set_then_get_witness :
  ur_param_get_u8
    (snd (ur_param_set_u8 false 0 sample_world PARAM_VOLUME 42)) PARAM_VOLUME
  = (UR_OK, Some 42).
Proof.
  refine (proj1 (param_set_then_get false 0 sample_world _ PARAM_VOLUME 42 _)
                _ _).
  - repeat constructor.
  - simpl; lia.
  - reflexivity.
Defined.

(** *** Saving *)

Lemma has_flag_cleared (flags flag : Z) :
  has_flag (Z.ldiff flags flag) flag = false.
Proof.
  unfold has_flag. now rewrite land_ldiff_mask.
Qed.

(** One iteration of the loop of [ur_param_save_all] on the entry [e] at
    the position behind [pre]. *)
Lemma save_all_step_at
      (st : ur_param_storage_t)
      (save : Z -> Z -> ur_param_value_t -> Z -> ur_err_t)
      (batch : bool) (bus : g_bus_t) (reg : list (option ur_entity_t))
      (saved : list (Z * ur_param_value_t)) (notified : list ur_signal_t)
      (pre suf : list ur_param_entry_t) (e : ur_param_entry_t) (n : nat) :
  sto_save st = Some save ->
  entry_def e <> None ->
  exists n1 e1,
    save_all_step
      (Some (n, mk_world (mk_param (pre ++ e :: suf) (Some st) batch)
                         bus reg saved notified))
      (length pre)
    = Some (n1,
            mk_world (mk_param (pre ++ e1 :: suf) (Some st) batch) bus reg
                     (saved ++ (if needs_save e then [save_record e] else []))
                     notified)
    /\ entry_value e1 = entry_value e
    /\ entry_def e1 = entry_def e
    /\ ((forall key type value size, save key type value size = UR_OK) ->
        needs_save e1 = false).
Proof.
  intros Hsave Hdef.
  destruct (entry_def e) as [d|] eqn:Hd; [clear Hdef | congruence].
  unfold save_all_step. cbn [w_param param_entries].
  rewrite list_lookup_middle by reflexivity.
  unfold needs_save, save_record. rewrite Hd.
  destruct (has_flag (entry_flags e) UR_PARAM_FLAG_DIRTY) eqn:Hdirty;
    cbn [andb].
  - unfold save_entry. cbn [w_param param_storage].
    rewrite Hsave.
    destruct (has_flag (def_flags d) UR_PARAM_FLAG_PERSIST) eqn:Hp;
      cbn [negb].
    + destruct (ur_err_eqb (save (def_name d) (def_type d) (entry_value e)
                                 _) UR_OK) eqn:Herr.
      * eexists _, (mk_entry (Some d) (entry_value e)
                             (Z.ldiff (entry_flags e) UR_PARAM_FLAG_DIRTY)).
        unfold with_entry.
        cbn [w_param param_entries param_storage param_batch_mode w_bus
             w_registry w_saved w_notified entry_value entry_def
             entry_flags].
        rewrite Hd, insert_app_r_alt, Nat.sub_diag by lia.
        split; [reflexivity|]. split; [reflexivity|]. split; [reflexivity|].
        intros _. now rewrite has_flag_cleared.
      * eexists _, e. split; [reflexivity|].
        split; [reflexivity|]. split; [exact Hd|].
        intros Hok. rewrite Hok in Herr. discriminate.
    + eexists _, e. rewrite app_nil_r. split; [reflexivity|].
      split; [reflexivity|]. split; [exact Hd|].
      intros _. rewrite Hd, Hp. apply andb_false_r.
  - eexists _, e. rewrite app_nil_r. split; [reflexivity|].
    split; [reflexivity|]. split; [exact Hd|].
    intros _. now rewrite Hdirty.
Qed.

Lemma save_all_loop_spec
      (st : ur_param_storage_t)
      (save : Z -> Z -> ur_param_value_t -> Z -> ur_err_t)
      (batch : bool) (bus : g_bus_t) (reg : list (option ur_entity_t))
      (notified : list ur_signal_t) :
  sto_save st = Some save ->
  forall (suf pre : list ur_param_entry_t) (n : nat)
         (saved : list (Z * ur_param_value_t)),
    Forall (fun e => entry_def e <> None) suf ->
    exists n' suf',
      fold_left save_all_step (seq (length pre) (length suf))
                (Some (n, mk_world (mk_param (pre ++ suf) (Some st) batch)
                                   bus reg saved notified))
      = Some (n',
              mk_world (mk_param (pre ++ suf') (Some st) batch) bus reg
                       (saved ++ map save_record (List.filter needs_save suf))
                       notified)
      /\ entry_value <$> suf' = entry_value <$> suf
      /\ entry_def <$> suf' = entry_def <$> suf
      /\ ((forall key type value size, save key type value size = UR_OK) ->
          List.filter needs_save suf' = []).
Proof.
  intros Hsave.
  induction suf as [|e suf IH]; intros pre n saved Hdefs.
  - exists n, []. cbn [length seq fold_left filter map].
    rewrite !app_nil_r. repeat split; reflexivity.
  - apply Forall_cons in Hdefs as [Hd Hdefs].
    destruct (save_all_step_at st save batch bus reg saved notified pre suf
                               e n Hsave Hd)
      as (n1 & e1 & Hstep & Hv & Hdf & Hclean).
    cbn [length seq fold_left]. rewrite Hstep.
    destruct (IH (pre ++ [e1]) n1
                 (saved ++ (if needs_save e then [save_record e] else []))
                 Hdefs)
      as (n' & suf' & Hloop & Hvs & Hds & Hcs).
    rewrite length_app in Hloop. cbn [length] in Hloop.
    replace (length pre + 1)%nat with (S (length pre)) in Hloop by lia.
    rewrite <- !app_assoc in Hloop. cbn [app] in Hloop.
    exists n', (e1 :: suf'). rewrite Hloop.
    split.
    { do 3 f_equal. cbn [List.filter].
      destruct (needs_save e); cbn [map app]; reflexivity. }
    split; [cbn [fmap list_fmap]; now rewrite Hv, Hvs|].
    split; [cbn [fmap list_fmap]; now rewrite Hdf, Hds|].
    intros Hok. cbn [List.filter]. rewrite (Hclean Hok).
    exact (Hcs Hok).
Qed.

(** X30.  [ur_param_commit] ends batch mode and hands to the [save]
    callback exactly the entries that are dirty and declared persistent,
    once each and in table order, with their current values.  It changes
    no value and publishes nothing, and when the backend accepts every
    save, no entry is left to be saved by a later commit. *)
Theorem commit_saves_dirty_persistent
        (w : world) (st : ur_param_storage_t)
        (save : Z -> Z -> ur_param_value_t -> Z -> ur_err_t) :
  param_storage (w_param w) = Some st ->
  sto_save st = Some save ->
  defs_present w ->
  exists saved w',
    ur_param_commit w = Some (saved, w')
    /\ w_saved w'
       = w_saved w
           ++ map save_record
                  (List.filter needs_save (param_entries (w_param w)))
    /\ param_batch_mode (w_param w') = false
    /\ entry_value <$> param_entries (w_param w')
       = entry_value <$> param_entries (w_param w)
    /\ w_notified w' = w_notified w
    /\ ((forall key type value size, save key type value size = UR_OK) ->
        List.filter needs_save (param_entries (w_param w')) = []).
Proof.
  destruct w as [[entries sto batch] bus reg saved notified].
  cbn [w_param param_storage param_entries w_saved w_notified].
  intros -> Hsave Hdefs. unfold defs_present in Hdefs.
  cbn [w_param param_entries] in Hdefs.
  destruct (save_all_loop_spec st save false bus reg notified Hsave
                               entries [] O saved Hdefs)
    as (n' & suf' & Hloop & Hv & _ & Hclean).
  cbn [app length] in Hloop.
  exists n'. eexists.
  unfold ur_param_commit, ur_param_save_all, with_batch_mode.
  cbn [w_param param_storage param_entries w_bus w_registry w_saved
       w_notified].
  split; [exact Hloop|].
  cbn [w_param param_storage param_entries param_batch_mode w_saved
       w_notified].
  repeat split; auto.
Qed.

Lemma commit_saves_dirty_persistent_witness :
  exists saved w',
    ur_param_commit
      (snd (ur_param_set_u8 false 0 (ur_param_batch_begin sample_world)
                            PARAM_VOLUME 42))
    = Some (saved, w')
    /\ w_saved w'
       = w_saved (snd (ur_param_set_u8 false 0
                                       (ur_param_batch_begin sample_world)
                                       PARAM_VOLUME 42))
           ++ map save_record
                  (List.filter
                     needs_save
                     (param_entries
                        (w_param
                           (snd (ur_param_set_u8
                                   false 0
                                   (ur_param_batch_begin sample_world)
                                   PARAM_VOLUME 42)))))
    /\ param_batch_mode (w_param w') = false
    /\ entry_value <$> param_entries (w_param w')
       = entry_value
           <$> param_entries
                 (w_param (snd (ur_param_set_u8
                                  false 0 (ur_param_batch_begin sample_world)
                                  PARAM_VOLUME 42)))
    /\ w_notified w'
       = w_notified (snd (ur_param_set_u8
                            false 0 (ur_param_batch_begin sample_world)
                            PARAM_VOLUME 42))
    /\ ((forall (key type : Z) (value : ur_param_value_t) (size : Z),
            (fun _ _ _ _ => UR_OK) key type value size = UR_OK) ->
        List.filter needs_save (param_entries (w_param w')) = []).
Proof.
  apply (commit_saves_dirty_persistent
           (snd (ur_param_set_u8 false 0 (ur_param_batch_begin sample_world)
                                 PARAM_VOLUME 42))
           ur_param_storage_ram (fun _ _ _ _ => UR_OK)).
  - reflexivity.
  - reflexivity.
  - repeat constructor; discriminate.
Defined.

End ParamAccess.
